(* ===== verification/_CoqProject ===== *)
-Q . S2P
Prelude.v
NumQ.v
NumFloat.v
Polynomials.v
Table.v
Stepper.v
ODE.v
ODESystem.v
Quadrature.v
RootFind.v
Optimization.v
Romberg.v
QuadratureData.v
CurveFitting.v
Interpolation.v
TwoDIntegral.v
NewtonInterpolation.v
LinearAlgebra.v
GaussJordan.v
NormalEquations.v
PolynomialRegression.v
LeastSquares.v
ExponentialRegression.v
