(* ===== verification/Prelude.v ===== *)
(** * A verified model of the [numerics] library

    The repository is a collection of classical numerical routines written
    in Python: fixed-step ODE steppers ([src/ODE.py]), quadrature rules
    ([src/numerics/integration.py]), root finders ([src/rootfind.py]),
    one-dimensional optimisers ([src/optimization.py]) and curve fitting
    ([src/numerics/curveFitting.py], [src/numerics/tool.py]).  Every routine
    takes callbacks and numbers, runs a loop and returns numbers; the
    regression classes compute in their constructor and keep the sums as
    attributes; no other state survives a call.

    ** How the code is modelled

    - _Numbers._  The Python code is duck-typed over its numbers.  The model
      keeps that: every routine is written once, over the operations class
      [Num] of this file, with the source's literals and operator
      precedence.  Two instances are provided.  [NumQ] instantiates it with
      exact rationals ([Q], equality [==]): theorems about the algorithms
      are proved there, with [lra] and [field].  [NumFloat] instantiates it
      with the kernel's IEEE-754 binary64 numbers, which is what CPython
      computes with: the same definitions then run on the inputs of the
      docstrings.  Rounding is not reasoned about in general; where binary64
      and exact arithmetic part ways, the development shows it on concrete
      runs.
    - _Loops._  A [while] loop is a [Fixpoint] on a fuel argument.  Running
      out of fuel is the outcome [OutOfFuel], never a result of the program;
      termination theorems give the fuel that suffices, divergence theorems
      say that no fuel does.
    - _Errors._  A Python exception is the outcome [Raise e].  Division is
      Python's: a zero divisor raises [ZeroDivisionError] wherever the
      divisor is not a literal.
    - _Callbacks._  A callback is a total Rocq function; the spec assumes
      it pure.  Over [Q] a callback that respects [==] is a [Proper]
      morphism.
    - _Lists._  A Python list read or assigned by index is a [list] with
      [getitem] and [setitem], which raise [IndexError] out of range; a
      [for] loop is [for_each], which stops at the first exception.  Where
      the source assigns a list of its caller in place, the model returns
      the list as the call leaves it.
    - _Arrays._  A numpy array made by [np.empty] holds whatever the
      memory held: the model fills it from an arbitrary function and the
      theorems hold for every such function.  Operations of numpy that
      the sources only call ([np.linalg.inv], [np.log], [np.exp]) are
      parameters of the model, with the laws the theorems need stated
      as a class.  Division of numpy numbers does not raise.

    ** Files, and the code they model

    - [Prelude] (this file): the class [Num] and its notations, the laws
      [NumOrder] and [NumEq], outcomes with their monad, [getitem],
      [setitem], [getitem_int], [index], [pymax], [pymin], [for_each]
      and [for_break] with the rules of the loops ([for_each_ind],
      [for_each_preserves], [for_range_eq], [for_range0_eq],
      [for_range0_fold], [for_break_ind]), [range], [pydiv],
      [return_local], list lemmas, tactics, the hint database.
    - [NumQ]: the instance at [Q]; reflection of the boolean tests; the
      tactic [qnum] that exposes [Q]'s operations to [lra] and [field];
      the step count [nsteps] of a fixed-step loop; polynomials [peval]
      with their antiderivative [pint].
    - [NumFloat]: the instance at binary64, with the order law.
    - [Polynomials]: sum, multiple, product and quotient by a linear
      factor of polynomials over the rationals; a polynomial with at
      most [n] coefficients and [n] distinct roots is zero
      ([peval_roots_zero]), so two polynomials of degree below [n] that
      agree on [n] points are equal ([peval_unique]).
    - [Table]: numpy arrays of one and two dimensions as lists and lists
      of rows: [np_empty], [np_empty2], [np_empty1] with arbitrary
      initial content, [get2], [set2], the invariant [shape] that
      assignments keep, and the lemmas that compute on a table given by
      a formula.
    - [Stepper]: [ode_loop], the [while (xi + h <= xf)] loop that the seven
      scalar methods of [src/ODE.py] share, over any type of ordinates;
      its reference [trajectory]; termination for [h > 0] with the number
      of steps, divergence for [h <= 0], the dead clamp, where the run
      stops, invariants.
    - [ODE]: the stage formulas and the methods [Euler], [Heun],
      [Midpoint], [RK2], [RK3], [RK4], [RK5] of class [ODE]; [solve]
      dispatches on a [method] so that a theorem can speak of all seven
      ([solve mEuler] is [Euler] by definition, and so on).  Behaviour on
      the test equation [y' = lam y] (stability polynomial, order),
      exactness on polynomial right-hand sides, [Heun] and [Midpoint] as
      instances of [RK2], and runs of the docstring's example in exact
      arithmetic and in binary64.
    - [ODESystem]: [ODE.SystemEuler] and [ODE.SystemRK4], with the state
      and the argument vector assigned in place; refinement to [ode_loop]
      on vectors, the classical method on triangular systems, the loss of
      order on coupled ones.
    - [Quadrature]: [Trapezoid], [TrapezoidUnequalSegments],
      [SimpsonOneThird], [SimpsonThirdEight], [AdaptiveQuadrature] with
      [__qstep], [TwoPointGaussLegendre] of class
      [OneDIntegralwithFunction] in [src/numerics/integration.py];
      exactness on polynomials, the error of the trapezoid rule on
      parabolas, [SimpsonOneThird] as Richardson's extrapolation of
      [Trapezoid] on every integrand, the depth of the adaptive
      recursion, and what the rules with a wrong sign return.
    - [Romberg]: [Romberg] of the same class, and the code it shares
      with [OneDIntegralwithData.Romberg] as [Romberg_table]: the table
      [np.empty((maxIt, maxIt))] as a list of rows whose initial content
      is arbitrary, assigned in place by the two loops.  The loops are
      shown to compute Richardson's table [romberg_T], for every number
      instance and every initial content; over the rationals the
      second column of the table is [SimpsonOneThird], and [Romberg] is
      exact on cubics for [maxIt >= 2].
    - [QuadratureData]: the class [OneDIntegralwithData], its methods
      with the prefix [Data_]: [Data_Trapezoid],
      [Data_TrapezoidUnequalSegments], [Data_SimpsonOneThird],
      [Data_Romberg].  What they return: values that do not depend on
      the ordinates, a zero on constant data, and for [Data_Romberg] the
      value of [Data_Trapezoid].
    - [RootFind]: the class [RootFind] of [src/rootfind.py].  The object
      is an optional record of the attributes [func], [der], [err]
      ([None] before [setParams]); [BiSection], [NewtonRaphson], [Secant]
      and [Iteration] test the attributes and run their loops
      ([BiSection_loop] and the like), with the exceptions of the source
      and of the language as outcomes.  What a returned value satisfies,
      when each method raises, termination of [BiSection] on Lipschitz
      functions, of [NewtonRaphson] on [x^2 - a] and of [Iteration] on
      contractions in exact arithmetic, [Secant] on a straight line,
      the docstring's run in binary64, and a run of [BiSection] in
      binary64 that never ends.
    - [Optimization]: the class [OneD] of [src/optimization.py].
      [GoldenSection] with the fields it keeps on [self] ([fields]) and
      its local variables ([locals], [ea] unbound until assigned),
      [__GoldenCond] as [GoldenCond], [ParabolicInterpolation] on the
      list [args] with [index] and [getitem_int], and [Newton].  The
      [for] loops with [break] are [for_break]; they need no fuel.  The
      outcomes of [GoldenSection] on every input, the exception when the
      optimum is at zero, the run of the specification's example in
      binary64 against the method with [self.x2] assigned
      ([GoldenSection_ref]); [ParabolicInterpolation] on a parabola, with
      and without a guess above the vertex; [Newton] on a quadratic.

    - [TwoDIntegral]: [__TwoDIntegral.__Trapezoid] of
      [src/numerics/integration.py], the rows as the loop of
      [Trapezoid]; what it returns on bilinear functions (a mean value,
      and only for two rows of segments), and when it raises.
    - [CurveFitting]: the statistics of [src/numerics/tool.py]
      ([arithmaticMean], [variance], [standartDeviation],
      [coeffOfVariation]) and, of [src/numerics/curveFitting.py], the
      class [LinearRegression] (the object as the record [regression],
      [results], [standartErrorEstimate]).  [results] is shown to
      return the least-squares line and to recover a line from
      collinear data, [variance] to be the sample variance, and
      [standartErrorEstimate] to return the correlation coefficient.
    - [Interpolation]: the methods [LinearInterpolation] and
      [LinearSplines] of the class [Interpolation].  The walk over
      [reversed(x)] is [find] on [rev x], and the method that falls off
      its loop returns [None].  On abscissas that increase
      [LinearSplines] returns the value of the segment that holds the
      point, [None] at or below the first abscissa and [IndexError]
      above the last; [LinearInterpolation] is shown not to
      interpolate.
    - [NewtonInterpolation]: [Interpolation.NewtonPolynomialInterpolation]
      with its table [fdd] and its array [ea], both from [np.empty].
      The loops compute the divided differences and Newton's form
      ([divided_difference], [newton_from]) for every number instance;
      over the rationals the value returned passes through the data
      and, on the samples of a polynomial of degree below [order], is
      the value of that polynomial; the error estimate returned is an
      entry that is never assigned.
    - [LinearAlgebra]: [np.linalg.inv] as the class [LinAlg], its
      promise as the class [LinAlgLaws] (the result is an inverse on
      both sides), [np.matmul] as [matmul]; the instance over the
      rationals ([Gauss_Jordan], checked by [checked_inverse]); the
      finite sums [sum_to], a morphism for pointwise equality.
    - [GaussJordan]: the promise [LinAlgTotal] that [np.linalg.inv]
      returns on every non-singular matrix, and the proof that the
      elimination over the rationals keeps it: the invariant
      [table_invariant] of the table [L | R] ([L = R M], identity
      columns, [R] one-to-one) through the exchange of rows and the
      clearing of a column, and the pivot that a non-singular matrix
      has in every column.
    - [PolynomialRegression]: the classes [PolynomialRegression] and
      [MultipleLinearRegression]: the array of abscissas of one or two
      dimensions ([ndarray]), the loops of [__compute] that fill [_A]
      and [_B] ([sum_A], [sum_B], [entry_A], [row_AB]), the object
      ([polynomial]) whose attributes exist once [__compute] has run.
      The loops are shown to assign every entry with the sums of the
      normal equations, and to keep the shapes of the arrays.
    - [NormalEquations]: the least-squares problem over the rationals
      ([fit], [sse], [normal], [independent]): a solution of the normal
      equations minimises the sum of squares, and the matrix of the
      normal equations of independent regressors is non-singular.
    - [LeastSquares]: the theorems that tie the regressions to it, for
      every [inv] that keeps [LinAlgLaws] and [LinAlgTotal]: on
      independent regressors (for a polynomial, [order + 1] distinct
      abscissas) the constructor returns, and the coefficients solve
      the normal equations, minimise the sum of squares, are those of
      the polynomial that generated the data, and for [order = 1] are
      those of [LinearRegression]; on dependent regressors it raises
      the error of a singular matrix.  [MultipleLinearRegression] on
      two regressors is shown to return the least-squares plane.
    - [ExponentialRegression]: the class [ExponentialRegression], over
      [log] and [exp] as arguments; it is [LinearRegression] on the
      logarithms, and recovers the exponential that generated the data.

    ** Fuel and bounds

    The loop of the steppers needs fuel above [nsteps xi xf h], the floor
    of [(xf - xi) / h] ([Stepper.ode_solve_returns]); more fuel changes
    nothing.  The fuel of [qstep] is the depth of recursion; on an
    integrand bounded by [M] depth [d + 1] suffices when
    [2 M (u - l) < tol 2^d] ([Quadrature.qstep_terminates]).  The fuel
    of a root finder is the number of tests of its loop condition:
    [BiSection] on a function with Lipschitz constant [L] needs [d + 1]
    when [L |x1 - x0| < err 2^(d + 1)] ([RootFind.BiSection_terminates]),
    [NewtonRaphson] on [x^2 - a] from above the root needs [k + 2] when
    [x0^2 - a <= err 4^k] ([RootFind.NewtonRaphson_square_root]),
    [Iteration] on a contraction with factor [q] needs [k + 2] when
    [|f x0 - x0| q^k <= err] ([RootFind.Iteration_terminates]); the runs
    in binary64 are given fuel 100 and use less than 50.  Integer
    arguments ([n], indices) are unbounded, as Python's are.  Binary64 is
    the kernel's [PrimFloat]; integer literals convert exactly.

    ** Not modelled

    [print(x2)] in [BiSection] and the message that
    [PolynomialRegression.__init__] prints are output only and are left
    out.  Python integers are unbounded and their conversion to [float]
    is taken to succeed ([4**k] in [Romberg] overflows a float only from
    [k = 512]).  The square roots [3**0.5] and [pow(5,0.5)], and
    [np.log] and [np.exp] of [ExponentialRegression], are arguments of
    the model, since the rationals have none; the runs in binary64 pass
    the correctly rounded root.  [x**2] is modelled as [x * x] and
    [x ** k] as a product of [k] factors, which numpy may round
    differently in the last place.  [np.linalg.inv] is numpy's: the
    theorems on the regressions assume of it the laws of [LinAlgLaws]
    and [LinAlgTotal], which are proved of elimination over the
    rationals; numpy's own code (LAPACK, in binary64, where a matrix
    close to singular is inverted with a large error and no exception)
    is not modelled.  An array of integers, on which numpy computes in
    [int64] with wrap-around, and a ragged list of regressors, which
    [np.array] rejects or turns into an array of objects, are not
    modelled.  Rounding error is not bounded in general: statements over
    binary64 are about concrete runs and about the laws of the
    comparisons.

    Each file opens with its own summary. *)

From Stdlib Require Import ZArith List Bool Lia.
From Stdlib Require String.
Import ListNotations.

(** ** Numbers: the operations the source applies to its arguments *)

(** [num_of_Z] is an integer literal; [num_div] is Python's true division
    [/] on a divisor known to be non-zero (see [pydiv] for the guarded
    form); [num_ltb y x] is the test [x > y]. *)
Class Num (A : Type) : Type := {
  num_of_Z : Z -> A;
  num_add : A -> A -> A;
  num_sub : A -> A -> A;
  num_mul : A -> A -> A;
  num_div : A -> A -> A;
  num_opp : A -> A;
  num_abs : A -> A;
  num_leb : A -> A -> bool;
  num_ltb : A -> A -> bool;
  num_eqb : A -> A -> bool
}.

Declare Scope num_scope.
Delimit Scope num_scope with num.

Notation "x + y" := (num_add x y) : num_scope.
Notation "x - y" := (num_sub x y) : num_scope.
Notation "x * y" := (num_mul x y) : num_scope.
Notation "x / y" := (num_div x y) : num_scope.
Notation "- x" := (num_opp x) : num_scope.
Notation "x <=? y" := (num_leb x y) : num_scope.
Notation "x <? y" := (num_ltb x y) : num_scope.
Notation "x >? y" := (num_ltb y x) (at level 70) : num_scope.
Notation "x =? y" := (num_eqb x y) : num_scope.

(** The integer literals of the source. *)
Notation "0" := (num_of_Z 0%Z) : num_scope.
Notation "1" := (num_of_Z 1%Z) : num_scope.
Notation "2" := (num_of_Z 2%Z) : num_scope.
Notation "3" := (num_of_Z 3%Z) : num_scope.
Notation "4" := (num_of_Z 4%Z) : num_scope.
Notation "6" := (num_of_Z 6%Z) : num_scope.
Notation "7" := (num_of_Z 7%Z) : num_scope.
Notation "8" := (num_of_Z 8%Z) : num_scope.
Notation "9" := (num_of_Z 9%Z) : num_scope.
Notation "12" := (num_of_Z 12%Z) : num_scope.
Notation "15" := (num_of_Z 15%Z) : num_scope.
Notation "16" := (num_of_Z 16%Z) : num_scope.
Notation "32" := (num_of_Z 32%Z) : num_scope.
Notation "90" := (num_of_Z 90%Z) : num_scope.
Notation "100" := (num_of_Z 100%Z) : num_scope.

(** The one law the steppers need of an order: a test [a <= b] that
    succeeds makes the test [a > b] fail.  Both instances satisfy it. *)
Class NumOrder (A : Type) `{Num A} : Prop := {
  num_leb_gtb : forall a b : A, num_leb a b = true -> num_ltb b a = false
}.

(** The law that [list.index] needs: a number that compares above another
    is equal to itself (in binary64, it is not a NaN). *)
Class NumEq (A : Type) `{Num A} : Prop := {
  num_gtb_eqb : forall a b : A, num_ltb b a = true -> num_eqb a a = true
}.

(** ** Outcomes: return, exception, or fuel exhausted *)

Inductive exn : Type :=
| ZeroDivisionError
| IndexError
| UnboundLocalError
| AttributeError
| ValueError
| Exception (msg : String.string).

Inductive outcome (A : Type) : Type :=
| Ret (a : A)
| Raise (e : exn)
| OutOfFuel.

Arguments Ret {A} a.
Arguments Raise {A} e.
Arguments OutOfFuel {A}.

Definition bind {A B : Type} (c : outcome A) (k : A -> outcome B) : outcome B :=
  match c with
  | Ret a => k a
  | Raise e => Raise e
  | OutOfFuel => OutOfFuel
  end.

Declare Scope outcome_scope.
Delimit Scope outcome_scope with outcome.
Notation "x <- c ;; k" := (bind c (fun x => k))
  (at level 61, c at next level, right associativity) : outcome_scope.
Notation "' p <- c ;; k" := (bind c (fun x => match x with p => k end))
  (at level 61, p pattern, c at next level, right associativity) : outcome_scope.

Definition omap {A B : Type} (f : A -> B) (c : outcome A) : outcome B :=
  bind c (fun a => Ret (f a)).

(** A lookup that raises [IndexError] out of range, as [l[i]] does for a
    non-negative index. *)
Definition getitem {A : Type} (l : list A) (i : nat) : outcome A :=
  match nth_error l i with
  | Some a => Ret a
  | None => Raise IndexError
  end.

(** The assignment [l[i] = v]: [IndexError] out of range. *)
Fixpoint setitem {A : Type} (l : list A) (i : nat) (v : A) : outcome (list A) :=
  match l, i with
  | [], _ => Raise IndexError
  | _ :: l', O => Ret (v :: l')
  | a :: l', S i' => omap (cons a) (setitem l' i' v)
  end.

(** The loop [for i in l: <body>] over a state [s]: the body runs on each
    index in turn and the first exception ends the loop. *)
Fixpoint for_each {I S : Type} (l : list I) (body : I -> S -> outcome S) (s : S)
  : outcome S :=
  match l with
  | [] => Ret s
  | i :: l => bind (body i s) (for_each l body)
  end.

(** The loop [for i in l: <body>] whose body may [break]: the body
    returns [true] to leave the loop. *)
Fixpoint for_break {I S : Type} (l : list I) (body : I -> S -> outcome (bool * S)) (s : S)
  : outcome S :=
  match l with
  | [] => Ret s
  | i :: l =>
      bind (body i s) (fun r => if fst r then Ret (snd r) else for_break l body (snd r))
  end.

(** [l[i]] for a Python integer [i]: a negative index counts from the
    end. *)
Definition getitem_int {A : Type} (l : list A) (i : Z) : outcome A :=
  let i := if (i <? 0)%Z then (i + Z.of_nat (length l))%Z else i in
  if (i <? 0)%Z then Raise IndexError else getitem l (Z.to_nat i).

(** Reading a local variable: [UnboundLocalError] while it is unbound
    ([None]). *)
Definition return_local {A : Type} (x : option A) : outcome A :=
  match x with
  | Some x => Ret x
  | None => Raise UnboundLocalError
  end.

(** Guarded division: Python raises on a zero divisor, integer or float. *)
Definition pydiv {A : Type} `{Num A} (a b : A) : outcome A :=
  if num_eqb b (num_of_Z 0) then Raise ZeroDivisionError else Ret (num_div a b).

(** [l.index(x)]: the first position that holds a value equal to [x],
    [ValueError] if there is none. *)
Fixpoint index {A : Type} `{Num A} (x : A) (l : list A) : outcome nat :=
  match l with
  | [] => Raise ValueError
  | y :: l => if num_eqb y x then Ret O else omap S (index x l)
  end.

(** [max(l)] and [min(l)]: the first greatest and the first least
    entry, [ValueError] on an empty list. *)
Definition pymax {A : Type} `{Num A} (l : list A) : outcome A :=
  match l with
  | [] => Raise ValueError
  | a :: l => Ret (fold_left (fun m x => if num_ltb m x then x else m) l a)
  end.

Definition pymin {A : Type} `{Num A} (l : list A) : outcome A :=
  match l with
  | [] => Raise ValueError
  | a :: l => Ret (fold_left (fun m x => if num_ltb x m then x else m) l a)
  end.

(** [range(a, b)] over Python integers. *)
Definition range (a b : Z) : list Z :=
  map (fun i => (a + Z.of_nat i)%Z) (seq 0 (Z.to_nat (b - a))).

(** Lifting a relation on values to outcomes. *)
Inductive outcome_rel {A B : Type} (R : A -> B -> Prop) : outcome A -> outcome B -> Prop :=
| rel_Ret a b : R a b -> outcome_rel R (Ret a) (Ret b)
| rel_Raise e : outcome_rel R (Raise e) (Raise e)
| rel_OutOfFuel : outcome_rel R OutOfFuel OutOfFuel.

(** ** Tactics and hints *)

Create HintDb numerics.
Create Rewrite HintDb numerics.

#[export] Hint Constructors outcome_rel : numerics.

Ltac inv H := inversion H; subst; clear H.

(** Case analysis on the boolean test or the match the goal is stuck on. *)
Ltac case_test :=
  match goal with
  | |- context [if ?b then _ else _] => destruct b eqn:?
  | |- context [match ?c with Ret _ => _ | Raise _ => _ | OutOfFuel => _ end] =>
      destruct c eqn:?
  end.

(** ** The outcome monad *)

Section Monad.
Context {A B C : Type}.

Lemma bind_Ret_l (a : A) (k : A -> outcome B) : bind (Ret a) k = k a.
Proof. reflexivity. Qed.

Lemma bind_Ret_r (c : outcome A) : bind c Ret = c.
Proof. destruct c; reflexivity. Qed.

Lemma bind_assoc (c : outcome A) (k : A -> outcome B) (k' : B -> outcome C) :
  bind (bind c k) k' = bind c (fun a => bind (k a) k').
Proof. destruct c; reflexivity. Qed.

Lemma bind_Ret_inv (c : outcome A) (k : A -> outcome B) (b : B) :
  bind c k = Ret b -> exists a, c = Ret a /\ k a = Ret b.
Proof. destruct c; simpl; intros E; try discriminate; eauto. Qed.

Lemma omap_Ret_inv (f : A -> B) (c : outcome A) (b : B) :
  omap f c = Ret b -> exists a, c = Ret a /\ b = f a.
Proof.
  intros E. apply bind_Ret_inv in E as (a & -> & E). inv E. eauto.
Qed.

Lemma omap_omap (f : A -> B) (g : B -> C) (c : outcome A) :
  omap g (omap f c) = omap (fun a => g (f a)) c.
Proof. destruct c; reflexivity. Qed.

Lemma omap_ext (f f' : A -> B) (c : outcome A) :
  (forall a, f a = f' a) -> omap f c = omap f' c.
Proof. intros E. destruct c; simpl; [now rewrite E | reflexivity | reflexivity]. Qed.

Lemma bind_ext (c : outcome A) (k k' : A -> outcome B) :
  (forall a, k a = k' a) -> bind c k = bind c k'.
Proof. intros E. destruct c; simpl; auto. Qed.

End Monad.

#[export] Hint Rewrite @bind_Ret_l @bind_Ret_r @bind_assoc : numerics.

Section OutcomeRel.
Context {A : Type} (R : A -> A -> Prop).

Lemma outcome_rel_refl : (forall a, R a a) -> forall c, outcome_rel R c c.
Proof. intros HR []; auto with numerics. Qed.

Lemma outcome_rel_sym :
  (forall a b, R a b -> R b a) -> forall c d, outcome_rel R c d -> outcome_rel R d c.
Proof. intros HR c d H. destruct H; auto with numerics. Qed.

Lemma outcome_rel_trans :
  (forall a b c, R a b -> R b c -> R a c) ->
  forall c d e, outcome_rel R c d -> outcome_rel R d e -> outcome_rel R c e.
Proof. intros HR c d e H1 H2. destruct H1; inv H2; eauto with numerics. Qed.

End OutcomeRel.

(** ** Lists: arrays grown with [append] and read by index *)

Section Lists.
Context {A : Type}.

Lemma getitem_Ret (l : list A) (i : nat) (a : A) :
  getitem l i = Ret a <-> nth_error l i = Some a.
Proof. unfold getitem. destruct (nth_error l i); split; congruence. Qed.

Lemma getitem_lt (l : list A) (i : nat) :
  i < length l -> exists a, getitem l i = Ret a.
Proof.
  intros Hi. unfold getitem.
  destruct (nth_error l i) eqn:E; eauto.
  apply nth_error_None in E. lia.
Qed.

Lemma getitem_ge (l : list A) (i : nat) :
  length l <= i -> getitem l i = Raise IndexError.
Proof. intros Hi. unfold getitem. now rewrite (proj2 (nth_error_None l i) Hi). Qed.

Lemma getitem_app_l (l l' : list A) (i : nat) :
  i < length l -> getitem (l ++ l') i = getitem l i.
Proof. intros Hi. unfold getitem. now rewrite nth_error_app1. Qed.

Lemma last_snoc (l : list A) (a d : A) : last (l ++ [a]) d = a.
Proof. apply last_last. Qed.

Lemma last_cons_default (l : list A) (a d : A) : last (a :: l) d = last l a.
Proof.
  revert a d. induction l as [|b l IH]; intros a d; [reflexivity|].
  change (last (a :: b :: l) d) with (last (b :: l) d). now rewrite !IH.
Qed.

Lemma last_app_cons (l l' : list A) (a d : A) : last (l ++ a :: l') d = last (a :: l') d.
Proof.
  induction l as [|b l IH]; [reflexivity|].
  simpl app. rewrite <- IH. simpl. destruct (l ++ a :: l') eqn:E; [|reflexivity].
  now destruct l.
Qed.

Lemma setitem_length (l l' : list A) (i : nat) (v : A) :
  setitem l i v = Ret l' -> length l' = length l.
Proof.
  revert i l'. induction l as [|a l IH]; intros [|i] l' E; simpl in E; try discriminate.
  - now inv E.
  - apply omap_Ret_inv in E as (l0 & E & ->). simpl. f_equal. eauto.
Qed.

Lemma setitem_lt (l : list A) (i : nat) (v : A) :
  i < length l -> exists l', setitem l i v = Ret l'.
Proof.
  revert i. induction l as [|a l IH]; intros [|i] Hi; simpl in *; try lia; eauto.
  destruct (IH i) as (l' & ->); [lia|]. simpl. eauto.
Qed.

Lemma setitem_nth_eq (l l' : list A) (i : nat) (v : A) :
  setitem l i v = Ret l' -> nth_error l' i = Some v.
Proof.
  revert i l'. induction l as [|a l IH]; intros [|i] l' E; simpl in E; try discriminate.
  - now inv E.
  - apply omap_Ret_inv in E as (l0 & E & ->). simpl. eauto.
Qed.

Lemma setitem_nth_ne (l l' : list A) (i j : nat) (v : A) :
  setitem l i v = Ret l' -> i <> j -> nth_error l' j = nth_error l j.
Proof.
  revert i j l'. induction l as [|a l IH]; intros [|i] [|j] l' E Hij; simpl in E;
    try discriminate; try congruence.
  - now inv E.
  - apply omap_Ret_inv in E as (l0 & E & ->). reflexivity.
  - apply omap_Ret_inv in E as (l0 & E & ->). simpl. eauto.
Qed.

Lemma setitem_Ret (l : list A) (i : nat) (v : A) :
  i < length l -> setitem l i v = Ret (firstn i l ++ v :: skipn (S i) l).
Proof.
  revert i. induction l as [|a l IH]; intros [|i] Hi; simpl in *; try lia; auto.
  rewrite IH by lia. reflexivity.
Qed.

Lemma setitem_ge (l : list A) (i : nat) (v : A) :
  length l <= i -> setitem l i v = Raise IndexError.
Proof.
  revert i. induction l as [|a l IH]; intros [|i] Hi; simpl in *; try lia; auto.
  rewrite IH by lia. reflexivity.
Qed.

Lemma getitem_nth (l : list A) (i : nat) (d : A) :
  i < length l -> getitem l i = Ret (nth i l d).
Proof. intros Hi. unfold getitem. now rewrite (nth_error_nth' l d Hi). Qed.

Lemma firstn_snoc_nth (l : list A) (i : nat) (d : A) :
  i < length l -> firstn i l ++ [nth i l d] = firstn (S i) l.
Proof.
  revert i. induction l as [|a l IH]; intros [|i] Hi; simpl in *; try lia; auto.
  now rewrite IH by lia.
Qed.

(** A list assigned entry by entry: after [i] assignments it is the new
    list up to [i] and the old one from there. *)
Definition splice (i : nat) (new old : list A) : list A := firstn i new ++ skipn i old.

Lemma splice_0 (new old : list A) : splice 0 new old = old.
Proof. reflexivity. Qed.

Lemma splice_all (new old : list A) :
  length new = length old -> splice (length new) new old = new.
Proof.
  intros E. unfold splice. rewrite firstn_all, E, skipn_all. apply app_nil_r.
Qed.

Lemma splice_length (i : nat) (new old : list A) :
  length new = length old -> length (splice i new old) = length old.
Proof.
  intros E. unfold splice. rewrite length_app, length_firstn, length_skipn. lia.
Qed.

Lemma getitem_splice (i : nat) (new old : list A) (d : A) :
  i < length old -> length new = length old ->
  getitem (splice i new old) i = Ret (nth i old d).
Proof.
  revert new old. induction i as [|i IH]; intros [|a new] [|b old] Hi E; simpl in *;
    try lia; auto.
  apply (IH new old); lia.
Qed.

Lemma setitem_splice (i : nat) (new old : list A) (d : A) :
  i < length old -> length new = length old ->
  setitem (splice i new old) i (nth i new d) = Ret (splice (S i) new old).
Proof.
  revert new old. induction i as [|i IH]; intros [|a new] [|b old] Hi E; simpl in *;
    try lia; auto.
  unfold splice in *. simpl. rewrite (IH new old) by lia. reflexivity.
Qed.

End Lists.

(** ** Lists given by a formula in the index *)

Definition tabulate {A : Type} (f : nat -> A) (n : nat) : list A := map f (seq 0 n).

Definition zip_with {A B C : Type} (f : A -> B -> C) (l : list A) (l' : list B) : list C :=
  map (fun p => f (fst p) (snd p)) (combine l l').

Section Tabulate.
Context {A : Type}.

Lemma tabulate_length (f : nat -> A) (n : nat) : length (tabulate f n) = n.
Proof. unfold tabulate. now rewrite length_map, length_seq. Qed.

Lemma tabulate_nth (f : nat -> A) (n i : nat) (d : A) :
  i < n -> nth i (tabulate f n) d = f i.
Proof.
  intros Hi. unfold tabulate.
  rewrite (nth_indep _ d (f 0)) by now rewrite length_map, length_seq.
  now rewrite map_nth, seq_nth.
Qed.

Lemma tabulate_S (f : nat -> A) (n : nat) : tabulate f (S n) = tabulate f n ++ [f n].
Proof. unfold tabulate. now rewrite seq_S, map_app. Qed.

Lemma tabulate_ext (f g : nat -> A) (n : nat) :
  (forall i, i < n -> f i = g i) -> tabulate f n = tabulate g n.
Proof.
  intros E. unfold tabulate. apply map_ext_in. intros i Hi. apply in_seq in Hi. apply E. lia.
Qed.

Lemma tabulate_nth_id (l : list A) (d : A) : tabulate (fun i => nth i l d) (length l) = l.
Proof.
  induction l as [|a l IH]; [reflexivity|].
  unfold tabulate in *. simpl. f_equal. now rewrite <- seq_shift, map_map.
Qed.

Lemma firstn_tabulate (f : nat -> A) (n i : nat) :
  i <= n -> firstn i (tabulate f n) = tabulate f i.
Proof.
  intros Hi. unfold tabulate. rewrite firstn_map. f_equal.
  replace n with (i + (n - i)) by lia. rewrite seq_app, firstn_app, length_seq.
  rewrite Nat.sub_diag, firstn_O, app_nil_r. apply firstn_all2. now rewrite length_seq.
Qed.

End Tabulate.

Lemma map_tabulate {A B : Type} (g : A -> B) (l : list A) (d : A) :
  map g l = tabulate (fun i => g (nth i l d)) (length l).
Proof.
  rewrite <- (tabulate_nth_id l d) at 1. unfold tabulate. now rewrite map_map.
Qed.

Lemma zip_with_tabulate {A B C : Type} (f : A -> B -> C) (l : list A) (l' : list B)
    (d : A) (d' : B) :
  length l = length l' ->
  zip_with f l l' = tabulate (fun i => f (nth i l d) (nth i l' d')) (length l).
Proof.
  intros E. unfold zip_with. rewrite (map_tabulate _ _ (d, d')).
  rewrite length_combine, <- E, Nat.min_id. apply tabulate_ext. intros i Hi.
  now rewrite combine_nth.
Qed.

Lemma zip_with_length {A B C : Type} (f : A -> B -> C) (l : list A) (l' : list B) :
  length l = length l' -> length (zip_with f l l') = length l.
Proof. intros E. unfold zip_with. rewrite length_map, length_combine. lia. Qed.

#[export] Hint Rewrite @tabulate_length : numerics.

(** ** [for] loops *)

Section ForEach.
Context {I S : Type}.
Implicit Types (body : I -> S -> outcome S) (s : S).

Lemma for_each_app (l l' : list I) body s :
  for_each (l ++ l') body s = bind (for_each l body s) (for_each l' body).
Proof.
  revert s. induction l as [|i l IH]; intros; simpl; [reflexivity|].
  rewrite bind_assoc. apply bind_ext. exact IH.
Qed.

(** A loop whose first iteration raises raises. *)
Lemma for_each_Raise (i : I) (l : list I) body s (e : exn) :
  body i s = Raise e -> for_each (i :: l) body s = Raise e.
Proof. intros E. simpl. now rewrite E. Qed.

(** The rule of the loop, for partial correctness: a property that each
    iteration that returns keeps holds of the state the loop returns. *)
Lemma for_each_preserves (P : S -> Prop) (l : list I) body s s' :
  (forall i s s', P s -> body i s = Ret s' -> P s') ->
  P s -> for_each l body s = Ret s' -> P s'.
Proof.
  intros Hstep. revert s. induction l as [|i l IH]; intros s Hs E; simpl in E.
  - now injection E as <-.
  - destruct (body i s) as [s1| |] eqn:E1; try discriminate. eauto.
Qed.

(** The rule of the loop, for total correctness: an invariant indexed by
    the iterations done, that each iteration re-establishes without
    raising, holds of the state the loop returns. *)
Lemma for_each_ind (P : list I -> S -> Prop) (l : list I) body s :
  P [] s ->
  (forall done i rest s, l = done ++ i :: rest -> P done s ->
     exists s', body i s = Ret s' /\ P (done ++ [i]) s') ->
  exists s', for_each l body s = Ret s' /\ P l s'.
Proof.
  intros H0 Hstep.
  assert (forall rest done s, l = done ++ rest -> P done s ->
            exists s', for_each rest body s = Ret s' /\ P l s') as G.
  { induction rest as [|i rest IH]; intros done s0 El Hs.
    - rewrite app_nil_r in El. subst. simpl. eauto.
    - destruct (Hstep done i rest s0 El Hs) as (s1 & E1 & H1).
      simpl. rewrite E1. simpl. apply (IH (done ++ [i])); [|exact H1].
      now rewrite <- app_assoc. }
  now apply (G l []).
Qed.

End ForEach.

(** Loops with [break]. *)
Section ForBreak.
Context {I S : Type}.
Implicit Types (body : I -> S -> outcome (bool * S)) (s : S).

(** An invariant that each iteration re-establishes without raising
    holds of the state the loop returns, left by [break] or not. *)
Lemma for_break_ind (P : S -> Prop) (l : list I) body s :
  P s ->
  (forall i s, P s -> exists b s', body i s = Ret (b, s') /\ P s') ->
  exists s', for_break l body s = Ret s' /\ P s'.
Proof.
  intros H0 Hstep. revert s H0. induction l as [|i l IH]; intros s Hs; simpl; [eauto|].
  destruct (Hstep i s Hs) as (b & s' & E & Hs'). rewrite E. simpl.
  destruct b; eauto.
Qed.

(** Iterations that leave the state as it is leave it so at the end. *)
Lemma for_break_fixed (l : list I) body s :
  (forall i, exists b, body i s = Ret (b, s)) -> for_break l body s = Ret s.
Proof.
  intros E. induction l as [|i l IH]; simpl; [reflexivity|].
  destruct (E i) as [b ->]. simpl. now destruct b.
Qed.

(** A loop with [break] that takes at least one iteration. *)
Lemma for_break_cons (i : I) (l : list I) body s :
  for_break (i :: l) body s =
  bind (body i s) (fun r => if fst r then Ret (snd r) else for_break l body (snd r)).
Proof. reflexivity. Qed.

End ForBreak.

(** The rule for [for i in range(n)], the invariant indexed by [i]. *)
Lemma for_range_ind {S : Type} (P : nat -> S -> Prop) (n : nat)
    (body : nat -> S -> outcome S) (s : S) :
  P 0 s ->
  (forall i s, i < n -> P i s -> exists s', body i s = Ret s' /\ P (Datatypes.S i) s') ->
  exists s', for_each (seq 0 n) body s = Ret s' /\ P n s'.
Proof.
  intros H0 Hstep.
  destruct (for_each_ind (fun done s => P (length done) s) (seq 0 n) body s H0) as (s' & E & Hs).
  - intros done i rest s0 El Hs.
    assert (length done = i /\ i < n) as [Ei Hi].
    { assert (nth (length done) (seq 0 n) 0 = i) as Hn by (rewrite El; apply nth_middle).
      assert (length done < n) as Hlt.
      { pose proof (length_seq n 0) as Hl. rewrite El, length_app in Hl. simpl in Hl. lia. }
      rewrite seq_nth in Hn by exact Hlt. simpl in Hn. lia. }
    rewrite Ei in Hs. destruct (Hstep i s0 Hi Hs) as (s1 & E1 & H1).
    exists s1. split; [exact E1|]. rewrite length_app, Ei. simpl.
    now replace (i + 1) with (Datatypes.S i) by lia.
  - exists s'. split; [exact E|]. now rewrite length_seq in Hs.
Qed.

(** The same for a state that is a formula [F i] in the iterations done. *)
Lemma for_range_eq {S : Type} (F : nat -> S) (n : nat) (body : nat -> S -> outcome S) :
  (forall i, i < n -> body i (F i) = Ret (F (Datatypes.S i))) ->
  for_each (seq 0 n) body (F 0) = Ret (F n).
Proof.
  intros Hstep.
  destruct (for_range_ind (fun i s => s = F i) n body (F 0) eq_refl) as (s' & E & ->);
    [|exact E].
  intros i s Hi ->. eauto.
Qed.

(** A loop over [range(n)] whose body raises at index [m < n], after [m]
    iterations that follow the formula [F], raises. *)
Lemma for_range_Raise {S : Type} (F : nat -> S) (n m : nat) (body : nat -> S -> outcome S)
    (e : exn) :
  m < n -> (forall i, i < m -> body i (F i) = Ret (F (Datatypes.S i))) ->
  body m (F m) = Raise e ->
  for_each (seq 0 n) body (F 0) = Raise e.
Proof.
  intros Hm Hstep E. replace n with (m + Datatypes.S (n - Datatypes.S m)) by lia.
  rewrite seq_app, for_each_app, (for_range_eq F m body Hstep). simpl. now rewrite E.
Qed.

Lemma for_each_map {I J S : Type} (g : I -> J) (l : list I) (body : J -> S -> outcome S)
    (s : S) :
  for_each (map g l) body s = for_each l (fun i => body (g i)) s.
Proof.
  revert s. induction l as [|i l IH]; intros; simpl; [reflexivity|].
  apply bind_ext. exact IH.
Qed.

(** The rule for [for i in range(1, n)]: after [k] iterations the index
    is [k + 1]. *)
Lemma for_range1_eq {S : Type} (F : nat -> S) (n : Z) (body : Z -> S -> outcome S) :
  (forall k, (Z.of_nat k < n - 1)%Z ->
     body (Z.of_nat (Datatypes.S k)) (F k) = Ret (F (Datatypes.S k))) ->
  for_each (range 1 n) body (F 0) = Ret (F (Z.to_nat (n - 1))).
Proof.
  intros Hstep. unfold range. rewrite for_each_map. apply for_range_eq.
  intros k Hk. rewrite <- Hstep by lia. f_equal. lia.
Qed.

(** The rule for [for i in range(n)] over Python integers. *)
Lemma for_range0_eq {S : Type} (F : nat -> S) (n : Z) (body : Z -> S -> outcome S) :
  (forall k, (Z.of_nat k < n)%Z ->
     body (Z.of_nat k) (F k) = Ret (F (Datatypes.S k))) ->
  for_each (range 0 n) body (F 0) = Ret (F (Z.to_nat n)).
Proof.
  intros Hstep. unfold range. rewrite for_each_map, Z.sub_0_r. apply for_range_eq.
  intros k Hk. rewrite <- Hstep by lia. f_equal.
Qed.

(** A loop over [range(n)] whose body is a function of the state and
    the index is a fold. *)
Lemma for_range0_fold {S : Type} (f : S -> nat -> S) (n : nat) (body : Z -> S -> outcome S)
    (s : S) :
  (forall l s, l < n -> body (Z.of_nat l) s = Ret (f s l)) ->
  for_each (range 0 (Z.of_nat n)) body s = Ret (fold_left f (seq 0 n) s).
Proof.
  intros Hbody.
  rewrite (for_range0_eq (fun k => fold_left f (seq 0 k) s)); [now rewrite Nat2Z.id|].
  intros k Hk. rewrite seq_S, fold_left_app. apply Hbody. lia.
Qed.

(** A loop over [range(n)] whose body raises at index [m < n]. *)
Lemma for_range0_Raise {S : Type} (F : nat -> S) (n : Z) (m : nat)
    (body : Z -> S -> outcome S) (e : exn) :
  (Z.of_nat m < n)%Z ->
  (forall k, k < m -> body (Z.of_nat k) (F k) = Ret (F (Datatypes.S k))) ->
  body (Z.of_nat m) (F m) = Raise e ->
  for_each (range 0 n) body (F 0) = Raise e.
Proof.
  intros Hm Hstep E. unfold range. rewrite for_each_map, Z.sub_0_r.
  apply (for_range_Raise F _ m); [lia | exact Hstep | exact E].
Qed.

Lemma range_length (a b : Z) : length (range a b) = Z.to_nat (b - a).
Proof. unfold range. now rewrite length_map, length_seq. Qed.

Lemma range_empty (a b : Z) : (b <= a)%Z -> range a b = [].
Proof. intros Hab. unfold range. now replace (Z.to_nat (b - a)) with O by lia. Qed.

Lemma range_cons (a b : Z) : (a < b)%Z -> range a b = a :: range (a + 1) b.
Proof.
  intros Hab. unfold range.
  replace (Z.to_nat (b - a)) with (S (Z.to_nat (b - (a + 1)))) by lia.
  simpl. rewrite Z.add_0_r. f_equal.
  rewrite <- seq_shift, map_map. apply map_ext. intros i. lia.
Qed.

Lemma range_snoc (a b : Z) : (a <= b)%Z -> range a (b + 1) = range a b ++ [b].
Proof.
  intros Hab. unfold range.
  replace (Z.to_nat (b + 1 - a)) with (Z.to_nat (b - a) + 1)%nat by lia.
  rewrite seq_app, map_app. simpl. do 2 f_equal. lia.
Qed.

#[export] Hint Rewrite range_length : numerics.
