(* ===== verification/NumQ.v ===== *)
(** * NumQ: the number interface at exact rationals

    [Q_Num] instantiates [Prelude.Num] with Stdlib's rationals, so that a
    routine of the model computes what the Python code computes when every
    operation is exact.  Equality of results is [==] ([Qeq]); lists of
    results are compared with [Qs_eq].  The tactic [qnum] unfolds the
    interface down to [Qplus], [Qmult], ... and folds the literals, after
    which [lra], [nra] and [field] apply.  The file also counts the
    iterations of a loop [while (xi + h <= xf): xi += h] ([nsteps]). *)

From Stdlib Require Import QArith Qround Qabs Qpower Lqa Lia List Bool ZArith Morphisms Setoid.
From S2P Require Import Prelude.
Import ListNotations.

#[local] Open Scope Q_scope.

(** ** The instance *)

#[export] Instance Q_Num : Num Q := {|
  num_of_Z := inject_Z;
  num_add := Qplus;
  num_sub := Qminus;
  num_mul := Qmult;
  num_div := Qdiv;
  num_opp := Qopp;
  num_abs := Qabs;
  num_leb := Qle_bool;
  num_ltb := fun x y => negb (Qle_bool y x);
  num_eqb := Qeq_bool
|}.

#[export] Instance Q_NumOrder : NumOrder Q.
Proof. constructor. intros a b E. simpl in *. now rewrite E. Qed.

#[export] Instance Q_NumEq : NumEq Q.
Proof. constructor. intros a b _. apply Qeq_bool_iff. reflexivity. Qed.

(** Lists of rationals up to [==]. *)
Definition Qs_eq : list Q -> list Q -> Prop := Forall2 Qeq.

(** The number of iterations of [while (xi + h <= xf): xi += h] for a
    positive step. *)
Definition nsteps (xi xf h : Q) : nat := Z.to_nat (Qfloor ((xf - xi) / h)).

(** ** Tactics *)

(** Literals [a / b] and [a] of the source become constants of [Q]. *)
Ltac qlit :=
  repeat match goal with
  | |- context [Qdiv (inject_Z ?a) (inject_Z ?b)] =>
      let v := eval vm_compute in (Qdiv (inject_Z a) (inject_Z b)) in
      change (Qdiv (inject_Z a) (inject_Z b)) with v
  | |- context [inject_Z (Zpos ?a)] =>
      let v := eval vm_compute in (inject_Z (Zpos a)) in
      change (inject_Z (Zpos a)) with v
  | |- context [inject_Z Z0] => change (inject_Z Z0) with 0
  | H : context [Qdiv (inject_Z ?a) (inject_Z ?b)] |- _ =>
      let v := eval vm_compute in (Qdiv (inject_Z a) (inject_Z b)) in
      change (Qdiv (inject_Z a) (inject_Z b)) with v in H
  | H : context [inject_Z (Zpos ?a)] |- _ =>
      let v := eval vm_compute in (inject_Z (Zpos a)) in
      change (inject_Z (Zpos a)) with v in H
  | H : context [inject_Z Z0] |- _ => change (inject_Z Z0) with 0 in H
  end.

Ltac qnum :=
  cbv [num_of_Z num_add num_sub num_mul num_div num_opp num_abs
       num_leb num_ltb num_eqb Q_Num] in *;
  qlit.

(** ** Reflection of the boolean tests *)

Lemma Qleb_true (a b : Q) : (a <=? b)%num = true <-> a <= b.
Proof. apply Qle_bool_iff. Qed.

Lemma Qleb_false (a b : Q) : (a <=? b)%num = false <-> b < a.
Proof.
  simpl. rewrite <- not_true_iff_false, Qle_bool_iff. split; [apply Qnot_le_lt | apply Qlt_not_le].
Qed.

Lemma Qltb_true (a b : Q) : (a <? b)%num = true <-> a < b.
Proof. simpl. rewrite negb_true_iff. apply Qleb_false. Qed.

Lemma Qltb_false (a b : Q) : (a <? b)%num = false <-> b <= a.
Proof. simpl. rewrite negb_false_iff. apply Qleb_true. Qed.

Lemma Qeqb_true (a b : Q) : (a =? b)%num = true <-> a == b.
Proof. apply Qeq_bool_iff. Qed.

Lemma Qeqb_false (a b : Q) : (a =? b)%num = false <-> ~ a == b.
Proof. simpl. rewrite <- not_true_iff_false, Qeq_bool_iff. reflexivity. Qed.

(** Decide the test the goal is stuck on from a hypothesis. *)
Ltac test_is v H :=
  match goal with
  | |- context [if ?b then _ else _] =>
      assert (b = v) as ->
        by (first [apply Qltb_true | apply Qltb_false | apply Qleb_true | apply Qleb_false
                  | apply Qeqb_true | apply Qeqb_false];
            exact H)
  end.

(** Turn every boolean test of the context into its proposition. *)
Ltac qbool :=
  repeat match goal with
  | H : num_leb _ _ = true |- _ => apply Qleb_true in H
  | H : num_leb _ _ = false |- _ => apply Qleb_false in H
  | H : num_ltb _ _ = true |- _ => apply Qltb_true in H
  | H : num_ltb _ _ = false |- _ => apply Qltb_false in H
  | H : num_eqb _ _ = true |- _ => apply Qeqb_true in H
  | H : num_eqb _ _ = false |- _ => apply Qeqb_false in H
  end.

(** Arithmetic goals over the interface: reflect, unfold, decide. *)
Ltac qlra := qbool; qnum; lra.

(** Congruence goals [e == e'] between two copies of one expression over
    the operations of [Q] and callbacks known to be morphisms. *)
Ltac qproper :=
  repeat (apply Qplus_comp || apply Qminus_comp || apply Qopp_comp || apply Qmult_comp
          || apply Qdiv_comp || apply Qabs_wd
          || match goal with
             | H : Proper _ ?f |- ?f _ == ?f _ => apply H
             | H : Proper _ ?f |- ?f _ _ == ?f _ _ => apply H
             end
          || assumption || reflexivity).

(** ** The operations respect [==] *)

#[export] Instance num_add_Q_Proper : Proper (Qeq ==> Qeq ==> Qeq) (@num_add Q _).
Proof. exact Qplus_comp. Qed.

#[export] Instance num_sub_Q_Proper : Proper (Qeq ==> Qeq ==> Qeq) (@num_sub Q _).
Proof. exact Qminus_comp. Qed.

#[export] Instance num_mul_Q_Proper : Proper (Qeq ==> Qeq ==> Qeq) (@num_mul Q _).
Proof. exact Qmult_comp. Qed.

#[export] Instance num_div_Q_Proper : Proper (Qeq ==> Qeq ==> Qeq) (@num_div Q _).
Proof. exact Qdiv_comp. Qed.

#[export] Instance num_opp_Q_Proper : Proper (Qeq ==> Qeq) (@num_opp Q _).
Proof. exact Qopp_comp. Qed.

#[export] Instance num_abs_Q_Proper : Proper (Qeq ==> Qeq) (@num_abs Q _).
Proof. exact Qabs_wd. Qed.

#[export] Instance num_leb_Q_Proper : Proper (Qeq ==> Qeq ==> eq) (@num_leb Q _).
Proof. exact Qleb_comp. Qed.

#[export] Instance num_ltb_Q_Proper : Proper (Qeq ==> Qeq ==> eq) (@num_ltb Q _).
Proof. intros a a' Ea b b' Eb. simpl. now rewrite Ea, Eb. Qed.

#[export] Instance num_eqb_Q_Proper : Proper (Qeq ==> Qeq ==> eq) (@num_eqb Q _).
Proof. exact Qeqb_comp. Qed.

#[export] Instance Qs_eq_Equivalence : Equivalence Qs_eq.
Proof.
  split.
  - intros l. induction l; constructor; [reflexivity | assumption].
  - intros l l' E. induction E; constructor; [symmetry|]; assumption.
  - intros l1 l2 l3 E. revert l3.
    induction E as [|a b l l' Hab E IH]; intros l3 E'; inv E'; constructor.
    + etransitivity; eassumption.
    + now apply IH.
Qed.

#[export] Instance cons_Qs_Proper : Proper (Qeq ==> Qs_eq ==> Qs_eq) cons.
Proof. intros a a' Ea l l' El. now constructor. Qed.

#[export] Instance app_Qs_Proper : Proper (Qs_eq ==> Qs_eq ==> Qs_eq) (@app Q).
Proof. intros l1 l1' E1 l2 l2' E2. now apply Forall2_app. Qed.

Lemma Qs_eq_length (l l' : list Q) : Qs_eq l l' -> length l = length l'.
Proof. apply Forall2_length. Qed.

Lemma Qs_eq_last (l l' : list Q) (d d' : Q) :
  Qs_eq l l' -> d == d' -> last l d == last l' d'.
Proof.
  intros E Ed. induction E as [|a a' l l' Ea E IH]; [exact Ed|].
  simpl. inv E; auto.
Qed.

Lemma Qs_eq_map {B : Type} (f g : B -> Q) (l : list B) :
  (forall k, f k == g k) -> Qs_eq (map f l) (map g l).
Proof. intros E. induction l; constructor; auto. Qed.

Lemma inject_Z_succ (k : nat) : inject_Z (Z.of_nat (S k)) == inject_Z (Z.of_nat k) + 1.
Proof. rewrite Nat2Z.inj_succ. unfold Z.succ. now rewrite inject_Z_plus. Qed.

Lemma Qpower_succ_nat (r : Q) (k : nat) : r ^ Z.of_nat (S k) == r * r ^ Z.of_nat k.
Proof.
  rewrite Nat2Z.inj_succ. unfold Z.succ. rewrite Z.add_comm, Qpower_plus' by lia.
  reflexivity.
Qed.

(** A sequence whose terms are multiplied by [r] at each step. *)
Lemma Qs_eq_geometric (r a : Q) (n : nat) (l : list Q) :
  Forall2 (fun p q => q == p * r) (removelast (a :: l)) l -> length l = n ->
  Qs_eq l (map (fun k => a * r ^ Z.of_nat (S k)) (seq 0 n)).
Proof.
  revert a n. induction l as [|b l IH]; intros a n Hl <-; [constructor|].
  simpl length. rewrite <- cons_seq, <- seq_shift, map_cons, map_map.
  change (removelast (a :: b :: l)) with (a :: removelast (b :: l)) in Hl. inv Hl.
  constructor.
  - rewrite Qpower_succ_nat. simpl. lra.
  - transitivity (map (fun k => b * r ^ Z.of_nat (S k)) (seq 0 (length l))).
    + now apply IH.
    + apply Qs_eq_map. intros k. rewrite (Qpower_succ_nat r (S k)), H2. ring.
Qed.

(** ** Counting the iterations of a fixed-step loop *)

Lemma Qfloor_unique (q : Q) (z : Z) :
  inject_Z z <= q -> q < inject_Z (z + 1) -> Qfloor q = z.
Proof.
  intros Hl Hu.
  pose proof (Qfloor_le q) as Fl. pose proof (Qlt_floor q) as Fu.
  assert (inject_Z z < inject_Z (Qfloor q + 1)) as H1 by lra.
  assert (inject_Z (Qfloor q) < inject_Z (z + 1)) as H2 by lra.
  rewrite <- Zlt_Qlt in H1, H2. lia.
Qed.

Lemma Qfloor_sub1 (q : Q) : Qfloor (q - 1) = (Qfloor q - 1)%Z.
Proof.
  pose proof (Qfloor_le q) as Fl. pose proof (Qlt_floor q) as Fu.
  apply Qfloor_unique; rewrite ?inject_Z_plus, ?inject_Z_opp in *;
    unfold Z.sub; rewrite ?inject_Z_plus, ?inject_Z_opp in *;
    change (inject_Z 1) with 1 in *; lra.
Qed.

#[export] Instance nsteps_Proper : Proper (Qeq ==> Qeq ==> Qeq ==> eq) nsteps.
Proof. intros a a' Ea b b' Eb c c' Ec. unfold nsteps. now rewrite Ea, Eb, Ec. Qed.

Lemma nsteps_stop (xi xf h : Q) : 0 < h -> xf < xi + h -> nsteps xi xf h = O.
Proof.
  intros Hh Hx. unfold nsteps.
  assert ((xf - xi) / h < 1) as Hq by (apply Qlt_shift_div_r; lra).
  pose proof (Qfloor_le ((xf - xi) / h)) as Fl.
  assert (inject_Z (Qfloor ((xf - xi) / h)) < inject_Z 1) as H1 by (change (inject_Z 1) with 1; lra).
  rewrite <- Zlt_Qlt in H1. lia.
Qed.

Lemma nsteps_step (xi xf h : Q) :
  0 < h -> xi + h <= xf -> nsteps xi xf h = S (nsteps (xi + h) xf h).
Proof.
  intros Hh Hx. unfold nsteps.
  assert ((xf - (xi + h)) / h == (xf - xi) / h - 1) as -> by (field; lra).
  rewrite Qfloor_sub1.
  assert (1 <= (xf - xi) / h) as Hq by (apply Qle_shift_div_l; lra).
  apply Qfloor_resp_le in Hq. change (Qfloor 1) with 1%Z in Hq. lia.
Qed.

(** The loop stops within one step of the bound: after [nsteps] steps of
    size [h] the abscissa is at most [xf] and less than [h] short of it. *)
Lemma nsteps_bounds (xi xf h : Q) :
  0 < h -> xi <= xf ->
  xi + inject_Z (Z.of_nat (nsteps xi xf h)) * h <= xf /\
  xf < xi + inject_Z (Z.of_nat (nsteps xi xf h)) * h + h.
Proof.
  intros Hh Hx. unfold nsteps.
  set (q := (xf - xi) / h).
  assert (xf == xi + q * h) as Hxf by (unfold q; field; lra).
  assert (0 <= q) as Hq by (apply Qle_shift_div_l; lra).
  pose proof (Qfloor_le q) as Fl. pose proof (Qlt_floor q) as Fu.
  apply Qfloor_resp_le in Hq. change (Qfloor 0) with 0%Z in Hq.
  rewrite Z2Nat.id by assumption.
  rewrite inject_Z_plus in Fu. change (inject_Z 1) with 1 in Fu.
  split; rewrite Hxf; nra.
Qed.

#[export] Hint Resolve Qs_eq_length : numerics.

(** ** Guarded division *)

Lemma pydiv_Q_Ret (a b : Q) : ~ b == 0 -> pydiv a b = Ret (a / b).
Proof.
  intros Hb. unfold pydiv. destruct (num_eqb b (num_of_Z 0)) eqn:E; [|reflexivity].
  apply Qeq_bool_iff in E. contradiction.
Qed.

Lemma pydiv_Q_Raise (a b : Q) : b == 0 -> pydiv a b = Raise ZeroDivisionError.
Proof.
  intros Hb. unfold pydiv. destruct (num_eqb b (num_of_Z 0)) eqn:E; [reflexivity|].
  apply Qeq_bool_neq in E. contradiction.
Qed.

Lemma inject_Z_nonzero (n : Z) : n <> 0%Z -> ~ inject_Z n == 0.
Proof. intros Hn E. apply Hn. unfold Qeq in E. simpl in E. lia. Qed.

Lemma inject_Z_to_nat_pred (n : Z) :
  (1 <= n)%Z -> inject_Z (Z.of_nat (Z.to_nat (n - 1))) == inject_Z n - 1.
Proof.
  intros Hn. rewrite Z2Nat.id by lia. unfold Zminus. rewrite inject_Z_plus. reflexivity.
Qed.

(** ** Polynomials *)

(** A polynomial by its coefficients, lowest degree first, and its
    antiderivative that vanishes at [0]. *)
Fixpoint peval (p : list Q) (x : Q) : Q :=
  match p with
  | [] => 0
  | c :: p' => c + x * peval p' x
  end.

Fixpoint pint_from (k : positive) (p : list Q) : list Q :=
  match p with
  | [] => []
  | c :: p' => c / inject_Z (Zpos k) :: pint_from (Pos.succ k) p'
  end.

Definition pint (p : list Q) : list Q := 0 :: pint_from 1 p.

(** The integral of [p] from [a] to [b]. *)
Definition pintegral (p : list Q) (a b : Q) : Q := peval (pint p) b - peval (pint p) a.

#[export] Instance peval_Proper (p : list Q) : Proper (Qeq ==> Qeq) (peval p).
Proof.
  intros x x' E. induction p as [|c p IH]; simpl; [reflexivity|]. now rewrite IH, E.
Qed.
