(* ===== verification/NumFloat.v ===== *)
(** * NumFloat: the number interface at IEEE-754 binary64

    [Float_Num] instantiates [Prelude.Num] with the kernel's primitive
    floats, the numbers CPython's [float] computes with: [+], [-], [*],
    [/] and the comparisons are the correctly rounded IEEE operations, a
    NaN compares false with everything.  An integer literal [z] is
    [float(z)]; the conversion is exact below [2^53] in absolute value,
    which covers every literal of the source.  The routines of the model
    run on this instance by [vm_compute].

    Two laws are proved of binary64: [NumOrder], which the steppers
    need (a successful [a <= b] makes [b < a] fail), and [NumEq], which
    [list.index] needs (a number that compares above another is equal
    to itself).  Both follow from the specification of the comparisons
    in [FloatAxioms]. *)

From Stdlib Require Import ZArith Floats Uint63.
From S2P Require Import Prelude.

(** ** The instance *)

Definition float_of_Z (z : Z) : float :=
  match z with
  | Z0 => PrimFloat.zero
  | Zpos _ => PrimFloat.of_uint63 (Uint63.of_Z z)
  | Zneg p => PrimFloat.opp (PrimFloat.of_uint63 (Uint63.of_Z (Zpos p)))
  end.

#[export] Instance Float_Num : Num float := {|
  num_of_Z := float_of_Z;
  num_add := PrimFloat.add;
  num_sub := PrimFloat.sub;
  num_mul := PrimFloat.mul;
  num_div := PrimFloat.div;
  num_opp := PrimFloat.opp;
  num_abs := PrimFloat.abs;
  num_leb := PrimFloat.leb;
  num_ltb := PrimFloat.ltb;
  num_eqb := PrimFloat.eqb
|}.

(** ** The order law *)

Lemma SFcompare_antisym (x y : spec_float) :
  SFcompare y x = option_map CompOpp (SFcompare x y).
Proof.
  destruct x as [s | s | | s m e], y as [s' | s' | | s' m' e']; simpl; try reflexivity;
    try (destruct s; reflexivity); try (destruct s'; reflexivity);
    try (destruct s, s'; reflexivity).
  destruct s, s'; try reflexivity; f_equal; rewrite (Z.compare_antisym e e');
    destruct (e ?= e')%Z; simpl; try reflexivity.
  - rewrite CompOpp_involutive. exact (Pos.compare_cont_antisym m' m Eq).
  - exact (eq_sym (Pos.compare_cont_antisym m m' Eq)).
Qed.

#[export] Instance Float_NumOrder : NumOrder float.
Proof.
  constructor. intros a b. simpl.
  rewrite FloatAxioms.leb_spec, FloatAxioms.ltb_spec. unfold SFleb, SFltb.
  rewrite (SFcompare_antisym (Prim2SF a) (Prim2SF b)).
  destruct (SFcompare (Prim2SF a) (Prim2SF b)) as [[]|]; simpl; congruence.
Qed.

Lemma SFcompare_refl (x y : spec_float) (c : comparison) :
  SFcompare x y = Some c -> SFcompare y y = Some Eq.
Proof.
  destruct x as [s | s | | s m e], y as [s' | s' | | s' m' e']; simpl; try discriminate;
    intros _; try reflexivity; try (destruct s'; reflexivity);
    destruct s'; rewrite Z.compare_refl, Pos.compare_cont_refl; reflexivity.
Qed.

#[export] Instance Float_NumEq : NumEq float.
Proof.
  constructor. intros a b. simpl.
  rewrite FloatAxioms.eqb_spec, FloatAxioms.ltb_spec. unfold SFeqb, SFltb.
  destruct (SFcompare (Prim2SF b) (Prim2SF a)) as [c|] eqn:E; [|discriminate].
  now rewrite (SFcompare_refl _ _ _ E).
Qed.

(** Decimal fractions of the docstrings, as the quotients Python's parser
    rounds them to. *)
Definition float_of_ratio (n d : Z) : float := PrimFloat.div (float_of_Z n) (float_of_Z d).

Lemma float_of_Z_small :
  (float_of_Z 0, float_of_Z 1, float_of_Z 90) = (0%float, 1%float, 90%float).
Proof. reflexivity. Qed.
