(* ===== verification/Polynomials.v ===== *)
(** * Polynomials: coefficient lists over the rationals

    The algebra of the polynomials [peval] of [NumQ]: sum, multiple,
    product with a linear factor, and the quotient by a linear factor
    (Horner's synthetic division).  The theorem of the file is that a
    polynomial with at most [n] coefficients and [n] distinct roots has
    no coefficient but zero, from which two polynomials of degree below [n] that agree on
    [n] distinct points agree everywhere.  The interpolation and the
    regression of [curveFitting.py] are exact on polynomials because
    of it. *)

From Stdlib Require Import ZArith QArith Lqa Lia List Morphisms Setoid.
From S2P Require Import Prelude NumQ.
Import ListNotations.

#[local] Open Scope Q_scope.

(** ** Operations *)

Fixpoint padd (p q : list Q) : list Q :=
  match p, q with
  | [], _ => q
  | _, [] => p
  | a :: p', b :: q' => a + b :: padd p' q'
  end.

Definition pscale (k : Q) (p : list Q) : list Q := map (Qmult k) p.

(** [(t - r) p(t)]. *)
Definition pmul_linear (r : Q) (p : list Q) : list Q := padd (pscale (- r) p) (0 :: p).

(** The quotient of [p] by [t - r]; the remainder is [peval p r]. *)
Fixpoint pquot (r : Q) (p : list Q) : list Q :=
  match p with
  | [] => []
  | _ :: p' =>
      match p' with
      | [] => []
      | _ :: _ => peval p' r :: pquot r p'
      end
  end.

(** ** Values and lengths *)

Lemma peval_padd (p q : list Q) (t : Q) : peval (padd p q) t == peval p t + peval q t.
Proof.
  revert q. induction p as [|a p IH]; intros [|b q]; cbn [padd peval]; try ring.
  rewrite IH. ring.
Qed.

Lemma padd_length (p q : list Q) : length (padd p q) = Nat.max (length p) (length q).
Proof.
  revert q. induction p as [|a p IH]; intros [|b q]; cbn [padd length Nat.max]; auto.
Qed.

Lemma peval_pscale (k : Q) (p : list Q) (t : Q) : peval (pscale k p) t == k * peval p t.
Proof.
  induction p as [|a p IH]; cbn [pscale map peval]; [ring|].
  fold (pscale k p). rewrite IH. ring.
Qed.

Lemma pscale_length (k : Q) (p : list Q) : length (pscale k p) = length p.
Proof. apply length_map. Qed.

Lemma peval_pmul_linear (r : Q) (p : list Q) (t : Q) :
  peval (pmul_linear r p) t == (t - r) * peval p t.
Proof.
  unfold pmul_linear. rewrite peval_padd, peval_pscale. cbn [peval]. ring.
Qed.

Lemma pmul_linear_length (r : Q) (p : list Q) : length (pmul_linear r p) = S (length p).
Proof.
  unfold pmul_linear. rewrite padd_length, pscale_length. cbn [length]. lia.
Qed.

(** Division with remainder by [t - r]. *)
Lemma pquot_spec (r : Q) (p : list Q) (t : Q) :
  peval p t == peval p r + (t - r) * peval (pquot r p) t.
Proof.
  induction p as [|a [|b p] IH]; cbn [pquot peval] in *; try ring.
  rewrite IH. ring.
Qed.

Lemma pquot_length (r : Q) (p : list Q) : length (pquot r p) = pred (length p).
Proof.
  induction p as [|a [|b p] IH]; cbn [pquot length pred] in *; auto.
Qed.

Create Rewrite HintDb peval.
#[export] Hint Rewrite peval_padd peval_pscale peval_pmul_linear : peval.
#[export] Hint Rewrite padd_length pscale_length pmul_linear_length pquot_length : peval.

(** ** Roots *)

(** A polynomial whose remainder and quotient by [t - r] are zero is
    zero. *)
Lemma pquot_zero (r : Q) (p : list Q) :
  peval p r == 0 -> Forall (fun a => a == 0) (pquot r p) -> Forall (fun a => a == 0) p.
Proof.
  induction p as [|a [|b p] IH]; cbn [pquot peval] in *; intros Z Hq.
  - constructor.
  - constructor; [lra | constructor].
  - inversion Hq as [|? ? Zb Hq']; subst. specialize (IH Zb Hq').
    constructor; [|exact IH]. rewrite Zb in Z. lra.
Qed.

Lemma peval_zero (p : list Q) (t : Q) : Forall (fun a => a == 0) p -> peval p t == 0.
Proof. induction 1 as [|a p Za _ IH]; cbn [peval]; [reflexivity|]. rewrite Za, IH. ring. Qed.

(** A polynomial with at most [n] coefficients that vanishes at [n]
    pairwise distinct points has no coefficient but zero. *)
Theorem peval_roots_zero (n : nat) :
  forall (x : nat -> Q) (p : list Q),
    (length p <= n)%nat ->
    (forall i j, (i < j < n)%nat -> ~ x j == x i) ->
    (forall i, (i < n)%nat -> peval p (x i) == 0) ->
    Forall (fun a => a == 0) p.
Proof.
  induction n as [|n IH]; intros x p Hp Hd Hr.
  - destruct p; [constructor | cbn in Hp; lia].
  - apply (pquot_zero (x 0%nat)); [apply Hr; lia|].
    apply (IH (fun i => x (S i))).
    + rewrite pquot_length. lia.
    + intros i j Hij. apply Hd. lia.
    + intros i Hi. pose proof (pquot_spec (x 0%nat) p (x (S i))) as E.
      rewrite (Hr 0%nat), (Hr (S i)) in E by lia.
      assert (~ x (S i) - x 0%nat == 0) as N
        by (intros N; apply (Hd 0%nat (S i)); [lia | lra]).
      apply (Qmult_integral_l _ _ N). lra.
Qed.

(** It vanishes everywhere. *)
Corollary peval_roots (n : nat) (x : nat -> Q) (p : list Q) :
  (length p <= n)%nat ->
  (forall i j, (i < j < n)%nat -> ~ x j == x i) ->
  (forall i, (i < n)%nat -> peval p (x i) == 0) ->
  forall t, peval p t == 0.
Proof. intros Hp Hd Hr t. now apply peval_zero, (peval_roots_zero n x). Qed.

(** Two polynomials with at most [n] coefficients that agree on [n]
    pairwise distinct points agree everywhere. *)
Corollary peval_unique (n : nat) (x : nat -> Q) (p q : list Q) :
  (length p <= n)%nat -> (length q <= n)%nat ->
  (forall i j, (i < j < n)%nat -> ~ x j == x i) ->
  (forall i, (i < n)%nat -> peval p (x i) == peval q (x i)) ->
  forall t, peval p t == peval q t.
Proof.
  intros Hp Hq Hd He t.
  pose proof (peval_roots n x (padd p (pscale (-1) q))) as R.
  assert (peval (padd p (pscale (-1) q)) t == 0) as E.
  { apply R; [autorewrite with peval; lia | exact Hd |].
    intros i Hi. autorewrite with peval. rewrite (He i Hi). ring. }
  autorewrite with peval in E. lra.
Qed.
