(* ===== verification/Table.v ===== *)
(** * Table: numpy arrays of one and two dimensions

    The tables of [src/numerics/integration.py] ([I] of [Romberg]) and
    [src/numerics/curveFitting.py] ([fdd] and [ea] of
    [NewtonPolynomialInterpolation], [_A] and [_B] of
    [PolynomialRegression]) are numpy arrays made by [np.empty], read by
    [t[j][k]] and written by [t[j][k] = v].  A two-dimensional array is
    a list of rows.  [np.empty] does not initialise the memory it hands
    out: the model fills the array from an arbitrary function [junk],
    and every theorem on a table holds for every [junk].  An index out
    of range raises [IndexError]; an assignment never extends the array,
    which is what [shape] and its preservation say.

    The lemmas compute [get2] and [set2] on a table given by a formula
    ([tabulate2]); [index_cases] decides the tests on indices that the
    formulas of the loop invariants contain. *)

From Stdlib Require Import ZArith List Bool Lia.
From S2P Require Import Prelude.
Import ListNotations.

#[local] Open Scope outcome_scope.

(** The definitions that [index_cases] unfolds before it looks for
    tests on indices. *)
Create HintDb index.

Section Table.
Context {A : Type}.

(** ** Arrays *)

Definition tabulate2 (g : nat -> nat -> A) (n m : nat) : list (list A) :=
  tabulate (fun j => tabulate (g j) m) n.

(** [np.empty((n, m))]: a negative dimension is a [ValueError]. *)
Definition np_empty2 (junk : nat -> nat -> A) (n m : Z) : outcome (list (list A)) :=
  if ((n <? 0) || (m <? 0))%Z then Raise ValueError
  else Ret (tabulate2 junk (Z.to_nat n) (Z.to_nat m)).

(** [np.empty((n, n))]. *)
Definition np_empty (junk : nat -> nat -> A) (n : Z) : outcome (list (list A)) :=
  if (n <? 0)%Z then Raise ValueError else Ret (tabulate2 junk (Z.to_nat n) (Z.to_nat n)).

(** [np.empty((n))]. *)
Definition np_empty1 (junk : nat -> A) (n : Z) : outcome (list A) :=
  if (n <? 0)%Z then Raise ValueError else Ret (tabulate junk (Z.to_nat n)).

Definition get2 (I : list (list A)) (j k : nat) : outcome A :=
  row <- getitem I j ;;
  getitem row k.

Definition set2 (I : list (list A)) (j k : nat) (v : A) : outcome (list (list A)) :=
  row <- getitem I j ;;
  row <- setitem row k v ;;
  setitem I j row.

(** A table of [n] rows of [m] entries. *)
Definition shape (n m : nat) (I : list (list A)) : Prop :=
  length I = n /\ Forall (fun row => length row = m) I.

(** ** Tables given by a formula *)

Lemma tabulate_cons {B : Type} (f : nat -> B) (n : nat) :
  tabulate f (S n) = f 0%nat :: tabulate (fun i => f (S i)) n.
Proof. unfold tabulate. cbn [seq map]. now rewrite <- seq_shift, map_map. Qed.

Lemma getitem_tabulate {B : Type} (f : nat -> B) (n i : nat) :
  i < n -> getitem (tabulate f n) i = Ret (f i).
Proof.
  intros Hi. rewrite (getitem_nth _ _ (f 0%nat)) by now rewrite tabulate_length.
  now rewrite tabulate_nth.
Qed.

Lemma setitem_tabulate {B : Type} (f : nat -> B) (n i : nat) (v : B) :
  i < n -> setitem (tabulate f n) i v = Ret (tabulate (fun i' => if i' =? i then v else f i') n).
Proof.
  revert f i. induction n as [|n IH]; intros f i Hi; [lia|].
  rewrite !tabulate_cons. destruct i as [|i]; [reflexivity|].
  cbn [setitem]. rewrite IH by lia. reflexivity.
Qed.

Lemma getitem_int_last_tabulate {B : Type} (f : nat -> B) (n : nat) :
  0 < n -> getitem_int (tabulate f n) (-1) = Ret (f (n - 1)).
Proof.
  intros Hn. unfold getitem_int. rewrite tabulate_length.
  replace (-1 <? 0)%Z with true by reflexivity.
  replace (-1 + Z.of_nat n <? 0)%Z with false by lia.
  replace (Z.to_nat (-1 + Z.of_nat n)) with (n - 1) by lia.
  apply getitem_tabulate. lia.
Qed.

Lemma tabulate2_ext (g g' : nat -> nat -> A) (n m : nat) :
  (forall j k, j < n -> k < m -> g j k = g' j k) -> tabulate2 g n m = tabulate2 g' n m.
Proof. intros E. apply tabulate_ext. intros j Hj. apply tabulate_ext. auto. Qed.

Lemma get2_tabulate2 (g : nat -> nat -> A) (n m j k : nat) :
  j < n -> k < m -> get2 (tabulate2 g n m) j k = Ret (g j k).
Proof.
  intros Hj Hk. unfold get2, tabulate2. rewrite getitem_tabulate by exact Hj.
  cbn [bind]. now apply getitem_tabulate.
Qed.

Lemma set2_tabulate2 (g : nat -> nat -> A) (n m j k : nat) (v : A) :
  j < n -> k < m ->
  set2 (tabulate2 g n m) j k v =
  Ret (tabulate2 (fun j' k' => if (j' =? j) && (k' =? k) then v else g j' k') n m).
Proof.
  intros Hj Hk. unfold set2, tabulate2. rewrite getitem_tabulate by exact Hj. cbn [bind].
  rewrite setitem_tabulate by exact Hk. cbn [bind]. rewrite setitem_tabulate by exact Hj.
  f_equal. apply tabulate_ext. intros j' _.
  destruct (Nat.eqb_spec j' j) as [-> | _]; reflexivity.
Qed.

(** ** Shapes *)

Lemma tabulate2_shape (g : nat -> nat -> A) (n m : nat) : shape n m (tabulate2 g n m).
Proof.
  split; [apply tabulate_length|]. apply Forall_forall. intros row Hin.
  apply in_map_iff in Hin as (j & <- & _). apply tabulate_length.
Qed.

Lemma shape_row (n m : nat) (I : list (list A)) (i : nat) :
  shape n m I -> i < n -> length (nth i I []) = m.
Proof. intros [Hn Hm] Hi. rewrite Forall_forall in Hm. apply Hm, nth_In. lia. Qed.

(** Every table of a shape is given by the formula of its entries. *)
Lemma shape_tabulate2 (n m : nat) (I : list (list A)) (d : A) :
  shape n m I -> I = tabulate2 (fun j k => nth k (nth j I []) d) n m.
Proof.
  intros [Hn Hm]. unfold tabulate2. rewrite <- (tabulate_nth_id I []) at 1. rewrite Hn.
  apply tabulate_ext. intros j Hj.
  assert (length (nth j I []) = m) as Hl.
  { rewrite Forall_forall in Hm. apply Hm, nth_In. lia. }
  rewrite <- (tabulate_nth_id (nth j I []) d) at 1. now rewrite Hl.
Qed.

(** An assignment keeps the shape: it raises or returns a table of the
    same dimensions. *)
Lemma set2_shape (n m : nat) (I I' : list (list A)) (j k : nat) (v : A) :
  shape n m I -> set2 I j k v = Ret I' -> shape n m I'.
Proof.
  intros Hs E. pose proof Hs as [Hn Hm].
  destruct (Nat.lt_ge_cases j n) as [Hj|Hj];
    [|unfold set2 in E; rewrite getitem_ge in E by lia; discriminate].
  destruct (Nat.lt_ge_cases k m) as [Hk|Hk].
  - rewrite (shape_tabulate2 _ _ I v Hs) in E. rewrite set2_tabulate2 in E by assumption.
    injection E as <-. apply tabulate2_shape.
  - exfalso. unfold set2 in E. destruct (getitem I j) as [row| |] eqn:Er; try discriminate.
    cbn [bind] in E. rewrite setitem_ge in E; [discriminate|].
    apply getitem_Ret in Er. rewrite Forall_forall in Hm.
    rewrite (Hm row); [exact Hk|]. eapply nth_error_In, Er.
Qed.

End Table.

(** Case analysis on the tests on indices of the goal. *)
Ltac index_cases :=
  autounfold with index;
  repeat match goal with
  | |- context [Nat.eqb ?a ?b] => destruct (Nat.eqb_spec a b)
  | |- context [Nat.ltb ?a ?b] => destruct (Nat.ltb_spec a b)
  | |- context [Nat.leb ?a ?b] => destruct (Nat.leb_spec a b)
  end; cbn [andb orb]; try reflexivity; try lia.
