(* ===== verification/Stepper.v ===== *)
(** * Stepper: the loop of the fixed-step single-equation methods

    The seven scalar methods of [src/ODE.py] share one loop,
<<
      x_arr, y_arr = [xi], [yi]
      while (xi + h <= xf):
          if (xi + h) > xf:
              h = xf - xi
          <stage formula: the next yi from xi, yi, h>
          xi += h
          x_arr.append(xi); y_arr.append(yi)
      return x_arr, y_arr
>>
    and differ in the stage formula only.  [ode_loop] is that loop over a
    stage formula [step]; [ode_solve] starts it on the initial arrays.
    The ordinates are of any type [Y]: numbers for the scalar methods,
    lists of numbers for the systems of [ODESystem].
    [trajectory] is the reference: the samples of [n] steps, with no guard,
    no clamp and no accumulator.

    The first group of lemmas holds for every number instance with the
    order law [NumOrder] (so for binary64 too): the clamp is dead code, the
    outcome is monotone in the fuel, nothing is raised.  The second group
    is over [Q]: for a positive step the loop returns the reference
    trajectory of [nsteps xi xf h] steps, whose abscissas increase strictly
    and stop within one step of [xf], short of it unless [xf - xi] is a
    multiple of [h]; for a non-positive step that passes the guard it never
    returns. *)

From Stdlib Require Import ZArith QArith Qround Lqa Lia List Bool Morphisms Setoid Sorted.
From S2P Require Import Prelude NumQ.
Import ListNotations.

(** ** The loop and its reference *)

Section Loop.
Context {A : Type} `{Num A} {Y : Type}.
Variable step : A -> Y -> A -> Y.

#[local] Open Scope num_scope.

Fixpoint ode_loop (fuel : nat) (xi xf : A) (yi : Y) (h : A) (x_arr : list A) (y_arr : list Y)
  : outcome (list A * list Y) :=
  match fuel with
  | O => OutOfFuel
  | S fuel =>
      if xi + h <=? xf then
        let h := if xi + h >? xf then xf - xi else h in
        let yi := step xi yi h in
        let xi := xi + h in
        ode_loop fuel xi xf yi h (x_arr ++ [xi]) (y_arr ++ [yi])
      else Ret (x_arr, y_arr)
  end.

Definition ode_solve (fuel : nat) (xi xf : A) (yi : Y) (h : A) : outcome (list A * list Y) :=
  ode_loop fuel xi xf yi h [xi] [yi].

(** The loop with the clamp taken out. *)
Fixpoint ode_loop_unclamped (fuel : nat) (xi xf : A) (yi : Y) (h : A) (x_arr : list A) (y_arr : list Y)
  : outcome (list A * list Y) :=
  match fuel with
  | O => OutOfFuel
  | S fuel =>
      if xi + h <=? xf then
        ode_loop_unclamped fuel (xi + h) xf (step xi yi h) h
          (x_arr ++ [xi + h]) (y_arr ++ [step xi yi h])
      else Ret (x_arr, y_arr)
  end.

(** The samples [(x_1, y_1) ... (x_n, y_n)] of [n] steps from [(xi, yi)]. *)
Fixpoint trajectory (n : nat) (xi : A) (yi : Y) (h : A) : list (A * Y) :=
  match n with
  | O => []
  | S n => (xi + h, step xi yi h) :: trajectory n (xi + h) (step xi yi h) h
  end.

Definition xs_of (t : list (A * Y)) : list A := map fst t.
Definition ys_of (t : list (A * Y)) : list Y := map snd t.

(** ** For every ordered number instance *)

Context `{!NumOrder A}.

Lemma ode_loop_step (fuel : nat) (xi xf : A) (yi : Y) (h : A) (xs : list A) (ys : list Y) :
  (xi + h <=? xf) = true ->
  ode_loop (S fuel) xi xf yi h xs ys =
  ode_loop fuel (xi + h) xf (step xi yi h) h (xs ++ [xi + h]) (ys ++ [step xi yi h]).
Proof. intros E. simpl. now rewrite E, (num_leb_gtb _ _ E). Qed.

Lemma ode_loop_stop (fuel : nat) (xi xf : A) (yi : Y) (h : A) (xs : list A) (ys : list Y) :
  (xi + h <=? xf) = false -> ode_loop (S fuel) xi xf yi h xs ys = Ret (xs, ys).
Proof. intros E. simpl. now rewrite E. Qed.

(** The clamp [if (xi + h) > xf: h = xf - xi] never fires: the loop
    guard has just established [xi + h <= xf].  The loop is the loop
    without it, on every input and for every fuel. *)
Theorem ode_loop_clamp_dead (fuel : nat) (xi xf : A) (yi : Y) (h : A) (xs : list A) (ys : list Y) :
  ode_loop fuel xi xf yi h xs ys = ode_loop_unclamped fuel xi xf yi h xs ys.
Proof.
  revert xi yi xs ys. induction fuel as [|fuel IH]; intros; [reflexivity|].
  destruct (xi + h <=? xf) eqn:E.
  - rewrite ode_loop_step, IH by assumption. simpl. now rewrite E.
  - rewrite ode_loop_stop by assumption. simpl. now rewrite E.
Qed.

Lemma ode_loop_acc (fuel : nat) (xi xf : A) (yi : Y) (h : A) (xs : list A) (ys : list Y) :
  ode_loop fuel xi xf yi h xs ys =
  omap (fun r => (xs ++ fst r, ys ++ snd r)) (ode_loop fuel xi xf yi h [] []).
Proof.
  revert xi yi xs ys. induction fuel as [|fuel IH]; intros; [reflexivity|].
  destruct (xi + h <=? xf) eqn:E.
  - rewrite !ode_loop_step by assumption.
    rewrite IH, (IH _ _ ([] ++ _) ([] ++ _)). unfold omap. rewrite bind_assoc.
    apply bind_ext. intros [xs' ys']. simpl. now rewrite <- !app_assoc.
  - rewrite !ode_loop_stop by assumption. simpl. now rewrite !app_nil_r.
Qed.

Lemma ode_loop_fuel_S (fuel : nat) (xi xf : A) (yi : Y) (h : A) (xs : list A) (ys : list Y) r :
  ode_loop fuel xi xf yi h xs ys = Ret r -> ode_loop (S fuel) xi xf yi h xs ys = Ret r.
Proof.
  revert xi yi xs ys. induction fuel as [|fuel IH]; intros xi yi xs ys E; [discriminate|].
  destruct (xi + h <=? xf) eqn:G.
  - rewrite ode_loop_step in * by assumption. now apply IH.
  - rewrite ode_loop_stop in * by assumption. assumption.
Qed.

(** More fuel never changes a result: once the loop has returned with
    some fuel it returns the same arrays with any larger fuel. *)
Theorem ode_loop_fuel_mono (n m : nat) (xi xf : A) (yi : Y) (h : A) (xs : list A) (ys : list Y) r :
  ode_loop n xi xf yi h xs ys = Ret r -> (n <= m)%nat -> ode_loop m xi xf yi h xs ys = Ret r.
Proof. intros E L. induction L; auto using ode_loop_fuel_S. Qed.

(** The loop raises nothing: whatever the inputs it returns or is
    still running. *)
Theorem ode_loop_no_raise (fuel : nat) (xi xf : A) (yi : Y) (h : A) (xs : list A) (ys : list Y) (e : exn) :
  ode_loop fuel xi xf yi h xs ys <> Raise e.
Proof.
  revert xi yi xs ys. induction fuel as [|fuel IH]; intros; [discriminate|].
  destruct (xi + h <=? xf) eqn:G.
  - rewrite ode_loop_step by assumption. apply IH.
  - rewrite ode_loop_stop by assumption. discriminate.
Qed.

(** A step that leaves the abscissa where it is, with the guard true,
    repeats for ever.  Over [Q] this needs [h = 0]; in binary64 a positive
    [h] below half an ulp of [xi] does it. *)
Lemma ode_loop_stalls (xi xf h : A) :
  (xi + h <=? xf) = true -> xi + h = xi ->
  forall fuel yi xs ys, ode_loop fuel xi xf yi h xs ys = OutOfFuel.
Proof.
  intros G E fuel. induction fuel as [|fuel IH]; intros; [reflexivity|].
  rewrite ode_loop_step by assumption. rewrite E. apply IH.
Qed.

(** Running [n] guarded steps: if the guard holds at the first [n] samples
    and fails at the next, the loop returns the reference trajectory. *)
Fixpoint guards (n : nat) (xi xf h : A) : bool :=
  match n with
  | O => negb (xi + h <=? xf)
  | S n => (xi + h <=? xf) && guards n (xi + h) xf h
  end.

Lemma ode_loop_guards (n fuel : nat) (xi xf : A) (yi : Y) (h : A) (xs : list A) (ys : list Y) :
  guards n xi xf h = true -> (n < fuel)%nat ->
  ode_loop fuel xi xf yi h xs ys =
  Ret (xs ++ xs_of (trajectory n xi yi h), ys ++ ys_of (trajectory n xi yi h)).
Proof.
  revert fuel xi yi xs ys. induction n as [|n IH]; intros [|fuel] xi yi xs ys G L; try lia.
  - simpl in G. apply negb_true_iff in G. rewrite ode_loop_stop by assumption.
    simpl. now rewrite !app_nil_r.
  - simpl in G. apply andb_true_iff in G as [G1 G2].
    rewrite ode_loop_step by assumption. rewrite IH by (assumption || lia).
    simpl. now rewrite <- !app_assoc.
Qed.

Lemma trajectory_length (n : nat) (xi : A) (yi : Y) (h : A) : length (trajectory n xi yi h) = n.
Proof. revert xi yi. induction n; intros; simpl; auto. Qed.

Lemma trajectory_snoc (n : nat) (xi : A) (yi : Y) (h : A) :
  trajectory (S n) xi yi h =
  trajectory n xi yi h ++
  [(fst (last (trajectory n xi yi h) (xi, yi)) + h,
    step (fst (last (trajectory n xi yi h) (xi, yi)))
         (snd (last (trajectory n xi yi h) (xi, yi))) h)].
Proof.
  revert xi yi. induction n as [|n IH]; intros; [reflexivity|].
  change (trajectory (S (S n)) xi yi h)
    with ((xi + h, step xi yi h) :: trajectory (S n) (xi + h) (step xi yi h) h).
  rewrite IH. change (trajectory (S n) xi yi h)
    with ((xi + h, step xi yi h) :: trajectory n (xi + h) (step xi yi h) h).
  now rewrite <- app_comm_cons, !last_cons_default.
Qed.

(** A relation between abscissa and ordinate that one step preserves
    holds at every sample. *)
Lemma trajectory_invariant (P : A -> Y -> Prop) (h : A) :
  (forall x y, P x y -> P (x + h) (step x y h)) ->
  forall n xi yi, P xi yi -> Forall2 P (xs_of (trajectory n xi yi h)) (ys_of (trajectory n xi yi h)).
Proof. intros HP n. induction n; intros; simpl; constructor; auto. Qed.

Lemma trajectory_ys_invariant (P : Y -> Prop) (h : A) :
  (forall x y, P y -> P (step x y h)) ->
  forall n xi yi, P yi -> Forall P (ys_of (trajectory n xi yi h)).
Proof. intros HP n. induction n; intros; simpl; constructor; auto. Qed.

(** The ordinates obey the recurrence of the stage formula. *)
Lemma trajectory_recurrence (n : nat) (xi : A) (yi : Y) (h : A) :
  Forall2 (fun p q => fst q = fst p + h /\ snd q = step (fst p) (snd p) h)
    (removelast ((xi, yi) :: trajectory n xi yi h)) (trajectory n xi yi h).
Proof.
  revert xi yi. induction n as [|n IH]; intros; [constructor|].
  change (trajectory (S n) xi yi h)
    with ((xi + h, step xi yi h) :: trajectory n (xi + h) (step xi yi h) h).
  constructor; [now split | apply IH].
Qed.

(** A relation that every step establishes between an ordinate and the
    next holds between consecutive ordinates of a run. *)
Lemma ys_of_related (R : Y -> Y -> Prop) (h : A) :
  (forall x y, R y (step x y h)) ->
  forall n xi yi,
    Forall2 R (removelast (yi :: ys_of (trajectory n xi yi h))) (ys_of (trajectory n xi yi h)).
Proof.
  intros HR n. induction n as [|n IH]; intros; [constructor|].
  change (ys_of (trajectory (S n) xi yi h))
    with (step xi yi h :: ys_of (trajectory n (xi + h) (step xi yi h) h)).
  constructor; [apply HR | apply IH].
Qed.

End Loop.

Arguments xs_of {A Y} t.
Arguments ys_of {A Y} t.

#[export] Hint Rewrite @trajectory_length : numerics.

(** Two stage formulas that commute with a map [g] of the ordinates give
    runs that [g] maps to one another. *)
Lemma ode_loop_map {A : Type} `{Num A} {Y Y' : Type} (g : Y -> Y')
    (step : A -> Y -> A -> Y) (step' : A -> Y' -> A -> Y') :
  (forall x y h, step' x (g y) h = g (step x y h)) ->
  forall fuel xi xf yi h xs ys,
    ode_loop step' fuel xi xf (g yi) h xs (map g ys) =
    omap (fun r => (fst r, map g (snd r))) (ode_loop step fuel xi xf yi h xs ys).
Proof.
  intros Hg fuel. induction fuel as [|fuel IH]; intros; [reflexivity|].
  simpl. case_test; [|reflexivity].
  rewrite Hg, <- IH, map_app. reflexivity.
Qed.

(** ** Over exact rationals *)

Section LoopQ.
Context {Y : Type}.
Variable step : Q -> Y -> Q -> Y.

#[local] Open Scope Q_scope.

Lemma ode_loop_step_Q (fuel : nat) (xi xf : Q) (yi : Y) (h : Q) (xs : list Q) (ys : list Y) :
  xi + h <= xf ->
  ode_loop step (S fuel) xi xf yi h xs ys =
  ode_loop step fuel (xi + h) xf (step xi yi h) h (xs ++ [xi + h]) (ys ++ [step xi yi h]).
Proof. intros G. exact (ode_loop_step step fuel xi xf yi h xs ys (proj2 (Qleb_true _ _) G)). Qed.

Lemma ode_loop_stop_Q (fuel : nat) (xi xf : Q) (yi : Y) (h : Q) (xs : list Q) (ys : list Y) :
  xf < xi + h -> ode_loop step (S fuel) xi xf yi h xs ys = Ret (xs, ys).
Proof. intros G. exact (ode_loop_stop step fuel xi xf yi h xs ys (proj2 (Qleb_false _ _) G)). Qed.

Lemma guards_nsteps (xi xf h : Q) : 0 < h -> guards (nsteps xi xf h) xi xf h = true.
Proof.
  intros Hh. remember (nsteps xi xf h) as n eqn:En. revert xi En.
  induction n as [|n IH]; intros xi En; simpl.
  - apply negb_true_iff, Qleb_false. apply Qnot_le_lt. intros L.
    rewrite (nsteps_step _ _ _ Hh L) in En. discriminate.
  - destruct (Qle_bool (xi + h) xf) eqn:G.
    + simpl. apply IH. apply Qle_bool_iff in G. rewrite (nsteps_step _ _ _ Hh G) in En.
      now inv En.
    + apply (Qleb_false (xi + h) xf) in G. rewrite (nsteps_stop _ _ _ Hh G) in En.
      discriminate.
Qed.

Lemma ode_loop_Q (fuel : nat) (xi xf : Q) (yi : Y) (h : Q) (xs : list Q) (ys : list Y) :
  0 < h -> (nsteps xi xf h < fuel)%nat ->
  ode_loop step fuel xi xf yi h xs ys =
  Ret (xs ++ xs_of (trajectory step (nsteps xi xf h) xi yi h),
       ys ++ ys_of (trajectory step (nsteps xi xf h) xi yi h)).
Proof. intros Hh L. apply ode_loop_guards; [exact _ | now apply guards_nsteps | exact L]. Qed.

End LoopQ.

(** Run [ode_solve] in the goal to its result, for a positive step. *)
Ltac ode_solve_run :=
  unfold ode_solve; rewrite ode_loop_Q by (assumption || lia); simpl app.

Section RunQ.
Context {Y : Type}.
Variable step : Q -> Y -> Q -> Y.

#[local] Open Scope Q_scope.

(** C1. Termination and result.  For a positive step the loop returns, and
    any fuel above [nsteps xi xf h = floor ((xf - xi) / h)] is enough; the
    arrays are the initial condition followed by the reference trajectory
    of that many steps. *)
Theorem ode_solve_returns (fuel : nat) (xi xf : Q) (yi : Y) (h : Q) :
  0 < h -> (nsteps xi xf h < fuel)%nat ->
  ode_solve step fuel xi xf yi h =
  Ret (xi :: xs_of (trajectory step (nsteps xi xf h) xi yi h),
       yi :: ys_of (trajectory step (nsteps xi xf h) xi yi h)).
Proof. intros Hh L. now ode_solve_run. Qed.

(** C2. Divergence.  A step that is not positive and passes the guard once
    passes it for ever: the loop returns with no amount of fuel. *)
Theorem ode_loop_diverges (fuel : nat) (xi xf : Q) (yi : Y) (h : Q) (xs : list Q) (ys : list Y) :
  h <= 0 -> xi + h <= xf -> ode_loop step fuel xi xf yi h xs ys = OutOfFuel.
Proof.
  intros Hh. revert xi yi xs ys. induction fuel as [|fuel IH]; intros xi yi xs ys G;
    [reflexivity|].
  rewrite ode_loop_step_Q by exact G.
  apply IH. lra.
Qed.

(** The abscissas of the reference trajectory. *)
Lemma xs_of_trajectory (n : nat) (xi : Q) (yi : Y) (h : Q) :
  Qs_eq (xs_of (trajectory step n xi yi h))
        (map (fun k => xi + inject_Z (Z.of_nat (S k)) * h) (seq 0 n)).
Proof.
  revert xi yi. induction n as [|n IH]; intros; [constructor|].
  change (xs_of (trajectory step (S n) xi yi h))
    with ((xi + h) :: xs_of (trajectory step n (xi + h) (step xi yi h) h)).
  rewrite <- cons_seq, <- seq_shift, map_cons, map_map, IH.
  constructor.
  - rewrite inject_Z_succ. simpl. ring.
  - apply Qs_eq_map. intros k. rewrite (inject_Z_succ (S k)). ring.
Qed.



Lemma last_xs_of_trajectory (n : nat) (xi : Q) (yi : Y) (h : Q) :
  last (xs_of (trajectory step n xi yi h)) xi == xi + inject_Z (Z.of_nat n) * h.
Proof.
  revert xi yi. induction n as [|n IH]; intros.
  - simpl. ring.
  - simpl trajectory. unfold xs_of in *. simpl map. rewrite last_cons_default, IH.
    rewrite Nat2Z.inj_succ. unfold Z.succ. rewrite inject_Z_plus. qnum. ring.
Qed.

(** Where the run stops.  For a positive step and [xi <= xf] the last
    abscissa returned is at most [xf] and less than one step short of it.
    Nothing more holds: the loop never truncates its last step. *)
Theorem ode_solve_last_x (xi xf : Q) (yi : Y) (h : Q) :
  0 < h -> xi <= xf ->
  exists xs ys,
    ode_solve step (S (nsteps xi xf h)) xi xf yi h = Ret (xs, ys) /\
    last xs xi <= xf /\ xf < last xs xi + h.
Proof.
  intros Hh Hx. eexists _, _. split; [now ode_solve_run|].
  rewrite last_cons_default, last_xs_of_trajectory. now apply nsteps_bounds.
Qed.

(** C3. The run ends on [xf] exactly when [xf - xi] is a whole number of
    steps; otherwise the last abscissa is strictly below [xf]. *)
Theorem ode_solve_reaches_xf_iff (xi xf : Q) (yi : Y) (h : Q) :
  0 < h -> xi <= xf ->
  exists xs ys,
    ode_solve step (S (nsteps xi xf h)) xi xf yi h = Ret (xs, ys) /\
    (last xs xi == xf <-> (xf - xi) / h == inject_Z (Qfloor ((xf - xi) / h))).
Proof.
  intros Hh Hx. eexists _, _. split; [now ode_solve_run|].
  rewrite last_cons_default, last_xs_of_trajectory. unfold nsteps.
  assert (0 <= (xf - xi) / h) as Hq by (apply Qle_shift_div_l; lra).
  apply Qfloor_resp_le in Hq. change (Qfloor 0) with 0%Z in Hq.
  rewrite Z2Nat.id by assumption.
  assert (xf == xi + (xf - xi) / h * h) as Hxf by (field; lra).
  generalize dependent ((xf - xi) / h). intros q _ Hxf.
  rewrite Hxf. split; intros E.
  - apply (Qmult_inj_r _ _ h); lra.
  - apply (Qmult_inj_r _ _ h) in E; lra.
Qed.

(** Invariants.  A relation between abscissa and ordinate that holds
    initially and that one step preserves holds at every sample the run
    returns. *)
Theorem ode_solve_invariant (P : Q -> Y -> Prop) (xi xf : Q) (yi : Y) (h : Q) :
  0 < h -> P xi yi -> (forall x y, P x y -> P (x + h) (step x y h)) ->
  exists xs ys,
    ode_solve step (S (nsteps xi xf h)) xi xf yi h = Ret (xs, ys) /\ Forall2 P xs ys.
Proof.
  intros Hh H0 HP. eexists _, _. split; [now ode_solve_run|].
  constructor; [exact H0|]. now apply (trajectory_invariant step P h).
Qed.

Lemma ode_solve_lengths (xi xf : Q) (yi : Y) (h : Q) (xs : list Q) (ys : list Y) :
  0 < h ->
  ode_solve step (S (nsteps xi xf h)) xi xf yi h = Ret (xs, ys) ->
  length xs = S (nsteps xi xf h) /\ length ys = S (nsteps xi xf h).
Proof.
  intros Hh E. revert E. ode_solve_run. intros E. inv E.
  unfold xs_of, ys_of. simpl. now rewrite !length_map, trajectory_length.
Qed.

End RunQ.

(** ** The loop respects [==] *)

(** Two results agree when their abscissas and their ordinates do. *)
Definition traj_eq (r r' : list Q * list Q) : Prop :=
  Qs_eq (fst r) (fst r') /\ Qs_eq (snd r) (snd r').

Lemma ode_loop_Qeq (step step' : Q -> Q -> Q -> Q) (fuel : nat) :
  (Qeq ==> Qeq ==> Qeq ==> Qeq)%signature step step' ->
  forall xi xi' xf xf' yi yi' h h' xs xs' ys ys',
    xi == xi' -> xf == xf' -> yi == yi' -> h == h' -> Qs_eq xs xs' -> Qs_eq ys ys' ->
    outcome_rel traj_eq (ode_loop step fuel xi xf yi h xs ys)
                        (ode_loop step' fuel xi' xf' yi' h' xs' ys').
Proof.
  intros Hs. induction fuel as [|fuel IH]; intros * Ex Ef Ey Eh Exs Eys; [constructor|].
  destruct (Qlt_le_dec xf (xi + h)) as [G|G].
  - rewrite !ode_loop_stop_Q by (rewrite <- ?Ex, <- ?Ef, <- ?Eh; exact G).
    constructor. now split.
  - rewrite !ode_loop_step_Q by (rewrite <- ?Ex, <- ?Ef, <- ?Eh; exact G).
    apply IH; auto.
    + now rewrite Ex, Eh.
    + now apply Hs.
    + apply app_Qs_Proper; [assumption|]. constructor; [now rewrite Ex, Eh | constructor].
    + apply app_Qs_Proper; [assumption|]. constructor; [now apply Hs | constructor].
Qed.

#[export] Instance traj_eq_Equivalence : Equivalence traj_eq.
Proof.
  split.
  - intros r. split; reflexivity.
  - intros r r' [E1 E2]. split; now symmetry.
  - intros r1 r2 r3 [E1 E2] [E3 E4]. split; etransitivity; eassumption.
Qed.

#[export] Instance ode_loop_Proper :
  Proper ((Qeq ==> Qeq ==> Qeq ==> Qeq) ==> eq ==> Qeq ==> Qeq ==> Qeq ==> Qeq ==>
          Qs_eq ==> Qs_eq ==> outcome_rel traj_eq) (@ode_loop Q _ Q).
Proof.
  intros step step' Hs fuel ? <- xi xi' Ex xf xf' Ef yi yi' Ey h h' Eh xs xs' Exs ys ys' Eys.
  now apply ode_loop_Qeq.
Qed.

(** Equal inputs give equal runs.  Two stage formulas that agree up to
    [==], started on bounds, initial values and steps that are [==], end
    alike (both return, or both are still running) and return arrays that
    are [==] sample by sample. *)
Lemma ode_solve_Qeq (step step' : Q -> Q -> Q -> Q) (fuel : nat)
    (xi xi' xf xf' yi yi' h h' : Q) :
  (Qeq ==> Qeq ==> Qeq ==> Qeq)%signature step step' ->
  xi == xi' -> xf == xf' -> yi == yi' -> h == h' ->
  outcome_rel traj_eq (ode_solve step fuel xi xf yi h) (ode_solve step' fuel xi' xf' yi' h').
Proof.
  intros Hs Ex Ef Ey Eh. unfold ode_solve.
  apply ode_loop_Qeq; auto; constructor; auto; constructor.
Qed.

(** ** Concrete runs *)

(** The stage formula of the runs below: [y' = x], by Euler's rule. *)
Definition demo_step (x y h : Q) : Q := y + x * h.

Lemma ode_solve_returns_witness :
  ode_solve demo_step 4 0 1 0 (3 # 10) =
  Ret (0 :: xs_of (trajectory demo_step (nsteps 0 1 (3 # 10)) 0 0 (3 # 10)),
       0 :: ys_of (trajectory demo_step (nsteps 0 1 (3 # 10)) 0 0 (3 # 10))).
Proof. apply (ode_solve_returns demo_step 4 0 1 0 (3 # 10)); [reflexivity | vm_compute; lia]. Defined.

Lemma ode_loop_diverges_witness :
  ode_loop demo_step 50 0 1 0 (- (1 # 10)) [0] [0] = OutOfFuel.
Proof. apply ode_loop_diverges; vm_compute; discriminate. Defined.

Lemma ode_loop_clamp_dead_witness :
  ode_loop demo_step 4 0 1 0 (3 # 10) [0] [0] =
  ode_loop_unclamped demo_step 4 0 1 0 (3 # 10) [0] [0].
Proof. exact (ode_loop_clamp_dead (NumOrder0 := Q_NumOrder) demo_step 4 0 1 0 (3 # 10) [0] [0]). Defined.


Lemma ode_solve_last_x_witness :
  exists xs ys,
    ode_solve demo_step (S (nsteps 0 1 (3 # 10))) 0 1 0 (3 # 10) = Ret (xs, ys) /\
    last xs 0 <= 1 /\ 1 < last xs 0 + (3 # 10).
Proof. apply ode_solve_last_x; vm_compute; [reflexivity | discriminate]. Defined.

Lemma ode_solve_reaches_xf_iff_witness :
  exists xs ys,
    ode_solve demo_step (S (nsteps 0 1 (3 # 10))) 0 1 0 (3 # 10) = Ret (xs, ys) /\
    (last xs 0 == 1 <-> (1 - 0) / (3 # 10) == inject_Z (Qfloor ((1 - 0) / (3 # 10)))).
Proof. apply ode_solve_reaches_xf_iff; vm_compute; [reflexivity | discriminate]. Defined.

Lemma ode_loop_fuel_mono_witness :
  ode_loop demo_step 9 0 1 0 (3 # 10) [0] [0] =
  Ret ([0] ++ xs_of (trajectory demo_step 3 0 0 (3 # 10)),
       [0] ++ ys_of (trajectory demo_step 3 0 0 (3 # 10))).
Proof.
  apply (ode_loop_fuel_mono (NumOrder0 := Q_NumOrder) demo_step 4 9); [reflexivity | lia].
Defined.

Lemma ode_loop_no_raise_witness :
  ode_loop demo_step 2 0 1 0 (3 # 10) [0] [0] <> Raise ZeroDivisionError.
Proof. exact (ode_loop_no_raise (NumOrder0 := Q_NumOrder) demo_step 2 0 1 0 (3 # 10) [0] [0] _). Defined.

Lemma ode_solve_invariant_witness :
  exists xs ys,
    ode_solve demo_step (S (nsteps 0 1 (3 # 10))) 0 1 0 (3 # 10) = Ret (xs, ys) /\
    Forall2 (fun x y => 0 <= x /\ 0 <= y) xs ys.
Proof.
  apply (ode_solve_invariant demo_step (fun x y => 0 <= x /\ 0 <= y)).
  - reflexivity.
  - split; discriminate.
  - intros x y [Hx Hy]. unfold demo_step. split; nra.
Defined.
