(* ===== verification/ODE.v ===== *)
(** * ODE: the single-equation methods of [src/ODE.py]

    Each method of the class [ODE] is the loop of [Stepper] around its own
    stage formula.  [Euler_step], [Heun_step], [Midpoint_step], [RK2_step],
    [RK3_step], [RK4_step] and [RK5_step] are the loop bodies, with the
    source's literals, association and argument order; [Euler] ... [RK5]
    are the methods, with the arguments of the Python signatures after the
    fuel.  [method] names the methods and [solve] dispatches on it, so that
    a statement can range over all seven.

    The theorems over exact rationals:
    - every method returns for a positive step, and what it returns
      ([solve_returns]); none ends on [xf] unless the step divides the
      interval ([Euler_misses_xf]);
    - [Heun] and [Midpoint] are [RK2] at two coefficient choices;
    - on the test equation [y' = c * y] one step multiplies [y] by the
      Taylor polynomial of [exp] of the method's order, and a whole run by
      its powers;
    - on a right-hand side that is a polynomial in [x] of degree up to
      [exactness m] the method [m] returns the exact solution at every
      sample ([solve_exact]);
    - [RK2] is exact on straight lines exactly when [a1 + a2 = 1] and
      [a2 p1 = 1/2], which the code does not check.

    Over binary64: the docstring's call stops one step short of [xf]
    ([Euler_docstring_run]), and a positive step can leave the abscissa
    where it is, so that the loop never ends ([binary64_stall]). *)

From Stdlib Require Import ZArith QArith Qround Lqa Lia List Bool Morphisms Setoid Sorted.
From Stdlib Require Import Floats.
From S2P Require Import Prelude NumQ NumFloat Stepper.
Import ListNotations.

(** ** The methods *)

Section Methods.
Context {A : Type} `{Num A}.

#[local] Open Scope num_scope.

Definition Euler_step (dydx : A -> A -> A) (xi yi h : A) : A :=
  let y_next := yi + dydx xi yi * h in
  y_next.

Definition Heun_step (dydx : A -> A -> A) (xi yi h : A) : A :=
  let y_next_0 := yi + dydx xi yi * h in
  let y_next_1 := dydx (xi + h) y_next_0 in
  yi + (dydx xi yi + y_next_1) / 2 * h.

Definition Midpoint_step (dydx : A -> A -> A) (xi yi h : A) : A :=
  let y_next_hl := yi + dydx xi yi * h / 2 in
  yi + dydx (xi + h / 2) y_next_hl * h.

Definition RK2_step (a1 a2 p1 q11 : A) (dydx : A -> A -> A) (xi yi h : A) : A :=
  let k1 := dydx xi yi in
  let k2 := dydx (xi + p1 * h) (yi + q11 * k1 * h) in
  yi + (a1 * k1 + a2 * k2) * h.

Definition RK3_step (dydx : A -> A -> A) (xi yi h : A) : A :=
  let k1 := dydx xi yi in
  let k2 := dydx (xi + 1 / 2 * h) (yi + 1 / 2 * k1 * h) in
  let k3 := dydx (xi + h) (yi - k1 * h + 2 * k2 * h) in
  yi + 1 / 6 * (k1 + 4 * k2 + k3) * h.

Definition RK4_step (dydx : A -> A -> A) (xi yi h : A) : A :=
  let k1 := dydx xi yi in
  let k2 := dydx (xi + 1 / 2 * h) (yi + 1 / 2 * k1 * h) in
  let k3 := dydx (xi + 1 / 2 * h) (yi + 1 / 2 * k2 * h) in
  let k4 := dydx (xi + h) (yi + k3 * h) in
  yi + 1 / 6 * (k1 + 2 * k2 + 2 * k3 + k4) * h.

Definition RK5_step (dydx : A -> A -> A) (xi yi h : A) : A :=
  let k1 := dydx xi yi in
  let k2 := dydx (xi + 1 / 4 * h) (yi + 1 / 4 * k1 * h) in
  let k3 := dydx (xi + 1 / 4 * h) (yi + 1 / 8 * k1 * h + 1 / 8 * k2 * h) in
  let k4 := dydx (xi + 1 / 2 * h) (yi - 1 / 2 * k2 * h + k3 * h) in
  let k5 := dydx (xi + 3 / 4 * h) (yi + 3 / 16 * k1 * h + 9 / 16 * k4 * h) in
  let k6 := dydx (xi + h)
              (yi - 3 / 7 * k1 * h + 2 / 7 * k2 * h + 12 / 7 * k3 * h
                  - 12 / 7 * k4 * h + 8 / 7 * k5 * h) in
  yi + 1 / 90 * (7 * k1 + 32 * k3 + 12 * k4 + 32 * k5 + 7 * k6) * h.

Definition Euler (fuel : nat) (xi xf yi h : A) (dydx : A -> A -> A) :=
  ode_solve (Euler_step dydx) fuel xi xf yi h.

Definition Heun (fuel : nat) (xi xf yi h : A) (dydx : A -> A -> A) :=
  ode_solve (Heun_step dydx) fuel xi xf yi h.

Definition Midpoint (fuel : nat) (xi xf yi h : A) (dydx : A -> A -> A) :=
  ode_solve (Midpoint_step dydx) fuel xi xf yi h.

Definition RK2 (fuel : nat) (xi xf yi h a1 a2 p1 q11 : A) (dydx : A -> A -> A) :=
  ode_solve (RK2_step a1 a2 p1 q11 dydx) fuel xi xf yi h.

Definition RK3 (fuel : nat) (xi xf yi h : A) (dydx : A -> A -> A) :=
  ode_solve (RK3_step dydx) fuel xi xf yi h.

Definition RK4 (fuel : nat) (xi xf yi h : A) (dydx : A -> A -> A) :=
  ode_solve (RK4_step dydx) fuel xi xf yi h.

Definition RK5 (fuel : nat) (xi xf yi h : A) (dydx : A -> A -> A) :=
  ode_solve (RK5_step dydx) fuel xi xf yi h.

(** The scalar methods of the class, by name. *)
Inductive method : Type :=
| mEuler | mHeun | mMidpoint | mRK2 (a1 a2 p1 q11 : A) | mRK3 | mRK4 | mRK5.

Definition step_of (m : method) : (A -> A -> A) -> A -> A -> A -> A :=
  match m with
  | mEuler => Euler_step
  | mHeun => Heun_step
  | mMidpoint => Midpoint_step
  | mRK2 a1 a2 p1 q11 => RK2_step a1 a2 p1 q11
  | mRK3 => RK3_step
  | mRK4 => RK4_step
  | mRK5 => RK5_step
  end.

Definition solve (m : method) (fuel : nat) (xi xf yi h : A) (dydx : A -> A -> A) :=
  match m with
  | mEuler => Euler fuel xi xf yi h dydx
  | mHeun => Heun fuel xi xf yi h dydx
  | mMidpoint => Midpoint fuel xi xf yi h dydx
  | mRK2 a1 a2 p1 q11 => RK2 fuel xi xf yi h a1 a2 p1 q11 dydx
  | mRK3 => RK3 fuel xi xf yi h dydx
  | mRK4 => RK4 fuel xi xf yi h dydx
  | mRK5 => RK5 fuel xi xf yi h dydx
  end.

Lemma solve_ode_solve (m : method) (fuel : nat) (xi xf yi h : A) (dydx : A -> A -> A) :
  solve m fuel xi xf yi h dydx = ode_solve (step_of m dydx) fuel xi xf yi h.
Proof. destruct m; reflexivity. Qed.

End Methods.

Arguments method A : clear implicits.

(** ** Over exact rationals *)

#[local] Open Scope Q_scope.

(** Unfold a stage formula down to the operations of [Q]. *)
Ltac unfold_steps :=
  cbv beta delta [step_of Euler_step Heun_step Midpoint_step RK2_step RK3_step RK4_step RK5_step]
    iota zeta in *.

(** The stage formulas respect [==] when the callback does. *)
#[export] Instance step_of_Proper (m : method Q) (dydx : Q -> Q -> Q) :
  Proper (Qeq ==> Qeq ==> Qeq) dydx ->
  Proper (Qeq ==> Qeq ==> Qeq ==> Qeq) (step_of m dydx).
Proof.
  intros Hf x x' Ex y y' Ey h h' Eh. destruct m; unfold_steps; qnum; qproper.
Qed.

Section Runs.
Variable dydx : Q -> Q -> Q.

(** Every method returns for a positive step, with
    [floor ((xf - xi) / h) + 1] samples: the initial condition followed by
    the reference trajectory of its stage formula. *)
Theorem solve_returns (m : method Q) (fuel : nat) (xi xf yi h : Q) :
  0 < h -> (nsteps xi xf h < fuel)%nat ->
  solve m fuel xi xf yi h dydx =
  Ret (xi :: xs_of (trajectory (step_of m dydx) (nsteps xi xf h) xi yi h),
       yi :: ys_of (trajectory (step_of m dydx) (nsteps xi xf h) xi yi h)).
Proof. intros Hh L. rewrite solve_ode_solve. now ode_solve_run. Qed.

(** *** Heun and Midpoint are instances of RK2 *)

Context {dydx_Proper : Proper (Qeq ==> Qeq ==> Qeq) dydx}.

Lemma Heun_step_RK2 (x y h : Q) :
  Heun_step dydx x y h == RK2_step (1 # 2) (1 # 2) 1 1 dydx x y h.
Proof.
  unfold_steps. qnum.
  assert (dydx (x + 1 * h) (y + 1 * dydx x y * h) == dydx (x + h) (y + dydx x y * h)) as ->
    by (apply dydx_Proper; ring).
  field.
Qed.

Lemma Midpoint_step_RK2 (x y h : Q) :
  Midpoint_step dydx x y h == RK2_step 0 1 (1 # 2) (1 # 2) dydx x y h.
Proof.
  unfold_steps. qnum.
  assert (dydx (x + (1 # 2) * h) (y + (1 # 2) * dydx x y * h) ==
          dydx (x + h / 2) (y + dydx x y * h / 2)) as ->
    by (apply dydx_Proper; field).
  ring.
Qed.

(** Two stage formulas that agree pointwise, one of them a morphism,
    are related as the loop needs them. *)
Lemma steps_related (m : method Q) (step : Q -> Q -> Q -> Q) :
  (forall x y h, step x y h == step_of m dydx x y h) ->
  (Qeq ==> Qeq ==> Qeq ==> Qeq)%signature step (step_of m dydx).
Proof.
  intros E x x' Ex y y' Ey h h' Eh. rewrite E. now apply step_of_Proper.
Qed.

(** [Heun] is [RK2] with [a1 = a2 = 1/2], [p1 = q11 = 1]: the two
    methods end alike and return the same samples up to [==], on every
    input and for every fuel. *)
Theorem Heun_is_RK2 (fuel : nat) (xi xf yi h : Q) :
  outcome_rel traj_eq (Heun fuel xi xf yi h dydx)
                      (RK2 fuel xi xf yi h (1 # 2) (1 # 2) 1 1 dydx).
Proof.
  apply ode_solve_Qeq; try reflexivity.
  apply (steps_related (mRK2 (1 # 2) (1 # 2) 1 1)), Heun_step_RK2.
Qed.

(** [Midpoint] is [RK2] with [a1 = 0], [a2 = 1], [p1 = q11 = 1/2]. *)
Theorem Midpoint_is_RK2 (fuel : nat) (xi xf yi h : Q) :
  outcome_rel traj_eq (Midpoint fuel xi xf yi h dydx)
                      (RK2 fuel xi xf yi h 0 1 (1 # 2) (1 # 2) dydx).
Proof.
  apply ode_solve_Qeq; try reflexivity.
  apply (steps_related (mRK2 0 1 (1 # 2) (1 # 2))), Midpoint_step_RK2.
Qed.

End Runs.

(** ** The linear test equation [y' = lam * y] *)

(** What one step multiplies [y] by, as a polynomial in [z = lam * h]. *)
Definition stability (m : method Q) (z : Q) : Q :=
  match m with
  | mEuler => 1 + z
  | mHeun | mMidpoint => 1 + z + z ^ 2 / 2
  | mRK2 a1 a2 p1 q11 => 1 + (a1 + a2) * z + a2 * q11 * z ^ 2
  | mRK3 => 1 + z + z ^ 2 / 2 + z ^ 3 / 6
  | mRK4 => 1 + z + z ^ 2 / 2 + z ^ 3 / 6 + z ^ 4 / 24
  | mRK5 => 1 + z + z ^ 2 / 2 + z ^ 3 / 6 + z ^ 4 / 24 + z ^ 5 / 120 + z ^ 6 / 640
  end.

(** The order of each method, and the conditions the docstring of [RK2]
    asks of its coefficients. *)
Definition order (m : method Q) : nat :=
  match m with
  | mEuler => 1
  | mHeun | mMidpoint | mRK2 _ _ _ _ => 2
  | mRK3 => 3
  | mRK4 => 4
  | mRK5 => 5
  end.

Definition RK2_conditions (a1 a2 p1 q11 : Q) : Prop :=
  a1 + a2 == 1 /\ a2 * p1 == 1 # 2 /\ a2 * q11 == 1 # 2.

Definition consistent (m : method Q) : Prop :=
  match m with
  | mRK2 a1 a2 p1 q11 => RK2_conditions a1 a2 p1 q11
  | _ => True
  end.

(** The Taylor polynomial of [exp] of degree [n]. *)
Fixpoint taylor_exp (n : nat) (z : Q) : Q :=
  match n with
  | O => 1
  | S n' => taylor_exp n' z + z ^ Z.of_nat n / inject_Z (Z.of_nat (fact n))
  end.

(** The coefficient of [z ^ (order m + 1)] that the method adds to it. *)
Definition excess (m : method Q) : Q :=
  match m with
  | mRK5 => 1 # 640
  | _ => 0
  end.

Lemma step_stability (m : method Q) (lam x y h : Q) :
  step_of m (fun _ y => lam * y) x y h == y * stability m (lam * h).
Proof. destruct m; unfold_steps; unfold stability; qnum; field. Qed.

Lemma stability_taylor (m : method Q) (z : Q) :
  consistent m ->
  stability m z == taylor_exp (order m) z + excess m * z ^ Z.of_nat (S (order m)).
Proof.
  destruct m; intros C; cbn -[Qpower Qdiv Qplus Qmult]; qlit; try field.
  destruct C as (C1 & C2 & C3). rewrite C1, C3. field.
Qed.

(** Order on the test equation.  For [y' = lam * y] one step of a
    method of order [p] multiplies [y] by the Taylor polynomial of
    [exp (lam * h)] of degree [p]; [RK5] adds [(lam * h)^6 / 640] to it,
    the others nothing.  For [RK2] this needs the conditions of its
    docstring. *)
Theorem step_test_equation (m : method Q) (lam x y h : Q) :
  consistent m ->
  step_of m (fun _ y => lam * y) x y h ==
  y * (taylor_exp (order m) (lam * h) + excess m * (lam * h) ^ Z.of_nat (S (order m))).
Proof. intros C. now rewrite step_stability, stability_taylor. Qed.

(** C5. A whole run on the test equation is geometric: every method
    returns, and its [k]-th ordinate is [yi * stability m (lam * h) ^ k]. *)
Theorem solve_test_equation (m : method Q) (fuel : nat) (lam xi xf yi h : Q) :
  0 < h -> (nsteps xi xf h < fuel)%nat ->
  exists xs ys,
    solve m fuel xi xf yi h (fun _ y => lam * y) = Ret (xs, ys) /\
    Qs_eq ys (map (fun k => yi * stability m (lam * h) ^ Z.of_nat k)
                  (seq 0 (S (nsteps xi xf h)))).
Proof.
  intros Hh L. eexists _, _. split; [rewrite solve_ode_solve; now ode_solve_run|].
  rewrite <- cons_seq, <- seq_shift, map_cons, map_map. constructor; [simpl; ring|].
  apply Qs_eq_geometric; [|unfold ys_of; now rewrite length_map, trajectory_length].
  apply ys_of_related. intros x y. apply step_stability.
Qed.

(** ** Right-hand sides that are polynomials in [x] *)

(** Polynomials are [NumQ.peval] of their coefficients, [NumQ.pint] the
    antiderivative. *)

(** The degree up to which the quadrature rule behind each method is
    exact: rectangle, trapezoid, midpoint, Simpson, Simpson, Boole. *)
Definition exactness (m : method Q) : nat :=
  match m with
  | mEuler => 0
  | mHeun | mMidpoint | mRK2 _ _ _ _ => 1
  | mRK3 | mRK4 => 3
  | mRK5 => 5
  end.

(** [RK2] on an affine right-hand side, under the conditions of its
    docstring. *)
Lemma RK2_affine (a1 a2 p1 q11 c0 c1 x y h : Q) :
  RK2_conditions a1 a2 p1 q11 ->
  y + (a1 * (c0 + x * c1) + a2 * (c0 + (x + p1 * h) * c1)) * h ==
  y + (c0 * h + c1 * (x * h + h ^ 2 / 2)).
Proof.
  intros (C1 & C2 & C3). setoid_replace a1 with (1 - a2) by lra.
  transitivity (y + (c0 * h + c1 * (x * h + a2 * p1 * h ^ 2))); [ring|].
  rewrite C2. field.
Qed.

Lemma step_exact (m : method Q) (p : list Q) (x y h : Q) :
  consistent m -> (length p <= S (exactness m))%nat ->
  step_of m (fun x _ => peval p x) x y h ==
  y + (peval (pint p) (x + h) - peval (pint p) x).
Proof.
  destruct m; intros C Hp; simpl in Hp;
    destruct p as [|c0 [|c1 [|c2 [|c3 [|c4 [|c5 [|c6 p]]]]]]]; simpl in Hp; try lia;
    unfold_steps; cbn [peval pint pint_from Pos.succ]; qnum; try field.
  - rewrite (RK2_affine a1 a2 p1 q11 c0 0 x y h C). field.
  - transitivity (y + (a1 * (c0 + x * c1) + a2 * (c0 + (x + p1 * h) * c1)) * h); [ring|].
    rewrite (RK2_affine a1 a2 p1 q11 c0 c1 x y h C). field.
Qed.

(** C4. Exactness.  When the right-hand side is a polynomial in [x] alone
    of degree at most 0 for [Euler], 1 for [Heun], [Midpoint] and [RK2],
    3 for [RK3] and [RK4], 5 for [RK5], the method returns and every sample
    lies on the exact solution [y(x) = yi + G(x) - G(xi)], [G] an
    antiderivative of the right-hand side. *)
Theorem solve_exact (m : method Q) (fuel : nat) (p : list Q) (xi xf yi h : Q) :
  consistent m -> (length p <= S (exactness m))%nat ->
  0 < h -> (nsteps xi xf h < fuel)%nat ->
  exists xs ys,
    solve m fuel xi xf yi h (fun x _ => peval p x) = Ret (xs, ys) /\
    Forall2 (fun x y => y == yi + (peval (pint p) x - peval (pint p) xi)) xs ys.
Proof.
  intros C Hp Hh L. eexists _, _. split; [rewrite solve_ode_solve; now ode_solve_run|].
  constructor; [ring|].
  apply (trajectory_invariant _ (fun x y => y == yi + (peval (pint p) x - peval (pint p) xi))).
  - intros x y E. rewrite step_exact, E by assumption. qnum. ring.
  - ring.
Qed.

(** The coefficients of [RK2] are taken as given.  The method
    integrates every affine right-hand side [c0 + c1 * x] exactly if and
    only if [a1 + a2 = 1] and [a2 * p1 = 1/2]; with any other coefficients
    it returns a wrong answer, and nothing in the code says so. *)
Theorem RK2_exact_iff (a1 a2 p1 q11 : Q) :
  (forall c0 c1 x y h,
     RK2_step a1 a2 p1 q11 (fun x _ => c0 + c1 * x) x y h ==
     y + (c0 * h + c1 * (x * h + h ^ 2 / 2)))
  <-> a1 + a2 == 1 /\ a2 * p1 == 1 # 2.
Proof.
  split.
  - intros E. pose proof (E 1 0 0 0 1) as E1. pose proof (E 0 1 0 0 1) as E2.
    unfold_steps. qnum. ring_simplify in E1. ring_simplify in E2.
    split; [exact E1 | now rewrite E2].
  - intros [C1 C2] *. unfold_steps. qnum. setoid_replace a1 with (1 - a2) by lra.
    transitivity (y + (c0 * h + c1 * (x * h + a2 * p1 * h ^ 2))); [ring|].
    rewrite C2. field.
Qed.

(** ** Concrete runs *)

(** The right-hand side of the docstrings: [dy/dx = 2 x + y]. *)
Definition df (x y : Q) : Q := 2 * x + y.

#[export] Instance df_Proper : Proper (Qeq ==> Qeq ==> Qeq) df.
Proof. intros x x' Ex y y' Ey. unfold df. now rewrite Ex, Ey. Qed.

(** The last abscissa is not [xf] in general.  On [[0, 1]] with
    [h = 3/10] [Euler] returns four samples and stops at [9/10]: the spec's
    trajectory invariant (last [x] equal to the upper bound through a
    truncated final step) does not hold of the code. *)
Theorem Euler_misses_xf :
  exists xs ys,
    Euler 10 0 1 2 (3 # 10) df = Ret (xs, ys) /\
    length xs = 4%nat /\ last xs 0 == 9 # 10 /\ ~ last xs 0 == 1.
Proof. eexists _, _. split; [reflexivity|]. vm_compute. repeat split; discriminate. Qed.

(** ** Runs in binary64 *)

(** The same right-hand side over floats, and the step [0.2] of the
    docstrings. *)
Definition df64 (x y : float) : float := (2 * x + y)%float.

Definition h02 : float := float_of_ratio 2 10.

(** The docstring's call [solver.Euler(0, 5, 2, 0.2, df)].  In exact
    arithmetic it returns 26 samples and ends on [x = 5].  In binary64 the
    sum of 24 steps is [4.8000000000000016], one more step would exceed
    [5], and the run returns 25 samples: the value at [xf] is never
    computed. *)
Theorem Euler_docstring_run :
  (exists xs ys,
     Euler 100 0 5 2 (2 # 10) df = Ret (xs, ys) /\ length xs = 26%nat /\ last xs 0 == 5) /\
  (exists xs ys,
     Euler 100 0%float 5%float 2%float h02 df64 = Ret (xs, ys) /\ length xs = 25%nat /\
     last xs 0%float = 0x1.3333333333335p+2%float).
Proof.
  split; eexists _, _.
  - unfold Euler, ode_solve. rewrite ode_loop_Q; [|reflexivity|vm_compute; lia].
    split; [reflexivity|]. cbn [app]. split.
    + unfold xs_of. cbn [length]. now rewrite length_map, trajectory_length.
    + rewrite last_cons_default.
      etransitivity; [apply last_xs_of_trajectory | vm_compute; reflexivity].
  - vm_compute. repeat split.
Qed.

(** A positive step is not enough in binary64.  At [xi = 2^53] the
    sum [xi + 1] rounds back to [xi]: with [h = 1 > 0] and [xi < xf] the
    loop of every method runs for ever, where over the rationals it would
    return after 8 steps. *)
Theorem binary64_stall (m : method float) (fuel : nat) :
  let xi := float_of_Z (2 ^ 53) in
  let xf := float_of_Z (2 ^ 53 + 8) in
  PrimFloat.ltb 0%float 1%float = true /\ PrimFloat.ltb xi xf = true /\
  solve m fuel xi xf 2%float 1%float df64 = OutOfFuel.
Proof.
  intros xi xf. repeat split. rewrite solve_ode_solve.
  apply (ode_loop_stalls _ (NumOrder0 := Float_NumOrder)); reflexivity.
Qed.

Lemma Heun_is_RK2_witness :
  outcome_rel traj_eq (Heun 30 0 5 2 (2 # 10) df)
                      (RK2 30 0 5 2 (2 # 10) (1 # 2) (1 # 2) 1 1 df).
Proof. exact (Heun_is_RK2 df (dydx_Proper := df_Proper) 30 0 5 2 (2 # 10)). Defined.

Lemma Midpoint_is_RK2_witness :
  outcome_rel traj_eq (Midpoint 30 0 5 2 (2 # 10) df)
                      (RK2 30 0 5 2 (2 # 10) 0 1 (1 # 2) (1 # 2) df).
Proof. exact (Midpoint_is_RK2 df (dydx_Proper := df_Proper) 30 0 5 2 (2 # 10)). Defined.

Lemma step_test_equation_witness :
  step_of (mRK2 (1 # 2) (1 # 2) 1 1) (fun _ y => (1 # 3) * y) 0 2 (2 # 10) ==
  2 * (taylor_exp 2 ((1 # 3) * (2 # 10)) + 0 * ((1 # 3) * (2 # 10)) ^ 3).
Proof.
  apply (step_test_equation (mRK2 (1 # 2) (1 # 2) 1 1)). repeat split; reflexivity.
Defined.

Lemma solve_test_equation_witness :
  exists xs ys,
    solve mRK5 30 0 5 2 (2 # 10) (fun _ y => (1 # 3) * y) = Ret (xs, ys) /\
    Qs_eq ys (map (fun k => 2 * stability mRK5 ((1 # 3) * (2 # 10)) ^ Z.of_nat k)
                  (seq 0 (S (nsteps 0 5 (2 # 10))))).
Proof. apply solve_test_equation; [reflexivity | vm_compute; lia]. Defined.

Lemma solve_exact_witness :
  exists xs ys,
    solve mRK4 30 0 5 2 (2 # 10) (fun x _ => peval [1; 0; 3; 1] x) = Ret (xs, ys) /\
    Forall2 (fun x y => y == 2 + (peval (pint [1; 0; 3; 1]) x - peval (pint [1; 0; 3; 1]) 0))
            xs ys.
Proof. apply solve_exact; [exact I | simpl; lia | reflexivity | vm_compute; lia]. Defined.

Lemma RK2_exact_iff_witness :
  (forall c0 c1 x y h,
     RK2_step (1 # 2) (1 # 2) 1 1 (fun x _ => c0 + c1 * x) x y h ==
     y + (c0 * h + c1 * (x * h + h ^ 2 / 2)))
  <-> (1 # 2) + (1 # 2) == 1 /\ (1 # 2) * 1 == 1 # 2.
Proof. exact (RK2_exact_iff (1 # 2) (1 # 2) 1 1). Defined.

Lemma solve_returns_witness :
  solve mRK4 30 0 5 2 (2 # 10) df =
  Ret (0 :: xs_of (trajectory (step_of mRK4 df) (nsteps 0 5 (2 # 10)) 0 2 (2 # 10)),
       2 :: ys_of (trajectory (step_of mRK4 df) (nsteps 0 5 (2 # 10)) 0 2 (2 # 10))).
Proof. apply solve_returns; [reflexivity | vm_compute; lia]. Defined.
