(* ===== verification/ODESystem.v ===== *)
(** * ODESystem: the steppers for systems of equations

    [ODE.SystemEuler] and [ODE.SystemRK4] of [src/ODE.py] integrate
    [y_i' = dydx[i](args)], [args = [x, y_1, ..., y_n]], with the loop of
    the scalar methods.  The state [yi] and the argument vector [args] are
    Python lists that the methods read and assign by index; here they are
    [list A] read with [getitem] and assigned with [setitem], so that an
    index out of range is the [IndexError] of the source.  The [for] loops
    are [for_each] over [seq 0 (length dydx)].  The rows of [k_arr] are
    built by appending: in every pass of the [while] loop the source
    assigns each entry before it reads it, so the content [np.empty] left
    there is never observed.  Callbacks are total functions of [args].

    [system_loop] is the [while] loop over a stage that may raise.  It
    returns the two arrays and, as a third component, the list [yi] as the
    call leaves it: the caller's list, which the source assigns in place.

    Theorems: a stage on a state as long as [dydx] never raises and is a
    closed formula ([SystemEuler_ref], [SystemRK4_ref]), a shorter state
    raises [IndexError] in the first step taken; the loop then is the loop
    of [Stepper] on lists, which gives termination and the samples over
    [Q]; a system of one equation is the scalar method; [SystemRK4]
    evaluates [dydx[i]] on an argument vector of which only the entries up
    to [i + 1] belong to the current stage, so it is the classical
    Runge-Kutta method on systems in which equation [i] reads no later
    unknown, and is not in general. *)

From Stdlib Require Import ZArith QArith Qround Lqa Lia List Bool.
From S2P Require Import Prelude NumQ Stepper ODE.
Import ListNotations.

(** ** The stages *)

Section Systems.
Context {A : Type} `{Num A}.

#[local] Open Scope nat_scope.
#[local] Open Scope num_scope.
#[local] Open Scope outcome_scope.

(** [args.append(xi)] and [for g in range(len(dydx)): args.append(yi[g])]. *)
Definition build_args (xi : A) (yi : list A) (n : nat) : outcome (list A) :=
  for_each (seq 0 n) (fun g args => v <- getitem yi g ;; Ret (args ++ [v])) [xi].

(** [for j in range(len(dydx)): yi[j] = yi[j] + dydx[j](args) * h]. *)
Definition SystemEuler_update (dydx : list (list A -> A)) (args : list A) (h : A)
    (yi : list A) : outcome (list A) :=
  for_each (seq 0 (length dydx))
    (fun j yi =>
       y <- getitem yi j ;;
       f <- getitem dydx j ;;
       setitem yi j (y + f args * h)) yi.

Definition SystemEuler_step (dydx : list (list A -> A)) (xi : A) (yi : list A) (h : A)
  : outcome (list A) :=
  args <- build_args xi yi (length dydx) ;;
  SystemEuler_update dydx args h yi.

(** [for i in range(len(dydx)): k_arr[0][i] = dydx[i](args)]. *)
Definition SystemRK4_k1 (dydx : list (list A -> A)) (args : list A) : outcome (list A) :=
  for_each (seq 0 (length dydx))
    (fun i k => f <- getitem dydx i ;; Ret (k ++ [f args])) [].

(** The second and the third stage: [args[i+1]] is assigned and
    [dydx[i]] evaluated on [args] as it then is, entry by entry. *)
Definition SystemRK4_mid (dydx : list (list A -> A)) (yi k : list A) (h : A)
    (args : list A) : outcome (list A * list A) :=
  for_each (seq 0 (length dydx))
    (fun i '(args, k') =>
       y <- getitem yi i ;;
       ki <- getitem k i ;;
       args <- setitem args (i + 1) (y + 1 / 2 * ki * h) ;;
       f <- getitem dydx i ;;
       Ret (args, k' ++ [f args])) (args, []).

(** The fourth stage, which also assigns [yi[i]]. *)
Definition SystemRK4_last (dydx : list (list A -> A)) (k1 k2 k3 : list A) (h : A)
    (args yi : list A) : outcome (list A * list A) :=
  for_each (seq 0 (length dydx))
    (fun i '(args, yi) =>
       y <- getitem yi i ;;
       k3i <- getitem k3 i ;;
       args <- setitem args (i + 1) (y + k3i * h) ;;
       f <- getitem dydx i ;;
       let k4i := f args in
       k1i <- getitem k1 i ;;
       k2i <- getitem k2 i ;;
       yi <- setitem yi i (y + 1 / 6 * (k1i + 2 * k2i + 2 * k3i + k4i) * h) ;;
       Ret (args, yi)) (args, yi).

Definition SystemRK4_step (dydx : list (list A -> A)) (xi : A) (yi : list A) (h : A)
  : outcome (list A) :=
  args <- build_args xi yi (length dydx) ;;
  k1 <- SystemRK4_k1 dydx args ;;
  args <- setitem args 0 (xi + 1 / 2 * h) ;;
  ' (args, k2) <- SystemRK4_mid dydx yi k1 h args ;;
  args <- setitem args 0 (xi + 1 / 2 * h) ;;
  ' (args, k3) <- SystemRK4_mid dydx yi k2 h args ;;
  args <- setitem args 0 (xi + h) ;;
  ' (_, yi) <- SystemRK4_last dydx k1 k2 k3 h args yi ;;
  Ret yi.

(** ** The loop *)

Fixpoint system_loop (step : A -> list A -> A -> outcome (list A)) (fuel : nat)
    (xi xf : A) (yi : list A) (h : A) (x_arr : list A) (y_arr : list (list A))
  : outcome (list A * list (list A) * list A) :=
  match fuel with
  | O => OutOfFuel
  | S fuel =>
      if xi + h <=? xf then
        let h := if xi + h >? xf then xf - xi else h in
        yi <- step xi yi h ;;
        let xi := xi + h in
        system_loop step fuel xi xf yi h (x_arr ++ [xi]) (y_arr ++ [yi])
      else Ret (x_arr, y_arr, yi)
  end.

Definition SystemEuler (fuel : nat) (xi xf : A) (yi : list A) (h : A)
    (dydx : list (list A -> A)) : outcome (list A * list (list A) * list A) :=
  system_loop (SystemEuler_step dydx) fuel xi xf yi h [xi] [yi].

Definition SystemRK4 (fuel : nat) (xi xf : A) (yi : list A) (h : A)
    (dydx : list (list A -> A)) : outcome (list A * list (list A) * list A) :=
  system_loop (SystemRK4_step dydx) fuel xi xf yi h [xi] [yi].

(** ** What a stage computes *)

(** Every right-hand side on one argument vector. *)
Definition eval_all (dydx : list (list A -> A)) (args : list A) : list A :=
  map (fun f => f args) dydx.

(** The argument vector [dydx[i]] is given in a stage of [SystemRK4]:
    the abscissa, the entries up to [i] of the stage ([new]) and, after
    them, what the stage before left ([old]). *)
Definition stale_args (x : A) (new old : list A) (i : nat) : list A :=
  x :: splice (S i) new old.

Definition sweep (dydx : list (list A -> A)) (x : A) (new old : list A) : list A :=
  tabulate (fun i => nth i dydx (fun _ => 0) (stale_args x new old i)) (length dydx).

Definition SystemEuler_ref (dydx : list (list A -> A)) (xi : A) (yi : list A) (h : A)
  : list A :=
  zip_with (fun y f => y + f (xi :: yi) * h) yi dydx.

Definition rk4_combine (yi k1 k2 k3 k4 : list A) (h : A) : list A :=
  tabulate
    (fun i => nth i yi 0
              + 1 / 6 * (nth i k1 0 + 2 * nth i k2 0 + 2 * nth i k3 0 + nth i k4 0) * h)
    (length yi).

(** The four stages over an evaluation [ev x new old] of the right-hand
    sides. *)
Definition RK4_stages (ev : A -> list A -> list A -> list A) (k1 : list A)
    (xi : A) (yi : list A) (h : A) : list A :=
  let y2 := zip_with (fun y k => y + 1 / 2 * k * h) yi k1 in
  let k2 := ev (xi + 1 / 2 * h) y2 yi in
  let y3 := zip_with (fun y k => y + 1 / 2 * k * h) yi k2 in
  let k3 := ev (xi + 1 / 2 * h) y3 y2 in
  let y4 := zip_with (fun y k => y + k * h) yi k3 in
  let k4 := ev (xi + h) y4 y3 in
  rk4_combine yi k1 k2 k3 k4 h.

(** What the source computes, and the classical method. *)
Definition SystemRK4_ref (dydx : list (list A -> A)) (xi : A) (yi : list A) (h : A)
  : list A :=
  RK4_stages (sweep dydx) (eval_all dydx (xi :: yi)) xi yi h.

Definition RK4_classical (dydx : list (list A -> A)) (xi : A) (yi : list A) (h : A)
  : list A :=
  RK4_stages (fun x new _ => eval_all dydx (x :: new)) (eval_all dydx (xi :: yi)) xi yi h.

(** Equation [i] reads the abscissa and the unknowns up to its own. *)
Definition triangular (dydx : list (list A -> A)) : Prop :=
  forall i a b, i < length dydx -> firstn (S (S i)) a = firstn (S (S i)) b ->
    nth i dydx (fun _ => 0) a = nth i dydx (fun _ => 0) b.

Implicit Types (dydx : list (list A -> A)) (yi args : list A).

Lemma eval_all_length dydx args : length (eval_all dydx args) = length dydx.
Proof. apply length_map. Qed.

Lemma sweep_length dydx x new old : length (sweep dydx x new old) = length dydx.
Proof. apply tabulate_length. Qed.

Lemma SystemEuler_ref_length dydx xi yi h :
  length yi = length dydx -> length (SystemEuler_ref dydx xi yi h) = length dydx.
Proof. intros E. unfold SystemEuler_ref. now rewrite zip_with_length. Qed.

(** Lengths of the vectors of a stage. *)
Ltac len :=
  rewrite ?sweep_length, ?eval_all_length, ?tabulate_length;
  try lia; try (rewrite zip_with_length; len).

Lemma build_args_Ret xi yi (n : nat) :
  n <= length yi -> build_args xi yi n = Ret (xi :: firstn n yi).
Proof.
  intros Hn. apply (for_range_eq (fun g => xi :: firstn g yi)). intros g Hg.
  rewrite (getitem_nth yi g 0) by lia. simpl. now rewrite firstn_snoc_nth by lia.
Qed.

Lemma build_args_IndexError xi yi (n : nat) :
  length yi < n -> build_args xi yi n = Raise IndexError.
Proof.
  intros Hn. apply (for_range_Raise (fun g => xi :: firstn g yi) n (length yi)); [exact Hn| |].
  - intros g Hg. rewrite (getitem_nth yi g 0) by lia. simpl.
    now rewrite firstn_snoc_nth by lia.
  - now rewrite getitem_ge.
Qed.

Lemma SystemEuler_update_Ret dydx args (h : A) yi :
  length yi = length dydx ->
  SystemEuler_update dydx args h yi =
  Ret (zip_with (fun y f => y + f args * h) yi dydx).
Proof.
  intros E. set (new := zip_with _ yi dydx).
  assert (length new = length yi) as En by now apply zip_with_length.
  rewrite <- (splice_all new yi En), En, E.
  apply (for_range_eq (fun j => splice j new yi)). intros j Hj.
  rewrite (getitem_splice j new yi 0), (getitem_nth dydx j (fun _ => 0)) by lia. simpl.
  rewrite <- (setitem_splice j new yi 0) by lia. f_equal.
  unfold new. rewrite (zip_with_tabulate _ yi dydx 0 (fun _ => 0)) by exact E.
  now rewrite tabulate_nth by lia.
Qed.

Lemma SystemRK4_k1_Ret dydx args : SystemRK4_k1 dydx args = Ret (eval_all dydx args).
Proof.
  unfold eval_all. rewrite (map_tabulate _ dydx (fun _ => 0)).
  apply (for_range_eq (fun i => tabulate (fun j => nth j dydx (fun _ => 0) args) i)).
  intros i Hi. rewrite (getitem_nth dydx i (fun _ => 0)) by lia. simpl.
  now rewrite tabulate_S.
Qed.

(** Assigning [args[i+1]] in a stage. *)
Lemma setitem_stage (x : A) (new old : list A) (i : nat) :
  i < length old -> length new = length old ->
  setitem (x :: splice i new old) (i + 1) (nth i new 0) = Ret (stale_args x new old i).
Proof.
  intros Hi E. rewrite Nat.add_1_r. simpl. now rewrite setitem_splice.
Qed.

Lemma SystemRK4_mid_Ret dydx yi (k : list A) (h x : A) (old : list A) :
  length yi = length dydx -> length k = length dydx -> length old = length dydx ->
  let new := zip_with (fun y ki => y + 1 / 2 * ki * h) yi k in
  SystemRK4_mid dydx yi k h (x :: old) = Ret (x :: new, sweep dydx x new old).
Proof.
  intros Ey Ek Eo new.
  assert (length new = length dydx) as En by (unfold new; rewrite zip_with_length; lia).
  rewrite <- (splice_all new old) at 1 by lia. rewrite En.
  apply (for_range_eq
           (fun i => (x :: splice i new old,
                      tabulate (fun j => nth j dydx (fun _ => 0) (stale_args x new old j)) i))).
  intros i Hi.
  rewrite (getitem_nth yi i 0), (getitem_nth k i 0) by lia. cbn [bind].
  replace (nth i yi 0 + 1 / 2 * nth i k 0 * h) with (nth i new 0).
  - rewrite setitem_stage, (getitem_nth dydx i (fun _ => 0)) by lia. cbn [bind].
    now rewrite tabulate_S.
  - unfold new. rewrite (zip_with_tabulate _ yi k 0 0) by lia.
    now rewrite tabulate_nth by lia.
Qed.

Lemma SystemRK4_last_Ret dydx (k1 k2 k3 : list A) (h x : A) (old : list A) yi :
  length yi = length dydx -> length k1 = length dydx -> length k2 = length dydx ->
  length k3 = length dydx -> length old = length dydx ->
  let new := zip_with (fun y ki => y + ki * h) yi k3 in
  SystemRK4_last dydx k1 k2 k3 h (x :: old) yi =
  Ret (x :: new, rk4_combine yi k1 k2 k3 (sweep dydx x new old) h).
Proof.
  intros Ey E1 E2 E3 Eo new. set (out := rk4_combine _ _ _ _ _ _).
  assert (length new = length dydx) as En by (unfold new; rewrite zip_with_length; lia).
  assert (length out = length dydx) as Eout by (unfold out, rk4_combine; now rewrite tabulate_length).
  rewrite <- (splice_all new old) at 1 by lia. rewrite <- (splice_all out yi) at 1 by lia.
  rewrite En, Eout.
  apply (for_range_eq (fun i => (x :: splice i new old, splice i out yi))).
  intros i Hi.
  rewrite (getitem_splice i out yi 0), (getitem_nth k3 i 0) by lia. cbn [bind].
  replace (nth i yi 0 + nth i k3 0 * h) with (nth i new 0).
  - rewrite setitem_stage, (getitem_nth dydx i (fun _ => 0)) by lia. cbn [bind].
    rewrite (getitem_nth k1 i 0), (getitem_nth k2 i 0) by lia. cbn [bind].
    match goal with
    | |- context [setitem (splice i out yi) i ?v] => replace v with (nth i out 0)
    end.
    + now rewrite setitem_splice by lia.
    + unfold out, rk4_combine, sweep. now rewrite !tabulate_nth by lia.
  - unfold new. rewrite (zip_with_tabulate _ yi k3 0 0) by lia.
    now rewrite tabulate_nth by lia.
Qed.

Lemma SystemEuler_step_Ret dydx (xi : A) yi (h : A) :
  length yi = length dydx ->
  SystemEuler_step dydx xi yi h = Ret (SystemEuler_ref dydx xi yi h).
Proof.
  intros E. unfold SystemEuler_step. rewrite build_args_Ret, <- E, firstn_all by lia.
  cbn [bind]. now apply SystemEuler_update_Ret.
Qed.

Lemma SystemRK4_step_Ret dydx (xi : A) yi (h : A) :
  length yi = length dydx ->
  SystemRK4_step dydx xi yi h = Ret (SystemRK4_ref dydx xi yi h).
Proof.
  intros E. unfold SystemRK4_step, SystemRK4_ref, RK4_stages.
  rewrite build_args_Ret, <- E, firstn_all by lia. cbn [bind].
  rewrite SystemRK4_k1_Ret. cbn [bind setitem].
  rewrite SystemRK4_mid_Ret by len. cbn [bind setitem].
  rewrite SystemRK4_mid_Ret by len. cbn [bind setitem].
  rewrite SystemRK4_last_Ret by len. reflexivity.
Qed.

Lemma SystemEuler_step_short dydx (xi : A) yi (h : A) :
  length yi < length dydx -> SystemEuler_step dydx xi yi h = Raise IndexError.
Proof. intros L. unfold SystemEuler_step. now rewrite build_args_IndexError. Qed.

Lemma SystemRK4_step_short dydx (xi : A) yi (h : A) :
  length yi < length dydx -> SystemRK4_step dydx xi yi h = Raise IndexError.
Proof. intros L. unfold SystemRK4_step. now rewrite build_args_IndexError. Qed.

(** On a triangular system the stale entries are never read. *)
Lemma sweep_triangular dydx (x : A) (new old : list A) :
  triangular dydx -> length new = length dydx -> length old = length dydx ->
  sweep dydx x new old = eval_all dydx (x :: new).
Proof.
  intros T En Eo. unfold sweep, eval_all. rewrite (map_tabulate _ dydx (fun _ => 0)).
  apply tabulate_ext. intros i Hi. apply T; [exact Hi|].
  unfold stale_args, splice. rewrite !firstn_cons. f_equal.
  rewrite firstn_app, firstn_firstn, Nat.min_id, length_firstn.
  replace (S i - Nat.min (S i) (length new))%nat with 0%nat by lia.
  now rewrite firstn_O, app_nil_r.
Qed.

(** ** The loop over a stage that does not raise *)

Context `{!NumOrder A}.

Definition with_final (r : list A * list (list A)) : list A * list (list A) * list A :=
  (fst r, snd r, last (snd r) []).

Section Pure.
Variable step : A -> list A -> A -> outcome (list A).
Variable pstep : A -> list A -> A -> list A.
Variable Inv : list A -> Prop.
Hypothesis step_pstep : forall x y h, Inv y -> step x y h = Ret (pstep x y h).
Hypothesis pstep_Inv : forall x y h, Inv y -> Inv (pstep x y h).

Lemma system_loop_pure (fuel : nat) (xi xf : A) yi (h : A) (xs : list A)
    (ys : list (list A)) :
  Inv yi ->
  system_loop step fuel xi xf yi h xs (ys ++ [yi]) =
  omap with_final (ode_loop pstep fuel xi xf yi h xs (ys ++ [yi])).
Proof.
  revert xi yi xs ys. induction fuel as [|fuel IH]; intros xi yi xs ys Hy; [reflexivity|].
  destruct (xi + h <=? xf) eqn:G.
  - rewrite (ode_loop_step pstep fuel xi xf yi h xs (ys ++ [yi]) G).
    simpl. rewrite G, (num_leb_gtb _ _ G).
    rewrite step_pstep by exact Hy. cbn [bind]. apply IH. now apply pstep_Inv.
  - rewrite ode_loop_stop by exact G. simpl. rewrite G.
    unfold with_final. simpl. now rewrite last_snoc.
Qed.

End Pure.

Lemma system_loop_Raise (step : A -> list A -> A -> outcome (list A)) (fuel : nat)
    (xi xf : A) yi (h : A) (xs : list A) (ys : list (list A)) (e : exn) :
  (xi + h <=? xf) = true -> step xi yi h = Raise e ->
  system_loop step (S fuel) xi xf yi h xs ys = Raise e.
Proof. intros G E. simpl. now rewrite G, (num_leb_gtb _ _ G), E. Qed.

Lemma omap_fst_with_final (c : outcome (list A * list (list A))) :
  omap fst (omap with_final c) = c.
Proof. destruct c as [[xs ys]| |]; reflexivity. Qed.

Lemma SystemRK4_ref_length dydx (xi : A) yi (h : A) :
  length (SystemRK4_ref dydx xi yi h) = length yi.
Proof. apply tabulate_length. Qed.

Lemma SystemEuler_pure (fuel : nat) (xi xf : A) yi (h : A) dydx :
  length yi = length dydx ->
  SystemEuler fuel xi xf yi h dydx =
  omap with_final (ode_solve (SystemEuler_ref dydx) fuel xi xf yi h).
Proof.
  intros E. unfold SystemEuler, ode_solve.
  apply (system_loop_pure _ _ (fun y => length y = length dydx)) with (ys := []);
    auto using SystemEuler_step_Ret, SystemEuler_ref_length.
Qed.

Lemma SystemRK4_pure (fuel : nat) (xi xf : A) yi (h : A) dydx :
  length yi = length dydx ->
  SystemRK4 fuel xi xf yi h dydx =
  omap with_final (ode_solve (SystemRK4_ref dydx) fuel xi xf yi h).
Proof.
  intros E. unfold SystemRK4, ode_solve.
  apply (system_loop_pure _ _ (fun y => length y = length dydx)) with (ys := []);
    auto using SystemRK4_step_Ret.
  intros x y h' Ey. now rewrite SystemRK4_ref_length.
Qed.

(** C6. [SystemEuler] and [SystemRK4], on a state as long as [dydx], are
    the loop of the scalar methods run on vectors, over the stage formulas
    [SystemEuler_ref] and [SystemRK4_ref]: the index loops, the shared
    [args] and the assignments in place compute these, nothing is raised,
    and the list [yi] is left holding the last row returned. *)
Theorem System_refines (fuel : nat) (xi xf : A) yi (h : A) dydx :
  length yi = length dydx ->
  SystemEuler fuel xi xf yi h dydx =
    omap with_final (ode_solve (SystemEuler_ref dydx) fuel xi xf yi h) /\
  SystemRK4 fuel xi xf yi h dydx =
    omap with_final (ode_solve (SystemRK4_ref dydx) fuel xi xf yi h).
Proof. intros E. split; [now apply SystemEuler_pure | now apply SystemRK4_pure]. Qed.

(** A state shorter than [dydx] makes the first step taken raise
    [IndexError], in both methods, while the argument vector is built. *)
Theorem System_short_state (fuel : nat) (xi xf : A) yi (h : A) dydx :
  length yi < length dydx -> (xi + h <=? xf) = true ->
  SystemEuler (S fuel) xi xf yi h dydx = Raise IndexError /\
  SystemRK4 (S fuel) xi xf yi h dydx = Raise IndexError.
Proof.
  intros L G. split; apply system_loop_Raise; auto using SystemEuler_step_short,
    SystemRK4_step_short.
Qed.

(** On a triangular system, where equation [i] reads the abscissa
    and the unknowns [y_1 .. y_(i+1)] only, a step of [SystemRK4] is a step
    of the classical fourth-order Runge-Kutta method for systems. *)
Theorem SystemRK4_triangular dydx (xi : A) yi (h : A) :
  triangular dydx -> length yi = length dydx ->
  SystemRK4_step dydx xi yi h = Ret (RK4_classical dydx xi yi h).
Proof.
  intros T E. rewrite SystemRK4_step_Ret by exact E. f_equal.
  unfold SystemRK4_ref, RK4_classical, RK4_stages.
  now rewrite !sweep_triangular by (exact T || len).
Qed.

(** A system of one equation is the scalar method: the arrays of
    [SystemEuler] and [SystemRK4] on [[f]] are those of [Euler] and [RK4]
    on [fun x y => f [x; y]], each ordinate in a row of its own. *)
Theorem System_one_equation (fuel : nat) (xi xf y h : A) (f : list A -> A) :
  let rows r := (fst r, map (fun y => [y]) (snd r)) in
  omap fst (SystemEuler fuel xi xf [y] h [f]) =
    omap rows (Euler fuel xi xf y h (fun x y => f [x; y])) /\
  omap fst (SystemRK4 fuel xi xf [y] h [f]) =
    omap rows (RK4 fuel xi xf y h (fun x y => f [x; y])).
Proof.
  intros rows. rewrite SystemEuler_pure, SystemRK4_pure, !omap_fst_with_final by reflexivity.
  split; apply (ode_loop_map (fun y => [y])) with (ys := [y]); reflexivity.
Qed.

End Systems.

(** ** Over exact rationals *)

Section SystemsQ.
Implicit Types (dydx : list (list Q -> Q)) (yi : list Q).

#[local] Open Scope Q_scope.

(** Termination and result.  For a positive step and a state as long
    as [dydx] both methods return, with any fuel above [nsteps xi xf h];
    the arrays are the initial condition followed by the reference
    trajectory of the stage formula, and [yi] is left as the last row. *)
Theorem System_returns (fuel : nat) (xi xf : Q) yi (h : Q) dydx :
  0 < h -> length yi = length dydx -> (nsteps xi xf h < fuel)%nat ->
  let run step :=
    let t := trajectory step (nsteps xi xf h) xi yi h in
    Ret (with_final (xi :: xs_of t, yi :: ys_of t)) in
  SystemEuler fuel xi xf yi h dydx = run (SystemEuler_ref dydx) /\
  SystemRK4 fuel xi xf yi h dydx = run (SystemRK4_ref dydx).
Proof.
  intros Hh E L run.
  rewrite SystemEuler_pure, SystemRK4_pure by exact E. split; now ode_solve_run.
Qed.

(** The state keeps its length: every row of [y_arr] is as long as
    [dydx], and there is one row for each abscissa. *)
Theorem System_rows (fuel : nat) (xi xf : Q) yi (h : Q) dydx :
  0 < h -> length yi = length dydx -> (nsteps xi xf h < fuel)%nat ->
  let rect r := length (fst (fst r)) = length (snd (fst r)) /\
                Forall (fun row => length row = length dydx) (snd (fst r)) in
  (exists r, SystemEuler fuel xi xf yi h dydx = Ret r /\ rect r) /\
  (exists r, SystemRK4 fuel xi xf yi h dydx = Ret r /\ rect r).
Proof.
  intros Hh E L rect.
  rewrite SystemEuler_pure, SystemRK4_pure by exact E.
  split; ode_solve_run; (eexists; split; [reflexivity|]); unfold rect, xs_of, ys_of; simpl;
    rewrite !length_map; (split; [reflexivity|]); (constructor; [exact E|]).
  - apply (trajectory_ys_invariant _ (fun y => length y = length dydx));
      auto using SystemEuler_ref_length.
  - apply (trajectory_ys_invariant _ (fun y => length y = length dydx)); [|exact E].
    intros x y Hy. now rewrite SystemRK4_ref_length.
Qed.

(** ** A coupled system *)

(** [y1' = y2], [y2' = 1]: the first equation reads the second unknown. *)
Definition coupled : list (list Q -> Q) := [fun a => nth 2 a 0; fun _ => 1].

Ltac eval_stage :=
  cbv [SystemRK4_ref RK4_classical RK4_stages rk4_combine sweep eval_all stale_args
       splice zip_with tabulate coupled map combine seq nth length firstn skipn app
       fst snd];
  qnum.

(** [SystemRK4] is not the classical method.  On [y1' = y2],
    [y2' = 1], whose solution [y1 (x + h) = y1 + h y2 + h^2 / 2] the
    classical method reproduces, a step of [SystemRK4] returns
    [y1 + h y2 + h^2 / 4]: [dydx[0]] is evaluated before [args[2]] has been
    assigned for the stage and reads the value the stage before left. *)
Theorem SystemRK4_not_classical (x y1 y2 h : Q) :
  exists y,
    SystemRK4_step coupled x [y1; y2] h = Ret y /\
    Qs_eq y [y1 + h * y2 + (1 # 4) * h * h; y2 + h] /\
    Qs_eq (RK4_classical coupled x [y1; y2] h) [y1 + h * y2 + (1 # 2) * h * h; y2 + h].
Proof.
  eexists. split; [now apply SystemRK4_step_Ret|].
  split; eval_stage; repeat constructor; ring.
Qed.

(** C7. The error is of first order.  From [y = [0, 0]] at [x = 0] every
    sample of [SystemRK4] on the coupled system has
    [y1 = x^2 / 2 - h x / 4] and [y2 = x]: the distance to the solution
    [x^2 / 2] is [h x / 4], where a fourth-order method has none on this
    system. *)
Theorem SystemRK4_first_order (fuel : nat) (xf h : Q) :
  0 < h -> (nsteps 0 xf h < fuel)%nat ->
  exists xs ys y',
    SystemRK4 fuel 0 xf [0; 0] h coupled = Ret (xs, ys, y') /\
    Forall2 (fun x y => exists y1 y2,
               y = [y1; y2] /\ y1 == (1 # 2) * x * x - (1 # 4) * h * x /\ y2 == x) xs ys.
Proof.
  intros Hh L. rewrite SystemRK4_pure by reflexivity. ode_solve_run.
  eexists _, _, _. split; [reflexivity|]. constructor.
  - exists 0, 0. repeat split; ring.
  - apply trajectory_invariant; [|exists 0, 0; repeat split; ring].
    intros x y (y1 & y2 & -> & E1 & E2). eval_stage.
    eexists _, _. split; [reflexivity|]. split; rewrite ?E1, E2; ring.
Qed.

End SystemsQ.

(** ** Concrete runs *)

#[local] Open Scope Q_scope.

(** The system of the docstrings: [y1' = -0.5 x + y1],
    [y2' = 0.2 y1 + 0.6 y2 - 3 x]. *)
Definition df1 (args : list Q) : Q := - (1 # 2) * nth 0 args 0 + nth 1 args 0.

Definition df2 (args : list Q) : Q :=
  (2 # 10) * nth 1 args 0 + (6 # 10) * nth 2 args 0 - 3 * nth 0 args 0.

Lemma df_triangular : triangular [df1; df2].
Proof.
  intros i a b Hi E. simpl in Hi.
  assert (forall j, (j < S (S i))%nat -> nth j a 0 = nth j b 0) as N.
  { intros j Hj. apply Nat.ltb_lt in Hj.
    pose proof (nth_firstn (S (S i)) a j 0) as Na. pose proof (nth_firstn (S (S i)) b j 0) as Nb.
    rewrite Hj in Na, Nb. now rewrite <- Na, <- Nb, E. }
  destruct i as [|[|i]]; [| |lia]; simpl; unfold df1, df2; rewrite ?(N 0%nat), ?(N 1%nat),
    ?(N 2%nat) by lia; reflexivity.
Qed.

(** The caller's list is overwritten: after
    [SystemEuler(0, 0.4, yi, 0.2, [df1, df2])] with [yi = [2, 2]] the list
    [yi] holds the last row, [[2.86, 2.5744]]. *)
Theorem SystemEuler_overwrites_yi :
  exists xs ys y',
    SystemEuler 5 0 (4 # 10) [2; 2] (2 # 10) [df1; df2] = Ret (xs, ys, y') /\
    y' = last ys [] /\ Qs_eq y' [286 # 100; 25744 # 10000].
Proof.
  eexists _, _, _. split; [vm_compute; reflexivity|].
  split; [reflexivity|]. repeat (apply Forall2_cons; [reflexivity|]). apply Forall2_nil.
Qed.

Lemma System_refines_witness :
  SystemEuler 30 0 5 [2; 2] (2 # 10) [df1; df2] =
    omap with_final (ode_solve (SystemEuler_ref [df1; df2]) 30 0 5 [2; 2] (2 # 10)) /\
  SystemRK4 30 0 5 [2; 2] (2 # 10) [df1; df2] =
    omap with_final (ode_solve (SystemRK4_ref [df1; df2]) 30 0 5 [2; 2] (2 # 10)).
Proof. apply (System_refines (NumOrder0 := Q_NumOrder)). reflexivity. Defined.

Lemma System_short_state_witness :
  SystemEuler 1 0 5 [2] (2 # 10) [df1; df2] = Raise IndexError /\
  SystemRK4 1 0 5 [2] (2 # 10) [df1; df2] = Raise IndexError.
Proof. apply (System_short_state (NumOrder0 := Q_NumOrder)); [simpl; lia | reflexivity]. Defined.

Lemma SystemRK4_triangular_witness :
  SystemRK4_step [df1; df2] 0 [2; 2] (2 # 10) =
  Ret (RK4_classical [df1; df2] 0 [2; 2] (2 # 10)).
Proof. apply SystemRK4_triangular; [exact df_triangular | reflexivity]. Defined.

Lemma System_returns_witness :
  let run step :=
    let t := trajectory step (nsteps 0 5 (2 # 10)) 0 [2; 2] (2 # 10) in
    Ret (with_final (0 :: xs_of t, [2; 2] :: ys_of t)) in
  SystemEuler 30 0 5 [2; 2] (2 # 10) [df1; df2] = run (SystemEuler_ref [df1; df2]) /\
  SystemRK4 30 0 5 [2; 2] (2 # 10) [df1; df2] = run (SystemRK4_ref [df1; df2]).
Proof. apply System_returns; [reflexivity | reflexivity | vm_compute; lia]. Defined.

Lemma System_rows_witness :
  let rect (r : list Q * list (list Q) * list Q) :=
    length (fst (fst r)) = length (snd (fst r)) /\
    Forall (fun row => length row = 2%nat) (snd (fst r)) in
  (exists r, SystemEuler 30 0 5 [2; 2] (2 # 10) [df1; df2] = Ret r /\ rect r) /\
  (exists r, SystemRK4 30 0 5 [2; 2] (2 # 10) [df1; df2] = Ret r /\ rect r).
Proof.
  apply (System_rows 30 0 5 [2; 2] (2 # 10) [df1; df2]);
    [reflexivity | reflexivity | vm_compute; lia].
Defined.

Lemma SystemRK4_first_order_witness :
  exists xs ys y',
    SystemRK4 9 0 1 [0; 0] (1 # 4) coupled = Ret (xs, ys, y') /\
    Forall2 (fun x y => exists y1 y2,
               y = [y1; y2] /\ y1 == (1 # 2) * x * x - (1 # 4) * (1 # 4) * x /\ y2 == x)
            xs ys.
Proof. apply SystemRK4_first_order; [reflexivity | vm_compute; lia]. Defined.

Lemma System_one_equation_witness :
  let rows (r : list Q * list Q) := (fst r, map (fun y => [y]) (snd r)) in
  omap fst (SystemEuler 30 0 5 [2] (2 # 10) [df1]) =
    omap rows (Euler 30 0 5 2 (2 # 10) (fun x y => df1 [x; y])) /\
  omap fst (SystemRK4 30 0 5 [2] (2 # 10) [df1]) =
    omap rows (RK4 30 0 5 2 (2 # 10) (fun x y => df1 [x; y])).
Proof. exact (System_one_equation (NumOrder0 := Q_NumOrder) 30 0 5 2 (2 # 10) df1). Defined.
