(* ===== verification/Quadrature.v ===== *)
(** * Quadrature: integration of a function given as a callback

    The methods of [OneDIntegralwithFunction] in
    [src/numerics/integration.py] that this file models: [Trapezoid],
    [TrapezoidUnequalSegments], [SimpsonOneThird], [SimpsonThirdEight],
    [AdaptiveQuadrature] with its recursive helper [__qstep] (here
    [qstep]) and [TwoPointGaussLegendre].

    The number of segments [n] is a Python [int], here a [Z] converted with
    [num_of_Z] where the source mixes it with numbers; a division by [n],
    [2*n] or [3*n] is [pydiv] and raises [ZeroDivisionError] at [0];
    divisions by the literals [2], [3], [6], [8] and [15] cannot.  The
    abscissa of the composite rules is advanced by [l += h], as in the
    source, not recomputed from the index.  The recursion of [qstep] is by
    fuel: the fuel is the depth of recursion allowed, which CPython bounds
    too.  [3**0.5] has no value in [Q]; [TwoPointGaussLegendre] takes it as
    the argument [r3]. *)

From Stdlib Require Import ZArith QArith Qabs Lqa Lia List Bool Morphisms Setoid.
From S2P Require Import Prelude NumQ.
Import ListNotations.

(** ** The methods *)

Section Methods.
Context {A : Type} `{Num A}.

#[local] Open Scope nat_scope.
#[local] Open Scope num_scope.
#[local] Open Scope outcome_scope.

Definition Trapezoid (l u : A) (n : Z) (Fxdx : A -> A) : outcome A :=
  let sum := 0 in
  h <- pydiv (u - l) (num_of_Z n) ;;
  let wd := u - l in
  let f0 := Fxdx l in
  ' (l, sum) <- for_each (range 1 n)
                  (fun _ '(l, sum) => let l := l + h in Ret (l, sum + Fxdx l)) (l, sum) ;;
  pydiv (wd * (f0 + 2 * sum + Fxdx u)) (num_of_Z (2 * n)).

(** The source applies [Fxdx] to the index [i], not to [x[i]], and takes
    the difference of the two values. *)
Definition TrapezoidUnequalSegments (x : list A) (Fxdx : A -> A) : outcome A :=
  for_each (seq 1 (length x - 1))
    (fun i sum =>
       let temp := Fxdx (num_of_Z (Z.of_nat i)) - Fxdx (num_of_Z (Z.of_nat i - 1)) in
       let temp := temp / 2 in
       xi <- getitem x i ;;
       xp <- getitem x (i - 1) ;;
       Ret (sum + (xi - xp) * temp)) 0.

Definition SimpsonOneThird (l u : A) (n : Z) (Fxdx : A -> A) : outcome A :=
  let wd := u - l in
  let f0 := Fxdx l in
  ' (l, f11, f12) <- for_each (range 1 n)
      (fun i '(l, f11, f12) =>
         d <- pydiv wd (num_of_Z n) ;;
         let l := l + d in
         if (i mod 2 =? 0)%Z then Ret (l, f11, f12 + Fxdx l)
         else Ret (l, f11 + Fxdx l, f12)) (l, 0, 0) ;;
  let '(f11, n) := if (n =? 1)%Z then (Fxdx (l + wd / 2), 2%Z) else (f11, n) in
  let f2 := Fxdx u in
  pydiv (wd * (f0 + 4 * f11 + 2 * f12 + f2)) (num_of_Z (3 * n)).

Definition SimpsonThirdEight (l u : A) (Fxdx : A -> A) : A :=
  let wd := u - l in
  let f0 := Fxdx l in
  let f1 := Fxdx (l + wd / 3) in
  let f2 := Fxdx (l + wd * 2 / 3) in
  let f3 := Fxdx u in
  wd * (f0 + 3 * f1 + 3 * f2 + f3) / 8.

Fixpoint qstep (fuel : nat) (l u tol fl fh fu : A) (Fxdx : A -> A) : outcome A :=
  match fuel with
  | O => OutOfFuel
  | S fuel =>
      let h1 := u - l in
      let h2 := h1 / 2 in
      let h := (l + u) / 2 in
      let fd := Fxdx ((l + h) / 2) in
      let fe := Fxdx ((h + u) / 2) in
      let I1 := h1 / 6 * (fl + 4 * fh + fu) in
      let I2 := h2 / 6 * (fl + 4 * fd + 2 * fh + 4 * fe + fu) in
      if num_abs (I2 - I1) <? tol then Ret (I2 + (I2 - I1) / 15)
      else
        Il <- qstep fuel l h tol fl fd fh Fxdx ;;
        Iu <- qstep fuel h u tol fh fe fu Fxdx ;;
        Ret (Il + Iu)
  end.

(** [tol = 0.000001]. *)
Definition AdaptiveQuadrature (fuel : nat) (l u : A) (Fxdx : A -> A) : outcome A :=
  let tol := 1 / num_of_Z 1000000 in
  let h := (l + u) / 2 in
  let fl := Fxdx l in
  let fh := Fxdx h in
  let fu := Fxdx u in
  qstep fuel l u tol fl fh fu Fxdx.

(** [r3] stands for [3**0.5]. *)
Definition TwoPointGaussLegendre (r3 : A) (Fxdx : A -> A) : A :=
  Fxdx (num_opp 1 / r3) - Fxdx (1 / r3).

(** ** The loops after [k] iterations *)

Fixpoint Trapezoid_state (Fxdx : A -> A) (l h : A) (k : nat) : A * A :=
  match k with
  | O => (l, 0)
  | S k =>
      let '(l, sum) := Trapezoid_state Fxdx l h k in
      (l + h, sum + Fxdx (l + h))
  end.

Fixpoint Simpson_state (Fxdx : A -> A) (l d : A) (k : nat) : A * A * A :=
  match k with
  | O => (l, 0, 0)
  | S k =>
      let '(l, f11, f12) := Simpson_state Fxdx l d k in
      if Nat.even (S k) then (l + d, f11, f12 + Fxdx (l + d))
      else (l + d, f11 + Fxdx (l + d), f12)
  end.

Lemma Trapezoid_loop (Fxdx : A -> A) (l h : A) (n : Z) :
  for_each (range 1 n)
    (fun _ '(l, sum) => let l := l + h in Ret (l, sum + Fxdx l)) (l, 0) =
  Ret (Trapezoid_state Fxdx l h (Z.to_nat (n - 1))).
Proof.
  apply (for_range1_eq (Trapezoid_state Fxdx l h)). intros k _. simpl.
  now destruct (Trapezoid_state Fxdx l h k).
Qed.

Fixpoint Unequal_state (Fxdx : A -> A) (x : list A) (k : nat) : A :=
  match k with
  | O => 0
  | S k =>
      Unequal_state Fxdx x k
      + (nth (S k) x 0 - nth k x 0)
        * ((Fxdx (num_of_Z (Z.of_nat (S k))) - Fxdx (num_of_Z (Z.of_nat (S k) - 1))) / 2)
  end.

(** [TrapezoidUnequalSegments] raises nothing, on the empty list
    either. *)
Lemma TrapezoidUnequalSegments_Ret (x : list A) (Fxdx : A -> A) :
  TrapezoidUnequalSegments x Fxdx = Ret (Unequal_state Fxdx x (length x - 1)).
Proof.
  unfold TrapezoidUnequalSegments. rewrite <- seq_shift, for_each_map.
  apply (for_range_eq (Unequal_state Fxdx x)). intros k Hk.
  rewrite (getitem_nth x (S k) 0) by lia. cbn [bind].
  replace (S k - 1)%nat with k by lia.
  rewrite (getitem_nth x k 0) by lia. reflexivity.
Qed.

Lemma even_mod2 (k : nat) : (Z.of_nat k mod 2 =? 0)%Z = Nat.even k.
Proof.
  destruct (Nat.even k) eqn:E.
  - apply Nat.even_spec in E as [m ->]. apply Z.eqb_eq.
    rewrite Nat2Z.inj_mul, Z.mul_comm. apply Z.mod_mul. lia.
  - apply Z.eqb_neq. intros M.
    assert (Nat.even k = true); [|congruence].
    apply Nat.even_spec. exists (Z.to_nat (Z.of_nat k / 2)).
    pose proof (Z.div_mod (Z.of_nat k) 2 ltac:(lia)). lia.
Qed.

End Methods.

(** ** Over exact rationals *)

Section QuadratureQ.

#[local] Open Scope Q_scope.

Implicit Types (l u h : Q) (n : Z) (f : Q -> Q).

(** *** Trapezoid *)

Lemma Trapezoid_Ret l u n f :
  n <> 0%Z ->
  Trapezoid l u n f =
  Ret ((u - l) * (f l + 2 * snd (Trapezoid_state f l ((u - l) / inject_Z n)
                                    (Z.to_nat (n - 1))) + f u)
       / inject_Z (2 * n)).
Proof.
  intros Hn. unfold Trapezoid.
  rewrite pydiv_Q_Ret by now apply inject_Z_nonzero. cbn [bind].
  rewrite Trapezoid_loop. cbn [bind].
  destruct (Trapezoid_state _ _ _ _) as [l' s].
  rewrite pydiv_Q_Ret by (apply inject_Z_nonzero; lia). reflexivity.
Qed.

(** The loop on a quadratic: the abscissa and the sum in closed form. *)
Lemma Trapezoid_state_quadratic (c0 c1 c2 l h : Q) (k : nat) :
  let K := inject_Z (Z.of_nat k) in
  let st := Trapezoid_state (peval [c0; c1; c2]) l h k in
  fst st == l + K * h /\
  snd st == K * c0 + c1 * (K * l + h * K * (K + 1) * (1 # 2))
            + c2 * (K * l * l + l * h * K * (K + 1)
                    + h * h * K * (K + 1) * (2 * K + 1) * (1 # 6)).
Proof.
  induction k as [|k IH]; [split; simpl; qnum; ring|].
  cbv zeta in *. rewrite inject_Z_succ. set (K := inject_Z (Z.of_nat k)) in *.
  simpl Trapezoid_state. destruct (Trapezoid_state _ l h k) as [l' s].
  simpl in IH. destruct IH as [E1 E2]. simpl fst. simpl snd. qnum.
  split; [rewrite E1; ring|]. rewrite E2, E1. cbn [peval]. ring.
Qed.

(** C9. [Trapezoid] on a quadratic, for [n >= 1] segments: the value
    returned is the integral plus [c2 (u - l)^3 / (6 n^2)].  The rule is
    exact on straight lines and its error on a parabola falls as
    [1 / n^2]. *)
Theorem Trapezoid_quadratic (c0 c1 c2 l u : Q) n :
  (1 <= n)%Z ->
  exists v,
    Trapezoid l u n (peval [c0; c1; c2]) = Ret v /\
    v == pintegral [c0; c1; c2] l u
         + c2 * (u - l) * (u - l) * (u - l) / (6 * inject_Z n * inject_Z n).
Proof.
  intros Hn. rewrite Trapezoid_Ret by lia. eexists. split; [reflexivity|].
  destruct (Trapezoid_state_quadratic c0 c1 c2 l ((u - l) / inject_Z n)
              (Z.to_nat (n - 1))) as [_ E].
  cbv zeta in E. rewrite E, inject_Z_to_nat_pred, inject_Z_mult by exact Hn.
  assert (~ inject_Z n == 0) as Hq by (apply inject_Z_nonzero; lia).
  unfold pintegral. cbn [peval pint pint_from Pos.succ]. qnum. field. exact Hq.
Qed.

(** [Trapezoid] with no segment raises [ZeroDivisionError]; with a
    negative [n] it raises nothing and returns the one-segment estimate
    divided by [n]. *)
Theorem Trapezoid_bad_n l u f (k : positive) :
  Trapezoid l u 0 f = Raise ZeroDivisionError /\
  Trapezoid l u (Z.neg k) f =
    Ret ((u - l) * (f l + 2 * 0 + f u) / inject_Z (2 * Z.neg k)).
Proof.
  split; [reflexivity|]. rewrite Trapezoid_Ret by lia.
  now replace (Z.to_nat (Z.neg k - 1)) with 0%nat by lia.
Qed.

(** [TrapezoidUnequalSegments] applies [Fxdx] to the indices and
    takes differences: on [c0 + c1 x] it returns [c1 (x_last - x_0) / 2],
    which is [0] on a constant, for any abscissas. *)
Theorem TrapezoidUnequalSegments_affine (c0 c1 : Q) (x : list Q) :
  exists v,
    TrapezoidUnequalSegments x (peval [c0; c1]) = Ret v /\
    v == c1 * (nth (length x - 1) x 0 - nth 0 x 0) / 2.
Proof.
  rewrite TrapezoidUnequalSegments_Ret. eexists. split; [reflexivity|].
  induction (length x - 1)%nat as [|k IH]; [simpl; qnum; field|].
  cbn [Unequal_state peval]. rewrite IH. unfold Z.sub. qnum.
  rewrite inject_Z_plus. change (inject_Z (- (1))) with (- (1)). field.
Qed.

(** *** Simpson's rules *)

(** Polynomials of degree at most 3. *)
Ltac cubic p :=
  let H := fresh in
  intros H; destruct p as [|? [|? [|? [|? [|? ?]]]]]; simpl in H; try lia; clear H;
  unfold pintegral; cbn [peval pint pint_from Pos.succ]; qnum.

(** One panel of Simpson's 1/3 rule is exact on cubics. *)
Lemma Simpson_panel (p : list Q) (a d : Q) :
  (length p <= 4)%nat ->
  d * (peval p a + 4 * peval p (a + d) + peval p (a + d + d)) ==
  3 * (peval (pint p) (a + d + d) - peval (pint p) a).
Proof. revert p. intros p. cubic p; field. Qed.

Lemma even_odd_index (m : nat) :
  Nat.even (2 * m + 1) = false /\ Nat.even (S (2 * m + 1)) = true.
Proof.
  induction m as [|m [E1 E2]]; [split; reflexivity|].
  replace (2 * S m + 1)%nat with (S (S (2 * m + 1))) by lia. split; simpl; assumption.
Qed.

Lemma SimpsonOneThird_Ret l u n f :
  (2 <= n)%Z ->
  SimpsonOneThird l u n f =
  Ret (let '(_, f11, f12) :=
         Simpson_state f l ((u - l) / inject_Z n) (Z.to_nat (n - 1)) in
       (u - l) * (f l + 4 * f11 + 2 * f12 + f u) / inject_Z (3 * n)).
Proof.
  intros Hn. unfold SimpsonOneThird.
  match goal with
  | |- context [for_each (range 1 n) ?b ?s] =>
      assert (for_each (range 1 n) b s =
              Ret (Simpson_state f l ((u - l) / inject_Z n) (Z.to_nat (n - 1)))) as ->
  end.
  - apply (for_range1_eq (Simpson_state f l ((u - l) / inject_Z n))).
    intros k _. rewrite even_mod2. cbn [Simpson_state].
    destruct (Simpson_state _ _ _ k) as [[l' a] b].
    rewrite pydiv_Q_Ret by (apply inject_Z_nonzero; lia). cbn [bind].
    now destruct (Nat.even (S k)).
  - cbn [bind]. destruct (Simpson_state _ _ _ _) as [[l' a] b].
    replace (n =? 1)%Z with false by (symmetry; apply Z.eqb_neq; lia).
    rewrite pydiv_Q_Ret by (apply inject_Z_nonzero; lia). reflexivity.
Qed.

(** After an odd number of iterations the weighted sum, closed with the
    next node, is three times the integral up to that node. *)
Lemma Simpson_state_odd (p : list Q) (l d : Q) (m : nat) :
  (length p <= 4)%nat ->
  let '(l', a, b) := Simpson_state (peval p) l d (2 * m + 1) in
  l' == l + inject_Z (Z.of_nat (2 * m + 1)) * d /\
  d * (peval p l + 4 * a + 2 * b + peval p (l' + d)) ==
  3 * (peval (pint p) (l' + d) - peval (pint p) l).
Proof.
  intros Hp. induction m as [|m IH].
  - change (2 * 0 + 1)%nat with 1%nat. cbn [Simpson_state Nat.even].
    change (inject_Z (Z.of_nat 1)) with 1. qnum.
    split; [ring|]. pose proof (Simpson_panel p l d Hp). lra.
  - replace (2 * S m + 1)%nat with (S (S (2 * m + 1))) by lia.
    destruct (even_odd_index m) as [Od Ev]. cbn [Simpson_state].
    destruct (Simpson_state (peval p) l d (2 * m + 1)) as [[l' a] b].
    rewrite Ev. change (Nat.even (S (S (2 * m + 1)))) with (Nat.even (2 * m + 1)).
    rewrite Od. destruct IH as [E1 E2]. rewrite !inject_Z_succ. qnum.
    split; [rewrite E1; ring|]. pose proof (Simpson_panel p (l' + d) d Hp). lra.
Qed.

Lemma SimpsonOneThird_one l u f :
  SimpsonOneThird l u 1 f =
  Ret ((u - l) * (f l + 4 * f (l + (u - l) / 2) + 2 * 0 + f u) / 6).
Proof. reflexivity. Qed.

(** C8. [SimpsonOneThird] is exact on polynomials of degree at most 3
    when [n] is even and at least 2, and when [n = 1], which the method
    turns into one panel on the midpoint. *)
Theorem SimpsonOneThird_exact (p : list Q) l u n :
  (length p <= 4)%nat -> (n = 1 \/ 2 <= n /\ Z.even n = true)%Z ->
  exists v, SimpsonOneThird l u n (peval p) = Ret v /\ v == pintegral p l u.
Proof.
  intros Hp [-> | [Hn Ev]].
  - rewrite SimpsonOneThird_one. eexists. split; [reflexivity|].
    revert Hp. cubic p; field.
  - rewrite SimpsonOneThird_Ret by exact Hn. eexists. split; [reflexivity|].
    apply Z.even_spec in Ev as [k Ek].
    pose proof (Simpson_state_odd p l ((u - l) / inject_Z n) (Z.to_nat (k - 1)) Hp) as S.
    replace (2 * Z.to_nat (k - 1) + 1)%nat with (Z.to_nat (n - 1)) in S by lia.
    destruct (Simpson_state _ _ _ _) as [[l' a] b]. destruct S as [E1 E2].
    assert (~ inject_Z n == 0) as Hq by (apply inject_Z_nonzero; lia).
    assert (l' + (u - l) / inject_Z n == u) as El.
    { rewrite E1, inject_Z_to_nat_pred by lia. field. exact Hq. }
    rewrite El in E2. unfold pintegral. rewrite inject_Z_mult.
    apply (Qmult_inj_l _ _ 3); [discriminate|]. rewrite <- E2. field. exact Hq.
Qed.

(** The loop on the constant [1]: the counts of odd and of even indices. *)
Lemma Simpson_state_const l (d : Q) (m : nat) :
  let '(_, a, b) := Simpson_state (fun _ => 1) l d (2 * m) in
  a == inject_Z (Z.of_nat m) /\ b == inject_Z (Z.of_nat m).
Proof.
  induction m as [|m IH]; [split; reflexivity|].
  replace (2 * S m)%nat with (S (S (2 * m))) by lia. cbn [Simpson_state].
  destruct (Simpson_state _ l d (2 * m)) as [[l' a] b].
  change (Nat.even (S (S (2 * m)))) with (Nat.even (2 * m)).
  replace (Nat.even (S (2 * m))) with false
    by (symmetry; rewrite Nat.even_succ, <- Nat.negb_even, Nat.even_mul; reflexivity).
  replace (Nat.even (2 * m)) with true by (now rewrite Nat.even_mul).
  destruct IH as [Ea Eb]. rewrite inject_Z_succ. qnum. split; [rewrite Ea | rewrite Eb]; ring.
Qed.

(** With an odd [n >= 3] [SimpsonOneThird] is not Simpson's rule,
    and is not exact on constants: on [f = 1] it returns
    [(u - l) (1 - 1 / (3 n))]. *)
Theorem SimpsonOneThird_odd_n l u (m : nat) :
  (1 <= m)%nat ->
  let n := (2 * Z.of_nat m + 1)%Z in
  exists v,
    SimpsonOneThird l u n (fun _ => 1) = Ret v /\
    v == (u - l) * (1 - 1 / (3 * inject_Z n)).
Proof.
  intros Hm n. rewrite SimpsonOneThird_Ret by lia. eexists. split; [reflexivity|].
  pose proof (Simpson_state_const l ((u - l) / inject_Z n) m) as S.
  replace (2 * m)%nat with (Z.to_nat (n - 1)) in S by lia.
  destruct (Simpson_state _ _ _ _) as [[l' a] b]. destruct S as [Ea Eb].
  assert (~ inject_Z n == 0) as Hq by (apply inject_Z_nonzero; lia).
  rewrite Ea, Eb, inject_Z_mult. unfold n in *.
  rewrite inject_Z_plus, inject_Z_mult in *. qnum. field. exact Hq.
Qed.

(** [SimpsonThirdEight] is exact on polynomials of degree at most
    3. *)
Theorem SimpsonThirdEight_exact (p : list Q) l u :
  (length p <= 4)%nat -> SimpsonThirdEight l u (peval p) == pintegral p l u.
Proof. unfold SimpsonThirdEight. cubic p; field. Qed.

(** *** Adaptive quadrature *)

(** The two Simpson estimates of one call of [qstep]. *)
Definition qstep_I1 (l u fl fh fu : Q) : Q := (u - l) / 6 * (fl + 4 * fh + fu).

Definition qstep_I2 (l u fl fd fh fe fu : Q) : Q :=
  (u - l) / 2 / 6 * (fl + 4 * fd + 2 * fh + 4 * fe + fu).

Lemma qstep_accept (fuel : nat) (l u tol fl fh fu : Q) f :
  let h := (l + u) / 2 in
  let I1 := qstep_I1 l u fl fh fu in
  let I2 := qstep_I2 l u fl (f ((l + h) / 2)) fh (f ((h + u) / 2)) fu in
  Qabs (I2 - I1) < tol ->
  qstep (S fuel) l u tol fl fh fu f = Ret (I2 + (I2 - I1) / 15).
Proof.
  intros h I1 I2 Hacc. cbn [qstep].
  match goal with |- context [if ?b then _ else _] => assert (b = true) as -> end;
    [apply Qltb_true; exact Hacc | reflexivity].
Qed.

Lemma qstep_recurse (fuel : nat) (l u tol fl fh fu : Q) f :
  let h := (l + u) / 2 in
  let fd := f ((l + h) / 2) in
  let fe := f ((h + u) / 2) in
  tol <= Qabs (qstep_I2 l u fl fd fh fe fu - qstep_I1 l u fl fh fu) ->
  qstep (S fuel) l u tol fl fh fu f =
  bind (qstep fuel l h tol fl fd fh f)
    (fun Il => bind (qstep fuel h u tol fh fe fu f) (fun Iu => Ret (Il + Iu))).
Proof.
  intros h fd fe Hrej. cbn [qstep].
  match goal with |- context [if ?b then _ else _] => assert (b = false) as -> end;
    [apply Qltb_false; exact Hrej | reflexivity].
Qed.

(** C11. On a polynomial of degree at most 3 the two estimates of
    [qstep] agree: the first call accepts, whatever the positive
    tolerance, and [AdaptiveQuadrature] returns the integral. *)
Theorem AdaptiveQuadrature_exact (fuel : nat) (p : list Q) l u :
  (length p <= 4)%nat ->
  exists v, AdaptiveQuadrature (S fuel) l u (peval p) = Ret v /\ v == pintegral p l u.
Proof.
  intros Hp. unfold AdaptiveQuadrature.
  assert (qstep_I2 l u (peval p l) (peval p ((l + (l + u) / 2) / 2)) (peval p ((l + u) / 2))
            (peval p (((l + u) / 2 + u) / 2)) (peval p u)
          == pintegral p l u) as E2
    by (unfold qstep_I2; revert Hp; cubic p; field).
  assert (qstep_I1 l u (peval p l) (peval p ((l + u) / 2)) (peval p u) == pintegral p l u)
    as E1 by (unfold qstep_I1; revert Hp; cubic p; field).
  rewrite qstep_accept.
  - eexists. split; [reflexivity|]. rewrite E2, E1. field.
  - rewrite E2, E1. setoid_replace (pintegral p l u - pintegral p l u) with 0 by ring.
    reflexivity.
Qed.

Section Bounded.
Variable f : Q -> Q.
Variable M : Q.
Hypothesis f_bound : forall x, Qabs (f x) <= M.

(** The two estimates are within [2 M (u - l)] of one another. *)
Lemma qstep_estimates_close (l u fl fd fh fe fu : Q) :
  l <= u -> Qabs fl <= M -> Qabs fd <= M -> Qabs fh <= M -> Qabs fe <= M -> Qabs fu <= M ->
  Qabs (qstep_I2 l u fl fd fh fe fu - qstep_I1 l u fl fh fu) <= 2 * M * (u - l).
Proof.
  intros Hlu Hl Hd Hh He Hu. apply Qabs_Qle_condition in Hl, Hd, Hh, He, Hu.
  apply Qabs_Qle_condition. unfold qstep_I1, qstep_I2.
  set (e := (fl + 4 * fd + 2 * fh + 4 * fe + fu) * (1 # 12) - (fl + 4 * fh + fu) * (1 # 6)).
  setoid_replace ((u - l) / 2 / 6 * (fl + 4 * fd + 2 * fh + 4 * fe + fu)
                  - (u - l) / 6 * (fl + 4 * fh + fu)) with ((u - l) * e)
    by (unfold e; field).
  assert (- (2 * M) <= e <= 2 * M) as [He1 He2] by (unfold e; split; lra).
  split; nra.
Qed.

(** C10. Depth of the recursion.  On an integrand bounded by [M] and an
    interval [l <= u] the recursion of [qstep] ends: every call at depth
    [d] with [2 M (u - l) < tol 2^d] accepts, so fuel [d + 1] is enough. *)
Theorem qstep_terminates (d : nat) (l u tol fl fh fu : Q) :
  l <= u -> Qabs fl <= M -> Qabs fh <= M -> Qabs fu <= M ->
  2 * M * (u - l) < tol * inject_Z (2 ^ Z.of_nat d) ->
  exists v, qstep (S d) l u tol fl fh fu f = Ret v.
Proof.
  revert l u fl fh fu. induction d as [|d IH]; intros l u fl fh fu Hlu Hl Hh Hu Hd.
  - rewrite qstep_accept; [eauto|]. change (inject_Z (2 ^ Z.of_nat 0)) with 1 in Hd.
    eapply Qle_lt_trans; [now apply qstep_estimates_close|]. lra.
  - destruct (Qlt_le_dec
                (Qabs (qstep_I2 l u fl (f ((l + (l + u) / 2) / 2)) fh
                         (f (((l + u) / 2 + u) / 2)) fu - qstep_I1 l u fl fh fu)) tol)
      as [Hacc | Hrej]; [rewrite qstep_accept by exact Hacc; eauto|].
    rewrite qstep_recurse by exact Hrej.
    rewrite Nat2Z.inj_succ, Z.pow_succ_r, inject_Z_mult in Hd by lia.
    change (inject_Z 2) with 2 in Hd.
    assert (exists h, h == (l + u) * (1 # 2) /\ h = (l + u) / 2) as (h & Eh & <-)
      by (eexists; split; [|reflexivity]; field).
    pose proof (f_bound ((l + h) / 2)) as Hfd. pose proof (f_bound ((h + u) / 2)) as Hfe.
    destruct (IH l h fl (f ((l + h) / 2)) fh) as [v1 E1]; try assumption;
      [rewrite Eh; lra | rewrite Eh; lra |].
    destruct (IH h u fh (f ((h + u) / 2)) fu) as [v2 E2]; try assumption;
      [rewrite Eh; lra | rewrite Eh; lra |].
    rewrite E1, E2. simpl. eauto.
Qed.

End Bounded.

(** *** Richardson's extrapolation of [Trapezoid] is [SimpsonOneThird] *)

Section Richardson.

Variable f : Q -> Q.
Context {f_Proper : Proper (Qeq ==> Qeq) f}.

(** The states of the loop of [Trapezoid] from equal data are equal. *)
Lemma Trapezoid_state_Proper (l l' h h' : Q) (k : nat) :
  l == l' -> h == h' ->
  fst (Trapezoid_state f l h k) == fst (Trapezoid_state f l' h' k) /\
  snd (Trapezoid_state f l h k) == snd (Trapezoid_state f l' h' k).
Proof.
  intros El Eh. induction k as [|k [IH1 IH2]]; [now split|]. cbn [Trapezoid_state].
  destruct (Trapezoid_state f l h k) as [x s], (Trapezoid_state f l' h' k) as [x' s'].
  cbn [fst snd] in *. qnum. now rewrite IH1, IH2, Eh.
Qed.

(** The loop of [SimpsonOneThird] visits the nodes of [Trapezoid] with
    the same step, and splits their sum by parity. *)
Lemma Simpson_state_Trapezoid (l d : Q) (k : nat) :
  let '(x, f11, f12) := Simpson_state f l d k in
  x = fst (Trapezoid_state f l d k) /\ f11 + f12 == snd (Trapezoid_state f l d k).
Proof.
  induction k as [|k IH]; [split; [reflexivity | cbn; qnum; ring]|].
  cbn [Simpson_state Trapezoid_state].
  destruct (Simpson_state f l d k) as [[x a] b], (Trapezoid_state f l d k) as [x' s].
  cbn [fst snd] in *. destruct IH as [-> E].
  destruct (Nat.even (S k)); cbn [fst snd]; (split; [reflexivity|]); qnum; rewrite <- E; ring.
Qed.

Lemma even_twice_succ (m : nat) :
  Nat.even (S (2 * m + 1)) = true /\ Nat.even (S (S (2 * m + 1))) = false.
Proof.
  assert (Nat.even (S (2 * m + 1)) = true) as E by (apply Nat.even_spec; exists (S m); lia).
  split; [exact E|]. now rewrite Nat.even_succ, <- Nat.negb_even, E.
Qed.

(** Its nodes of even index are the nodes of [Trapezoid] with twice the
    step. *)
Lemma Simpson_state_even (l d : Q) (m : nat) :
  let '(x, _, f12) := Simpson_state f l d (2 * m + 1) in
  x == fst (Trapezoid_state f l (2 * d) m) + d /\
  f12 == snd (Trapezoid_state f l (2 * d) m).
Proof.
  induction m as [|m IH].
  - cbn. qnum. split; reflexivity.
  - replace (2 * S m + 1)%nat with (S (S (2 * m + 1))) by lia.
    cbn [Simpson_state Trapezoid_state].
    destruct (Simpson_state f l d (2 * m + 1)) as [[x a] b].
    destruct (Trapezoid_state f l (2 * d) m) as [x' s]. cbn [fst snd] in *.
    destruct IH as [Ex Eb], (even_twice_succ m) as [-> ->].
    cbn [fst snd]. qnum. split; [rewrite Ex; ring|].
    rewrite Eb. apply Qplus_comp; [reflexivity|]. apply f_Proper. rewrite Ex. ring.
Qed.

(** [SimpsonOneThird] with [2 m] segments from the two runs of
    [Trapezoid]. *)
Lemma SimpsonOneThird_Richardson_Ret (l u : Q) (m : Z) :
  (1 <= m)%Z ->
  exists t1 t2 s,
    Trapezoid l u m f = Ret t1 /\ Trapezoid l u (2 * m) f = Ret t2 /\
    SimpsonOneThird l u (2 * m) f = Ret s /\
    s == (4 * t2 - t1) / 3.
Proof.
  intros Hm. rewrite !Trapezoid_Ret by lia. rewrite SimpsonOneThird_Ret by lia.
  eexists _, _, _. split; [reflexivity|]. split; [reflexivity|]. split; [reflexivity|].
  assert (~ inject_Z m == 0) as Nm by (apply inject_Z_nonzero; lia).
  set (d := (u - l) / inject_Z (2 * m)).
  assert ((u - l) / inject_Z m == 2 * d) as Ed
    by (unfold d; rewrite inject_Z_mult; field; exact Nm).
  pose proof (Simpson_state_Trapezoid l d (Z.to_nat (2 * m - 1))) as S1.
  pose proof (Simpson_state_even l d (Z.to_nat (m - 1))) as S2.
  replace (2 * Z.to_nat (m - 1) + 1)%nat with (Z.to_nat (2 * m - 1)) in S2 by lia.
  destruct (Trapezoid_state_Proper l l ((u - l) / inject_Z m) (2 * d) (Z.to_nat (m - 1))
              (Qeq_refl l) Ed) as [_ E1].
  destruct (Simpson_state f l d (Z.to_nat (2 * m - 1))) as [[x a] b].
  destruct S1 as [_ S1]. destruct S2 as [_ S2].
  rewrite E1, <- S2, <- S1. rewrite !inject_Z_mult. field. exact Nm.
Qed.

End Richardson.

(** C35. Richardson's extrapolation of the trapezoid rule is Simpson's
    rule.  For every integrand and [m >= 1], [SimpsonOneThird] with
    [2 m] segments returns [(4 T(2m) - T(m)) / 3], where [T(n)] is what
    [Trapezoid] returns with [n] segments: the two methods walk the
    same nodes, and the second column of the table of [Romberg] is
    [SimpsonOneThird]. *)
Theorem SimpsonOneThird_Richardson (f : Q -> Q) `{!Proper (Qeq ==> Qeq) f} (l u : Q) (m : Z) :
  (1 <= m)%Z ->
  exists t1 t2 s,
    Trapezoid l u m f = Ret t1 /\ Trapezoid l u (2 * m) f = Ret t2 /\
    SimpsonOneThird l u (2 * m) f = Ret s /\
    s == (4 * t2 - t1) / 3.
Proof. exact (SimpsonOneThird_Richardson_Ret f l u m). Qed.

(** *** The rules with the wrong sign *)

(** [TwoPointGaussLegendre] returns [f (-x) - f x] at [x = 1 / r3]:
    on [c0 + c1 x + c2 x^2 + c3 x^3] that is [- 2 (c1 x + c3 x^3)].  The
    integral over [[-1, 1]] is [2 c0 + 2/3 c2]: the rule returns none of
    it, whatever the node. *)
Theorem TwoPointGaussLegendre_cubic (c0 c1 c2 c3 r3 : Q) :
  let x := 1 / r3 in
  TwoPointGaussLegendre r3 (peval [c0; c1; c2; c3]) == - 2 * (c1 * x + c3 * x * x * x) /\
  pintegral [c0; c1; c2; c3] (- 1) 1 == 2 * c0 + (2 # 3) * c2.
Proof.
  intros x. unfold TwoPointGaussLegendre, pintegral.
  cbn [peval pint pint_from Pos.succ]. qnum. unfold x, Qdiv. split; [ring | field].
Qed.

End QuadratureQ.

(** ** Concrete runs *)

#[local] Open Scope Q_scope.

(** A step at [1/3], bounded by [1]. *)
Definition step_fn (x : Q) : Q := if Qle_bool x (1 # 3) then 0 else 1.

Lemma step_fn_bound (x : Q) : Qabs (step_fn x) <= 1.
Proof. unfold step_fn. destruct (Qle_bool x (1 # 3)); discriminate. Qed.

Lemma Trapezoid_quadratic_witness :
  exists v,
    Trapezoid 0 1 4 (peval [0; 0; 1]) = Ret v /\
    v == pintegral [0; 0; 1] 0 1 + 1 * (1 - 0) * (1 - 0) * (1 - 0) / (6 * inject_Z 4 * inject_Z 4).
Proof. apply Trapezoid_quadratic. lia. Defined.

Lemma SimpsonOneThird_exact_witness :
  exists v, SimpsonOneThird 0 2 4 (peval [1; 0; 3; 1]) = Ret v /\ v == pintegral [1; 0; 3; 1] 0 2.
Proof. apply SimpsonOneThird_exact; [simpl; lia | right; split; [lia | reflexivity]]. Defined.

Lemma SimpsonOneThird_odd_n_witness :
  exists v,
    SimpsonOneThird 0 3 (2 * Z.of_nat 1 + 1) (fun _ => 1) = Ret v /\
    v == (3 - 0) * (1 - 1 / (3 * inject_Z (2 * Z.of_nat 1 + 1))).
Proof. apply (SimpsonOneThird_odd_n 0 3 1). lia. Defined.

Lemma SimpsonThirdEight_exact_witness :
  SimpsonThirdEight 0 2 (peval [1; 0; 3; 1]) == pintegral [1; 0; 3; 1] 0 2.
Proof. apply SimpsonThirdEight_exact. simpl; lia. Defined.

Lemma AdaptiveQuadrature_exact_witness :
  exists v, AdaptiveQuadrature 1 0 2 (peval [1; 0; 3; 1]) = Ret v /\ v == pintegral [1; 0; 3; 1] 0 2.
Proof. apply AdaptiveQuadrature_exact. simpl; lia. Defined.

Lemma SimpsonOneThird_Richardson_witness :
  exists t1 t2 s,
    Trapezoid 0 1 3 (peval [0; 0; 0; 0; 1]) = Ret t1 /\
    Trapezoid 0 1 (2 * 3) (peval [0; 0; 0; 0; 1]) = Ret t2 /\
    SimpsonOneThird 0 1 (2 * 3) (peval [0; 0; 0; 0; 1]) = Ret s /\
    s == (4 * t2 - t1) / 3.
Proof. apply (SimpsonOneThird_Richardson (peval [0; 0; 0; 0; 1]) 0 1 3). lia. Defined.

Lemma qstep_terminates_witness :
  exists v, qstep 22 0 1 (1 # 1000000) (step_fn 0) (step_fn (1 # 2)) (step_fn 1) step_fn = Ret v.
Proof.
  apply (qstep_terminates step_fn 1 step_fn_bound 21); try apply step_fn_bound;
    [discriminate | reflexivity].
Defined.
