(* ===== verification/RootFind.v ===== *)
(** * RootFind: the root finders of [src/rootfind.py]

    The class [RootFind] keeps three attributes, set by [setParams]: the
    function [func], its derivative [der] and the tolerance [err], the
    first two [None] by default.  An object is [Some] of the record
    [params] once [setParams] has run and [None] before, when reading an
    attribute raises [AttributeError].  [BiSection], [NewtonRaphson],
    [Secant] and [Iteration] are the four methods; their [while] loops are
    [Fixpoint]s on fuel.  A local variable that the loop assigns and the
    [return] reads ([x_n1], [x_2], [x_1]) is an [option], [None] while
    unbound: returning it unbound is [UnboundLocalError].  The [else] of
    the [while] of [BiSection] runs whenever the loop condition fails, as
    in Python.  [print(x2)] in [BiSection] is output only and is left
    out. *)

From Stdlib Require Import ZArith QArith Qabs Qpower Lqa Lia List Bool Morphisms Setoid.
From Stdlib Require Import String Ascii.
From Stdlib Require Import Floats.
From S2P Require Import Prelude NumQ NumFloat.
Import ListNotations.

(** ** The messages of the exceptions *)

Definition msg_func : string := "Function (func) should be declared in setParams.".

Definition msg_der : string :=
  "Derivative function (der) should be declared in setParams.".

Definition msg_guess : string :=
  String.append "Guess are not proper."
    (String (ascii_of_nat 10) "Func(x0) * Func(x1) > 0. Select proper guess.").

(** ** The object and its methods *)

Section Methods.
Context {A : Type} `{Num A}.

#[local] Open Scope num_scope.
#[local] Open Scope outcome_scope.

Record params : Type := {
  func : option (A -> A);
  der : option (A -> A);
  err : A
}.

(** [err=1e-13], the default of [setParams]. *)
Definition default_err : A := 1 / num_of_Z (10 ^ 13).

Definition setParams (func der : option (A -> A)) (err : A) : option params :=
  Some {| func := func; der := der; err := err |}.

(** Reading the attributes of [self]. *)
Definition attributes (self : option params) : outcome params :=
  match self with
  | Some p => Ret p
  | None => Raise AttributeError
  end.

(** [if self.func == None: raise Exception(...)]. *)
Definition get_func (p : params) : outcome (A -> A) :=
  match func p with
  | Some f => Ret f
  | None => Raise (Exception msg_func)
  end.

Definition get_der (p : params) : outcome (A -> A) :=
  match der p with
  | Some f => Ret f
  | None => Raise (Exception msg_der)
  end.

Fixpoint BiSection_loop (fuel : nat) (f : A -> A) (tol x0 x1 : A) : outcome A :=
  match fuel with
  | O => OutOfFuel
  | S fuel =>
      if f x0 * f x1 <? 0 then
        let x2 := x0 + (x1 - x0) / 2 in
        let '(x0, x1) := if f x0 * f x2 >? 0 then (x2, x1) else (x0, x2) in
        if num_abs (f x0 - f x1) <? tol then Ret x2
        else BiSection_loop fuel f tol x0 x1
      else Raise (Exception msg_guess)
  end.

Definition BiSection (fuel : nat) (self : option params) (x0 x1 : A) : outcome A :=
  p <- attributes self ;;
  f <- get_func p ;;
  BiSection_loop fuel f (err p) x0 x1.

Fixpoint NewtonRaphson_loop (fuel : nat) (f df : A -> A) (tol x0 err : A)
    (x_n1 : option A) : outcome A :=
  match fuel with
  | O => OutOfFuel
  | S fuel =>
      if err >? tol then
        q <- pydiv (f x0) (df x0) ;;
        let x_n1 := x0 - q in
        let err := num_abs (f x0 - f x_n1) in
        NewtonRaphson_loop fuel f df tol x_n1 err (Some x_n1)
      else return_local x_n1
  end.

Definition NewtonRaphson (fuel : nat) (self : option params) (x0 : A) : outcome A :=
  let err0 := 100 in
  p <- attributes self ;;
  f <- get_func p ;;
  df <- get_der p ;;
  NewtonRaphson_loop fuel f df (err p) x0 err0 None.

Fixpoint Secant_loop (fuel : nat) (f : A -> A) (tol x0 x1 err : A) (x_2 : option A)
  : outcome A :=
  match fuel with
  | O => OutOfFuel
  | S fuel =>
      if err >? tol then
        let x_2 := x0 * f x1 - x1 * f x0 in
        x_2 <- pydiv x_2 (f x1 - f x0) ;;
        let err := num_abs (f x_2) in
        Secant_loop fuel f tol x1 x_2 err (Some x_2)
      else return_local x_2
  end.

Definition Secant (fuel : nat) (self : option params) (x0 x1 : A) : outcome A :=
  let err0 := 100 in
  p <- attributes self ;;
  f <- get_func p ;;
  Secant_loop fuel f (err p) x0 x1 err0 None.

Fixpoint Iteration_loop (fuel : nat) (f : A -> A) (tol x0 err : A) (x_1 : option A)
  : outcome A :=
  match fuel with
  | O => OutOfFuel
  | S fuel =>
      if err >? tol then
        let x_1 := f x0 in
        let err := num_abs (x_1 - x0) in
        Iteration_loop fuel f tol x_1 err (Some x_1)
      else return_local x_1
  end.

Definition Iteration (fuel : nat) (self : option params) (x0 : A) : outcome A :=
  let err0 := 100 in
  p <- attributes self ;;
  f <- get_func p ;;
  Iteration_loop fuel f (err p) x0 err0 None.

(** ** Running the loop of [BiSection] *)

(** One iteration: the outcome, or the next bracket. *)
Definition BiSection_next (f : A -> A) (tol x0 x1 : A) : outcome A + A * A :=
  if f x0 * f x1 <? 0 then
    let x2 := x0 + (x1 - x0) / 2 in
    let '(x0, x1) := if f x0 * f x2 >? 0 then (x2, x1) else (x0, x2) in
    if num_abs (f x0 - f x1) <? tol then inl (Ret x2) else inr (x0, x1)
  else inl (Raise (Exception msg_guess)).

(** The bracket after [k] iterations, if none has ended the loop. *)
Fixpoint BiSection_run (k : nat) (f : A -> A) (tol x0 x1 : A) : option (A * A) :=
  match k with
  | O => Some (x0, x1)
  | S k =>
      match BiSection_next f tol x0 x1 with
      | inl _ => None
      | inr (x0, x1) => BiSection_run k f tol x0 x1
      end
  end.

Lemma BiSection_loop_next (fuel : nat) (f : A -> A) (tol x0 x1 : A) :
  BiSection_loop (S fuel) f tol x0 x1 =
  match BiSection_next f tol x0 x1 with
  | inl o => o
  | inr (x0, x1) => BiSection_loop fuel f tol x0 x1
  end.
Proof.
  cbn [BiSection_loop]. unfold BiSection_next.
  destruct (f x0 * f x1 <? 0); [|reflexivity].
  destruct (f x0 * f (x0 + (x1 - x0) / 2) >? 0);
    match goal with |- context [if ?b then _ else _] => destruct b end; reflexivity.
Qed.

Lemma BiSection_loop_run (k fuel : nat) (f : A -> A) (tol x0 x1 a b : A) :
  BiSection_run k f tol x0 x1 = Some (a, b) ->
  BiSection_loop (k + fuel) f tol x0 x1 = BiSection_loop fuel f tol a b.
Proof.
  revert x0 x1. induction k as [|k IH]; intros x0 x1 E; simpl in E.
  - now inv E.
  - change (S k + fuel)%nat with (S (k + fuel)). rewrite BiSection_loop_next.
    destruct (BiSection_next f tol x0 x1) as [o | [x0' x1']]; [discriminate|]. now apply IH.
Qed.

Lemma BiSection_run_prefix (k j : nat) (f : A -> A) (tol x0 x1 : A) :
  BiSection_run (k + j) f tol x0 x1 <> None -> BiSection_run k f tol x0 x1 <> None.
Proof.
  revert x0 x1. induction k as [|k IH]; intros x0 x1 E; [discriminate|].
  simpl in *. destruct (BiSection_next f tol x0 x1) as [o | [x0' x1']]; [exact E|].
  now apply IH.
Qed.

(** A bracket that an iteration leaves as it is keeps the loop running
    for ever. *)
Lemma BiSection_loop_stuck (f : A -> A) (tol a b : A) :
  BiSection_next f tol a b = inr (a, b) ->
  forall fuel, BiSection_loop fuel f tol a b = OutOfFuel.
Proof.
  intros E fuel. induction fuel as [|fuel IH]; [reflexivity|].
  now rewrite BiSection_loop_next, E.
Qed.

(** If [k] iterations lead to such a bracket, no fuel is enough. *)
Lemma BiSection_loop_forever (k : nat) (f : A -> A) (tol x0 x1 a b : A) :
  BiSection_run k f tol x0 x1 = Some (a, b) ->
  BiSection_next f tol a b = inr (a, b) ->
  forall fuel, BiSection_loop fuel f tol x0 x1 = OutOfFuel.
Proof.
  intros R E fuel. destruct (Nat.le_gt_cases k fuel) as [L | L].
  - replace fuel with (k + (fuel - k))%nat by lia.
    rewrite (BiSection_loop_run _ _ _ _ _ _ _ _ R). now apply BiSection_loop_stuck.
  - destruct (BiSection_run fuel f tol x0 x1) as [[a' b']|] eqn:R'.
    + rewrite <- (Nat.add_0_r fuel). now rewrite (BiSection_loop_run _ _ _ _ _ _ _ _ R').
    + exfalso. apply (BiSection_run_prefix fuel (k - fuel) f tol x0 x1); [|exact R'].
      replace (fuel + (k - fuel))%nat with k by lia. congruence.
Qed.

End Methods.

Arguments params A : clear implicits.

(** ** Over exact rationals *)

Section RootFindQ.
Variable f : Q -> Q.

#[local] Open Scope Q_scope.

(** *** BiSection *)

(** One iteration, by the three tests it makes. *)
Lemma BiSection_loop_raise (fuel : nat) (tol x0 x1 : Q) :
  0 <= f x0 * f x1 -> BiSection_loop (S fuel) f tol x0 x1 = Raise (Exception msg_guess).
Proof. intros G. cbn [BiSection_loop]. now test_is false G. Qed.

Lemma BiSection_loop_left (fuel : nat) (tol x0 x1 : Q) :
  let x2 := x0 + (x1 - x0) / 2 in
  f x0 * f x1 < 0 -> 0 < f x0 * f x2 ->
  BiSection_loop (S fuel) f tol x0 x1 =
  if (Qabs (f x2 - f x1) <? tol)%num then Ret x2 else BiSection_loop fuel f tol x2 x1.
Proof. intros x2 G S. cbn [BiSection_loop]. test_is true G. now test_is true S. Qed.

Lemma BiSection_loop_right (fuel : nat) (tol x0 x1 : Q) :
  let x2 := x0 + (x1 - x0) / 2 in
  f x0 * f x1 < 0 -> f x0 * f x2 <= 0 ->
  BiSection_loop (S fuel) f tol x0 x1 =
  if (Qabs (f x0 - f x2) <? tol)%num then Ret x2 else BiSection_loop fuel f tol x0 x2.
Proof. intros x2 G S. cbn [BiSection_loop]. test_is true G. now test_is false S. Qed.

(** The three ways an iteration goes. *)
Ltac bisect x0 x1 :=
  destruct (Qlt_le_dec (f x0 * f x1) 0) as [G | G];
  [destruct (Qlt_le_dec 0 (f x0 * f (x0 + (x1 - x0) / 2))) as [S | S];
   [rewrite (BiSection_loop_left _ _ _ _ G S) | rewrite (BiSection_loop_right _ _ _ _ G S)]
  | rewrite (BiSection_loop_raise _ _ _ _ G)].

(** Values of opposite sign that are close are small. *)
Lemma opposite_close (a b tol : Q) : a * b <= 0 -> Qabs (a - b) < tol -> Qabs a < tol /\ Qabs b < tol.
Proof.
  intros Hab Hc. apply Qabs_Qlt_condition in Hc.
  split; apply Qabs_Qlt_condition; destruct (Qlt_le_dec a 0), (Qlt_le_dec b 0); split; nra.
Qed.

(** C21. What [BiSection] returns.  A value returned by the loop lies
    between the two guesses and its residual is below the tolerance. *)
Theorem BiSection_residual (fuel : nat) (tol x0 x1 x : Q) :
  BiSection_loop fuel f tol x0 x1 = Ret x ->
  Qabs (f x) < tol /\ (x0 <= x <= x1 \/ x1 <= x <= x0).
Proof.
  revert x0 x1. induction fuel as [|fuel IH]; intros x0 x1; [discriminate|].
  assert (x0 + (x1 - x0) / 2 == (x0 + x1) * (1 # 2)) as Em by field.
  bisect x0 x1; [| |discriminate].
  - destruct (Qabs (f _ - f x1) <? tol)%num eqn:T; intros E.
    + inv E. apply Qltb_true in T. split; [|rewrite Em; destruct (Qlt_le_dec x0 x1); lra].
      apply (opposite_close _ (f x1)); [nra | exact T].
    + apply IH in E as [R B]. split; [exact R|]. rewrite Em in B.
      destruct (Qlt_le_dec x0 x1); lra.
  - destruct (Qabs (f x0 - f _) <? tol)%num eqn:T; intros E.
    + inv E. apply Qltb_true in T. split; [|rewrite Em; destruct (Qlt_le_dec x0 x1); lra].
      apply (opposite_close (f x0)); [exact S | exact T].
    + apply IH in E as [R B]. split; [exact R|]. rewrite Em in B.
      destruct (Qlt_le_dec x0 x1); lra.
Qed.

(** C34. Guesses that do not bracket a sign change are refused, as the
    message says; but so is a bracket whose midpoint is a root: after
    [x1 = x2] the product [func(x0) * func(x1)] is [0], the loop condition
    fails and the [else] of the [while] raises. *)
Theorem BiSection_raises (fuel : nat) (tol x0 x1 : Q) :
  (0 <= f x0 * f x1 ->
   BiSection_loop (S fuel) f tol x0 x1 = Raise (Exception msg_guess)) /\
  (f x0 * f x1 < 0 -> f (x0 + (x1 - x0) / 2) == 0 -> tol <= Qabs (f x0) ->
   BiSection_loop (S (S fuel)) f tol x0 x1 = Raise (Exception msg_guess)).
Proof.
  split; [apply BiSection_loop_raise|]. intros G Z T.
  rewrite BiSection_loop_right by (exact G || (rewrite Z; lra)).
  assert (Qabs (f x0 - f (x0 + (x1 - x0) / 2)) == Qabs (f x0)) as E
    by (apply Qabs_wd; rewrite Z; ring).
  assert ((Qabs (f x0 - f (x0 + (x1 - x0) / 2)) <? tol)%num = false) as ->
    by (apply Qltb_false; rewrite E; exact T).
  apply BiSection_loop_raise. rewrite Z. lra.
Qed.

(** On a Lipschitz function the bracket is accepted once it is narrow. *)
Section Lipschitz.
Variable L : Q.
Hypothesis f_Lipschitz : forall x y, Qabs (f x - f y) <= L * Qabs (x - y).

Lemma half_width (x0 x1 : Q) :
  Qabs (x0 + (x1 - x0) / 2 - x1) == Qabs (x1 - x0) * (1 # 2) /\
  Qabs (x0 - (x0 + (x1 - x0) / 2)) == Qabs (x1 - x0) * (1 # 2).
Proof.
  split.
  - setoid_replace (x0 + (x1 - x0) / 2 - x1) with ((x1 - x0) * - (1 # 2)) by field.
    now rewrite Qabs_Qmult.
  - setoid_replace (x0 - (x0 + (x1 - x0) / 2)) with ((x1 - x0) * - (1 # 2)) by field.
    now rewrite Qabs_Qmult.
Qed.

(** C20. Termination of [BiSection] in exact arithmetic.  On a function
    with Lipschitz constant [L] the loop ends, with a value or with the
    exception, within [d + 1] iterations when
    [L |x1 - x0| < err 2^(d + 1)]. *)
Theorem BiSection_terminates (d : nat) (tol x0 x1 : Q) :
  L * Qabs (x1 - x0) < tol * inject_Z (2 ^ Z.of_nat (S d)) ->
  BiSection_loop (S d) f tol x0 x1 <> OutOfFuel.
Proof.
  revert x0 x1. induction d as [|d IH]; intros x0 x1 Hw;
    rewrite Nat2Z.inj_succ, Z.pow_succ_r, inject_Z_mult in Hw by lia;
    change (inject_Z 2) with 2 in Hw; destruct (half_width x0 x1) as [W1 W2];
    bisect x0 x1; try discriminate.
  - change (inject_Z (2 ^ Z.of_nat 0)) with 1 in Hw.
    assert (Qabs (f (x0 + (x1 - x0) / 2) - f x1) < tol) as T
      by (eapply Qle_lt_trans; [apply f_Lipschitz | rewrite W1; lra]).
    test_is true T. discriminate.
  - change (inject_Z (2 ^ Z.of_nat 0)) with 1 in Hw.
    assert (Qabs (f x0 - f (x0 + (x1 - x0) / 2)) < tol) as T
      by (eapply Qle_lt_trans; [apply f_Lipschitz | rewrite W2; lra]).
    test_is true T. discriminate.
  - destruct (_ <? tol)%num; [discriminate|]. apply IH.
    setoid_replace (x1 - (x0 + (x1 - x0) / 2)) with (- (x0 + (x1 - x0) / 2 - x1)) by ring.
    rewrite Qabs_opp, W1. lra.
  - destruct (_ <? tol)%num; [discriminate|]. apply IH.
    setoid_replace (x0 + (x1 - x0) / 2 - x0) with (- (x0 - (x0 + (x1 - x0) / 2))) by ring.
    rewrite Qabs_opp, W2. lra.
Qed.

End Lipschitz.

(** *** NewtonRaphson *)

Section Newton.
Variable df : Q -> Q.

(** The loop state after an iteration from [x']. *)
Definition Newton_after (x0 err : Q) (x_n1 : option Q) : Prop :=
  x_n1 = None \/
  exists x', ~ df x' == 0 /\ x0 = x' - f x' / df x' /\ x_n1 = Some x0 /\
             err = Qabs (f x' - f x0).

Lemma NewtonRaphson_loop_returns (fuel : nat) (tol x0 err x : Q) (x_n1 : option Q) :
  Newton_after x0 err x_n1 ->
  NewtonRaphson_loop fuel f df tol x0 err x_n1 = Ret x ->
  exists x', ~ df x' == 0 /\ x = x' - f x' / df x' /\ Qabs (f x' - f x) <= tol.
Proof.
  revert x0 err x_n1. induction fuel as [|fuel IH]; intros x0 err x_n1 I; [discriminate|].
  cbn [NewtonRaphson_loop]. destruct (Qlt_le_dec tol err) as [G | G].
  - test_is true G. destruct (Qeq_dec (df x0) 0) as [Z | Z].
    + now rewrite pydiv_Q_Raise.
    + rewrite pydiv_Q_Ret by exact Z. cbn [bind]. apply IH. right. now exists x0.
  - test_is false G. destruct I as [-> | (x' & Z & E0 & -> & ->)]; [discriminate|].
    intros E. inv E. eauto.
Qed.

(** What [NewtonRaphson] returns: a Newton step [x' - f x' / f' x']
    from a point where the derivative does not vanish, with
    [|f x' - f x| <= err].  The test is on the change of [f], not on
    [f x]. *)
Theorem NewtonRaphson_returns (fuel : nat) (tol x0 x : Q) :
  NewtonRaphson_loop fuel f df tol x0 100 None = Ret x ->
  exists x', ~ df x' == 0 /\ x = x' - f x' / df x' /\ Qabs (f x' - f x) <= tol.
Proof. apply NewtonRaphson_loop_returns. now left. Qed.

(** The exceptions of [NewtonRaphson]: a derivative that vanishes at
    the current point raises [ZeroDivisionError]; a tolerance of [100] or
    more makes the loop take no step and the [return] read [x_n1]
    unbound. *)
Theorem NewtonRaphson_raises (fuel : nat) (tol x0 : Q) :
  (tol < 100 -> df x0 == 0 ->
   NewtonRaphson_loop (S fuel) f df tol x0 100 None = Raise ZeroDivisionError) /\
  (100 <= tol ->
   NewtonRaphson_loop (S fuel) f df tol x0 100 None = Raise UnboundLocalError).
Proof.
  split; intros G; cbn [NewtonRaphson_loop].
  - intros Z. test_is true G. now rewrite pydiv_Q_Raise.
  - now test_is false G.
Qed.

End Newton.

(** *** Secant and Iteration *)

Lemma Secant_loop_returns (fuel : nat) (tol x0 x1 err x : Q) (x_2 : option Q) :
  x_2 = None \/ x_2 = Some x1 /\ err = Qabs (f x1) ->
  Secant_loop fuel f tol x0 x1 err x_2 = Ret x -> Qabs (f x) <= tol.
Proof.
  revert x0 x1 err x_2. induction fuel as [|fuel IH]; intros x0 x1 err x_2 I; [discriminate|].
  cbn [Secant_loop]. destruct (Qlt_le_dec tol err) as [G | G].
  - test_is true G. destruct (Qeq_dec (f x1 - f x0) 0) as [Z | Z].
    + now rewrite pydiv_Q_Raise.
    + rewrite pydiv_Q_Ret by exact Z. cbn [bind]. apply IH. now right.
  - test_is false G. destruct I as [-> | [-> ->]]; [discriminate|].
    intros E. now inv E.
Qed.

(** What [Secant] returns has a residual within the tolerance. *)
Theorem Secant_residual (fuel : nat) (tol x0 x1 x : Q) :
  Secant_loop fuel f tol x0 x1 100 None = Ret x -> Qabs (f x) <= tol.
Proof. apply Secant_loop_returns. now left. Qed.

Lemma Iteration_loop_returns (fuel : nat) (tol x0 err x : Q) (x_1 : option Q) :
  x_1 = None \/ (exists x', x0 = f x' /\ x_1 = Some x0 /\ err = Qabs (x0 - x')) ->
  Iteration_loop fuel f tol x0 err x_1 = Ret x ->
  exists x', x = f x' /\ Qabs (x - x') <= tol.
Proof.
  revert x0 err x_1. induction fuel as [|fuel IH]; intros x0 err x_1 I; [discriminate|].
  cbn [Iteration_loop]. destruct (Qlt_le_dec tol err) as [G | G].
  - test_is true G. apply IH. right. now exists x0.
  - test_is false G. destruct I as [-> | (x' & -> & -> & ->)]; [discriminate|].
    intros E. inv E. eauto.
Qed.

(** On a contraction the steps of [Iteration] shrink geometrically. *)
Section Contraction.
Variable q : Q.
Hypothesis q_nonneg : 0 <= q.
Hypothesis f_contracts : forall x y, Qabs (f x - f y) <= q * Qabs (x - y).

Lemma Iteration_loop_terminates (k : nat) (tol x0 err : Q) (x_1 : option Q) :
  Qabs (f x0 - x0) * q ^ Z.of_nat k <= tol -> tol < err \/ x_1 <> None ->
  exists x, Iteration_loop (S (S k)) f tol x0 err x_1 = Ret x.
Proof.
  assert (forall fuel x0 err x_1, err <= tol -> x_1 <> None ->
            exists x, Iteration_loop (S fuel) f tol x0 err x_1 = Ret x) as Stop.
  { intros fuel y e [x|] G N; [|congruence]. cbn [Iteration_loop]. test_is false G.
    simpl. eauto. }
  assert (forall fuel x0 err x_1, tol < err ->
            Iteration_loop (S fuel) f tol x0 err x_1 =
            Iteration_loop fuel f tol (f x0) (Qabs (f x0 - x0)) (Some (f x0))) as Step.
  { intros fuel y e x G. cbn [Iteration_loop]. now test_is true G. }
  revert x0 err x_1. induction k as [|k IH]; intros x0 err x_1 Hk I;
    (destruct (Qlt_le_dec tol err) as [G | G];
     [|destruct I as [I | I]; [lra | now apply Stop]]);
    rewrite Step by exact G.
  - change (q ^ Z.of_nat 0) with 1 in Hk. apply Stop; [lra | discriminate].
  - apply IH; [|right; discriminate].
    rewrite Qpower_succ_nat in Hk. pose proof (f_contracts (f x0) x0) as C.
    assert (0 <= q ^ Z.of_nat k) as P by now apply Qpower_0_le.
    eapply Qle_trans; [|exact Hk].
    setoid_replace (Qabs (f x0 - x0) * (q * q ^ Z.of_nat k))
      with (q * Qabs (f x0 - x0) * q ^ Z.of_nat k) by ring.
    apply Qmult_le_compat_r; assumption.
Qed.

(** [Iteration] on a contraction with factor [q < 1] returns: fuel
    [k + 2] is enough when [|f x0 - x0| q^k <= err < 100], and the value
    returned is [f x'] for a point [x'] within [err] of it. *)
Theorem Iteration_terminates (k : nat) (tol x0 : Q) :
  tol < 100 -> Qabs (f x0 - x0) * q ^ Z.of_nat k <= tol ->
  exists x, Iteration_loop (S (S k)) f tol x0 100 None = Ret x /\
            exists x', x = f x' /\ Qabs (x - x') <= tol.
Proof.
  intros G Hk. destruct (Iteration_loop_terminates k tol x0 100 None Hk) as [x E]; [now left|].
  exists x. split; [exact E|]. apply (Iteration_loop_returns _ _ _ _ _ _ (or_introl eq_refl) E).
Qed.

End Contraction.

End RootFindQ.

(** ** Square roots by [NewtonRaphson] *)

Section SquareRoot.

Variable a : Q.
Hypothesis a_pos : 0 < a.

(** The function whose root is the square root of [a], its derivative,
    and one step of Newton's method on it. *)
Definition square_less (x : Q) : Q := x * x - a.
Definition twice (x : Q) : Q := 2 * x.
Definition Heron (x : Q) : Q := x - square_less x / twice x.

(** From a point above the root a step stays above it, and divides the
    residual by four at least. *)
Lemma Heron_step (x : Q) :
  0 < x -> 0 <= square_less x ->
  0 < Heron x /\ 0 <= square_less (Heron x) /\ 4 * square_less (Heron x) <= square_less x.
Proof.
  unfold Heron, square_less, twice. intros Hx Hf.
  assert (0 < x * x) as Hs by now apply Qmult_lt_0_compat.
  assert (0 < / (2 * x)) as Hi by (apply Qinv_lt_0_compat; lra).
  assert (x - (x * x - a) / (2 * x) == (x * x + a) * / (2 * x)) as -> by (field; lra).
  assert (4 * (/ (2 * x) * / (2 * x)) * (x * x) == 1) as Ei by (field; lra).
  generalize dependent (/ (2 * x)). generalize dependent (x * x). clear x Hx.
  intros s Hf Hs i Hi Ei.
  assert (0 < i * i) as Hii by now apply Qmult_lt_0_compat.
  assert ((s + a) * i * ((s + a) * i) - a == (s - a) * ((s - a) * (i * i))) as ->.
  { setoid_replace ((s + a) * i * ((s + a) * i) - a)
      with ((s - a) * ((s - a) * (i * i)) + a * (4 * (i * i) * s - 1)) by ring.
    rewrite Ei. ring. }
  assert (4 * ((s - a) * (i * i)) <= 1) as B.
  { rewrite <- Ei. setoid_replace (4 * (i * i) * s) with (4 * (s * (i * i))) by ring.
    apply Qmult_le_l; [lra|]. apply Qmult_le_compat_r; lra. }
  assert (0 <= (s - a) * (i * i)) as P by (apply Qmult_le_0_compat; lra).
  split; [apply Qmult_lt_0_compat; lra|]. split; [apply Qmult_le_0_compat; lra|].
  set (w := (s - a) * (i * i)) in *. clearbody w. nra.
Qed.

(** The loop from a point above the root: it ends within [k + 1] more
    tests once the residual is below [tol 4^k], on a point above the
    root whose residual is a third of the tolerance at most. *)
Lemma NewtonRaphson_loop_Heron (k : nat) (tol : Q) :
  forall x0 err x_n1,
    0 < x0 -> 0 <= square_less x0 -> square_less x0 <= tol * 4 ^ Z.of_nat k ->
    tol < err \/
    (err <= tol /\ x_n1 = Some x0 /\ 3 * square_less x0 <= tol) ->
    exists x, NewtonRaphson_loop (S (S k)) square_less twice tol x0 err x_n1 = Ret x /\
              0 < x /\ 0 <= square_less x /\ 3 * square_less x <= tol.
Proof.
  assert (forall fuel x0 err, err <= tol ->
            NewtonRaphson_loop (S fuel) square_less twice tol x0 err (Some x0) = Ret x0) as Stop.
  { intros fuel x0 err G. cbn [NewtonRaphson_loop]. now test_is false G. }
  assert (forall fuel x0 err x_n1, tol < err -> 0 < x0 ->
            NewtonRaphson_loop (S fuel) square_less twice tol x0 err x_n1 =
            NewtonRaphson_loop fuel square_less twice tol (Heron x0)
              (Qabs (square_less x0 - square_less (Heron x0))) (Some (Heron x0))) as Step.
  { intros fuel x0 err x_n1 G Hx. cbn [NewtonRaphson_loop]. test_is true G.
    now rewrite pydiv_Q_Ret by (unfold twice; lra). }
  assert (forall x0, 0 < x0 -> 0 <= square_less x0 ->
            Qabs (square_less x0 - square_less (Heron x0))
            == square_less x0 - square_less (Heron x0)) as Abs.
  { intros x0 Hx Hf. destruct (Heron_step x0 Hx Hf) as (_ & P & D). apply Qabs_pos. lra. }
  induction k as [|k IH]; intros x0 err x_n1 Hx Hf Hk I;
    (destruct I as [G | (G & -> & R)]; [|rewrite Stop by exact G; eauto]);
    rewrite Step by assumption; destruct (Heron_step x0 Hx Hf) as (Hx' & P & D);
    pose proof (Abs x0 Hx Hf) as E.
  - change (4 ^ Z.of_nat 0) with 1 in Hk. rewrite Stop by lra.
    eexists. split; [reflexivity|]. repeat split; lra.
  - rewrite Qpower_succ_nat in Hk.
    apply IH; [exact Hx' | exact P | lra |].
    destruct (Qlt_le_dec tol (Qabs (square_less x0 - square_less (Heron x0)))) as [G' | G'];
      [now left | right].
    repeat split; [exact G' | lra].
Qed.

End SquareRoot.

(** C33. [NewtonRaphson] computes square roots.  On [x^2 - a] with
    [a > 0], from a positive guess whose square is at least [a],
    the loop ends within [k + 2] tests when the residual of the guess
    is at most [err 4^k], and returns a positive [x] with
    [a <= x^2 <= a + err / 3] (written [3 (x^2 - a) <= err]). *)
Theorem NewtonRaphson_square_root (k : nat) (a tol x0 : Q) :
  0 < a -> 0 < x0 -> a <= x0 * x0 -> tol < 100 -> x0 * x0 - a <= tol * 4 ^ Z.of_nat k ->
  exists x,
    NewtonRaphson_loop (S (S k)) (square_less a) twice tol x0 100 None = Ret x /\
    0 < x /\ a <= x * x /\ 3 * (x * x - a) <= tol.
Proof.
  intros Ha Hx Hf G Hk.
  destruct (NewtonRaphson_loop_Heron a Ha k tol x0 100 None Hx
              ltac:(unfold square_less; lra) Hk (or_introl G)) as (x & E & Px & Pf & R).
  unfold square_less in Pf, R. exists x. split; [exact E|]. split; [exact Px|]. split; [lra | exact R].
Qed.

(** ** [Secant] on a straight line *)

(** On [c1 x + c0] with [c1 <> 0], from two distinct guesses, the first
    secant is the line itself: [Secant] returns its root at the second
    test of the loop. *)
Theorem Secant_line (c0 c1 tol x0 x1 : Q) :
  ~ c1 == 0 -> ~ x0 == x1 -> 0 <= tol < 100 ->
  exists x, Secant_loop 2 (fun x => c1 * x + c0) tol x0 x1 100 None = Ret x /\
            c1 * x + c0 == 0.
Proof.
  intros Hc Hx [G0 G]. cbn [Secant_loop]. test_is true G.
  rewrite pydiv_Q_Ret.
  - cbn [bind]. qnum.
    set (x := (x0 * (c1 * x1 + c0) - x1 * (c1 * x0 + c0)) / (c1 * x1 + c0 - (c1 * x0 + c0))).
    assert (c1 * x + c0 == 0) as Z.
    { unfold x. field. intros E. apply Hx.
      apply (Qmult_inj_l _ _ c1 Hc). lra. }
    assert (Qabs (c1 * x + c0) <= tol) as G' by (rewrite Z; exact G0).
    test_is false G'. cbn [return_local]. eauto.
  - qnum. intros E. apply Hx. apply (Qmult_inj_l _ _ c1 Hc). lra.
Qed.

(** ** The object *)

(** The methods and the attributes.  Before [setParams] every
    method raises [AttributeError]; with [func] unset each raises the
    exception of its first test, and [NewtonRaphson] with [der] unset
    that of its second; otherwise a method is its loop on the attributes. *)
Theorem RootFind_attributes {A : Type} `{Num A} (fuel : nat) (x0 x1 e : A)
    (f : A -> A) (d : option (A -> A)) :
  (BiSection fuel None x0 x1 = Raise AttributeError /\
   NewtonRaphson fuel None x0 = Raise AttributeError /\
   Secant fuel None x0 x1 = Raise AttributeError /\
   Iteration fuel None x0 = Raise AttributeError) /\
  (BiSection fuel (setParams None d e) x0 x1 = Raise (Exception msg_func) /\
   NewtonRaphson fuel (setParams None d e) x0 = Raise (Exception msg_func) /\
   Secant fuel (setParams None d e) x0 x1 = Raise (Exception msg_func) /\
   Iteration fuel (setParams None d e) x0 = Raise (Exception msg_func)) /\
  NewtonRaphson fuel (setParams (Some f) None e) x0 = Raise (Exception msg_der) /\
  BiSection fuel (setParams (Some f) d e) x0 x1 = BiSection_loop fuel f e x0 x1.
Proof. repeat split. Qed.

(** ** Runs in binary64 *)

(** A steep function with a root at the square root of 2. *)
Definition steep (x : float) : float := (1000 * (x * x - 2))%float.

(** C12. [BiSection] need not end in binary64.  On
    [1000 (x^2 - 2)] from the bracket [[1, 2]], with the default
    tolerance, 52 iterations bring the bracket to two adjacent floats,
    [1.4142135623730949] and [1.4142135623730951]; the values of the
    function there differ by [8.9e-13], more than [err], the midpoint
    rounds to an end of the bracket, and the loop repeats for ever. *)
Theorem BiSection_binary64_forever (fuel : nat) :
  BiSection_run 52 steep default_err 1%float 2%float =
    Some (0x1.6a09e667f3bccp+0, 0x1.6a09e667f3bcdp+0)%float /\
  BiSection fuel (setParams (Some steep) None default_err) 1%float 2%float = OutOfFuel.
Proof.
  assert (BiSection_run 52 steep default_err 1%float 2%float =
          Some (0x1.6a09e667f3bccp+0, 0x1.6a09e667f3bcdp+0)%float) as R
    by (vm_compute; reflexivity).
  split; [exact R|].
  apply (BiSection_loop_forever 52 steep _ _ _ _ _ R). vm_compute. reflexivity.
Qed.

(** The function of the docstring, [pow(x,2)-2], and its derivative. *)
Definition square64 (x : float) : float := (x * x - 2)%float.

Definition dsquare64 (x : float) : float := (2 * x)%float.

(** The distance of a float to the correctly rounded square root of 2 is
    below [1e-13]. *)
Definition near_sqrt2 (x : float) : bool :=
  PrimFloat.ltb (PrimFloat.abs (x - PrimFloat.sqrt 2)) default_err.

(** The run of the docstring in binary64.  With [func = x^2 - 2],
    [der = 2 x] and the default tolerance, [BiSection] on [[1, 2]],
    [NewtonRaphson] from [1] and [Secant] from [1, 2] return
    [1.414213562373078], [1.4142135623730949] and [1.4142135623730951],
    each within [1e-13] of the square root of 2. *)
Theorem RootFind_sqrt2_binary64 :
  let rf := setParams (Some square64) (Some dsquare64) default_err in
  (BiSection 100 rf 1 2 = Ret 0x1.6a09e667f3b8p+0 /\
   NewtonRaphson 100 rf 1 = Ret 0x1.6a09e667f3bccp+0 /\
   Secant 100 rf 1 2 = Ret 0x1.6a09e667f3bcdp+0)%float /\
  forallb near_sqrt2
    [0x1.6a09e667f3b8p+0; 0x1.6a09e667f3bccp+0; 0x1.6a09e667f3bcdp+0]%float = true.
Proof. repeat split; vm_compute; reflexivity. Qed.

(** ** Concrete runs over the rationals *)

#[local] Open Scope Q_scope.

Definition sq2 (x : Q) : Q := x * x - 2.

Definition line (x : Q) : Q := 2 * x - 1.

Definition halve (x : Q) : Q := x * (1 # 2) + 1.

Lemma line_Lipschitz (x y : Q) : Qabs (line x - line y) <= 2 * Qabs (x - y).
Proof.
  unfold line. setoid_replace (2 * x - 1 - (2 * y - 1)) with (2 * (x - y)) by ring.
  rewrite Qabs_Qmult. apply Qle_refl.
Qed.

Lemma halve_contracts (x y : Q) : Qabs (halve x - halve y) <= (1 # 2) * Qabs (x - y).
Proof.
  unfold halve. setoid_replace (x * (1 # 2) + 1 - (y * (1 # 2) + 1)) with ((1 # 2) * (x - y))
    by ring.
  rewrite Qabs_Qmult. apply Qle_refl.
Qed.

Lemma BiSection_residual_witness :
  exists x,
    BiSection_loop 60 sq2 (1 # 100) 1 2 = Ret x /\
    Qabs (sq2 x) < 1 # 100 /\ (1 <= x <= 2 \/ 2 <= x <= 1).
Proof.
  eexists. split; [vm_compute; reflexivity|].
  apply (BiSection_residual sq2 60 (1 # 100) 1 2). vm_compute. reflexivity.
Defined.

Lemma BiSection_terminates_witness :
  BiSection_loop 8 line (1 # 100) 0 1 <> OutOfFuel.
Proof. apply (BiSection_terminates line 2 line_Lipschitz 7). vm_compute. reflexivity. Defined.

Lemma NewtonRaphson_returns_witness :
  exists x,
    NewtonRaphson_loop 20 sq2 (fun x => 2 * x) (1 # 100) 1 100 None = Ret x /\
    exists x', ~ 2 * x' == 0 /\ x = x' - sq2 x' / (2 * x') /\ Qabs (sq2 x' - sq2 x) <= 1 # 100.
Proof.
  eexists. split; [vm_compute; reflexivity|].
  apply (NewtonRaphson_returns sq2 (fun x => 2 * x) 20 (1 # 100) 1). vm_compute. reflexivity.
Defined.

Lemma Secant_residual_witness :
  exists x, Secant_loop 20 sq2 (1 # 100) 1 2 100 None = Ret x /\ Qabs (sq2 x) <= 1 # 100.
Proof.
  eexists. split; [vm_compute; reflexivity|].
  apply (Secant_residual sq2 20 (1 # 100) 1 2). vm_compute. reflexivity.
Defined.

Lemma Iteration_terminates_witness :
  exists x, Iteration_loop 9 halve (1 # 100) 0 100 None = Ret x /\
            exists x', x = halve x' /\ Qabs (x - x') <= 1 # 100.
Proof.
  apply (Iteration_terminates halve (1 # 2) ltac:(discriminate) halve_contracts 7);
    vm_compute; [reflexivity | discriminate].
Defined.

Lemma NewtonRaphson_square_root_witness :
  exists x,
    NewtonRaphson_loop 6 (square_less 2) twice (1 # 100) 2 100 None = Ret x /\
    0 < x /\ 2 <= x * x /\ 3 * (x * x - 2) <= 1 # 100.
Proof.
  apply (NewtonRaphson_square_root 4 2 (1 # 100) 2); try reflexivity; discriminate.
Defined.
