(* ===== verification/Optimization.v ===== *)
(** * Optimization: the one-dimensional optimisers of [src/optimization.py]

    The class [OneD] has three methods.  [GoldenSection] keeps its two
    interior points and their values in the fields [x1], [x2], [f1],
    [f2] of the object, with [minMax]; the record [fields] holds them
    and [locals] the variables of the method.  [pow(5,0.5)] is the
    argument [r5] of the model, as [3**0.5] is in [Quadrature]: over
    binary64 it is the correctly rounded square root, over the rationals
    an approximation.  [ParabolicInterpolation] works on the list
    [args], read and assigned by index, with [args.index] and the
    negative index of [args[ind-1]]; [x**2] is [x * x].  [Newton] is a
    [for] loop over a local that its [return] reads.  The callbacks take
    a list of one number, as in the source.  A [for] loop with [break]
    is [for_break]. *)

From Stdlib Require Import ZArith QArith Qabs Lqa Lia List Bool Morphisms Setoid.
From Stdlib Require Import String.
From Stdlib Require Import Floats.
From S2P Require Import Prelude NumQ NumFloat.
Import ListNotations.

Section Methods.
Context {A : Type} `{Num A}.

#[local] Open Scope num_scope.
#[local] Open Scope outcome_scope.

(** ** GoldenSection *)

(** The fields of [self] that [GoldenSection] assigns. *)
Record fields : Type := {
  x1 : A;
  x2 : A;
  f1 : A;
  f2 : A;
  minMax : string
}.

(** The local variables of [GoldenSection]; [ea] is unbound until the
    first [xopt != 0.]. *)
Record locals : Type := {
  xl : A;
  xu : A;
  d : A;
  xopt : A;
  ea : option A
}.

(** The test shared by the loop and [__GoldenCond]. *)
Definition improves (self : fields) : bool :=
  (String.eqb (minMax self) "Max" && (f1 self >? f2 self)) ||
  (String.eqb (minMax self) "Min" && (f1 self <? f2 self)).

(** [__GoldenCond]: the local optimum and its value. *)
Definition GoldenCond (self : fields) : A * A :=
  if improves self then (x1 self, f1 self) else (x2 self, f2 self).

(** One iteration; the boolean is [break].  In the first branch the
    source assigns [x2 = self.x1], a local that is never read:
    [self.x2] keeps its value. *)
Definition GoldenSection_body (R es : A) (func : list A -> A) (st : locals * fields)
  : outcome (bool * (locals * fields)) :=
  let '(loc, self) := st in
  let d' := d loc * R in
  let '(xl', xu', self') :=
    if improves self then
      let xl' := x2 self in
      let x1' := xl' + d' in
      (xl', xu loc,
       {| x1 := x1'; x2 := x2 self; f1 := func [x1']; f2 := f1 self;
          minMax := minMax self |})
    else
      let xu' := x1 self in
      let x2' := xu' - d' in
      (xl loc, xu',
       {| x1 := x2 self; x2 := x2'; f1 := f2 self; f2 := func [x2'];
          minMax := minMax self |}) in
  let xopt' := fst (GoldenCond self') in
  let ea' :=
    if xopt' =? 0 then ea loc
    else Some ((1 - R) * num_abs ((xu' - xl') / xopt') * 100) in
  e <- return_local ea' ;;
  Ret (e <? es, ({| xl := xl'; xu := xu'; d := d'; xopt := xopt'; ea := ea' |}, self')).

Definition GoldenSection (r5 : A) (xLow xHigh : A) (maxIt : Z) (func : list A -> A)
    (minMax : string) (es : A) : outcome A :=
  let R := (r5 - 1) / 2 in
  let xl := xLow in
  let xu := xHigh in
  let d := R * (xu - xl) in
  let x1 := xl + d in
  let x2 := xu - d in
  let self := {| x1 := x1; x2 := x2; f1 := func [x1]; f2 := func [x2]; minMax := minMax |} in
  let loc := {| xl := xl; xu := xu; d := d; xopt := fst (GoldenCond self); ea := None |} in
  st <- for_break (range 0 maxIt) (fun _ => GoldenSection_body R es func) (loc, self) ;;
  Ret (xopt (fst st)).

(** ** ParabolicInterpolation *)

(** The inner loop: the first [x] of [args] above [x3] becomes
    [args[2]], its left neighbour [args[0]], and [x3] becomes
    [args[1]]. *)
Definition ParabolicInterpolation_update (args : list A) (x3 : A) : outcome (list A) :=
  match find (fun x => x >? x3) args with
  | None => Ret args
  | Some x =>
      ind <- index x args ;;
      args <- setitem args 2 x ;;
      v <- getitem_int args (Z.of_nat ind - 1) ;;
      args <- setitem args 0 v ;;
      setitem args 1 x3
  end.

(** One iteration; the boolean is [break]. *)
Definition ParabolicInterpolation_body (func : list A -> A) (args : list A)
  : outcome (bool * list A) :=
  a0 <- getitem args 0 ;;
  a1 <- getitem args 1 ;;
  a2 <- getitem args 2 ;;
  let f0 := func [a0] in
  let f1 := func [a1] in
  let f2 := func [a2] in
  let x3 := f0 * (a1 * a1 - a2 * a2) + f1 * (a2 * a2 - a0 * a0) + f2 * (a0 * a0 - a1 * a1) in
  let dev := 2 * f0 * (a1 - a2) + 2 * f1 * (a2 - a0) + 2 * f2 * (a0 - a1) in
  if dev =? 0 then Ret (true, args)
  else
    let x3 := x3 / dev in
    args <- ParabolicInterpolation_update args x3 ;;
    Ret (false, args).

Definition ParabolicInterpolation (x0 x1 x2 : A) (maxIt : Z) (func : list A -> A)
  : outcome A :=
  args <- for_break (range 0 maxIt) (fun _ => ParabolicInterpolation_body func)
            [x0; x1; x2] ;;
  getitem args 1.

(** ** Newton *)

Definition Newton_body (der dder : list A -> A) (st : A * option A)
  : outcome (A * option A) :=
  let x0 := fst st in
  q <- pydiv (der [x0]) (dder [x0]) ;;
  let xNext := x0 - q in
  Ret (xNext, Some xNext).

Definition Newton (x0 : A) (maxIt : Z) (der dder : list A -> A) : outcome A :=
  st <- for_each (range 0 maxIt) (fun _ => Newton_body der dder) (x0, None) ;;
  return_local (snd st).

End Methods.

Arguments fields A : clear implicits.
Arguments locals A : clear implicits.

(** ** What holds of every number instance *)

Section Outcomes.
Context {A : Type} `{Num A}.

#[local] Open Scope num_scope.
#[local] Open Scope outcome_scope.

(** *** GoldenSection *)



(** *** ParabolicInterpolation *)

(** The inner loop on a list of three, by cases on the tests it makes. *)
Definition update3 (a0 a1 a2 x3 : A) : list A :=
  if a0 >? x3 then [a0; x3; a0]
  else if a1 >? x3 then (if a0 =? a1 then [a1; x3; a1] else [a0; x3; a1])
  else if a2 >? x3 then
    (if a0 =? a2 then [a2; x3; a2] else if a1 =? a2 then [a0; x3; a2] else [a1; x3; a2])
  else [a0; a1; a2].

(** The numerator and the denominator of the vertex formula. *)
Definition num3 (func : list A -> A) (a0 a1 a2 : A) : A :=
  func [a0] * (a1 * a1 - a2 * a2) + func [a1] * (a2 * a2 - a0 * a0) +
  func [a2] * (a0 * a0 - a1 * a1).

Definition dev3 (func : list A -> A) (a0 a1 a2 : A) : A :=
  2 * func [a0] * (a1 - a2) + 2 * func [a1] * (a2 - a0) + 2 * func [a2] * (a0 - a1).

Context {NE : NumEq A}.

Lemma ParabolicInterpolation_update_Ret (a0 a1 a2 x3 : A) :
  ParabolicInterpolation_update [a0; a1; a2] x3 = Ret (update3 a0 a1 a2 x3).
Proof.
  unfold ParabolicInterpolation_update, update3. cbn [find].
  destruct (a0 >? x3) eqn:G0; [cbn [index]; now rewrite (num_gtb_eqb _ _ G0)|].
  destruct (a1 >? x3) eqn:G1.
  { cbn [index]. destruct (a0 =? a1); [reflexivity|]. now rewrite (num_gtb_eqb _ _ G1). }
  destruct (a2 >? x3) eqn:G2; [|reflexivity].
  cbn [index]. destruct (a0 =? a2); [reflexivity|]. destruct (a1 =? a2); [reflexivity|].
  now rewrite (num_gtb_eqb _ _ G2).
Qed.

Lemma ParabolicInterpolation_body_Ret (func : list A -> A) (a0 a1 a2 : A) :
  ParabolicInterpolation_body func [a0; a1; a2] =
  Ret (if dev3 func a0 a1 a2 =? 0 then (true, [a0; a1; a2])
       else (false, update3 a0 a1 a2 (num3 func a0 a1 a2 / dev3 func a0 a1 a2))).
Proof.
  unfold ParabolicInterpolation_body. cbn [getitem nth_error bind].
  fold (dev3 func a0 a1 a2). fold (num3 func a0 a1 a2).
  destruct (dev3 func a0 a1 a2 =? 0); [reflexivity|].
  now rewrite ParabolicInterpolation_update_Ret.
Qed.

Lemma update3_length (a0 a1 a2 x3 : A) : List.length (update3 a0 a1 a2 x3) = 3%nat.
Proof. unfold update3. repeat case_test; reflexivity. Qed.

(** The rule of the loop of [ParabolicInterpolation]: a property of
    lists of three that [update3] preserves holds at the end. *)
Lemma ParabolicInterpolation_ind (P : A -> A -> A -> Prop) (func : list A -> A)
    (x0 x1 x2 : A) (l : list Z) :
  P x0 x1 x2 ->
  (forall a0 a1 a2, P a0 a1 a2 -> (dev3 func a0 a1 a2 =? 0) = false ->
     exists b0 b1 b2,
       update3 a0 a1 a2 (num3 func a0 a1 a2 / dev3 func a0 a1 a2) = [b0; b1; b2] /\
       P b0 b1 b2) ->
  exists b0 b1 b2,
    for_break l (fun _ => ParabolicInterpolation_body func) [x0; x1; x2] = Ret [b0; b1; b2] /\
    P b0 b1 b2.
Proof.
  intros H0 Hstep.
  destruct (for_break_ind (fun args => exists b0 b1 b2, args = [b0; b1; b2] /\ P b0 b1 b2)
              l (fun _ => ParabolicInterpolation_body func) [x0; x1; x2])
    as (args & E & b0 & b1 & b2 & -> & Hb); [now exists x0, x1, x2| |now exists b0, b1, b2].
  intros _ args (a0 & a1 & a2 & -> & Ha). rewrite ParabolicInterpolation_body_Ret.
  destruct (dev3 func a0 a1 a2 =? 0) eqn:D; [now exists true, [a0; a1; a2]; eauto 7|].
  destruct (Hstep a0 a1 a2 Ha D) as (b0 & b1 & b2 & E & Hb).
  exists false, [b0; b1; b2]. rewrite E. eauto 7.
Qed.

(** [ParabolicInterpolation] raises nothing: the division is
    guarded by [dev == 0], the list [args] keeps its three entries and
    [args.index] finds what the loop has just read. *)
Theorem ParabolicInterpolation_returns (x0 x1 x2 : A) (maxIt : Z) (func : list A -> A) :
  exists r, ParabolicInterpolation x0 x1 x2 maxIt func = Ret r.
Proof.
  unfold ParabolicInterpolation.
  destruct (ParabolicInterpolation_ind (fun _ _ _ => True) func x0 x1 x2 (range 0 maxIt) I)
    as (b0 & b1 & b2 & -> & _); [|now exists b1].
  intros a0 a1 a2 _ _. pose proof (update3_length a0 a1 a2 (num3 func a0 a1 a2 / dev3 func a0 a1 a2)).
  destruct (update3 _ _ _ _) as [|b0 [|b1 [|b2 [|]]]]; try discriminate.
  now exists b0, b1, b2.
Qed.

(** *** Newton *)

(** [Newton] with [maxIt <= 0] takes no iteration and its [return]
    reads [xNext] unbound. *)
Theorem Newton_no_iteration (x0 : A) (maxIt : Z) (der dder : list A -> A) :
  (maxIt <= 0)%Z -> Newton x0 maxIt der dder = Raise UnboundLocalError.
Proof. intros L. unfold Newton. now rewrite range_empty. Qed.

End Outcomes.

Lemma improves_Max {A : Type} `{Num A} (self : fields A) :
  minMax self = "Max"%string -> improves self = (f1 self >? f2 self)%num.
Proof. intros E. unfold improves. rewrite E. simpl String.eqb. simpl. apply orb_false_r. Qed.

(** ** Over exact rationals *)

Section OptimizationQ.

#[local] Open Scope Q_scope.

(** *** ParabolicInterpolation on a parabola *)

Section Parabola.
Variables a b c : Q.
Hypothesis a_nonzero : ~ a == 0.

(** The callback [a x^2 + b x + c] of the one-element list [[x]]. *)
Definition parabola (l : list Q) : Q :=
  let x := nth 0 l 0 in a * (x * x) + b * x + c.

Definition vertex : Q := - b / (2 * a).

Lemma dev3_parabola (a0 a1 a2 : Q) :
  dev3 parabola a0 a1 a2 == -2 * a * ((a0 - a1) * (a1 - a2) * (a2 - a0)).
Proof. unfold dev3, parabola. cbn [nth]. qnum. ring. Qed.

Lemma num3_parabola (a0 a1 a2 : Q) :
  num3 parabola a0 a1 a2 == vertex * dev3 parabola a0 a1 a2.
Proof.
  rewrite dev3_parabola. unfold num3, parabola, vertex. cbn [nth]. qnum. field. exact a_nonzero.
Qed.

(** Whenever the denominator does not vanish the formula gives the
    vertex. *)
Lemma x3_parabola (a0 a1 a2 : Q) :
  (dev3 parabola a0 a1 a2 =? 0)%num = false ->
  (num3 parabola a0 a1 a2 / dev3 parabola a0 a1 a2)%num == vertex.
Proof.
  intros D. apply Qeqb_false in D. change (inject_Z 0) with 0 in D.
  change (num3 parabola a0 a1 a2 / dev3 parabola a0 a1 a2 == vertex).
  rewrite num3_parabola. now field.
Qed.

(** [update3] writes [x3] in the middle, or leaves the list. *)
Lemma update3_middle (a0 a1 a2 x3 : Q) :
  exists b0 b1 b2, update3 a0 a1 a2 x3 = [b0; b1; b2] /\
    (b1 = x3 \/ [b0; b1; b2] = [a0; a1; a2] /\ a0 <= x3 /\ a1 <= x3 /\ a2 <= x3).
Proof.
  unfold update3. repeat case_test; try (eexists _, _, _; split; [reflexivity|now left]).
  qbool. eexists _, _, _. split; [reflexivity|]. right. auto.
Qed.

Lemma update3_above (a0 a1 a2 x3 : Q) :
  x3 < a0 \/ x3 < a1 \/ x3 < a2 -> exists b0 b2, update3 a0 a1 a2 x3 = [b0; x3; b2].
Proof.
  intros G. destruct (update3_middle a0 a1 a2 x3) as (b0 & b1 & b2 & -> & [-> | (_ & L)]);
    [eauto | lra].
Qed.

Lemma update3_below (a0 a1 a2 x3 : Q) :
  a0 <= x3 -> a1 <= x3 -> a2 <= x3 -> update3 a0 a1 a2 x3 = [a0; a1; a2].
Proof.
  intros L0 L1 L2. unfold update3.
  repeat (case_test; [qbool; lra|]). reflexivity.
Qed.

(** C22. [ParabolicInterpolation] on a parabola.  From three distinct
    guesses, one of them above the vertex, the method returns the vertex
    [- b / (2 a)] for every [maxIt >= 1]. *)
Theorem ParabolicInterpolation_vertex (x0 x1 x2 : Q) (maxIt : Z) :
  ~ x0 == x1 -> ~ x1 == x2 -> ~ x2 == x0 ->
  vertex < x0 \/ vertex < x1 \/ vertex < x2 -> (0 < maxIt)%Z ->
  exists r, ParabolicInterpolation x0 x1 x2 maxIt parabola = Ret r /\ r == vertex.
Proof.
  intros D01 D12 D20 G L. unfold ParabolicInterpolation.
  rewrite range_cons by exact L. rewrite for_break_cons, ParabolicInterpolation_body_Ret.
  assert ((dev3 parabola x0 x1 x2 =? 0)%num = false) as D.
  { apply Qeqb_false. rewrite dev3_parabola. change (inject_Z 0) with 0. intros E.
    apply Qmult_integral in E as [E | E]; [apply Qmult_integral in E as [E | E]; [lra|tauto]|].
    apply Qmult_integral in E as [E | E]; [apply Qmult_integral in E as [E | E]|];
      [apply D01 | apply D12 | apply D20]; lra. }
  rewrite D. cbn [bind fst snd]. pose proof (x3_parabola _ _ _ D) as V.
  destruct (update3_above x0 x1 x2 (num3 parabola x0 x1 x2 / dev3 parabola x0 x1 x2)%num)
    as (b0 & b2 & ->); [now rewrite V|].
  destruct (ParabolicInterpolation_ind (fun _ m _ => m == vertex) parabola b0
              (num3 parabola x0 x1 x2 / dev3 parabola x0 x1 x2)%num b2
              (range (0 + 1) maxIt) V) as (c0 & c1 & c2 & -> & Vc); [|now exists c1].
  intros a0 a1 a2 Va Da.
  destruct (update3_middle a0 a1 a2 (num3 parabola a0 a1 a2 / dev3 parabola a0 a1 a2)%num)
    as (c0 & c1 & c2 & -> & [-> | (E & _)]); eexists _, _, _; (split; [reflexivity|]).
  - now apply x3_parabola.
  - now inv E.
Qed.

(** Guesses below the vertex are returned as they came.  When no
    guess is above the vertex the inner loop finds nothing to replace,
    [x3] is dropped, every iteration repeats the first, and the method
    returns [x1]. *)
Theorem ParabolicInterpolation_discards (x0 x1 x2 : Q) (maxIt : Z) :
  x0 <= vertex -> x1 <= vertex -> x2 <= vertex ->
  ParabolicInterpolation x0 x1 x2 maxIt parabola = Ret x1.
Proof.
  intros L0 L1 L2. unfold ParabolicInterpolation. rewrite for_break_fixed; [reflexivity|].
  intros _. rewrite ParabolicInterpolation_body_Ret.
  destruct (dev3 parabola x0 x1 x2 =? 0)%num eqn:D; [now exists true|].
  exists false. rewrite update3_below; [reflexivity|..]; now rewrite x3_parabola.
Qed.

End Parabola.

(** *** Newton *)

Section NewtonQ.
Variables (der dder : list Q -> Q) (p q : Q).
Hypothesis der_affine : forall x, der [x] == p * x + q.
Hypothesis dder_const : forall x, dder [x] == p.
Hypothesis p_nonzero : ~ p == 0.

Lemma Newton_body_affine (x0 : Q) (xNext : option Q) :
  exists r, Newton_body der dder (x0, xNext) = Ret (r, Some r) /\ r == - q / p.
Proof.
  unfold Newton_body. cbn [fst]. rewrite pydiv_Q_Ret by (rewrite dder_const; exact p_nonzero).
  cbn [bind]. eexists. split; [reflexivity|].
  change (x0 - der [x0] / dder [x0] == - q / p). rewrite der_affine, dder_const. now field.
Qed.

(** [Newton] on a quadratic.  When [der] is [p x + q] and [dder]
    is the constant [p], not zero, the method returns the stationary
    point [- q / p] for every [maxIt >= 1]. *)
Theorem Newton_quadratic (x0 : Q) (maxIt : Z) :
  (0 < maxIt)%Z -> exists r, Newton x0 maxIt der dder = Ret r /\ r == - q / p.
Proof.
  intros L. unfold Newton. rewrite range_cons by exact L. cbn [for_each].
  destruct (Newton_body_affine x0 None) as (r & -> & E). cbn [bind].
  destruct (for_each_ind (fun _ st => exists r, st = (r, Some r) /\ r == - q / p)
              (range (0 + 1) maxIt) (fun _ => Newton_body der dder) (r, Some r))
    as (st & -> & r' & -> & E'); [eauto| |now exists r'].
  intros _ _ _ st _ (r' & -> & _). destruct (Newton_body_affine r' (Some r')) as (r'' & -> & E'').
  eauto.
Qed.

End NewtonQ.

(** [Newton] where the second derivative vanishes at the first
    point raises [ZeroDivisionError]. *)
Theorem Newton_raises (der dder : list Q -> Q) (x0 : Q) (maxIt : Z) :
  (0 < maxIt)%Z -> dder [x0] == 0 -> Newton x0 maxIt der dder = Raise ZeroDivisionError.
Proof.
  intros L Z. unfold Newton. rewrite range_cons by exact L. cbn [for_each].
  unfold Newton_body at 1. cbn [fst]. now rewrite pydiv_Q_Raise.
Qed.

(** *** GoldenSection *)

(** [GoldenSection] and an optimum at zero.  When the bracket
    puts the interior point [x2] at [0] and the function has its strict
    maximum there, the first iteration finds [xopt = 0], skips the
    assignment of [ea] and raises [UnboundLocalError] at [ea < es]. *)
Theorem GoldenSection_unbound (r5 xLow xHigh es : Q) (maxIt : Z) (func : list Q -> Q) :
  (r5 - 1) / 2 * (xHigh - xLow) == xHigh ->
  (forall x z, z == 0 -> func [x] <= func [z]) ->
  (forall x z, z == 0 -> ~ x == 0 -> func [x] < func [z]) ->
  (0 < maxIt)%Z ->
  GoldenSection r5 xLow xHigh maxIt func "Max" es = Raise UnboundLocalError.
Proof.
  intros Ed Hmax Hstrict L. unfold GoldenSection. cbn zeta.
  rewrite range_cons by exact L. rewrite for_break_cons.
  set (dd := ((r5 - 1) / 2 * (xHigh - xLow))%num) in *.
  assert (xHigh - dd == 0) as Z2 by (change (dd == xHigh) in Ed; rewrite Ed; ring).
  unfold GoldenSection_body. rewrite improves_Max by reflexivity.
  cbn [d xl xu ea x1 x2 f1 f2 minMax].
  test_is false (Hmax (xLow + dd)%num (xHigh - dd)%num Z2).
  cbn iota zeta beta. unfold GoldenCond. rewrite improves_Max by reflexivity.
  cbn [f1 f2 x1 x2].
  match goal with |- context [if (?u <? ?v)%num then _ else _] =>
    destruct (Qlt_le_dec u v) as [G | G]; [test_is true G | test_is false G] end;
    cbn [fst].
  - test_is true Z2. reflexivity.
  - match goal with |- context [(?x =? 0)%num] => assert ((x =? 0)%num = true) as -> end;
      [|reflexivity].
    apply Qeqb_true. destruct (Qeq_dec (xLow + dd - dd * ((r5 - 1) / 2)) 0) as [E | E];
      [exact E|]. pose proof (Hstrict _ _ Z2 E). qnum. lra.
Qed.

End OptimizationQ.

(** ** The method with [self.x2] assigned *)

Section Reference.
Context {A : Type} `{Num A}.

#[local] Open Scope num_scope.
#[local] Open Scope outcome_scope.

(** [GoldenSection_body] with [self.x2 = self.x1] in its first branch,
    where the source writes [x2 = self.x1]. *)
Definition GoldenSection_body_ref (R es : A) (func : list A -> A) (st : locals A * fields A)
  : outcome (bool * (locals A * fields A)) :=
  let '(loc, self) := st in
  let d' := d loc * R in
  let '(xl', xu', self') :=
    if improves self then
      let xl' := x2 self in
      let x1' := xl' + d' in
      (xl', xu loc,
       {| x1 := x1'; x2 := x1 self; f1 := func [x1']; f2 := f1 self;
          minMax := minMax self |})
    else
      let xu' := x1 self in
      let x2' := xu' - d' in
      (xl loc, xu',
       {| x1 := x2 self; x2 := x2'; f1 := f2 self; f2 := func [x2'];
          minMax := minMax self |}) in
  let xopt' := fst (GoldenCond self') in
  let ea' :=
    if xopt' =? 0 then ea loc
    else Some ((1 - R) * num_abs ((xu' - xl') / xopt') * 100) in
  e <- return_local ea' ;;
  Ret (e <? es, ({| xl := xl'; xu := xu'; d := d'; xopt := xopt'; ea := ea' |}, self')).

Definition GoldenSection_ref (r5 : A) (xLow xHigh : A) (maxIt : Z) (func : list A -> A)
    (mode : string) (es : A) : outcome A :=
  let R := (r5 - 1) / 2 in
  let d0 := R * (xHigh - xLow) in
  let self :=
    {| x1 := xLow + d0; x2 := xHigh - d0; f1 := func [xLow + d0]; f2 := func [xHigh - d0];
       minMax := mode |} in
  let loc :=
    {| xl := xLow; xu := xHigh; d := d0; xopt := fst (GoldenCond self); ea := None |} in
  st <- for_break (range 0 maxIt) (fun _ => GoldenSection_body_ref R es func) (loc, self) ;;
  Ret (xopt (fst st)).

(** Where the two agree: an iteration that takes the second branch. *)
Lemma GoldenSection_body_ref_else (R es : A) (func : list A -> A) (st : locals A * fields A) :
  improves (snd st) = false ->
  GoldenSection_body_ref R es func st = GoldenSection_body R es func st.
Proof.
  destruct st as [loc self]. cbn [snd]. intros E.
  unfold GoldenSection_body_ref, GoldenSection_body. now rewrite E.
Qed.

End Reference.

(** ** Runs in binary64 *)

(** [pow(5,0.5)] in binary64. *)
Definition sqrt5 : float := PrimFloat.sqrt 5.

(** [f(x) = -(x - 2)^2 + 5], with its maximum at [2]. *)
Definition hill (l : list float) : float :=
  let x := nth 0 l 0%float in (- ((x - 2) * (x - 2)) + 5)%float.

(** [f(x) = - x^2], with its maximum at [0]. *)
Definition bump (l : list float) : float :=
  let x := nth 0 l 0%float in (- (x * x))%float.

(** [GoldenSection] misses the maximum.  On
    [f(x) = -(x - 2)^2 + 5] over [[0, 4]] in mode ["Max"] the method
    returns [1.2848516900344897], not [2]; with [self.x2 = self.x1] in
    the first branch of the loop it returns [1.9937887599697164], within
    the tolerance of one percent.  The assignment [x2 = self.x1] of the
    source writes a local variable: [self.x2] keeps the old point while
    [self.f2] takes the value at the new one. *)
Theorem GoldenSection_misses_maximum :
  (GoldenSection sqrt5 0 4 100 hill "Max" 1 = Ret 0x1.48ec0a54e891p+0 /\
   GoldenSection_ref sqrt5 0 4 100 hill "Max" 1 = Ret 0x1.fe68f0af33cbap+0)%float /\
  (PrimFloat.ltb 0x1.48ec0a54e891p+0 1.5 = true /\
   PrimFloat.ltb (PrimFloat.abs (0x1.fe68f0af33cbap+0 - 2)) 0.0625 = true)%float.
Proof. repeat split; vm_compute; reflexivity. Qed.

(** The same exception in binary64: maximising [- x^2] on
    [[sqrt 5 - 3, sqrt 5 - 1]], where [x2] starts at [0.0] exactly, raises
    [UnboundLocalError] as soon as an iteration is taken, and returns
    the maximum [0.0] when none is. *)
Theorem GoldenSection_unbound_binary64 :
  (GoldenSection sqrt5 (sqrt5 - 1 - 2) (sqrt5 - 1) 10 bump "Max" 1 = Raise UnboundLocalError /\
   GoldenSection sqrt5 (sqrt5 - 1 - 2) (sqrt5 - 1) 0 bump "Max" 1 = Ret 0)%float.
Proof. split; vm_compute; reflexivity. Qed.

(** [ParabolicInterpolation] in binary64 on the same function: a guess
    above the vertex gives the vertex, guesses up to the vertex give the
    middle guess back. *)
Lemma ParabolicInterpolation_binary64 :
  (ParabolicInterpolation 0 1 4 100 hill = Ret 2 /\
   ParabolicInterpolation 0 1 2 100 hill = Ret 1)%float.
Proof. split; vm_compute; reflexivity. Qed.

(** ** Concrete runs over the rationals *)

#[local] Open Scope Q_scope.

Definition bumpQ (l : list Q) : Q := let x := nth 0 l 0 in - (x * x).

Lemma bumpQ_max (x z : Q) : z == 0 -> bumpQ [x] <= bumpQ [z].
Proof. unfold bumpQ. cbn [nth]. intros E. rewrite E. nra. Qed.

Lemma bumpQ_strict (x z : Q) : z == 0 -> ~ x == 0 -> bumpQ [x] < bumpQ [z].
Proof.
  unfold bumpQ. cbn [nth]. intros E N. rewrite E.
  destruct (Qlt_le_dec x 0); [nra|]. destruct (Qlt_le_dec 0 x); [nra|]. exfalso. apply N. lra.
Qed.

Lemma ParabolicInterpolation_returns_witness :
  exists r, ParabolicInterpolation 0 1 4 3 bumpQ = Ret r.
Proof. exact (ParabolicInterpolation_returns 0 1 4 3 bumpQ). Defined.

Lemma Newton_no_iteration_witness :
  Newton 1 0 (fun l => 2 * nth 0 l 0) (fun _ => 2) = Raise UnboundLocalError.
Proof. apply Newton_no_iteration. discriminate. Defined.

Lemma ParabolicInterpolation_vertex_witness :
  exists r, ParabolicInterpolation 0 1 4 3 (parabola (-1) 6 0) = Ret r /\ r == vertex (-1) 6.
Proof.
  apply (ParabolicInterpolation_vertex (-1) 6 0 ltac:(discriminate) 0 1 4 3);
    try discriminate; [|reflexivity].
  right. right. reflexivity.
Defined.

Lemma ParabolicInterpolation_discards_witness :
  ParabolicInterpolation 0 1 2 3 (parabola (-1) 6 0) = Ret 1.
Proof. apply (ParabolicInterpolation_discards (-1) 6 0 ltac:(discriminate)); discriminate. Defined.

Lemma Newton_quadratic_witness :
  exists r, Newton 0 5 (fun l => -2 * nth 0 l 0 + 6) (fun _ => -2) = Ret r /\ r == - 6 / -2.
Proof.
  apply (Newton_quadratic (fun l => -2 * nth 0 l 0 + 6) (fun _ => -2) (-2) 6);
    try reflexivity; discriminate.
Defined.

Lemma Newton_raises_witness :
  Newton 0 5 (fun l => 2 * nth 0 l 0) (fun _ => 0) = Raise ZeroDivisionError.
Proof. apply Newton_raises; reflexivity. Defined.

Lemma GoldenSection_unbound_witness :
  GoldenSection (2236 # 1000) (- (191 # 309)) 1 10 bumpQ "Max" 1 = Raise UnboundLocalError.
Proof.
  apply GoldenSection_unbound; [reflexivity | exact bumpQ_max | exact bumpQ_strict | reflexivity].
Defined.
