(* ===== verification/Romberg.v ===== *)
(** * Romberg: the extrapolation table of [Romberg]

    [OneDIntegralwithFunction.Romberg] and [OneDIntegralwithData.Romberg]
    in [src/numerics/integration.py] are the same code around two
    different calls of [Trapezoid]: [Romberg_table] is that code, over
    the call [base].  The table [I = np.empty((maxIt, maxIt))] is an
    array of [Table]: its entries start from an arbitrary function
    [junk] and the theorems hold for every [junk].  [I[j][k]] is [get2],
    the assignment [set2], both raising [IndexError] out of range;
    [I[0][-1]] is the last entry of the first row.  The loop indices are
    never negative and are converted with [Z.to_nat].  [4**k] is an
    integer power.

    [romberg_T] is the table of Richardson's extrapolation as a
    recursive function; the loop is shown to compute it.  Its second
    column is [SimpsonOneThird] ([romberg_T_Simpson]). *)

From Stdlib Require Import ZArith QArith Qabs Lqa Lia List Bool Morphisms Setoid.
From Stdlib Require Import Floats.
From S2P Require Import Prelude NumQ NumFloat Table Quadrature.
Import ListNotations.

Section Table.
Context {A : Type} `{Num A}.

#[local] Open Scope nat_scope.
#[local] Open Scope outcome_scope.

(** ** The method *)

(** The body of the inner loop:
    [I[j][k] = (4**k * I[j+1][k-1] - I[j][k-1]) / (4**k - 1)]. *)
Definition Romberg_extrapolate (cnt k : Z) (I : list (list A)) : outcome (list (list A)) :=
  let j := (cnt - k)%Z in
  a <- get2 I (Z.to_nat (j + 1)) (Z.to_nat (k - 1)) ;;
  b <- get2 I (Z.to_nat j) (Z.to_nat (k - 1)) ;;
  set2 I (Z.to_nat j) (Z.to_nat k) ((num_of_Z (4 ^ k) * a - b) / num_of_Z (4 ^ k - 1))%num.

(** The body of the outer loop. *)
Definition Romberg_row (base : Z -> outcome A) (cnt : Z) (I : list (list A))
  : outcome (list (list A)) :=
  let n := (2 ^ cnt)%Z in
  v <- base n ;;
  I <- set2 I (Z.to_nat cnt) 0 v ;;
  for_each (range 1 (cnt + 1)) (Romberg_extrapolate cnt) I.

Definition Romberg_table (junk : nat -> nat -> A) (base : Z -> outcome A) (maxIt : Z)
  : outcome A :=
  I <- np_empty junk maxIt ;;
  let n := 0%Z in
  v <- base (n + 1)%Z ;;
  I <- set2 I 0 0 v ;;
  I <- for_each (range 0 maxIt) (Romberg_row base) I ;;
  row <- getitem I 0 ;;
  getitem_int row (-1).

(** [OneDIntegralwithFunction.Romberg]. *)
Definition Romberg (junk : nat -> nat -> A) (l u : A) (maxIt : Z) (Fxdx : A -> A)
  : outcome A :=
  Romberg_table junk (fun n => Trapezoid l u n Fxdx) maxIt.

(** ** The table of Richardson's extrapolation *)

(** [romberg_T b k j]: the entry [I[j][k]], from the estimates [b]. *)
Fixpoint romberg_T (b : nat -> A) (k j : nat) : A :=
  match k with
  | O => b j
  | S k' =>
      ((num_of_Z (4 ^ Z.of_nat k) * romberg_T b k' (S j) - romberg_T b k' j)
       / num_of_Z (4 ^ Z.of_nat k - 1))%num
  end.

(** The entries assigned once [c] rows are done, and [m] entries of
    row [c]: [I[0][0]] is assigned before the loop. *)
Definition assigned (c m j k : nat) : bool :=
  (j + k <? Nat.max c 1) || ((j + k =? c) && (k <? m)).

Definition Romberg_state (junk : nat -> nat -> A) (b : nat -> A) (n c m : nat)
  : list (list A) :=
  tabulate2 (fun j k => if assigned c m j k then romberg_T b k j else junk j k) n n.

#[local] Hint Unfold assigned : index.

(** ** The loop computes the table *)

Section Pure.
Variables (junk : nat -> nat -> A) (b : nat -> A) (n : nat).

Lemma Romberg_extrapolate_state (c m : nat) :
  c < n -> m < c ->
  Romberg_extrapolate (Z.of_nat c) (Z.of_nat (S m)) (Romberg_state junk b n c (S m)) =
  Ret (Romberg_state junk b n c (S (S m))).
Proof.
  intros Hc Hm. unfold Romberg_extrapolate, Romberg_state. cbv zeta.
  replace (Z.to_nat (Z.of_nat c - Z.of_nat (S m) + 1)) with (c - m) by lia.
  replace (Z.to_nat (Z.of_nat (S m) - 1)) with m by lia.
  replace (Z.to_nat (Z.of_nat c - Z.of_nat (S m))) with (c - S m) by lia.
  rewrite Nat2Z.id, !get2_tabulate2 by lia. cbn [bind].
  rewrite set2_tabulate2 by lia. f_equal. apply tabulate2_ext. intros j k Hj Hk.
  replace (assigned c (S m) (c - m) m) with true by (index_cases).
  replace (assigned c (S m) (c - S m) m) with true by (index_cases).
  destruct (Nat.eqb_spec j (c - S m)) as [-> | Nj], (Nat.eqb_spec k (S m)) as [-> | Nk];
    cbn [andb].
  - replace (assigned c (S (S m)) (c - S m) (S m)) with true by (index_cases).
    cbn [romberg_T]. now replace (S (c - S m)) with (c - m) by lia.
  - replace (assigned c (S (S m)) (c - S m) k) with (assigned c (S m) (c - S m) k);
      [reflexivity|]. index_cases.
  - replace (assigned c (S (S m)) j (S m)) with (assigned c (S m) j (S m)); [reflexivity|].
    index_cases.
  - replace (assigned c (S (S m)) j k) with (assigned c (S m) j k); [reflexivity|].
    index_cases.
Qed.

Lemma Romberg_row_state (base : Z -> outcome A) (c : nat) :
  c < n -> base (2 ^ Z.of_nat c)%Z = Ret (b c) ->
  Romberg_row base (Z.of_nat c) (Romberg_state junk b n c 0) =
  Ret (Romberg_state junk b n (S c) 0).
Proof.
  intros Hc Eb. unfold Romberg_row. cbv zeta. rewrite Eb. cbn [bind].
  rewrite Nat2Z.id. unfold Romberg_state at 1. rewrite set2_tabulate2 by lia. cbn [bind].
  assert (tabulate2
            (fun j' k' => if (j' =? c) && (k' =? 0) then b c
                          else if assigned c 0 j' k' then romberg_T b k' j' else junk j' k')
            n n = Romberg_state junk b n c 1) as ->.
  { apply tabulate2_ext. intros j k _ _.
    destruct (Nat.eqb_spec j c) as [-> | Nj], (Nat.eqb_spec k 0) as [-> | Nk]; cbn [andb].
    - now replace (assigned c 1 c 0) with true by (index_cases).
    - replace (assigned c 1 c k) with (assigned c 0 c k); [reflexivity|]. index_cases.
    - replace (assigned c 1 j 0) with (assigned c 0 j 0); [reflexivity|]. index_cases.
    - replace (assigned c 1 j k) with (assigned c 0 j k); [reflexivity|]. index_cases. }
  rewrite (for_range1_eq (fun m => Romberg_state junk b n c (S m))).
  - replace (Z.to_nat (Z.of_nat c + 1 - 1)) with c by lia.
    f_equal. apply tabulate2_ext. intros j k _ _.
    replace (assigned (S c) 0 j k) with (assigned c (S c) j k); [reflexivity|]. index_cases.
  - intros m Hm. apply Romberg_extrapolate_state; lia.
Qed.

(** The loop computes the table: when the estimates [base (2 ** cnt)]
    are [b cnt], [Romberg_table] with [maxIt >= 1] returns the entry
    [T (maxIt - 1) 0]. *)
Lemma Romberg_table_Ret (base : Z -> outcome A) (maxIt : Z) :
  (1 <= maxIt)%Z -> n = Z.to_nat maxIt ->
  (forall c, c < n -> base (2 ^ Z.of_nat c)%Z = Ret (b c)) ->
  Romberg_table junk base maxIt = Ret (romberg_T b (n - 1) 0).
Proof.
  intros L En Eb. unfold Romberg_table, np_empty. cbv zeta.
  replace (maxIt <? 0)%Z with false by lia. cbn [bind]. rewrite <- En.
  change (0 + 1)%Z with (2 ^ Z.of_nat 0)%Z. rewrite Eb by lia. cbn [bind].
  rewrite set2_tabulate2 by lia. cbn [bind].
  assert (tabulate2 (fun j' k' => if (j' =? 0) && (k' =? 0) then b 0 else junk j' k') n n =
          Romberg_state junk b n 0 0) as ->.
  { apply tabulate2_ext. intros j k _ _. unfold assigned.
    destruct j, k; cbn; try reflexivity; now rewrite ?Nat.add_succ_r. }
  unfold range. rewrite for_each_map, Z.sub_0_r, <- En.
  rewrite (for_range_eq (fun c => Romberg_state junk b n c 0)).
  - cbn [bind]. unfold Romberg_state, tabulate2. rewrite getitem_tabulate by lia.
    cbn [bind]. unfold getitem_int. rewrite tabulate_length.
    replace (-1 <? 0)%Z with true by reflexivity.
    replace (-1 + Z.of_nat n <? 0)%Z with false by lia.
    replace (Z.to_nat (-1 + Z.of_nat n)) with (n - 1) by lia.
    rewrite getitem_tabulate by lia.
    now replace (assigned n 0 0 (n - 1)) with true by (index_cases).
  - intros c Hc. rewrite Z.add_0_l. apply Romberg_row_state; auto.
Qed.

End Pure.

(** C14. [Romberg] computes Richardson's table.  When [Trapezoid] with
    [2 ** cnt] segments returns [b cnt], the method with [maxIt >= 1]
    returns the entry [T (maxIt - 1) 0] of the table
    [T 0 j = b j], [T k j = (4^k T (k-1) (j+1) - T (k-1) j) / (4^k - 1)],
    whatever the memory that [np.empty] hands out holds. *)
Theorem Romberg_computes (junk : nat -> nat -> A) (b : nat -> A) (l u : A) (maxIt : Z)
    (Fxdx : A -> A) :
  (1 <= maxIt)%Z ->
  (forall c, c < Z.to_nat maxIt -> Trapezoid l u (2 ^ Z.of_nat c) Fxdx = Ret (b c)) ->
  Romberg junk l u maxIt Fxdx = Ret (romberg_T b (Z.to_nat maxIt - 1) 0).
Proof. intros L Eb. now apply (Romberg_table_Ret junk b (Z.to_nat maxIt)). Qed.

(** [Romberg] with [maxIt = 0] raises [IndexError] at [I[0][0]],
    after the first call of [Trapezoid]; a negative [maxIt] is a
    [ValueError] of [np.empty]. *)
Theorem Romberg_table_raises (junk : nat -> nat -> A) (base : Z -> outcome A) (v : A)
    (p : positive) :
  base 1%Z = Ret v ->
  Romberg_table junk base 0 = Raise IndexError /\
  Romberg_table junk base (Z.neg p) = Raise ValueError.
Proof. intros Eb. unfold Romberg_table. cbn. rewrite Eb. split; reflexivity. Qed.

End Table.

(** ** Over exact rationals *)

Section RombergQ.

#[local] Open Scope Q_scope.

(** What [Trapezoid] returns for [n <> 0], as a value. *)
Definition Trapezoid_value (l u : Q) (n : Z) (f : Q -> Q) : Q :=
  (u - l) * (f l + 2 * snd (Trapezoid_state f l ((u - l) / inject_Z n) (Z.to_nat (n - 1)))
             + f u) / inject_Z (2 * n).

Lemma inject_Z_pow4 (k : nat) : 3 <= inject_Z (4 ^ Z.of_nat (S k) - 1).
Proof.
  change 3 with (inject_Z 3). rewrite <- Zle_Qle. rewrite Nat2Z.inj_succ, Z.pow_succ_r by lia.
  pose proof (Z.pow_pos_nonneg 4 (Z.of_nat k) ltac:(lia) ltac:(lia)). lia.
Qed.

(** A column of equal entries stays so under extrapolation. *)
Lemma romberg_T_stable (b : nat -> Q) (V : Q) (k0 : nat) :
  (forall j, romberg_T b k0 j == V) -> forall k j, romberg_T b (k0 + k) j == V.
Proof.
  intros E k. induction k as [|k IH]; intros j; [now rewrite Nat.add_0_r|].
  rewrite Nat.add_succ_r. cbn [romberg_T].
  pose proof (inject_Z_pow4 (k0 + k)) as P. qnum.
  rewrite !IH. unfold Zminus in *. rewrite inject_Z_plus in *.
  change (inject_Z (- (1))) with (- (1)) in *. field. lra.
Qed.

(** The loop of [Trapezoid] on a cubic, in closed form. *)
Lemma Trapezoid_state_cubic (c0 c1 c2 c3 l h : Q) (k : nat) :
  let K := inject_Z (Z.of_nat k) in
  let st := Trapezoid_state (peval [c0; c1; c2; c3]) l h k in
  fst st == l + K * h /\
  snd st == K * c0 + c1 * (K * l + h * K * (K + 1) * (1 # 2))
            + c2 * (K * l * l + l * h * K * (K + 1)
                    + h * h * K * (K + 1) * (2 * K + 1) * (1 # 6))
            + c3 * (K * l * l * l + l * l * h * K * (K + 1) * (3 # 2)
                    + l * h * h * K * (K + 1) * (2 * K + 1) * (1 # 2)
                    + h * h * h * K * K * (K + 1) * (K + 1) * (1 # 4)).
Proof.
  induction k as [|k IH]; [split; simpl; qnum; ring|].
  cbv zeta in *. rewrite inject_Z_succ. set (K := inject_Z (Z.of_nat k)) in *.
  simpl Trapezoid_state. destruct (Trapezoid_state _ l h k) as [l' s].
  simpl in IH. destruct IH as [E1 E2]. simpl fst. simpl snd. qnum.
  split; [rewrite E1; ring|]. rewrite E2, E1. cbn [peval]. ring.
Qed.

(** [Trapezoid] on a cubic: the integral plus
    [(u - l)^3 (2 c2 + 3 c3 (l + u)) / (12 n^2)]. *)
Lemma Trapezoid_value_cubic (c0 c1 c2 c3 l u : Q) (n : Z) :
  (1 <= n)%Z ->
  Trapezoid_value l u n (peval [c0; c1; c2; c3]) ==
  pintegral [c0; c1; c2; c3] l u
  + (u - l) * (u - l) * (u - l) * (2 * c2 + 3 * c3 * (l + u))
    / (12 * inject_Z n * inject_Z n).
Proof.
  intros Hn. unfold Trapezoid_value.
  destruct (Trapezoid_state_cubic c0 c1 c2 c3 l ((u - l) / inject_Z n)
              (Z.to_nat (n - 1))) as [_ E].
  cbv zeta in E. rewrite E, inject_Z_to_nat_pred, inject_Z_mult by exact Hn.
  assert (~ inject_Z n == 0) as Hq by (apply inject_Z_nonzero; lia).
  unfold pintegral. cbn [peval pint pint_from Pos.succ]. qnum. field. exact Hq.
Qed.

Lemma pow2_pos (c : nat) : (1 <= 2 ^ Z.of_nat c)%Z.
Proof. pose proof (Z.pow_pos_nonneg 2 (Z.of_nat c) ltac:(lia) ltac:(lia)). lia. Qed.

(** The second column of the table, Simpson's rule, is exact on
    cubics. *)
Lemma romberg_T_cubic (c0 c1 c2 c3 l u : Q) (j : nat) :
  romberg_T (fun c => Trapezoid_value l u (2 ^ Z.of_nat c) (peval [c0; c1; c2; c3])) 1 j
  == pintegral [c0; c1; c2; c3] l u.
Proof.
  cbn [romberg_T]. change (4 ^ Z.of_nat 1 - 1)%Z with 3%Z. change (4 ^ Z.of_nat 1)%Z with 4%Z.
  rewrite !Trapezoid_value_cubic by apply pow2_pos.
  rewrite Nat2Z.inj_succ, Z.pow_succ_r, inject_Z_mult by lia.
  pose proof (pow2_pos j) as P.
  assert (~ inject_Z (2 ^ Z.of_nat j) == 0) as N by (apply inject_Z_nonzero; lia).
  set (x := inject_Z (2 ^ Z.of_nat j)) in *. qnum. field. exact N.
Qed.

(** C19. [Romberg] is exact on cubics.  For [maxIt >= 2] and a
    polynomial of degree at most 3 the method returns the integral. *)
Theorem Romberg_cubic (junk : nat -> nat -> Q) (c0 c1 c2 c3 l u : Q) (maxIt : Z) :
  (2 <= maxIt)%Z ->
  exists v, Romberg junk l u maxIt (peval [c0; c1; c2; c3]) = Ret v /\
            v == pintegral [c0; c1; c2; c3] l u.
Proof.
  intros L. unfold Romberg. eexists. split.
  - apply (Romberg_table_Ret junk
             (fun c => Trapezoid_value l u (2 ^ Z.of_nat c) (peval [c0; c1; c2; c3]))
             (Z.to_nat maxIt)); [lia | reflexivity|].
    intros c _. apply Trapezoid_Ret. pose proof (pow2_pos c). lia.
  - replace (Z.to_nat maxIt - 1)%nat with (1 + (Z.to_nat maxIt - 2))%nat by lia.
    apply romberg_T_stable. apply romberg_T_cubic.
Qed.

(** [Romberg] with one row is the one-segment trapezoid. *)
Theorem Romberg_one (junk : nat -> nat -> Q) (l u : Q) (f : Q -> Q) :
  Romberg junk l u 1 f = Ret ((u - l) * (f l + 2 * 0 + f u) / 2).
Proof.
  unfold Romberg.
  rewrite (Romberg_table_Ret junk (fun c => Trapezoid_value l u (2 ^ Z.of_nat c) f) 1);
    [reflexivity | lia | reflexivity |].
  intros c _. apply Trapezoid_Ret. pose proof (pow2_pos c). lia.
Qed.

(** The second column of the table is Simpson's rule: the entry
    [I[j][1]] is what [SimpsonOneThird] returns with [2^(j+1)]
    segments. *)
Lemma romberg_T_Simpson (f : Q -> Q) `{!Proper (Qeq ==> Qeq) f} (l u : Q) (j : nat) :
  exists s, SimpsonOneThird l u (2 ^ Z.of_nat (S j)) f = Ret s /\
            romberg_T (fun c => Trapezoid_value l u (2 ^ Z.of_nat c) f) 1 j == s.
Proof.
  cbn [romberg_T].
  assert (2 ^ Z.of_nat (S j) = 2 * 2 ^ Z.of_nat j)%Z as ->
    by (rewrite Nat2Z.inj_succ, Z.pow_succ_r; lia).
  pose proof (pow2_pos j) as Hj. revert Hj.
  generalize (2 ^ Z.of_nat j)%Z. intros m Hm.
  destruct (SimpsonOneThird_Richardson_Ret f l u m Hm) as (t1 & t2 & s & E1 & E2 & Es & E).
  assert (t1 = Trapezoid_value l u m f) as <-
    by (pose proof (Trapezoid_Ret l u m f ltac:(lia)); unfold Trapezoid_value; congruence).
  assert (t2 = Trapezoid_value l u (2 * m) f) as <-
    by (pose proof (Trapezoid_Ret l u (2 * m) f ltac:(lia)); unfold Trapezoid_value; congruence).
  exists s. split; [exact Es|]. rewrite E.
  change (4 ^ Z.of_nat 1)%Z with 4%Z. qnum. reflexivity.
Qed.

(** [Romberg] with two rows is Simpson's rule on two segments. *)
Theorem Romberg_two_is_Simpson (junk : nat -> nat -> Q) (f : Q -> Q)
    `{!Proper (Qeq ==> Qeq) f} (l u : Q) :
  exists v s,
    Romberg junk l u 2 f = Ret v /\ SimpsonOneThird l u 2 f = Ret s /\ v == s.
Proof.
  destruct (romberg_T_Simpson f l u 0) as (s & Es & E).
  eexists _, s. split; [|split; [exact Es | exact E]].
  unfold Romberg.
  apply (Romberg_table_Ret junk (fun c => Trapezoid_value l u (2 ^ Z.of_nat c) f) 2);
    [lia | reflexivity|].
  intros c _. apply Trapezoid_Ret. pose proof (pow2_pos c). lia.
Qed.

End RombergQ.

(** ** Runs *)

(** In binary64, with the table full of NaN before the loop: the
    result holds no trace of it. *)
Definition all_nan (j k : nat) : float := PrimFloat.nan.

Lemma Romberg_binary64 :
  (Romberg all_nan 0 1 1 (fun x => x * x) = Ret 0.5 /\
   Romberg all_nan 0 1 3 (fun x => x * x) = Ret 0x1.5555555555555p-2 /\
   Romberg all_nan 0 1 4 (fun x => x * x * x) = Ret 0.25)%float.
Proof. repeat split; vm_compute; reflexivity. Qed.

Definition no_junk (j k : nat) : Q := 0.

Lemma Romberg_computes_witness :
  Romberg no_junk 0 1 2 (fun x => x * x) =
  Ret (romberg_T (fun c => Trapezoid_value 0 1 (2 ^ Z.of_nat c) (fun x => x * x)) 1 0).
Proof.
  apply (Romberg_computes no_junk
           (fun c => Trapezoid_value 0 1 (2 ^ Z.of_nat c) (fun x => x * x)) 0 1 2);
    [lia|].
  intros c _. apply Trapezoid_Ret. pose proof (pow2_pos c). lia.
Defined.

Lemma Romberg_table_raises_witness :
  Romberg_table no_junk (fun n => Ret (inject_Z n)) 0 = Raise IndexError /\
  Romberg_table no_junk (fun n => Ret (inject_Z n)) (-1) = Raise ValueError.
Proof. exact (Romberg_table_raises no_junk (fun n => Ret (inject_Z n)) 1 1 eq_refl). Defined.

Lemma Romberg_cubic_witness :
  exists v, Romberg no_junk 0 1 3 (peval [0; 0; 0; 1]) = Ret v /\
            v == pintegral [0; 0; 0; 1] 0 1.
Proof. apply Romberg_cubic. lia. Defined.
