(* ===== verification/QuadratureData.v ===== *)
(** * QuadratureData: integration of sampled data

    The class [OneDIntegralwithData] of [src/numerics/integration.py]
    takes the abscissas [x] and the ordinates [y] as lists.  Its methods
    carry the prefix [Data_] here, since [Trapezoid], [SimpsonOneThird]
    and [Romberg] are also methods of [OneDIntegralwithFunction].
    [max], [min] and [list.index] are [pymax], [pymin] and [index];
    [range(len(x))] runs over the positions of [x].  [Data_Romberg] is
    [Romberg_table] around [Data_Trapezoid].

    [Data_Trapezoid] and [Data_SimpsonOneThird] never read [y]: they
    apply the weights of the rule to the abscissas. *)

From Stdlib Require Import ZArith QArith Qabs Lqa Lia List Bool Morphisms Setoid.
From S2P Require Import Prelude NumQ Quadrature Romberg.
Import ListNotations.

Section Methods.
Context {A : Type} `{Num A}.

#[local] Open Scope nat_scope.
#[local] Open Scope outcome_scope.

Definition Data_Trapezoid (x y : list A) : outcome A :=
  let sum := num_of_Z 0 in
  mx <- pymax x ;;
  mn <- pymin x ;;
  let wd := (mx - mn)%num in
  f0 <- pymin x ;;
  f0ind <- index f0 x ;;
  f2 <- pymax x ;;
  f2ind <- index f2 x ;;
  sum <- for_each (seq 0 (length x))
           (fun i sum =>
              if negb (i =? f0ind) && negb (i =? f2ind) then
                xi <- getitem x i ;; Ret (sum + xi)%num
              else Ret sum) sum ;;
  pydiv (wd * (f0 + 2 * sum + f2))%num (num_of_Z (2 * Z.of_nat (length x))).

Definition Data_TrapezoidUnequalSegments (x y : list A) : outcome A :=
  for_each (seq 1 (length x - 1))
    (fun i sum =>
       yi <- getitem y i ;;
       yp <- getitem y (i - 1) ;;
       let temp := (yi - yp)%num in
       let temp := (temp / 2)%num in
       xi <- getitem x i ;;
       xp <- getitem x (i - 1) ;;
       Ret (sum + (xi - xp) * temp)%num) (num_of_Z 0).

Definition Data_SimpsonOneThird (x y : list A) : outcome A :=
  mx <- pymax x ;;
  mn <- pymin x ;;
  let wd := (mx - mn)%num in
  f0 <- pymin x ;;
  f0ind <- index f0 x ;;
  f2 <- pymax x ;;
  f2ind <- index f2 x ;;
  ' (f11, f12) <- for_each (seq 0 (length x))
      (fun i '(f11, f12) =>
         if negb (i =? f0ind) && negb (i =? f2ind) then
           xi <- getitem x i ;;
           if Nat.even i then Ret (f11, (f12 + xi)%num) else Ret ((f11 + xi)%num, f12)
         else Ret (f11, f12)) (num_of_Z 0, num_of_Z 0) ;;
  pydiv (wd * (f0 + 4 * f11 + 2 * f12 + f2))%num (num_of_Z (3 * Z.of_nat (length x))).

Definition Data_Romberg (junk : nat -> nat -> A) (x y : list A) (maxIt : Z) : outcome A :=
  Romberg_table junk (fun _ => Data_Trapezoid x y) maxIt.

(** The sum that the loop of [Data_Trapezoid] accumulates. *)
Definition total (l : list A) : A := fold_left num_add l (num_of_Z 0).

Lemma total_snoc (l : list A) (a : A) : total (l ++ [a]) = (total l + a)%num.
Proof. unfold total. now rewrite fold_left_app. Qed.

End Methods.

(** ** Over exact rationals *)

Section DataQ.

#[local] Open Scope Q_scope.

(** *** Abscissas between a least first and a greatest last entry *)

Section Between.
Variables (a z : Q) (mid : list Q).
Hypothesis a_lt_z : a < z.
Hypothesis mid_between : Forall (fun t => a < t /\ t < z) mid.

Lemma fold_max_below (l : list Q) (m : Q) :
  Forall (fun t => t <= m) l ->
  fold_left (fun m x => if (m <? x)%num then x else m) l m = m.
Proof.
  revert m. induction l as [|t l IH]; intros m Hl; [reflexivity|].
  inv Hl. cbn [fold_left]. replace (m <? t)%num with false by (symmetry; now apply Qltb_false).
  now apply IH.
Qed.

Lemma fold_min_above (l : list Q) (m : Q) :
  Forall (fun t => m <= t) l ->
  fold_left (fun m x => if (x <? m)%num then x else m) l m = m.
Proof.
  revert m. induction l as [|t l IH]; intros m Hl; [reflexivity|].
  inv Hl. cbn [fold_left]. replace (t <? m)%num with false by (symmetry; now apply Qltb_false).
  now apply IH.
Qed.

Lemma fold_max_reaches (l : list Q) (m : Q) :
  Forall (fun t => t < z) l -> m < z ->
  fold_left (fun m x => if (m <? x)%num then x else m) (l ++ [z]) m = z.
Proof.
  revert m. induction l as [|t l IH]; intros m Hl Hm.
  - cbn. now replace (Qle_bool z m) with false by (symmetry; now apply Qleb_false).
  - inv Hl. cbn [app fold_left]. destruct (m <? t)%num; now apply IH.
Qed.

Lemma pymax_between : pymax (a :: mid ++ [z]) = Ret z.
Proof.
  unfold pymax. f_equal. apply fold_max_reaches; [|exact a_lt_z].
  eapply Forall_impl; [|exact mid_between]. now intros t [_ ?].
Qed.

Lemma pymin_between : pymin (a :: mid ++ [z]) = Ret a.
Proof.
  unfold pymin. f_equal. apply fold_min_above. apply Forall_app. split.
  - eapply Forall_impl; [|exact mid_between]. intros t [? _]. lra.
  - constructor; [lra | constructor].
Qed.

Lemma index_first : index a (a :: mid ++ [z]) = Ret 0%nat.
Proof. cbn [index]. now replace (a =? a)%num with true by (symmetry; now apply Qeqb_true). Qed.

Lemma index_skip (x : Q) (l l' : list Q) :
  Forall (fun t => ~ t == x) l ->
  index x (l ++ x :: l') = Ret (List.length l).
Proof.
  induction l as [|t l IH]; intros Hl; cbn [app index List.length].
  - now replace (x =? x)%num with true by (symmetry; now apply Qeqb_true).
  - inv Hl. replace (t =? x)%num with false by (symmetry; now apply Qeqb_false).
    now rewrite IH.
Qed.

Lemma index_last : index z (a :: mid ++ [z]) = Ret (S (List.length mid)).
Proof.
  apply (index_skip z (a :: mid) []). constructor; [lra|].
  eapply Forall_impl; [|exact mid_between]. intros t [_ ?]. lra.
Qed.

(** The loop skips the two ends and adds up the rest. *)
Lemma Data_Trapezoid_loop :
  for_each (seq 0 (List.length (a :: mid ++ [z])))
    (fun i sum =>
       if negb (i =? 0)%nat && negb (i =? S (List.length mid))%nat then
         bind (getitem (a :: mid ++ [z]) i) (fun xi => Ret (sum + xi)%num)
       else Ret sum) (num_of_Z 0) =
  Ret (total mid).
Proof.
  etransitivity; [apply (for_range_eq (fun i => total (firstn (i - 1) mid)))|].
  - intros i Hi. cbn [List.length] in Hi. rewrite length_app in Hi. cbn [List.length] in Hi.
    destruct i as [|i]; [reflexivity|]. cbn [Nat.eqb negb andb].
    replace (S i - 1)%nat with i by lia. replace (S (S i) - 1)%nat with (S i) by lia.
    destruct (Nat.eqb_spec i (List.length mid)) as [-> | Ni]; cbn [negb].
    + now rewrite !firstn_all2 by lia.
    + rewrite (getitem_nth (a :: mid ++ [z]) (S i) 0)
        by (cbn [List.length]; rewrite length_app; cbn [List.length]; lia).
      cbn [nth bind]. rewrite app_nth1 by lia.
      now rewrite <- (firstn_snoc_nth mid i 0), total_snoc by lia.
  - cbn [List.length]. rewrite length_app. cbn [List.length].
    replace (S (List.length mid + 1) - 1)%nat with (List.length mid + 1)%nat by lia.
    now rewrite firstn_all2 by lia.
Qed.

(** C37. [Data_Trapezoid] does not read [y].  On abscissas that start
    with their least entry [a] and end with their greatest [z] it
    returns [(z - a) (a + 2 S + z) / (2 len(x))], with [S] the sum of the
    abscissas in between, for every [y]. *)
Theorem Data_Trapezoid_abscissas (y : list Q) :
  Data_Trapezoid (a :: mid ++ [z]) y =
  Ret ((z - a) * (a + 2 * total mid + z) / inject_Z (2 * Z.of_nat (List.length mid + 2))).
Proof.
  unfold Data_Trapezoid. cbv zeta.
  rewrite pymax_between, pymin_between. cbn [bind].
  rewrite index_first, index_last. cbn [bind].
  rewrite Data_Trapezoid_loop. cbn [bind]. cbn [List.length]. rewrite length_app.
  cbn [List.length]. replace (S (List.length mid + 1)) with (List.length mid + 2)%nat by lia.
  rewrite pydiv_Q_Ret; [reflexivity|]. apply inject_Z_nonzero. lia.
Qed.

End Between.

(** *** TrapezoidUnequalSegments *)

(** [Data_TrapezoidUnequalSegments] on constant data.  The source
    takes the difference [y[i] - y[i-1]] where the rule has the sum:
    on ordinates that are all [c], over any abscissas, it returns a sum
    equal to [0], whereas the integral is [c (x_last - x_0)]. *)
Theorem Data_TrapezoidUnequalSegments_constant (x : list Q) (c : Q) :
  exists v, Data_TrapezoidUnequalSegments x (repeat c (List.length x)) = Ret v /\ v == 0.
Proof.
  unfold Data_TrapezoidUnequalSegments.
  destruct (for_each_ind (fun _ s => s == 0) (seq 1 (List.length x - 1))
    (fun i sum =>
       bind (getitem (repeat c (List.length x)) i) (fun yi =>
       bind (getitem (repeat c (List.length x)) (i - 1)) (fun yp =>
       let temp := (yi - yp)%num in
       let temp := (temp / 2)%num in
       bind (getitem x i) (fun xi =>
       bind (getitem x (i - 1)) (fun xp => Ret (sum + (xi - xp) * temp)%num))))) 0)
    as (v & E & Hv); [reflexivity| |eauto].
  intros done i rest s El Hs.
  assert (In i (seq 1 (List.length x - 1))) as Hi by (rewrite El; apply in_elt).
  apply in_seq in Hi.
  rewrite !(getitem_nth (repeat c _) _ 0) by (rewrite repeat_length; lia).
  rewrite !(getitem_nth x _ 0) by lia. cbn [bind]. cbv zeta.
  rewrite !nth_repeat_lt by lia. eexists. split; [reflexivity|]. qnum. rewrite Hs. field.
Qed.

(** Ordinates shorter than the abscissas raise [IndexError]. *)
Lemma Data_TrapezoidUnequalSegments_short (x0 x1 : Q) (x : list Q) (y0 : Q) :
  Data_TrapezoidUnequalSegments (x0 :: x1 :: x) [y0] = Raise IndexError.
Proof. unfold Data_TrapezoidUnequalSegments. cbn [List.length Nat.sub seq]. now apply for_each_Raise. Qed.

(** *** Romberg *)

(** [Data_Romberg] is [Data_Trapezoid].  Every row of the table
    starts from the same estimate, so the extrapolation has nothing to
    cancel: for [maxIt >= 1] the method returns a value equal to the
    one [Data_Trapezoid] returns. *)
Theorem Data_Romberg_is_Trapezoid (junk : nat -> nat -> Q) (x y : list Q) (maxIt : Z) (t : Q) :
  (1 <= maxIt)%Z -> Data_Trapezoid x y = Ret t ->
  exists v, Data_Romberg junk x y maxIt = Ret v /\ v == t.
Proof.
  intros L E. unfold Data_Romberg. eexists. split.
  - apply (Romberg_table_Ret junk (fun _ => t) (Z.to_nat maxIt)); [lia | reflexivity|].
    intros c _. exact E.
  - apply (romberg_T_stable (fun _ => t) t 0). reflexivity.
Qed.

End DataQ.

(** ** Concrete runs *)

#[local] Open Scope Q_scope.

(** Three samples of the constant [5] on [[0, 2]]: the integral is [10];
    [Data_Trapezoid] returns [4/3], the value for the abscissas alone. *)
Lemma Data_Trapezoid_abscissas_witness :
  Data_Trapezoid [0; 1; 2] [5; 5; 5] = Ret ((2 - 0) * (0 + 2 * total [1] + 2) / inject_Z 6).
Proof.
  apply (Data_Trapezoid_abscissas 0 2 [1] eq_refl).
  constructor; [split; reflexivity | constructor].
Defined.

(** [Data_SimpsonOneThird] likewise returns [4/3] there, and both
    refuse an empty list of abscissas. *)
Lemma Data_SimpsonOneThird_run :
  (exists v, Data_SimpsonOneThird [0; 1; 2] [5; 5; 5] = Ret v /\ v == 4 # 3) /\
  Data_SimpsonOneThird ([] : list Q) [] = Raise ValueError /\
  Data_Trapezoid ([] : list Q) [] = Raise ValueError.
Proof. repeat split. eexists. split; [vm_compute; reflexivity | reflexivity]. Qed.

Lemma Data_TrapezoidUnequalSegments_constant_witness :
  exists v, Data_TrapezoidUnequalSegments [0; 1; 3] (repeat 5 3) = Ret v /\ v == 0.
Proof. exact (Data_TrapezoidUnequalSegments_constant [0; 1; 3] 5). Defined.

Lemma Data_Romberg_is_Trapezoid_witness :
  exists v, Data_Romberg no_junk [0; 1; 2] [5; 5; 5] 3 = Ret v /\ v == 4 # 3.
Proof.
  destruct (Data_Romberg_is_Trapezoid no_junk [0; 1; 2] [5; 5; 5] 3 _ ltac:(lia) eq_refl)
    as (v & E & Hv).
  exists v. split; [exact E|]. rewrite Hv. reflexivity.
Defined.
