(* ===== verification/CurveFitting.v ===== *)
(** * CurveFitting: statistics and linear regression

    The functions of [src/numerics/tool.py] ([arithmaticMean],
    [variance], [standartDeviation], [coeffOfVariation]) and the class
    [LinearRegression] of [src/numerics/curveFitting.py].
    A [LinearRegression] object is the record [regression] of the
    attributes that [__init__] sets; [zip] stops at the shorter list.
    [x ** 0.5] is the argument [sqrt]; [x ** 2] is [x * x]. *)

From Stdlib Require Import ZArith QArith Qabs Lqa Lia List Bool Morphisms Setoid.
From S2P Require Import Prelude NumQ.
Import ListNotations.

Section Methods.
Context {A : Type} `{Num A}.

#[local] Open Scope nat_scope.
#[local] Open Scope outcome_scope.

(** ** [tool.py] *)

Definition arithmaticMean (values : list A) : outcome A :=
  let sum := fold_left (fun sum item => (sum + item)%num) values (num_of_Z 0) in
  pydiv sum (num_of_Z (Z.of_nat (length values))).

Definition variance (values : list A) : outcome A :=
  let '(sumYi, sumYiSq) :=
    fold_left (fun '(sumYi, sumYiSq) item => ((sumYi + item)%num, (sumYiSq + item * item)%num))
      values (num_of_Z 0, num_of_Z 0) in
  q <- pydiv (sumYi * sumYi)%num (num_of_Z (Z.of_nat (length values))) ;;
  let var := (sumYiSq - q)%num in
  pydiv var (num_of_Z (Z.of_nat (length values) - 1)).

Definition standartDeviation (sqrt : A -> A) (values : list A) : outcome A :=
  omap sqrt (variance values).

Definition coeffOfVariation (sqrt : A -> A) (values : list A) : outcome A :=
  sy <- standartDeviation sqrt values ;;
  yBar <- arithmaticMean values ;;
  q <- pydiv sy yBar ;;
  Ret (q * 100)%num.

(** ** [LinearRegression] *)

Record regression : Type := {
  xValues : list A;
  yValues : list A;
  n : Z;
  sumX : A;
  sumY : A;
  sumXY : A;
  sumXSq : A;
  sumYSq : A
}.

(** The loop of [__compute] over [zip(xValues, yValues)]. *)
Definition compute (l : list (A * A)) : A * A * A * A * A :=
  fold_left
    (fun '(sumX, sumY, sumXY, sumXSq, sumYSq) '(itemX, itemY) =>
       ((sumX + itemX)%num, (sumY + itemY)%num, (sumXY + itemX * itemY)%num,
        (sumXSq + itemX * itemX)%num, (sumYSq + itemY * itemY)%num))
    l (num_of_Z 0, num_of_Z 0, num_of_Z 0, num_of_Z 0, num_of_Z 0).

(** [LinearRegression(xValues, yValues)]. *)
Definition LinearRegression (xValues yValues : list A) : regression :=
  let '(sumX, sumY, sumXY, sumXSq, sumYSq) := compute (combine xValues yValues) in
  {| xValues := xValues; yValues := yValues; n := Z.of_nat (length xValues);
     sumX := sumX; sumY := sumY; sumXY := sumXY; sumXSq := sumXSq; sumYSq := sumYSq |}.

Definition results (self : regression) : outcome (A * A) :=
  let a1 := (num_of_Z (n self) * sumXY self - sumX self * sumY self)%num in
  a1 <- pydiv a1 (num_of_Z (n self) * sumXSq self - sumX self * sumX self)%num ;;
  my <- arithmaticMean (yValues self) ;;
  mx <- arithmaticMean (xValues self) ;;
  let a0 := (my - a1 * mx)%num in
  Ret (a1, a0).

Definition standartErrorEstimate (sqrt : A -> A) (self : regression) : outcome A :=
  let r := (num_of_Z (n self) * sumXY self - sumX self * sumY self)%num in
  let div :=
    (sqrt (num_of_Z (n self) * sumXSq self - sumX self * sumX self)
     * sqrt (num_of_Z (n self) * sumYSq self - sumY self * sumY self))%num in
  pydiv r div.

End Methods.

Arguments regression A : clear implicits.

(** ** Over exact rationals *)

Section CurveFittingQ.

#[local] Open Scope Q_scope.

(** *** Sums *)

Fixpoint sumQ (l : list Q) : Q :=
  match l with
  | [] => 0
  | a :: l => a + sumQ l
  end.

Lemma fold_left_sumQ (l : list Q) (s : Q) :
  fold_left (fun sum item => (sum + item)%num) l s == s + sumQ l.
Proof.
  revert s. induction l as [|a l IH]; intros s; cbn [fold_left sumQ]; [ring|].
  rewrite IH. qnum. ring.
Qed.

Lemma length_sumQ (l : list Q) (c : Q) :
  sumQ (map (fun _ => c) l) == inject_Z (Z.of_nat (List.length l)) * c.
Proof.
  induction l as [|a l IH]; [cbn; ring|].
  cbn [map sumQ List.length]. rewrite IH, inject_Z_succ. ring.
Qed.

Lemma arithmaticMean_Ret (values : list Q) :
  values <> [] ->
  exists m, arithmaticMean values = Ret m /\
            m * inject_Z (Z.of_nat (List.length values)) == sumQ values.
Proof.
  intros Hv. unfold arithmaticMean. cbv zeta.
  assert (~ inject_Z (Z.of_nat (List.length values)) == 0) as Hn
    by (apply inject_Z_nonzero; destruct values; [congruence | cbn [List.length]; lia]).
  rewrite pydiv_Q_Ret by exact Hn. eexists. split; [reflexivity|].
  rewrite fold_left_sumQ. qnum. now field.
Qed.

(** The five sums of [__compute]. *)
Lemma compute_sums (l : list (Q * Q)) :
  let '(sX, sY, sXY, sXX, sYY) := compute l in
  sX == sumQ (map fst l) /\ sY == sumQ (map snd l) /\
  sXY == sumQ (map (fun p => fst p * snd p) l) /\
  sXX == sumQ (map (fun p => fst p * fst p) l) /\
  sYY == sumQ (map (fun p => snd p * snd p) l).
Proof.
  unfold compute.
  assert (forall (l : list (Q * Q)) a b c d e,
            let '(sX, sY, sXY, sXX, sYY) :=
              fold_left
                (fun '(sumX, sumY, sumXY, sumXSq, sumYSq) '(itemX, itemY) =>
                   ((sumX + itemX)%num, (sumY + itemY)%num, (sumXY + itemX * itemY)%num,
                    (sumXSq + itemX * itemX)%num, (sumYSq + itemY * itemY)%num))
                l (a, b, c, d, e) in
            sX == a + sumQ (map fst l) /\ sY == b + sumQ (map snd l) /\
            sXY == c + sumQ (map (fun p => fst p * snd p) l) /\
            sXX == d + sumQ (map (fun p => fst p * fst p) l) /\
            sYY == e + sumQ (map (fun p => snd p * snd p) l)) as G.
  { clear l. induction l as [|[x y] l IH]; intros a b c d e.
    - cbn. repeat split; ring.
    - cbn [fold_left map sumQ fst snd].
      specialize (IH (a + x)%num (b + y)%num (c + x * y)%num (d + x * x)%num (e + y * y)%num).
      destruct (fold_left _ l _) as [[[[sX sY] sXY] sXX] sYY].
      destruct IH as (E1 & E2 & E3 & E4 & E5). qnum.
      repeat split; [rewrite E1 | rewrite E2 | rewrite E3 | rewrite E4 | rewrite E5]; ring. }
  specialize (G l 0 0 0 0 0). change (num_of_Z 0) with 0.
  destruct (fold_left _ l _) as [[[[sX sY] sXY] sXX] sYY].
  destruct G as (E1 & E2 & E3 & E4 & E5).
  repeat split; [rewrite E1 | rewrite E2 | rewrite E3 | rewrite E4 | rewrite E5]; ring.
Qed.

Lemma inject_Z_nat_pos (k : nat) : 0 < inject_Z (Z.of_nat (S k)).
Proof. change 0 with (inject_Z 0). rewrite <- Zlt_Qlt. lia. Qed.

Lemma sumQ_nonneg (l : list Q) : Forall (fun a => 0 <= a) l -> 0 <= sumQ l.
Proof. induction 1; cbn [sumQ]; lra. Qed.

Lemma sumQ_ext {B : Type} (f g : B -> Q) (l : list B) :
  (forall a, f a == g a) -> sumQ (map f l) == sumQ (map g l).
Proof. intros E. induction l as [|a l IH]; cbn [map sumQ]; [reflexivity|]. now rewrite E, IH. Qed.

(** A sum of squared residuals, in the sums of the data. *)
Lemma sumQ_residuals (l : list (Q * Q)) (b1 b0 : Q) :
  sumQ (map (fun p => (snd p - b0 - b1 * fst p) * (snd p - b0 - b1 * fst p)) l) ==
  sumQ (map (fun p => snd p * snd p) l) - 2 * b0 * sumQ (map snd l)
  - 2 * b1 * sumQ (map (fun p => fst p * snd p) l)
  + inject_Z (Z.of_nat (List.length l)) * b0 * b0 + 2 * b0 * b1 * sumQ (map fst l)
  + b1 * b1 * sumQ (map (fun p => fst p * fst p) l).
Proof.
  induction l as [|[x y] l IH]; [cbn; ring|].
  cbn [map sumQ List.length fst snd]. rewrite IH, inject_Z_succ. ring.
Qed.

(** [n sum(x^2) - sum(x)^2] is [n] times a sum of squares. *)
Lemma discriminant_nonneg (l : list (Q * Q)) :
  0 <= inject_Z (Z.of_nat (List.length l)) * sumQ (map (fun p => fst p * fst p) l)
       - sumQ (map fst l) * sumQ (map fst l).
Proof.
  destruct l as [|p l]; [cbn; lra|].
  set (N := inject_Z (Z.of_nat (List.length (p :: l)))).
  assert (0 < N) as HN by apply inject_Z_nat_pos.
  set (m := sumQ (map fst (p :: l)) / N).
  pose proof (sumQ_residuals (map (fun q => (0, fst q)) (p :: l)) 0 m) as E.
  rewrite !map_map, length_map in E. cbn [fst snd] in E. fold N in E.
  assert (0 <= sumQ (map (fun q => (fst q - m - 0 * 0) * (fst q - m - 0 * 0)) (p :: l))) as P.
  { apply sumQ_nonneg. apply Forall_map, Forall_forall. intros q _. cbv beta.
    set (t := fst q - m - 0 * 0). nra. }
  rewrite E in P. clear E.
  set (S1 := sumQ (map fst (p :: l))) in *. set (S2 := sumQ (map (fun q => fst q * fst q) (p :: l))) in *.
  assert (m * N == S1) as Em by (unfold m; field; lra).
  assert (0 <= N * (S2 - 2 * m * S1 + N * m * m)) as P'.
  { apply Qmult_le_0_compat; lra. }
  setoid_replace (N * S2 - S1 * S1) with (N * (S2 - 2 * m * S1 + N * m * m)); [exact P'|].
  rewrite <- Em. ring.
Qed.

Lemma fst_combine {B C : Type} (xs : list B) (ys : list C) :
  List.length xs = List.length ys -> map fst (combine xs ys) = xs.
Proof.
  revert ys. induction xs as [|x xs IH]; intros [|y ys] E; cbn in *; try lia; [reflexivity|].
  f_equal. apply IH. lia.
Qed.

Lemma snd_combine {B C : Type} (xs : list B) (ys : list C) :
  List.length xs = List.length ys -> map snd (combine xs ys) = ys.
Proof.
  revert ys. induction xs as [|x xs IH]; intros [|y ys] E; cbn in *; try lia; [reflexivity|].
  f_equal. apply IH. lia.
Qed.

(** *** LinearRegression *)

Section Regression.
Variables xs ys : list Q.
Hypothesis same_length : List.length xs = List.length ys.

Let l := combine xs ys.
Let N := inject_Z (Z.of_nat (List.length xs)).
Let Sx := sumQ (map fst l).
Let Sy := sumQ (map snd l).
Let Sxy := sumQ (map (fun p => fst p * snd p) l).
Let Sxx := sumQ (map (fun p => fst p * fst p) l).

(** The abscissas are not all equal. *)
Hypothesis spread : ~ N * Sxx - Sx * Sx == 0.

Lemma map_fst_l : map fst l = xs.
Proof. now apply fst_combine. Qed.

Lemma map_snd_l : map snd l = ys.
Proof. now apply snd_combine. Qed.

Lemma length_l : List.length l = List.length xs.
Proof. unfold l. rewrite length_combine. lia. Qed.

Lemma N_pos : 0 < N.
Proof.
  destruct xs as [|x xs'] eqn:E.
  - exfalso. apply spread. unfold Sx, Sxx, l. cbn. ring.
  - apply inject_Z_nat_pos.
Qed.

(** What [results] returns, in the sums of the data. *)
Lemma results_Ret :
  exists a1 a0,
    results (LinearRegression xs ys) = Ret (a1, a0) /\
    a1 == (N * Sxy - Sx * Sy) / (N * Sxx - Sx * Sx) /\
    a0 * N == Sy - a1 * Sx.
Proof.
  pose proof N_pos as HN. unfold results, LinearRegression. fold l.
  pose proof (compute_sums l) as E.
  destruct (compute l) as [[[[sX sY] sXY] sXX] sYY]. destruct E as (E1 & E2 & E3 & E4 & _).
  cbn [n sumX sumY sumXY sumXSq xValues yValues].
  fold Sx in E1. fold Sy in E2. fold Sxy in E3. fold Sxx in E4. fold N.
  rewrite pydiv_Q_Ret by (change (~ N * sXX - sX * sX == 0); now rewrite E1, E4).
  cbn [bind].
  destruct (arithmaticMean_Ret ys) as (my & -> & Ey).
  { intros ->. destruct xs; [|discriminate]. apply spread. unfold Sx, Sxx, l. cbn. ring. }
  destruct (arithmaticMean_Ret xs) as (mx & -> & Ex).
  { intros Z. apply spread. unfold Sx, Sxx, l. rewrite Z. cbn. ring. }
  cbn [bind]. eexists _, _. split; [reflexivity|]. rewrite <- same_length in Ey. fold N in Ex, Ey.
  rewrite <- map_snd_l in Ey. rewrite <- map_fst_l in Ex. fold Sx in Ex. fold Sy in Ey.
  change ((N * sXY - sX * sY) / (N * sXX - sX * sX) == (N * Sxy - Sx * Sy) / (N * Sxx - Sx * Sx)
          /\ (my - (N * sXY - sX * sY) / (N * sXX - sX * sX) * mx) * N
             == Sy - (N * sXY - sX * sY) / (N * sXX - sX * sX) * Sx).
  rewrite E1, E2, E3, E4. split; [reflexivity|]. rewrite <- Ex, <- Ey. field. 
  rewrite Ex. exact spread.
Qed.

(** The sum of squared residuals of the line [b0 + b1 x]. *)
Definition sse (b1 b0 : Q) : Q :=
  sumQ (map (fun p => (snd p - b0 - b1 * fst p) * (snd p - b0 - b1 * fst p)) l).

(** C39. [LinearRegression] is least squares.  On data of equal length
    whose abscissas are not all equal, [results] returns the slope and
    the intercept of a line whose sum of squared residuals is at most
    that of every other line. *)
Theorem LinearRegression_least_squares :
  exists a1 a0,
    results (LinearRegression xs ys) = Ret (a1, a0) /\
    forall b1 b0, sse a1 a0 <= sse b1 b0.
Proof.
  destruct results_Ret as (a1 & a0 & E & E1 & E0). exists a1, a0. split; [exact E|].
  intros b1 b0. unfold sse. rewrite !sumQ_residuals, length_l.
  fold N Sx Sy Sxy Sxx. set (Syy := sumQ (map (fun p => snd p * snd p) l)).
  pose proof N_pos as HN. pose proof (discriminant_nonneg l) as HD.
  rewrite length_l in HD. fold N Sx Sxx in HD.
  set (D := N * Sxx - Sx * Sx) in *.
  assert (a1 * D == N * Sxy - Sx * Sy) as E1' by (rewrite E1; unfold D; field; exact spread).
  assert (0 <= (N * (b0 - a0) + (b1 - a1) * Sx) * (N * (b0 - a0) + (b1 - a1) * Sx)
               + (b1 - a1) * (b1 - a1) * D) as P.
  { set (u := N * (b0 - a0) + (b1 - a1) * Sx). set (v := b1 - a1).
    assert (0 <= u * u) by nra.
    assert (0 <= v * v * D) by (apply Qmult_le_0_compat; [nra | exact HD]). lra. }
  apply Qmult_le_l with (z := N); [exact HN|].
  apply Qle_minus_iff.
  setoid_replace (N * (Syy - 2 * b0 * Sy - 2 * b1 * Sxy + N * b0 * b0 + 2 * b0 * b1 * Sx
                       + b1 * b1 * Sxx)
                  + - (N * (Syy - 2 * a0 * Sy - 2 * a1 * Sxy + N * a0 * a0 + 2 * a0 * a1 * Sx
                            + a1 * a1 * Sxx)))
    with ((N * (b0 - a0) + (b1 - a1) * Sx) * (N * (b0 - a0) + (b1 - a1) * Sx)
          + (b1 - a1) * (b1 - a1) * D); [exact P|].
  assert (Sy == a0 * N + a1 * Sx) as -> by (rewrite E0; ring).
  assert (Sxy == (a1 * D + Sx * (a0 * N + a1 * Sx)) / N) as ->
    by (rewrite E1', E0; field; lra).
  unfold D. field. lra.
Qed.


(** [LinearRegression] recovers a line.  On the data
    [y = c0 + c1 x] [results] returns the slope [c1] and the intercept
    [c0]. *)
Theorem LinearRegression_collinear (c0 c1 : Q) :
  ys = map (fun x => c0 + c1 * x) xs ->
  exists a1 a0, results (LinearRegression xs ys) = Ret (a1, a0) /\ a1 == c1 /\ a0 == c0.
Proof.
  intros Ey. destruct results_Ret as (a1 & a0 & E & E1 & E0). exists a1, a0.
  split; [exact E|]. pose proof N_pos as HN.
  assert (l = map (fun x => (x, c0 + c1 * x)) xs) as El.
  { unfold l. rewrite Ey. clear. induction xs as [|x xs' IH]; cbn; [reflexivity|].
    now rewrite IH. }
  assert (Sy == N * c0 + c1 * Sx /\ Sxy == c0 * Sx + c1 * Sxx) as [E2 E3].
  { unfold Sy, Sxy, Sx, Sxx, N. rewrite El, !map_map. cbn [fst snd]. clear.
    induction xs as [|x xs' IH]; [cbn; split; ring|].
    cbn [map sumQ List.length]. rewrite inject_Z_succ. destruct IH as [-> ->]. split; ring. }
  assert (a1 == c1) as Ea by (rewrite E1, E2, E3; field; exact spread).
  split; [exact Ea|]. apply (Qmult_inj_r _ _ N); [lra|]. rewrite E0, E2, Ea. ring.
Qed.

End Regression.

Lemma sums_repeat (x : Q) (k : nat) (ys : list Q) :
  k = List.length ys ->
  sumQ (map fst (combine (repeat x k) ys)) == inject_Z (Z.of_nat k) * x /\
  sumQ (map (fun p => fst p * fst p) (combine (repeat x k) ys))
  == inject_Z (Z.of_nat k) * (x * x).
Proof.
  revert ys. induction k as [|k IH]; intros [|y ys] Ek; try discriminate; [cbn; split; ring|].
  injection Ek as Ek. cbn [repeat combine map sumQ fst]. rewrite inject_Z_succ.
  destruct (IH ys Ek) as [-> ->]. split; ring.
Qed.

(** Equal abscissas.  When every abscissa is the same number the
    denominator [n sumXSq - sumX ** 2] is zero and [results] raises
    [ZeroDivisionError]. *)
Theorem LinearRegression_degenerate (x : Q) (ys : list Q) :
  results (LinearRegression (repeat x (List.length ys)) ys) = Raise ZeroDivisionError.
Proof.
  unfold results, LinearRegression.
  pose proof (compute_sums (combine (repeat x (List.length ys)) ys)) as E.
  destruct (compute _) as [[[[sX sY] sXY] sXX] sYY]. destruct E as (E1 & _ & _ & E4 & _).
  cbn [n sumX sumY sumXY sumXSq xValues yValues].
  rewrite pydiv_Q_Raise; [reflexivity|].
  change (inject_Z (Z.of_nat (List.length (repeat x (List.length ys)))) * sXX - sX * sX == 0).
  rewrite E1, E4, repeat_length.
  destruct (sums_repeat x (List.length ys) ys eq_refl) as [-> ->]. ring.
Qed.

(** *** Statistics *)

(** [variance] is the sample variance.  For at least two values
    it returns [sum (v - m)^2 / (n - 1)], [m] their mean; for one value
    and for none it raises [ZeroDivisionError]. *)
Theorem variance_sample (values : list Q) (m : Q) :
  (2 <= List.length values)%nat ->
  m * inject_Z (Z.of_nat (List.length values)) == sumQ values ->
  exists v, variance values = Ret v /\
    v * (inject_Z (Z.of_nat (List.length values)) - 1)
    == sumQ (map (fun a => (a - m) * (a - m)) values).
Proof.
  intros Hn Em. unfold variance.
  assert (forall (l : list Q) a b,
            let '(s1, s2) :=
              fold_left (fun '(sumYi, sumYiSq) item =>
                           ((sumYi + item)%num, (sumYiSq + item * item)%num)) l (a, b) in
            s1 == a + sumQ l /\ s2 == b + sumQ (map (fun t => t * t) l)) as G.
  { induction l as [|t l IH]; intros a b; [cbn; split; ring|].
    cbn [fold_left map sumQ]. specialize (IH (a + t)%num (b + t * t)%num).
    destruct (fold_left _ l _) as [s1 s2]. destruct IH as [E1 E2]. qnum.
    split; [rewrite E1 | rewrite E2]; ring. }
  specialize (G values 0 0). change (num_of_Z 0) with 0.
  destruct (fold_left _ values _) as [s1 s2]. destruct G as [E1 E2].
  set (N := inject_Z (Z.of_nat (List.length values))) in *.
  assert (2 <= N) as HN by (unfold N; change 2 with (inject_Z 2); rewrite <- Zle_Qle; lia).
  assert (~ N == 0) as H1 by lra.
  assert (inject_Z (Z.of_nat (List.length values) - 1) == N - 1) as EN
    by (unfold Zminus; rewrite inject_Z_plus; reflexivity).
  assert (~ inject_Z (Z.of_nat (List.length values) - 1) == 0) as H2 by (rewrite EN; lra).
  rewrite pydiv_Q_Ret by exact H1. cbn [bind]. rewrite pydiv_Q_Ret by exact H2.
  eexists. split; [reflexivity|].
  pose proof (sumQ_residuals (map (fun a => (0, a)) values) 0 m) as R.
  rewrite !map_map, length_map in R. cbn [fst snd] in R. fold N in R.
  rewrite (sumQ_ext (fun a => (a - m) * (a - m)) (fun a => (a - m - 0 * 0) * (a - m - 0 * 0)))
    by (intros; ring).
  rewrite R, map_id. qnum. rewrite EN, E1, E2, <- Em. fold N. field. lra.
Qed.

(** [variance] of fewer than two values. *)
Theorem variance_raises (a : Q) :
  variance ([] : list Q) = Raise ZeroDivisionError /\ variance [a] = Raise ZeroDivisionError.
Proof. split; reflexivity. Qed.
(** *** The correlation coefficient *)

(** The attributes of a [LinearRegression] object are the sums of the
    data. *)
Lemma LinearRegression_sums (xs ys : list Q) :
  let self := LinearRegression xs ys in
  let l := combine xs ys in
  n self = Z.of_nat (length xs) /\
  sumX self == sumQ (map fst l) /\ sumY self == sumQ (map snd l) /\
  sumXY self == sumQ (map (fun p => fst p * snd p) l) /\
  sumXSq self == sumQ (map (fun p => fst p * fst p) l) /\
  sumYSq self == sumQ (map (fun p => snd p * snd p) l).
Proof.
  cbv zeta. unfold LinearRegression. pose proof (compute_sums (combine xs ys)) as E.
  destruct (compute (combine xs ys)) as [[[[sX sY] sXY] sXX] sYY]. cbn. tauto.
Qed.

(** The algebra of the correlation coefficient: with [a1 = c / dx] the
    slope and [a0 = (sy - a1 sx) / n] the intercept, [n] times the sum
    of the squared residuals is [dy - c^2 / dx]. *)
Lemma correlation_identity (N sX sY sXY sXX sYY a1 a0 rx ry : Q) :
  ~ N == 0 -> ~ rx == 0 -> ~ ry == 0 ->
  rx * rx == N * sXX - sX * sX -> ry * ry == N * sYY - sY * sY ->
  a1 == (N * sXY - sX * sY) / (N * sXX - sX * sX) ->
  a0 * N == sY - a1 * sX ->
  N * (sYY - 2 * a0 * sY - 2 * a1 * sXY + N * a0 * a0 + 2 * a0 * a1 * sX + a1 * a1 * sXX)
  == (N * sYY - sY * sY)
     * (1 - (N * sXY - sX * sY) / (rx * ry) * ((N * sXY - sX * sY) / (rx * ry))).
Proof.
  intros HN Hrx Hry Ex Ey E1 E0.
  assert (a0 == (sY - a1 * sX) / N) as -> by (rewrite <- E0; field; exact HN).
  rewrite E1, <- Ex, <- Ey.
  assert (sXX == (rx * rx + sX * sX) / N) as -> by (rewrite Ex; field; exact HN).
  assert (sYY == (ry * ry + sY * sY) / N) as -> by (rewrite Ey; field; exact HN).
  field. auto.
Qed.

Lemma square_nonzero (r d : Q) : r * r == d -> ~ d == 0 -> ~ r == 0.
Proof. intros E N Z. apply N. rewrite <- E, Z. ring. Qed.

Lemma sse_nonneg (xs ys : list Q) (b1 b0 : Q) : 0 <= sse xs ys b1 b0.
Proof.
  apply sumQ_nonneg, Forall_map, Forall_forall. intros p _. cbv beta.
  set (t := snd p - b0 - b1 * fst p). nra.
Qed.

Lemma discriminant_snd_nonneg (l : list (Q * Q)) :
  0 <= inject_Z (Z.of_nat (List.length l)) * sumQ (map (fun p => snd p * snd p) l)
       - sumQ (map snd l) * sumQ (map snd l).
Proof.
  pose proof (discriminant_nonneg (map (fun p => (snd p, fst p)) l)) as D.
  now rewrite !map_map, length_map in D.
Qed.

(** C32. [standartErrorEstimate] returns the correlation coefficient.
    For a square root that is exact on the two numbers it is applied
    to, the method returns [r] with
    [n * sse = (n sum(y^2) - sum(y)^2) * (1 - r^2)], where [sse] is the
    sum of the squared residuals of the line that [results] returns:
    [r^2 <= 1], and [r^2 = 1] on a perfect fit, where an estimate of
    the error would be [0]. *)
Theorem standartErrorEstimate_correlation (sqrt : Q -> Q) (xs ys : list Q) :
  let self := LinearRegression xs ys in
  let dx := (num_of_Z (n self) * sumXSq self - sumX self * sumX self)%num in
  let dy := (num_of_Z (n self) * sumYSq self - sumY self * sumY self)%num in
  length xs = length ys ->
  sqrt dx * sqrt dx == dx -> sqrt dy * sqrt dy == dy -> ~ dx == 0 -> ~ dy == 0 ->
  exists r a1 a0,
    standartErrorEstimate sqrt self = Ret r /\
    results self = Ret (a1, a0) /\
    inject_Z (Z.of_nat (length xs)) * sse xs ys a1 a0 == dy * (1 - r * r) /\
    r * r <= 1 /\ (sse xs ys a1 a0 == 0 <-> r * r == 1).
Proof.
  intros self dx dy Hl Hx Hy Nx Ny.
  destruct (LinearRegression_sums xs ys) as (En & E1 & E2 & E3 & E4 & E5).
  fold self in En, E1, E2, E3, E4, E5.
  pose proof (discriminant_snd_nonneg (combine xs ys)) as Py.
  rewrite length_combine, <- Hl, Nat.min_id, <- E2, <- E5 in Py.
  unfold standartErrorEstimate. fold dx dy. unfold dx, dy in *. rewrite En in *. qnum.
  set (N := inject_Z (Z.of_nat (length xs))) in *.
  assert (~ N * sumQ (map (fun p => fst p * fst p) (combine xs ys))
            - sumQ (map fst (combine xs ys)) * sumQ (map fst (combine xs ys)) == 0) as spread
    by (now rewrite <- E1, <- E4).
  destruct (results_Ret xs ys Hl spread) as (a1 & a0 & E & Ea1 & Ea0).
  pose proof (N_pos xs ys Hl spread) as HN. fold N in HN, Ea1, Ea0.
  pose proof (square_nonzero _ _ Hx Nx) as Rx. pose proof (square_nonzero _ _ Hy Ny) as Ry.
  set (rx := sqrt (N * sumXSq self - sumX self * sumX self)) in *.
  set (ry := sqrt (N * sumYSq self - sumY self * sumY self)) in *.
  set (c := N * sumXY self - sumX self * sumY self).
  rewrite pydiv_Q_Ret by (qnum; intros Z; destruct (Qmult_integral _ _ Z); auto).
  exists (c / (rx * ry)), a1, a0. split; [reflexivity|]. split; [exact E|].
  pose proof (sse_nonneg xs ys a1 a0) as Ps.
  assert (N * sse xs ys a1 a0 ==
          (N * sumYSq self - sumY self * sumY self) * (1 - c / (rx * ry) * (c / (rx * ry))))
    as Id.
  { unfold sse. rewrite sumQ_residuals, length_combine, <- Hl, Nat.min_id. fold N.
    rewrite <- E1, <- E2, <- E3, <- E4, <- E5 in *.
    apply correlation_identity; auto. lra. }
  set (r2 := c / (rx * ry) * (c / (rx * ry))) in *.
  set (d := N * sumYSq self - sumY self * sumY self) in *.
  set (e := sse xs ys a1 a0) in *.
  split; [exact Id|]. split; [nra|]. split; intros Z.
  - rewrite Z in Id. assert (d * (1 - r2) == 0) as Z' by lra.
    destruct (Qmult_integral _ _ Z'); [tauto | lra].
  - rewrite Z in Id. assert (N * e == 0) as Z' by lra.
    destruct (Qmult_integral _ _ Z'); lra.
Qed.

End CurveFittingQ.

(** ** Concrete runs *)

#[local] Open Scope Q_scope.

Lemma LinearRegression_least_squares_witness :
  exists a1 a0,
    results (LinearRegression [0; 1; 2] [1; 3; 4]) = Ret (a1, a0) /\
    forall b1 b0, sse [0; 1; 2] [1; 3; 4] a1 a0 <= sse [0; 1; 2] [1; 3; 4] b1 b0.
Proof. apply LinearRegression_least_squares; [reflexivity | discriminate]. Defined.

Lemma LinearRegression_collinear_witness :
  exists a1 a0,
    results (LinearRegression [0; 1; 3] [1; 3; 7]) = Ret (a1, a0) /\ a1 == 2 /\ a0 == 1.
Proof.
  apply (LinearRegression_collinear [0; 1; 3] [1; 3; 7] eq_refl ltac:(discriminate) 1 2).
  reflexivity.
Defined.

Lemma variance_sample_witness :
  exists v, variance [1; 2; 3; 6] = Ret v /\
    v * (inject_Z (Z.of_nat 4) - 1) == sumQ (map (fun a => (a - 3) * (a - 3)) [1; 2; 3; 6]).
Proof. apply (variance_sample [1; 2; 3; 6] 3); [cbn; lia | reflexivity]. Defined.

(** A square root that is exact on [4], [16] and [100]. *)
Definition exact_root (v : Q) : Q :=
  if Qeq_bool v 4 then 2 else if Qeq_bool v 16 then 4 else 10.

Lemma standartErrorEstimate_correlation_witness :
  exists r a1 a0,
    standartErrorEstimate exact_root (LinearRegression [0; 0; 1; 1] [0; 3; 4; 7]) = Ret r /\
    results (LinearRegression [0; 0; 1; 1] [0; 3; 4; 7]) = Ret (a1, a0) /\
    inject_Z (Z.of_nat 4) * sse [0; 0; 1; 1] [0; 3; 4; 7] a1 a0 == 100 * (1 - r * r) /\
    r * r <= 1 /\ (sse [0; 0; 1; 1] [0; 3; 4; 7] a1 a0 == 0 <-> r * r == 1).
Proof.
  apply (standartErrorEstimate_correlation exact_root [0; 0; 1; 1] [0; 3; 4; 7]);
    try reflexivity; discriminate.
Defined.

(** On data with some scatter the method returns [4/5]; on data on a
    line it returns [1]. *)
Lemma standartErrorEstimate_runs :
  omap Qred (standartErrorEstimate exact_root (LinearRegression [0; 0; 1; 1] [0; 3; 4; 7]))
  = Ret (4 # 5) /\
  omap Qred (standartErrorEstimate exact_root (LinearRegression [0; 0; 1; 1] [0; 0; 2; 2]))
  = Ret 1.
Proof. split; vm_compute; reflexivity. Qed.
