(* ===== verification/Interpolation.v ===== *)
(** * Interpolation: the chord and the linear splines

    The methods [LinearInterpolation] and [LinearSplines] of the class
    [Interpolation] of [src/numerics/curveFitting.py]
    ([NewtonPolynomialInterpolation] is in [NewtonInterpolation]).
    [LinearSplines] walks [reversed(x)] to the first item below
    [value]: the walk is [find] on [rev x], and the method that falls
    off the end of its loop returns [None], so its result is an
    [option].  [x.index(item)] is [index]: the first position that
    holds a number equal to [item].

    On abscissas that increase, [LinearSplines] is shown to return the
    value of the segment that holds [value]
    ([LinearSplines_segment]); at or below the first abscissa it
    returns [None] and above the last it raises [IndexError]. *)

From Stdlib Require Import ZArith QArith Qabs Lqa Lia List Bool Morphisms Setoid.
From S2P Require Import Prelude NumQ.
Import ListNotations.

Section Methods.
Context {A : Type} `{Num A}.

#[local] Open Scope nat_scope.
#[local] Open Scope outcome_scope.

Definition LinearInterpolation (pt1 pt2 value : A) (func : A -> A) : outcome A :=
  let res := (func pt1 + (func pt2 - func pt1))%num in
  pydiv res ((pt2 - pt1) * (value - pt1))%num.

Definition LinearSplines (x y : list A) (value : A) : outcome (option A) :=
  match find (fun item => (item <? value)%num) (rev x) with
  | None => Ret None
  | Some item =>
      ind <- index item x ;;
      y1 <- getitem y (ind + 1) ;;
      y0 <- getitem y ind ;;
      x1 <- getitem x (ind + 1) ;;
      x0 <- getitem x ind ;;
      m <- pydiv (y1 - y0)%num (x1 - x0)%num ;;
      y0' <- getitem y ind ;;
      x0' <- getitem x ind ;;
      Ret (Some (y0' + m * (value - x0'))%num)
  end.

(** ** The search *)

Lemma find_app_false {B : Type} (p : B -> bool) (l l' : list B) :
  Forall (fun b => p b = false) l -> find p (l ++ l') = find p l'.
Proof. induction 1 as [|b l Hb _ IH]; cbn [app find]; [|rewrite Hb]; auto. Qed.

(** Walking a list from its end finds the last item that passes. *)
Lemma find_rev_last {B : Type} (p : B -> bool) (l1 l2 : list B) (a : B) :
  p a = true -> Forall (fun b => p b = false) l2 ->
  find p (rev (l1 ++ a :: l2)) = Some a.
Proof.
  intros Ha Hl. rewrite rev_app_distr. cbn [rev]. rewrite <- app_assoc.
  rewrite find_app_false by now apply Forall_rev. cbn [app find]. now rewrite Ha.
Qed.

Lemma find_rev_none {B : Type} (p : B -> bool) (l : list B) :
  Forall (fun b => p b = false) l -> find p (rev l) = None.
Proof.
  intros Hl. rewrite <- (app_nil_r (rev l)). now rewrite find_app_false by now apply Forall_rev.
Qed.

(** [l.index(a)] is the first position that holds a number equal to
    [a]. *)
Lemma index_position (a d : A) (l : list A) :
  forall i, i < length l -> (nth i l d =? a)%num = true ->
  (forall j, j < i -> (nth j l d =? a)%num = false) ->
  index a l = Ret i.
Proof.
  induction l as [|b l IH]; intros i Hi Ei Hj; [cbn in Hi; lia|].
  cbn [index]. destruct i as [|i].
  - cbn [nth] in Ei. now rewrite Ei.
  - pose proof (Hj 0 ltac:(lia)) as E0. cbn [nth] in E0. rewrite E0.
    rewrite (IH i); [reflexivity | cbn in Hi; lia | exact Ei |].
    intros j Lj. apply (Hj (S j)). lia.
Qed.

(** No item below [value]: the loop ends without a [return]. *)
Theorem LinearSplines_below (x y : list A) (value : A) :
  Forall (fun item => (item <? value)%num = false) x ->
  LinearSplines x y value = Ret None.
Proof. intros Hx. unfold LinearSplines. now rewrite find_rev_none. Qed.

End Methods.

(** ** Over exact rationals *)

Section InterpolationQ.

#[local] Open Scope Q_scope.

(** [LinearInterpolation] does not interpolate.  The sum
    [func(pt1) + (func(pt2) - func(pt1))] is divided by
    [(pt2 - pt1) * (value - pt1)]: the value returned, times that
    product, is [func(pt2)], and [value = pt1] raises
    [ZeroDivisionError]. *)
Theorem LinearInterpolation_formula (pt1 pt2 value : Q) (func : Q -> Q) :
  (~ (pt2 - pt1) * (value - pt1) == 0 ->
   exists v, LinearInterpolation pt1 pt2 value func = Ret v /\
             v * ((pt2 - pt1) * (value - pt1)) == func pt2) /\
  LinearInterpolation pt1 pt2 pt1 func = Raise ZeroDivisionError.
Proof.
  unfold LinearInterpolation. split.
  - intros Hd. rewrite pydiv_Q_Ret by exact Hd. eexists. split; [reflexivity|]. qnum.
    field. split; intros Z; apply Hd; rewrite Z; ring.
  - apply pydiv_Q_Raise. qnum. ring.
Qed.

(** *** Splines on increasing abscissas *)

Section Splines.

Variables (x y : list Q).
Hypothesis increasing : forall i j, (i < j < length x)%nat -> nth i x 0 < nth j x 0.

(** The value on the segment from node [i] to node [i + 1]. *)
Definition segment (i : nat) (value : Q) : Q :=
  nth i y 0 + (nth (S i) y 0 - nth i y 0) / (nth (S i) x 0 - nth i x 0) * (value - nth i x 0).

(** The walk from the end stops on node [i] when it is the last one
    below [value]. *)
Lemma find_last_below (i : nat) (value : Q) :
  (i < length x)%nat -> nth i x 0 < value ->
  (forall j, (i < j < length x)%nat -> value <= nth j x 0) ->
  find (fun item => (item <? value)%num) (rev x) = Some (nth i x 0).
Proof.
  intros Hi Lo Hi'. destruct (nth_split x 0 Hi) as (l1 & l2 & E & L).
  set (a := nth i x 0) in *. rewrite E. apply find_rev_last; [now apply Qltb_true|].
  apply Forall_forall. intros b Hb. apply Qltb_false.
  destruct (In_nth l2 b 0 Hb) as (k & Hk & <-).
  assert (length x = (length l1 + S (length l2))%nat) as Lx
    by (rewrite E at 1; now rewrite length_app).
  replace (nth k l2 0) with (nth (S i + k) x 0); [apply Hi'; lia|].
  rewrite E, app_nth2 by lia. now replace (S i + k - length l1)%nat with (S k) by lia.
Qed.

Lemma index_node (i : nat) : (i < length x)%nat -> index (nth i x 0) x = Ret i.
Proof.
  intros Hi. apply (index_position _ 0); [exact Hi | now apply Qeqb_true |].
  intros j Hj. apply Qeqb_false. pose proof (increasing j i ltac:(lia)). lra.
Qed.

(** The method on the segment that holds [value]. *)
Lemma LinearSplines_Ret (i : nat) (value : Q) :
  (S i < length x)%nat -> (S i < length y)%nat ->
  nth i x 0 < value <= nth (S i) x 0 ->
  LinearSplines x y value = Ret (Some (segment i value)).
Proof.
  intros Hx Hy [Lo Hi]. unfold LinearSplines.
  rewrite (find_last_below i), index_node; try lia; try exact Lo.
  - cbn [bind]. rewrite Nat.add_1_r, !(getitem_nth _ _ 0) by lia. cbn [bind].
    rewrite pydiv_Q_Ret; [reflexivity|].
    pose proof (increasing i (S i) ltac:(lia)). qnum. lra.
  - intros j Hj. destruct (Nat.eq_dec j (S i)) as [-> | Nj]; [exact Hi|].
    pose proof (increasing (S i) j ltac:(lia)). lra.
Qed.

End Splines.

(** C25. [LinearSplines] returns the value of the segment that holds
    [value].  On abscissas that increase, with an ordinate for each,
    and for [value] in the interval from node [i] (excluded) to node
    [i + 1] (included), the method returns the value at [value] of the
    line through the points [i] and [i + 1]; at node [i + 1] that is
    its ordinate. *)
Theorem LinearSplines_segment (x y : list Q) (i : nat) (value : Q) :
  (forall i j, (i < j < length x)%nat -> nth i x 0 < nth j x 0) ->
  (S i < length x)%nat -> (S i < length y)%nat ->
  nth i x 0 < value <= nth (S i) x 0 ->
  exists v, LinearSplines x y value = Ret (Some v) /\
            v == segment x y i value /\
            (value == nth (S i) x 0 -> v == nth (S i) y 0).
Proof.
  intros Hinc Hx Hy Hv. rewrite (LinearSplines_Ret x y Hinc i) by assumption.
  eexists. split; [reflexivity|]. split; [reflexivity|].
  intros E. unfold segment. rewrite E. field.
  pose proof (Hinc i (S i) ltac:(lia)). lra.
Qed.

(** The spline is defined on the interval from the first abscissa
    (excluded) to the last (included) and nowhere else: at or below the
    first abscissa the loop finds no item and the method returns
    [None]; above the last abscissa it looks for the node after the
    last one and raises [IndexError]. *)
Theorem LinearSplines_outside (x y : list Q) (value : Q) :
  (forall i j, (i < j < length x)%nat -> nth i x 0 < nth j x 0) ->
  (value <= nth 0 x 0 -> x <> [] -> LinearSplines x y value = Ret None) /\
  (nth (length x - 1) x 0 < value -> x <> [] -> LinearSplines x y value = Raise IndexError).
Proof.
  intros Hinc. split; intros Hv Hx;
    assert (0 < length x)%nat as Hl by (destruct x; [congruence | cbn; lia]).
  - apply LinearSplines_below, Forall_forall. intros b Hb. apply Qltb_false.
    destruct (In_nth x b 0 Hb) as ([|k] & Hk & <-); [exact Hv|].
    pose proof (Hinc 0%nat (S k) ltac:(lia)). lra.
  - unfold LinearSplines.
    rewrite (find_last_below x (length x - 1)), (index_node x Hinc) by (lia || exact Hv).
    cbn [bind]. replace (length x - 1 + 1)%nat with (length x) by lia.
    destruct (Nat.lt_ge_cases (length x) (length y)) as [Ly | Ly].
    + rewrite !(getitem_nth y _ 0) by lia. cbn [bind]. now rewrite getitem_ge by lia.
    + now rewrite (getitem_ge y) by lia.
Qed.

End InterpolationQ.

(** ** Concrete runs *)

#[local] Open Scope Q_scope.

(** [LinearSplines] on the nodes [0, 1, 2] with ordinates [0, 10, 20]:
    between two nodes the segment's value, at or below the first node
    [None], above the last node [IndexError] from [y[ind + 1]]. *)
Lemma LinearSplines_runs :
  (exists v, LinearSplines [0; 1; 2] [0; 10; 20] (3 # 2) = Ret (Some v) /\ v == 15) /\
  LinearSplines [0; 1; 2] [0; 10; 20] 0 = Ret None /\
  LinearSplines [0; 1; 2] [0; 10; 20] 3 = Raise IndexError.
Proof. repeat split. eexists. split; [vm_compute; reflexivity | reflexivity]. Qed.

(** Abscissas that do not increase.  With a repeated abscissa
    [x.index] finds its first copy, and the segment from it to the
    second copy has no slope: [ZeroDivisionError] (with numpy numbers,
    an infinity or a NaN).  With abscissas out of order the walk from
    the end stops on an item that need not be the node below [value]:
    on [0, 2, 1] it stops on the last item and asks for the node after
    it, and on [0, 2, 1, 3] the value at [5/2] is taken from the line
    through the nodes [1] and [3], not [2] and [3]. *)
Lemma LinearSplines_not_increasing :
  LinearSplines [0; 1; 1; 2] [0; 10; 10; 20] (3 # 2) = Raise ZeroDivisionError /\
  LinearSplines [0; 2; 1] [0; 20; 10] (3 # 2) = Raise IndexError /\
  (exists v, LinearSplines [0; 2; 1; 3] [0; 4; 1; 9] (5 # 2) = Ret (Some v) /\ v == 7).
Proof.
  repeat split; try (vm_compute; reflexivity).
  eexists. split; [vm_compute; reflexivity | reflexivity].
Qed.

Lemma nodes_increasing :
  forall i j, (i < j < length [0; 1; 3])%nat -> nth i [0; 1; 3] 0 < nth j [0; 1; 3] 0.
Proof.
  intros i j Hij. cbn [length] in Hij.
  assert (i = 0 /\ j = 1 \/ i = 0 /\ j = 2 \/ i = 1 /\ j = 2)%nat as C by lia.
  destruct C as [[-> ->] | [[-> ->] | [-> ->]]]; reflexivity.
Defined.

Lemma LinearSplines_segment_witness :
  exists v, LinearSplines [0; 1; 3] [1; 3; 4] 2 = Ret (Some v) /\
            v == segment [0; 1; 3] [1; 3; 4] 1 2 /\
            (2 == nth 2 [0; 1; 3] 0 -> v == nth 2 [1; 3; 4] 0).
Proof.
  apply (LinearSplines_segment [0; 1; 3] [1; 3; 4] 1 2 nodes_increasing);
    [cbn; lia | cbn; lia | cbn; lra].
Defined.

Lemma LinearSplines_outside_witness :
  LinearSplines [0; 1; 3] [1; 3; 4] 0 = Ret None /\
  LinearSplines [0; 1; 3] [1; 3; 4] 4 = Raise IndexError.
Proof.
  split.
  - apply (proj1 (LinearSplines_outside [0; 1; 3] [1; 3; 4] 0 nodes_increasing));
      [cbn; lra | discriminate].
  - apply (proj2 (LinearSplines_outside [0; 1; 3] [1; 3; 4] 4 nodes_increasing));
      [cbn; lra | discriminate].
Defined.
