(* ===== verification/TwoDIntegral.v ===== *)
(** * TwoDIntegral: the trapezoid rule on a rectangle

    [__TwoDIntegral.__Trapezoid] of [src/numerics/integration.py], a
    class that its docstring calls incomplete and that nothing calls.
    The lists [h] and [wd] hold two numbers each and are read at the
    constant indices 0 and 1: they are the variables [h0], [h1], [wd0],
    [wd1].  The list [I] grows by [append] and is read at [I[0]], [I[1]]
    and [I[2]].  The function takes the point as a list [[x, y]].  Each
    row is the loop of the one-dimensional [Trapezoid] along [x]; the
    rows are combined with the weights 1, 2, 1 whatever their number,
    and the result is divided by the area of the rectangle. *)

From Stdlib Require Import ZArith QArith Qabs Lqa Lia List Bool Morphisms Setoid.
From S2P Require Import Prelude NumQ Table Quadrature.
Import ListNotations.

Section Method.
Context {A : Type} `{Num A}.

#[local] Open Scope outcome_scope.
#[local] Open Scope num_scope.

(** The body of [for j in range(nY + 1)], on the variables [xl], [yl]
    and [I]. *)
Definition TwoDIntegral_row (xu : A) (nX : Z) (Fxdx : list A -> A) (h0 h1 wd0 lx : A)
    (j : Z) (s : A * A * list A) : outcome (A * A * list A) :=
  let xl := fst (fst s) in
  let yl := snd (fst s) in
  let I := snd s in
  let sum := 0 in
  let f0 := Fxdx [xl; yl] in
  ' (xl, sum) <- for_each (range 1 nX)
                   (fun _ '(xl, sum) => let xl := xl + h0 in Ret (xl, sum + Fxdx [xl; yl]))
                   (xl, sum) ;;
  v <- pydiv (wd0 * (f0 + 2 * sum + Fxdx [xu; yl])) (2 * num_of_Z nX) ;;
  let I := (I ++ [v])%list in
  let xl := lx in
  let yl := yl + h1 in
  Ret (xl, yl, I).

Definition TwoDIntegral_Trapezoid (xl xu : A) (nX : Z) (yl yu : A) (nY : Z)
    (Fxdx : list A -> A) : outcome A :=
  h0 <- pydiv (xu - xl) (num_of_Z nX) ;;
  h1 <- pydiv (yu - yl) (num_of_Z nY) ;;
  let wd0 := xu - xl in
  let wd1 := yu - yl in
  let lx := xl in
  s <- for_each (range 0 (nY + 1)) (TwoDIntegral_row xu nX Fxdx h0 h1 wd0 lx)
         (xl, yl, []) ;;
  let I := snd s in
  I0 <- getitem I 0 ;;
  I1 <- getitem I 1 ;;
  I2 <- getitem I 2 ;;
  res <- pydiv (wd1 * (I0 + 2 * I1 + I2)) (num_of_Z (2 * nY)) ;;
  pydiv res (wd0 * wd1).

(** ** The loop after [k] rows *)

(** The ordinate of row [k]. *)
Fixpoint row_y (yl h1 : A) (k : nat) : A :=
  match k with
  | O => yl
  | S k => row_y yl h1 k + h1
  end.

(** The entry of [I] for the row at ordinate [y], when the division
    that makes it goes through. *)
Definition row_value (xl xu : A) (nX : Z) (Fxdx : list A -> A) (h0 : A) (y : A) : A :=
  (xu - xl) * (Fxdx [xl; y]
               + 2 * snd (Trapezoid_state (fun x => Fxdx [x; y]) xl h0 (Z.to_nat (nX - 1)))
               + Fxdx [xu; y])
  / (2 * num_of_Z nX).

Definition rows_state (xl xu : A) (nX : Z) (Fxdx : list A -> A) (h0 yl h1 : A) (k : nat)
  : A * A * list A :=
  (xl, row_y yl h1 k, tabulate (fun i => row_value xl xu nX Fxdx h0 (row_y yl h1 i)) k).

Lemma TwoDIntegral_row_state (xl xu : A) (nX : Z) (Fxdx : list A -> A) (h0 yl h1 : A)
    (j : Z) (k : nat) :
  num_eqb (2 * num_of_Z nX) 0 = false ->
  TwoDIntegral_row xu nX Fxdx h0 h1 (xu - xl) xl j (rows_state xl xu nX Fxdx h0 yl h1 k) =
  Ret (rows_state xl xu nX Fxdx h0 yl h1 (S k)).
Proof.
  intros Hn. unfold TwoDIntegral_row, rows_state. cbn [fst snd].
  rewrite (Trapezoid_loop (fun x => Fxdx [x; row_y yl h1 k])). cbn [bind].
  destruct (Trapezoid_state _ xl h0 _) as [xl' sum] eqn:E.
  unfold pydiv. rewrite Hn. cbn [bind]. rewrite tabulate_S. unfold row_value.
  now rewrite E.
Qed.

End Method.

(** ** Over exact rationals *)

Section TwoDIntegralQ.

#[local] Open Scope Q_scope.

Lemma Qeqb_twice (nX : Z) : nX <> 0%Z -> num_eqb (2 * num_of_Z nX)%num (num_of_Z 0) = false.
Proof.
  intros HX. apply Qeqb_false. qnum. pose proof (inject_Z_nonzero nX HX). lra.
Qed.

Lemma TwoDIntegral_rows (xl xu yl h0 h1 : Q) (nX nY : Z) (F : list Q -> Q) :
  nX <> 0%Z ->
  for_each (range 0 (nY + 1)) (TwoDIntegral_row xu nX F h0 h1 (xu - xl)%num xl) (xl, yl, []) =
  Ret (rows_state xl xu nX F h0 yl h1 (Z.to_nat (nY + 1))).
Proof.
  intros HX. apply (for_range0_eq (fun k => rows_state xl xu nX F h0 yl h1 k)).
  intros k _. now apply TwoDIntegral_row_state, Qeqb_twice.
Qed.

(** The method returns, for [nX <> 0], [nY >= 2] and a rectangle that
    is not flat, the combination of the first three rows. *)
Lemma TwoDIntegral_Trapezoid_Ret (xl xu yl yu : Q) (nX nY : Z) (F : list Q -> Q) :
  nX <> 0%Z -> (2 <= nY)%Z -> ~ xu == xl -> ~ yu == yl ->
  let h0 := (xu - xl) / inject_Z nX in
  let h1 := (yu - yl) / inject_Z nY in
  let R k := row_value xl xu nX F h0 (row_y yl h1 k) in
  TwoDIntegral_Trapezoid xl xu nX yl yu nY F =
  Ret ((yu - yl) * (R 0%nat + 2 * R 1%nat + R 2%nat) / inject_Z (2 * nY)
       / ((xu - xl) * (yu - yl))).
Proof.
  intros HX HY Hx Hy h0 h1 R. unfold TwoDIntegral_Trapezoid.
  rewrite !pydiv_Q_Ret by (apply inject_Z_nonzero; lia). cbn [bind].
  fold h0 h1.
  rewrite TwoDIntegral_rows by exact HX. cbn [bind]. unfold rows_state. cbn [snd].
  rewrite !getitem_tabulate by lia. cbn [bind]. fold (R 0%nat) (R 1%nat) (R 2%nat).
  rewrite pydiv_Q_Ret by (apply inject_Z_nonzero; lia). cbn [bind].
  rewrite pydiv_Q_Ret; [reflexivity|]. qnum. intros E.
  assert ((xu - xl) * (yu - yl) == 0) as E' by exact E.
  apply Qmult_integral in E'. destruct E'; [apply Hx | apply Hy]; lra.
Qed.

(** A function of the form [c0 + c1 x + c2 y + c3 x y]. *)
Definition bilinear (c0 c1 c2 c3 : Q) (p : list Q) : Q :=
  let x := nth 0 p 0 in
  let y := nth 1 p 0 in
  c0 + c1 * x + c2 * y + c3 * x * y.

(** A row of a bilinear function is the width times its mean value
    along the row. *)
Lemma row_value_bilinear (c0 c1 c2 c3 xl xu y : Q) (nX : Z) :
  (1 <= nX)%Z ->
  row_value xl xu nX (bilinear c0 c1 c2 c3) ((xu - xl) / inject_Z nX) y ==
  (xu - xl) * (c0 + c2 * y + (c1 + c3 * y) * ((xl + xu) / 2)).
Proof.
  intros HX. unfold row_value.
  assert (forall k,
            snd (Trapezoid_state (fun x => bilinear c0 c1 c2 c3 [x; y]) xl
                   ((xu - xl) / inject_Z nX) k) ==
            snd (Trapezoid_state (peval [c0 + c2 * y; c1 + c3 * y; 0]) xl
                   ((xu - xl) / inject_Z nX) k) /\
            fst (Trapezoid_state (fun x => bilinear c0 c1 c2 c3 [x; y]) xl
                   ((xu - xl) / inject_Z nX) k) =
            fst (Trapezoid_state (peval [c0 + c2 * y; c1 + c3 * y; 0]) xl
                   ((xu - xl) / inject_Z nX) k)) as E.
  { induction k as [|k [IH1 IH2]]; [split; reflexivity|]. cbn [Trapezoid_state].
    destruct (Trapezoid_state (fun x => bilinear _ _ _ _ _) _ _ k) as [a s].
    destruct (Trapezoid_state (peval _) _ _ k) as [a' s']. cbn [fst snd] in *. subst a'.
    split; [|reflexivity]. qnum. rewrite IH1. unfold bilinear. cbn [nth peval]. ring. }
  rewrite (proj1 (E _)).
  destruct (Trapezoid_state_quadratic (c0 + c2 * y) (c1 + c3 * y) 0 xl
              ((xu - xl) / inject_Z nX) (Z.to_nat (nX - 1))) as [_ ->].
  rewrite inject_Z_to_nat_pred by exact HX.
  assert (~ inject_Z nX == 0) as Hq by (apply inject_Z_nonzero; lia).
  unfold bilinear. cbn [nth]. qnum. field. exact Hq.
Qed.

(** C40. [__TwoDIntegral.__Trapezoid] on a bilinear function over a
    rectangle that is not flat.  With [nY = 2] the value is the
    mean of the function over the rectangle, not its integral; with
    more rows the value is that of a rectangle [2 / nY] times as high,
    scaled by [2 / nY]. *)
Theorem TwoDIntegral_Trapezoid_bilinear (c0 c1 c2 c3 xl xu yl yu : Q) (nX nY : Z) :
  (1 <= nX)%Z -> (2 <= nY)%Z -> ~ xu == xl -> ~ yu == yl ->
  exists v,
    TwoDIntegral_Trapezoid xl xu nX yl yu nY (bilinear c0 c1 c2 c3) = Ret v /\
    v == 2 / inject_Z nY
         * bilinear c0 c1 c2 c3 [(xl + xu) / 2; yl + (yu - yl) / inject_Z nY].
Proof.
  intros HX HY Hx Hy.
  rewrite (TwoDIntegral_Trapezoid_Ret xl xu yl yu nX nY (bilinear c0 c1 c2 c3)
             ltac:(lia) HY Hx Hy).
  eexists. split; [reflexivity|]. cbv zeta. rewrite !row_value_bilinear by exact HX.
  assert (~ inject_Z nY == 0) as Hq by (apply inject_Z_nonzero; lia).
  unfold bilinear. cbn [nth row_y]. rewrite inject_Z_mult. qnum. field.
  repeat split; try assumption; intros E; [apply Hy | apply Hx]; lra.
Qed.

(** Fewer than two rows of segments: [nY = 0] divides by zero, [nY = 1]
    and a negative [nY] leave [I] too short. *)
Theorem TwoDIntegral_Trapezoid_raises (xl xu yl yu : Q) (nX : Z) (F : list Q -> Q)
    (p : positive) :
  nX <> 0%Z ->
  TwoDIntegral_Trapezoid xl xu nX yl yu 0 F = Raise ZeroDivisionError /\
  TwoDIntegral_Trapezoid xl xu nX yl yu 1 F = Raise IndexError /\
  TwoDIntegral_Trapezoid xl xu nX yl yu (Z.neg p) F = Raise IndexError.
Proof.
  intros HX. unfold TwoDIntegral_Trapezoid.
  rewrite (pydiv_Q_Ret _ (inject_Z nX)) by now apply inject_Z_nonzero.
  split; [|split]; cbn [bind].
  - now rewrite pydiv_Q_Raise.
  - rewrite pydiv_Q_Ret by discriminate. cbn [bind].
    now rewrite TwoDIntegral_rows.
  - rewrite pydiv_Q_Ret by discriminate. cbn [bind].
    now rewrite range_empty by lia.
Qed.

End TwoDIntegralQ.

(** ** Witnesses *)

Lemma TwoDIntegral_Trapezoid_bilinear_witness :
  exists v,
    TwoDIntegral_Trapezoid 0 2 4 0 3 2 (bilinear 1 0 0 0) = Ret v /\
    v == 2 / inject_Z 2 * bilinear 1 0 0 0 [(0 + 2) / 2; 0 + (3 - 0) / inject_Z 2].
Proof. apply TwoDIntegral_Trapezoid_bilinear; (lia || discriminate). Defined.

Lemma TwoDIntegral_Trapezoid_raises_witness :
  TwoDIntegral_Trapezoid 0 2 4 0 3 0 (bilinear 1 0 0 0) = Raise ZeroDivisionError /\
  TwoDIntegral_Trapezoid 0 2 4 0 3 1 (bilinear 1 0 0 0) = Raise IndexError /\
  TwoDIntegral_Trapezoid 0 2 4 0 3 (-1) (bilinear 1 0 0 0) = Raise IndexError.
Proof. apply (TwoDIntegral_Trapezoid_raises 0 2 0 3 4 (bilinear 1 0 0 0) 1). lia. Defined.
