(* ===== verification/NewtonInterpolation.v ===== *)
(** * NewtonInterpolation: Newton's divided-difference interpolation

    [Interpolation.NewtonPolynomialInterpolation] of
    [src/numerics/curveFitting.py].  The table [fdd] of divided
    differences and the column [ea] of error estimates are arrays of
    [Table], made by [np.empty] and so holding arbitrary numbers [junk]
    and [junk'] where the method has not assigned; [yint] grows by
    [np.append] and is a list.  [x] and [y] are Python lists: an index
    past their end raises [IndexError].  The entries of [fdd] are numpy
    numbers, whose division does not raise on a zero divisor: it is
    [num_div] (binary64 gives an infinity or a NaN; the theorems over
    the rationals assume distinct abscissas, where no divisor is zero).

    [divided_difference] and [newton_from] are the mathematical
    definitions; the loops are shown to compute them
    ([NewtonPolynomialInterpolation_computes]) and the polynomial to
    pass through the data ([NewtonPolynomialInterpolation_interpolates]).
    The second result of the method, [ea[-1]], is the one row of [ea]
    that no iteration assigns. *)

From Stdlib Require Import ZArith QArith Qabs Lqa Lia List Bool Morphisms Setoid.
From Stdlib Require Import Floats.
From S2P Require Import Prelude NumQ NumFloat Polynomials Table.
Import ListNotations.

Section Method.
Context {A : Type} `{Num A}.

#[local] Open Scope nat_scope.
#[local] Open Scope outcome_scope.

(** ** The method *)

(** [fdd[i][0] = y[i]]. *)
Definition fdd_first (y : list A) (i : Z) (fdd : list (list A)) : outcome (list (list A)) :=
  yi <- getitem y (Z.to_nat i) ;;
  set2 fdd (Z.to_nat i) 0 yi.

(** [fdd[i][j] = (fdd[i+1][j-1] - fdd[i][j-1]) / (x[i+j] - x[i])]. *)
Definition fdd_entry (x : list A) (j i : Z) (fdd : list (list A))
  : outcome (list (list A)) :=
  a <- get2 fdd (Z.to_nat (i + 1)) (Z.to_nat (j - 1)) ;;
  b <- get2 fdd (Z.to_nat i) (Z.to_nat (j - 1)) ;;
  xij <- getitem x (Z.to_nat (i + j)) ;;
  xi <- getitem x (Z.to_nat i) ;;
  set2 fdd (Z.to_nat i) (Z.to_nat j) ((a - b) / (xij - xi))%num.

(** The body of [for j in range(1, order)]. *)
Definition fdd_column (x : list A) (order j : Z) (fdd : list (list A))
  : outcome (list (list A)) :=
  for_each (range 0 (order - j)) (fdd_entry x j) fdd.

(** The variables of the last loop. *)
Record terms : Type := {
  xterm : A;
  yint : list A;
  ea : list (list A)
}.

(** The body of [for ord in range(1, order)]; the assignment
    [ea[ord-1] = v] fills the row, of one entry, with [v]. *)
Definition Newton_term (x : list A) (value : A) (fdd : list (list A)) (ord : Z) (s : terms)
  : outcome terms :=
  xo <- getitem x (Z.to_nat (ord - 1)) ;;
  let xterm' := (xterm s * (value - xo))%num in
  yo <- getitem (yint s) (Z.to_nat (ord - 1)) ;;
  f <- get2 fdd 0 (Z.to_nat ord) ;;
  let yint2 := (yo + f * xterm')%num in
  yo' <- getitem (yint s) (Z.to_nat (ord - 1)) ;;
  ea' <- setitem (ea s) (Z.to_nat (ord - 1)) [(yint2 - yo')%num] ;;
  Ret {| xterm := xterm'; yint := yint s ++ [yint2]; ea := ea' |}.

Definition NewtonPolynomialInterpolation (junk junk' : nat -> nat -> A) (x y : list A)
    (value : A) (order : Z) : outcome (A * list A) :=
  fdd <- np_empty junk order ;;
  fdd <- for_each (range 0 order) (fdd_first y) fdd ;;
  fdd <- for_each (range 1 order) (fdd_column x order) fdd ;;
  let xterm0 := num_of_Z 1 in
  let yint0 := [] in
  ea0 <- np_empty2 junk' order 1 ;;
  f00 <- get2 fdd 0 0 ;;
  let yint0 := yint0 ++ [f00] in
  s <- for_each (range 1 order) (Newton_term x value fdd)
         {| xterm := xterm0; yint := yint0; ea := ea0 |} ;;
  r <- getitem_int (yint s) (-1) ;;
  e <- getitem_int (ea s) (-1) ;;
  Ret (r, e).

(** ** Divided differences and Newton's form *)

(** [divided_difference x y j i] is [f[x_i, ..., x_(i+j)]]. *)
Fixpoint divided_difference (x y : nat -> A) (j i : nat) : A :=
  match j with
  | O => y i
  | S j' =>
      ((divided_difference x y j' (S i) - divided_difference x y j' i)
       / (x (i + j)%nat - x i))%num
  end.

(** [(t - x_i) ... (t - x_(i+k-1))], multiplied from the left as the
    loop does. *)
Fixpoint xterm_from (x : nat -> A) (t : A) (i k : nat) : A :=
  match k with
  | O => num_of_Z 1
  | S k' => (xterm_from x t i k' * (t - x (i + k')%nat))%num
  end.

(** Newton's form on the nodes [i .. i+j], at [t]. *)
Fixpoint newton_from (x y : nat -> A) (t : A) (i j : nat) : A :=
  match j with
  | O => divided_difference x y 0 i
  | S j' =>
      (newton_from x y t i j' + divided_difference x y j i * xterm_from x t i j)%num
  end.

(** ** The states of the loops *)

(** The entries of [fdd] that hold their divided difference once the
    columns [0 .. c] are done and [m] entries of column [c + 1]. *)
Definition filled (n c m i k : nat) : bool :=
  (i + k <? n) && ((k <=? c) || ((k =? S c) && (i <? m))).

Definition fdd_state (junk : nat -> nat -> A) (x y : nat -> A) (n c m : nat)
  : list (list A) :=
  tabulate2 (fun i k => if filled n c m i k then divided_difference x y k i else junk i k) n n.

Definition fdd_first_state (junk : nat -> nat -> A) (y : nat -> A) (n m : nat)
  : list (list A) :=
  tabulate2 (fun i k => if (k =? 0) && (i <? m) then y i else junk i k) n n.

Definition terms_state (junk' : nat -> nat -> A) (x y : nat -> A) (value : A) (n k : nat)
  : terms :=
  {| xterm := xterm_from x value 0 k;
     yint := tabulate (newton_from x y value 0) (S k);
     ea := tabulate
             (fun i => if i <? k
                       then [(newton_from x y value 0 (S i) - newton_from x y value 0 i)%num]
                       else tabulate (junk' i) 1) n |}.

#[local] Hint Unfold filled : index.

(** ** The loops compute the table and the sum *)

Section Pure.
Variables (junk junk' : nat -> nat -> A) (xs ys : list A) (d : A) (n : nat).

Let x (i : nat) : A := nth i xs d.
Let y (i : nat) : A := nth i ys d.

Lemma fdd_first_state_step (m : nat) :
  m < n -> m < length ys ->
  fdd_first ys (Z.of_nat m) (fdd_first_state junk y n m) = Ret (fdd_first_state junk y n (S m)).
Proof.
  intros Hm Hy. unfold fdd_first, fdd_first_state. rewrite Nat2Z.id.
  rewrite (getitem_nth _ _ d) by exact Hy. cbn [bind]. rewrite set2_tabulate2 by lia.
  f_equal. apply tabulate2_ext. intros i k _ _. subst y. cbv beta.
  destruct (Nat.eqb_spec i m) as [-> | Ni], (Nat.eqb_spec k 0) as [-> | Nk]; cbn [andb];
    index_cases.
Qed.

(** The first loop stops with [IndexError] at the end of [y]. *)
Lemma fdd_first_raises (order : Z) :
  (Z.of_nat (length ys) < order)%Z -> n = Z.to_nat order ->
  for_each (range 0 order) (fdd_first ys) (fdd_first_state junk y n 0) = Raise IndexError.
Proof.
  intros Hy En. apply (for_range0_Raise (fun m => fdd_first_state junk y n m) _ (length ys)).
  - exact Hy.
  - intros k Hk. apply fdd_first_state_step; lia.
  - unfold fdd_first. rewrite Nat2Z.id, getitem_ge by lia. reflexivity.
Qed.

Hypothesis xs_long : n <= length xs.
Hypothesis ys_long : n <= length ys.

Lemma fdd_entry_state (c m : nat) :
  S c < n -> m < n - S c ->
  fdd_entry xs (Z.of_nat (S c)) (Z.of_nat m) (fdd_state junk x y n c m) =
  Ret (fdd_state junk x y n c (S m)).
Proof.
  intros Hc Hm. unfold fdd_entry, fdd_state.
  replace (Z.to_nat (Z.of_nat m + 1)) with (S m) by lia.
  replace (Z.to_nat (Z.of_nat (S c) - 1)) with c by lia.
  replace (Z.to_nat (Z.of_nat m + Z.of_nat (S c))) with (m + S c) by lia.
  rewrite !Nat2Z.id, !get2_tabulate2 by lia. cbn [bind].
  rewrite !(getitem_nth _ _ d) by lia. cbn [bind].
  rewrite set2_tabulate2 by lia. f_equal. apply tabulate2_ext. intros i k Hi Hk.
  replace (filled n c m (S m) c) with true by index_cases.
  replace (filled n c m m c) with true by index_cases.
  destruct (Nat.eqb_spec i m) as [-> | Ni], (Nat.eqb_spec k (S c)) as [-> | Nk]; cbn [andb].
  - replace (filled n c (S m) m (S c)) with true by index_cases. reflexivity.
  - replace (filled n c (S m) m k) with (filled n c m m k); [reflexivity|]. index_cases.
  - replace (filled n c (S m) i (S c)) with (filled n c m i (S c)); [reflexivity|].
    index_cases.
  - replace (filled n c (S m) i k) with (filled n c m i k); [reflexivity|]. index_cases.
Qed.

Lemma fdd_column_state (c : nat) :
  S c < n ->
  fdd_column xs (Z.of_nat n) (Z.of_nat (S c)) (fdd_state junk x y n c 0) =
  Ret (fdd_state junk x y n (S c) 0).
Proof.
  intros Hc. unfold fdd_column.
  rewrite (for_range0_eq (fun m => fdd_state junk x y n c m)).
  - replace (Z.to_nat (Z.of_nat n - Z.of_nat (S c))) with (n - S c) by lia.
    unfold fdd_state. apply f_equal, tabulate2_ext. intros i k _ _.
    replace (filled n (S c) 0 i k) with (filled n c (n - S c) i k); [reflexivity|].
    index_cases.
  - intros m Hm. apply fdd_entry_state; lia.
Qed.

(** The table after the two loops that fill it. *)
Lemma fdd_loops (order : Z) :
  (1 <= order)%Z -> n = Z.to_nat order ->
  (fdd <- np_empty junk order ;;
   fdd <- for_each (range 0 order) (fdd_first ys) fdd ;;
   for_each (range 1 order) (fdd_column xs order) fdd) =
  Ret (fdd_state junk x y n (n - 1) 0).
Proof.
  intros L En. unfold np_empty. replace (order <? 0)%Z with false by lia. cbn [bind].
  rewrite <- En. replace order with (Z.of_nat n) by lia.
  assert (tabulate2 junk n n = fdd_first_state junk y n 0) as ->.
  { apply tabulate2_ext. intros i k _ _. now rewrite Bool.andb_false_r. }
  rewrite (for_range0_eq (fun m => fdd_first_state junk y n m))
    by (intros m Hm; apply fdd_first_state_step; lia).
  cbn [bind]. rewrite Nat2Z.id.
  assert (fdd_first_state junk y n n = fdd_state junk x y n 0 0) as ->.
  { apply tabulate2_ext. intros i k Hi Hk. cbn [divided_difference].
    destruct k as [|k]; [|index_cases].
    replace ((0 =? 0) && (i <? n)) with true by index_cases.
    now replace (filled n 0 0 i 0) with true by index_cases. }
  rewrite (for_range1_eq (fun c => fdd_state junk x y n c 0)).
  - now replace (Z.to_nat (Z.of_nat n - 1)) with (n - 1) by lia.
  - intros c Hc. apply fdd_column_state. lia.
Qed.

Lemma Newton_term_state (value : A) (k : nat) :
  S k < n ->
  Newton_term xs value (fdd_state junk x y n (n - 1) 0) (Z.of_nat (S k))
    (terms_state junk' x y value n k) =
  Ret (terms_state junk' x y value n (S k)).
Proof.
  intros Hk. unfold Newton_term, terms_state. cbn [xterm yint ea].
  replace (Z.to_nat (Z.of_nat (S k) - 1)) with k by lia.
  rewrite Nat2Z.id, (getitem_nth _ _ d) by lia. cbn [bind].
  rewrite getitem_tabulate by lia. cbn [bind].
  unfold fdd_state. rewrite get2_tabulate2 by lia. cbn [bind].
  replace (filled n (n - 1) 0 0 (S k)) with true by index_cases.
  rewrite setitem_tabulate by lia. cbn [bind]. f_equal.
  rewrite (tabulate_S _ (S k)). cbn [newton_from xterm_from Nat.add]. f_equal.
  apply tabulate_ext. intros i Hi.
  destruct (Nat.eqb_spec i k) as [-> | Ni].
  - replace (k <? S k) with true by index_cases. reflexivity.
  - replace (i <? S k) with (i <? k); [reflexivity|]. index_cases.
Qed.

(** The method on [order >= 1] points: Newton's form of degree
    [order - 1], and the row of [ea] that is never assigned. *)
Lemma NewtonPolynomialInterpolation_Ret (value : A) (order : Z) :
  (1 <= order)%Z -> n = Z.to_nat order ->
  NewtonPolynomialInterpolation junk junk' xs ys value order =
  Ret (newton_from x y value 0 (n - 1), [junk' (n - 1) 0]).
Proof.
  intros L En. unfold NewtonPolynomialInterpolation.
  pose proof (fdd_loops order L En) as E. revert E.
  destruct (np_empty junk order) as [fdd0| |]; cbn [bind]; try discriminate.
  destruct (for_each (range 0 order) (fdd_first ys) fdd0) as [fdd1| |]; cbn [bind];
    try discriminate.
  intros ->. cbn [bind]. unfold np_empty2.
  replace ((order <? 0) || (1 <? 0))%Z with false by lia. cbn [bind app].
  unfold fdd_state at 1. rewrite get2_tabulate2 by lia. cbn [bind].
  replace (filled n (n - 1) 0 0 0) with true by index_cases.
  rewrite <- En. change (Z.to_nat 1) with 1.
  assert ({| xterm := num_of_Z 1; yint := [divided_difference x y 0 0];
             ea := tabulate2 junk' n 1 |} = terms_state junk' x y value n 0) as ->.
  { unfold terms_state. f_equal. }
  rewrite (for_range1_eq (fun k => terms_state junk' x y value n k))
    by (intros k Hk; apply Newton_term_state; lia).
  cbn [bind]. replace (Z.to_nat (order - 1)) with (n - 1) by lia.
  unfold terms_state. cbn [yint ea].
  rewrite !getitem_int_last_tabulate by lia. cbn [bind].
  replace (S (n - 1) - 1) with (n - 1) by lia.
  now replace (n - 1 <? n - 1) with false by index_cases.
Qed.

End Pure.

(** C23. [NewtonPolynomialInterpolation] computes Newton's form.  With
    [order >= 1] and at least [order] abscissas and ordinates, the
    method returns the value at [value] of Newton's form of degree
    [order - 1] on the first [order] points, built from the divided
    differences; the error estimate it returns with it is the last row
    of [ea], which no iteration assigns: it is whatever [np.empty]
    handed out. *)
Theorem NewtonPolynomialInterpolation_computes (junk junk' : nat -> nat -> A)
    (x y : list A) (d value : A) (order : Z) :
  (1 <= order)%Z -> Z.to_nat order <= length x -> Z.to_nat order <= length y ->
  NewtonPolynomialInterpolation junk junk' x y value order =
  Ret (newton_from (fun i => nth i x d) (fun i => nth i y d) value 0 (Z.to_nat order - 1),
       [junk' (Z.to_nat order - 1) 0]).
Proof.
  intros L Hx Hy.
  now apply (NewtonPolynomialInterpolation_Ret junk junk' x y d (Z.to_nat order)).
Qed.

(** [order = 0] raises [IndexError] at [fdd[0][0]], a negative [order]
    is a [ValueError] of [np.empty], and fewer than [order] ordinates
    raise [IndexError] in the first loop. *)
Theorem NewtonPolynomialInterpolation_raises (junk junk' : nat -> nat -> A)
    (x y : list A) (value : A) (order : Z) :
  (order <= 0)%Z \/ (Z.of_nat (length y) < order)%Z ->
  NewtonPolynomialInterpolation junk junk' x y value order =
  Raise (if (order <? 0)%Z then ValueError else IndexError).
Proof.
  intros [L|L]; unfold NewtonPolynomialInterpolation, np_empty.
  - destruct (Z.ltb_spec order 0) as [N|N]; [reflexivity|].
    replace order with 0%Z by lia. reflexivity.
  - replace (order <? 0)%Z with false by lia. cbn [bind].
    assert (d : A) by exact (num_of_Z 0).
    assert (tabulate2 junk (Z.to_nat order) (Z.to_nat order) =
            fdd_first_state junk (fun i => nth i y d) (Z.to_nat order) 0) as ->.
    { apply tabulate2_ext. intros i k _ _. now rewrite Bool.andb_false_r. }
    now rewrite (fdd_first_raises junk y d (Z.to_nat order) order L).
Qed.

End Method.

Arguments terms A : clear implicits.

(** ** Over exact rationals *)

Section NewtonQ.

#[local] Open Scope Q_scope.

Variables (x y : nat -> Q) (n : nat).
Hypothesis distinct : forall i j, (i < j < n)%nat -> ~ x j == x i.

Lemma divided_difference_times (j i : nat) :
  (i + S j < n)%nat ->
  divided_difference x y (S j) i * (x (i + S j)%nat - x i) ==
  divided_difference x y j (S i) - divided_difference x y j i.
Proof.
  intros Hi. cbn [divided_difference]. qnum. field.
  intros E. apply (distinct i (i + S j)); [lia | lra].
Qed.

(** The product of the factors, with the first factor taken out. *)
Lemma xterm_from_shift (t : Q) (i k : nat) :
  xterm_from x t i (S k) == (t - x i) * xterm_from x t (S i) k.
Proof.
  induction k as [|k IH].
  - cbn [xterm_from]. qnum. rewrite Nat.add_0_r. ring.
  - change (xterm_from x t i (S (S k)))
      with (xterm_from x t i (S k) * (t - x (i + S k)%nat))%num.
    cbn [xterm_from] in *. qnum. rewrite IH.
    replace (S i + k)%nat with (i + S k)%nat by lia. ring.
Qed.

(** The product vanishes at each of its nodes. *)
Lemma xterm_from_root (i k m : nat) :
  (m < k)%nat -> xterm_from x (x (i + m)%nat) i k == 0.
Proof.
  induction k as [|k IH]; intros Hm; [lia|]. cbn [xterm_from]. qnum.
  destruct (Nat.eq_dec m k) as [-> | Nm]; [ring|]. rewrite IH by lia. ring.
Qed.

(** Newton's forms on [i+1 .. i+1+j] and on [i .. i+j] differ by a
    multiple of the product on the nodes they share. *)
Lemma newton_from_shift (t : Q) (j : nat) :
  forall i, (i + S j < n)%nat ->
  newton_from x y t (S i) j - newton_from x y t i j ==
  (divided_difference x y j (S i) - divided_difference x y j i) * xterm_from x t (S i) j.
Proof.
  induction j as [|j IH]; intros i Hi.
  - cbn [newton_from xterm_from divided_difference]. qnum. ring.
  - pose proof (IH i ltac:(lia)) as E.
    pose proof (divided_difference_times j i ltac:(lia)) as D.
    pose proof (xterm_from_shift t i j) as Sh.
    cbn [newton_from]. change (xterm_from x t (S i) (S j))
      with (xterm_from x t (S i) j * (t - x (S i + j)%nat))%num.
    replace (S i + j)%nat with (i + S j)%nat by lia.
    rewrite <- D in E.
    assert (newton_from x y t (S i) j ==
            newton_from x y t i j
            + divided_difference x y (S j) i * (x (i + S j)%nat - x i) * xterm_from x t (S i) j)
      as Ea by (rewrite <- E; ring).
    qnum. rewrite Sh, Ea. ring.
Qed.

(** Newton's form on the nodes [i .. i+j] passes through them. *)
Lemma newton_from_node (j : nat) :
  forall i m, (m <= j)%nat -> (i + j < n)%nat ->
  newton_from x y (x (i + m)%nat) i j == y (i + m)%nat.
Proof.
  induction j as [|j IH]; intros i m Hm Hi.
  - replace m with 0%nat by lia. cbn [newton_from divided_difference].
    now rewrite Nat.add_0_r.
  - destruct (Nat.eq_dec m (S j)) as [-> | Nm].
    + pose proof (newton_from_shift (x (i + S j)%nat) j i ltac:(lia)) as E.
      pose proof (divided_difference_times j i ltac:(lia)) as D.
      pose proof (xterm_from_shift (x (i + S j)%nat) i j) as Sh.
      pose proof (IH (S i) j ltac:(lia) ltac:(lia)) as N.
      replace (S i + j)%nat with (i + S j)%nat in N by lia.
      rewrite N, <- D in E. cbn [newton_from]. qnum. rewrite Sh. lra.
    + cbn [newton_from]. qnum. rewrite xterm_from_root, IH by lia. ring.
Qed.

(** *** Newton's form is a polynomial *)

(** The coefficients of [(t - x_i) ... (t - x_(i+k-1))] and of Newton's
    form on the nodes [i .. i+j], lowest degree first. *)
Fixpoint xterm_coeffs (i k : nat) : list Q :=
  match k with
  | O => [1]
  | S k' => pmul_linear (x (i + k')%nat) (xterm_coeffs i k')
  end.

Fixpoint newton_coeffs (i j : nat) : list Q :=
  match j with
  | O => [y i]
  | S j' =>
      padd (newton_coeffs i j') (pscale (divided_difference x y (S j') i) (xterm_coeffs i (S j')))
  end.

Lemma xterm_coeffs_length (i k : nat) : length (xterm_coeffs i k) = S k.
Proof.
  induction k as [|k IH]; [reflexivity|]. cbn [xterm_coeffs].
  now rewrite pmul_linear_length, IH.
Qed.

Lemma peval_xterm_coeffs (t : Q) (i k : nat) :
  peval (xterm_coeffs i k) t == xterm_from x t i k.
Proof.
  induction k as [|k IH]; cbn [xterm_coeffs xterm_from]; [cbn; qnum; ring|].
  rewrite peval_pmul_linear, IH. qnum. ring.
Qed.

Lemma newton_coeffs_length (i j : nat) : length (newton_coeffs i j) = S j.
Proof.
  induction j as [|j IH]; [reflexivity|]. cbn [newton_coeffs].
  rewrite padd_length, pscale_length, xterm_coeffs_length, IH. lia.
Qed.

Lemma peval_newton_coeffs (t : Q) (i j : nat) :
  peval (newton_coeffs i j) t == newton_from x y t i j.
Proof.
  induction j as [|j IH]; cbn [newton_coeffs newton_from]; [cbn; ring|].
  rewrite peval_padd, peval_pscale, peval_xterm_coeffs, IH. reflexivity.
Qed.

(** Newton's form on [j + 1] nodes is the polynomial of degree at most
    [j] through the data, whichever way that polynomial is written. *)
Lemma newton_from_polynomial (p : list Q) (j : nat) :
  (j < n)%nat -> (length p <= S j)%nat ->
  (forall m, (m <= j)%nat -> y m == peval p (x m)) ->
  forall t, newton_from x y t 0 j == peval p t.
Proof.
  intros Hj Hp Hy t. rewrite <- peval_newton_coeffs.
  apply (peval_unique (S j) x); [now rewrite newton_coeffs_length | exact Hp | |].
  - intros i k Hik. apply distinct. lia.
  - intros m Hm. rewrite peval_newton_coeffs, <- Hy by lia.
    apply (newton_from_node j 0 m); lia.
Qed.

End NewtonQ.

(** C16. Newton's polynomial passes through the data.  On [order >= 1]
    points with pairwise distinct abscissas, the value that
    [NewtonPolynomialInterpolation] returns at the abscissa of one of
    them is its ordinate. *)
Theorem NewtonPolynomialInterpolation_interpolates (junk junk' : nat -> nat -> Q)
    (x y : list Q) (order : Z) (m : nat) :
  (1 <= order)%Z -> (Z.to_nat order <= length x)%nat -> (Z.to_nat order <= length y)%nat ->
  (forall i j, (i < j < Z.to_nat order)%nat -> ~ nth j x 0 == nth i x 0) ->
  (m < Z.to_nat order)%nat ->
  exists r e,
    NewtonPolynomialInterpolation junk junk' x y (nth m x 0) order = Ret (r, e) /\
    r == nth m y 0.
Proof.
  intros L Hx Hy Hd Hm.
  rewrite (NewtonPolynomialInterpolation_Ret junk junk' x y 0 (Z.to_nat order))
    by (auto; lia).
  eexists _, _. split; [reflexivity|].
  apply (newton_from_node (fun i => nth i x 0) (fun i => nth i y 0) (Z.to_nat order) Hd
           (Z.to_nat order - 1) 0 m); lia.
Qed.

(** C17. Newton's interpolation is exact on polynomials.  When the
    ordinates are the values at pairwise distinct abscissas of a
    polynomial with at most [order] coefficients (degree below
    [order]), the value that [NewtonPolynomialInterpolation] returns is
    the value of that polynomial, at every [value]. *)
Theorem NewtonPolynomialInterpolation_reproduces (junk junk' : nat -> nat -> Q)
    (x p : list Q) (value : Q) (order : Z) :
  (1 <= order)%Z -> (Z.to_nat order <= length x)%nat ->
  (forall i j, (i < j < Z.to_nat order)%nat -> ~ nth j x 0 == nth i x 0) ->
  (length p <= Z.to_nat order)%nat ->
  exists r e,
    NewtonPolynomialInterpolation junk junk' x (map (peval p) x) value order = Ret (r, e) /\
    r == peval p value.
Proof.
  intros L Hx Hd Hp.
  rewrite (NewtonPolynomialInterpolation_Ret junk junk' x _ 0 (Z.to_nat order))
    by (rewrite ?length_map; auto; lia).
  eexists _, _. split; [reflexivity|].
  apply (newton_from_polynomial _ _ (Z.to_nat order) Hd); [lia | lia |].
  intros m Hm. rewrite (nth_indep _ 0 (peval p 0)) by (rewrite length_map; lia).
  now rewrite map_nth.
Qed.

(** On two points the method returns the value of the chord. *)
Theorem NewtonPolynomialInterpolation_two_points (junk junk' : nat -> nat -> Q)
    (x0 x1 y0 y1 value : Q) :
  exists r e,
    NewtonPolynomialInterpolation junk junk' [x0; x1] [y0; y1] value 2 = Ret (r, e) /\
    r == y0 + (y1 - y0) / (x1 - x0) * (value - x0).
Proof.
  rewrite (NewtonPolynomialInterpolation_Ret junk junk' [x0; x1] [y0; y1] 0 2)
    by (cbn; lia).
  eexists _, _. split; [reflexivity|]. cbn. qnum. ring.
Qed.

(** ** Runs in binary64 *)

(** Memory that holds NaNs, and memory that holds sevens. *)
Definition nans (j k : nat) : float := PrimFloat.nan.
Definition sevens (j k : nat) : float := 7%float.

(** The logarithm at 2 from its values at 1, 4, 6 and at 1, 4, 6, 5,
    rounded to six decimals: the values are those of the interpolating
    parabola and cubic; the error estimate is the content of the memory. *)
Lemma NewtonPolynomialInterpolation_binary64 :
  (NewtonPolynomialInterpolation nans sevens [1; 4; 6]
     [0; 0x1.62e429e0a41a2p+0; 0x1.cab0b7c3504c5p+0] 2 3
   = Ret (0x1.21b654bb43378p-1, [7]) /\
   NewtonPolynomialInterpolation nans sevens [1; 4; 6; 5]
     [0; 0x1.62e429e0a41a2p+0; 0x1.cab0b7c3504c5p+0; 0x1.9c0420f6f08ccp+0] 2 4
   = Ret (0x1.41edccf794f77p-1, [7]))%float.
Proof. split; vm_compute; reflexivity. Qed.

(** Two points with the same abscissa: numpy's division by zero does not
    raise, the method returns an infinity. *)
Lemma NewtonPolynomialInterpolation_equal_abscissas :
  (NewtonPolynomialInterpolation nans sevens [1; 1] [1; 2] 3 2
   = Ret (infinity, [7]))%float.
Proof. vm_compute. reflexivity. Qed.

(** ** Witnesses *)

Definition no_junk (j k : nat) : Q := 0.
Definition tens (j k : nat) : Q := 10.

Lemma NewtonPolynomialInterpolation_computes_witness :
  NewtonPolynomialInterpolation no_junk tens [1; 4; 6] [1; 16; 36] 2 3 =
  Ret (newton_from (fun i => nth i [1; 4; 6] 0) (fun i => nth i [1; 16; 36] 0) 2 0 2, [10]).
Proof.
  apply (NewtonPolynomialInterpolation_computes no_junk tens [1; 4; 6] [1; 16; 36] 0 2 3);
    cbn; lia.
Defined.

Lemma NewtonPolynomialInterpolation_raises_witness :
  NewtonPolynomialInterpolation no_junk tens [1; 4; 6] [1; 16] 2 3 = Raise IndexError.
Proof.
  apply (NewtonPolynomialInterpolation_raises no_junk tens [1; 4; 6] [1; 16] 2 3).
  right. cbn. lia.
Defined.

Lemma NewtonPolynomialInterpolation_interpolates_witness :
  exists r e,
    NewtonPolynomialInterpolation no_junk tens [1; 4; 6] [1; 16; 36] 4 3 = Ret (r, e) /\
    r == 16.
Proof.
  apply (NewtonPolynomialInterpolation_interpolates no_junk tens [1; 4; 6] [1; 16; 36] 3 1);
    try (cbn; lia).
  intros [|[|[|i]]] [|[|[|j]]] Hij; try lia; discriminate.
Defined.

Lemma NewtonPolynomialInterpolation_reproduces_witness :
  exists r e,
    NewtonPolynomialInterpolation no_junk tens [0; 1; 3; 4] (map (peval [1; 2; 3]) [0; 1; 3; 4])
      5 3 = Ret (r, e) /\ r == peval [1; 2; 3] 5.
Proof.
  apply (NewtonPolynomialInterpolation_reproduces no_junk tens [0; 1; 3; 4] [1; 2; 3] 5 3);
    [lia | cbn; lia | | cbn; lia].
  intros i j Hij. change (Z.to_nat 3) with 3%nat in Hij.
  assert (i = 0 /\ j = 1 \/ i = 0 /\ j = 2 \/ i = 1 /\ j = 2)%nat as C by lia.
  destruct C as [[-> ->] | [[-> ->] | [-> ->]]]; cbn; intros E; discriminate E.
Defined.
