(* ===== verification/LinearAlgebra.v ===== *)
(** * LinearAlgebra: the numpy operations behind the regressions

    [PolynomialRegression] of [src/numerics/curveFitting.py] ends with
    [np.matmul(self._B, np.linalg.inv(self._A))].  Both operations are
    numpy's.  The product of a vector by a matrix is [matmul]; the
    inverse is the method [inv] of the class [LinAlg], which the model
    of the regression takes as a parameter.  What the regression needs
    of it is the class [LinAlgLaws]: the matrix that [inv] returns for a
    square matrix has its shape and is its inverse on both sides.  The
    theorems on the regressions are proved from these laws alone.

    The instance over the rationals, [Q_LinAlg], is Gauss-Jordan
    elimination with a search for a non-zero pivot, followed by a check
    of the two products: a result that fails the check is reported as
    numpy reports a singular matrix.  The laws hold of it by the check.

    The file also holds the finite sums [sum_to] over the rationals in
    which products of matrices and the normal equations are written. *)

From Stdlib Require Import String.
From Stdlib Require Import ZArith QArith Qabs Lqa Lia ZifyBool List Bool Morphisms Setoid.
From S2P Require Import Prelude NumQ Table.
Import ListNotations.

(** ** The operations *)

(** [np.linalg.inv]. *)
Class LinAlg (T : Type) : Type := {
  inv : list (list T) -> outcome (list (list T))
}.

Section Matmul.
Context {T : Type} `{Num T}.

(** [np.matmul(v, M)] for a vector and a matrix: the shapes must agree. *)
Definition matmul (v : list T) (M : list (list T)) : outcome (list T) :=
  if (length v =? length M)%nat then
    Ret (tabulate
           (fun j => fold_left (fun s '(b, row) => (s + b * nth j row (num_of_Z 0))%num)
                       (combine v M) (num_of_Z 0))
           (length v))
  else Raise ValueError.

End Matmul.

#[local] Open Scope Q_scope.

(** ** Finite sums *)

Fixpoint sum_to (n : nat) (f : nat -> Q) : Q :=
  match n with
  | O => 0
  | S n => sum_to n f + f n
  end.

Lemma sum_to_ext (n : nat) (f g : nat -> Q) :
  (forall l, (l < n)%nat -> f l == g l) -> sum_to n f == sum_to n g.
Proof.
  induction n as [|n IH]; intros E; [reflexivity|].
  cbn [sum_to]. rewrite IH, E by auto. reflexivity.
Qed.

#[export] Instance sum_to_Proper (n : nat) :
  Proper (pointwise_relation nat Qeq ==> Qeq) (sum_to n).
Proof. intros f g E. apply sum_to_ext. intros l _. apply E. Qed.

Lemma sum_to_zero (n : nat) : sum_to n (fun _ => 0) == 0.
Proof. induction n as [|n IH]; [reflexivity|]. cbn [sum_to]. rewrite IH. ring. Qed.

Lemma sum_to_const (n : nat) (c : Q) : sum_to n (fun _ => c) == inject_Z (Z.of_nat n) * c.
Proof.
  induction n as [|n IH]; [cbn; ring|]. cbn [sum_to]. rewrite IH, inject_Z_succ. ring.
Qed.

Lemma sum_to_add (n : nat) (f g : nat -> Q) :
  sum_to n (fun l => f l + g l) == sum_to n f + sum_to n g.
Proof. induction n as [|n IH]; [cbn; ring|]. cbn [sum_to]. rewrite IH. ring. Qed.

Lemma sum_to_scale (n : nat) (c : Q) (f : nat -> Q) :
  sum_to n (fun l => c * f l) == c * sum_to n f.
Proof. induction n as [|n IH]; [cbn; ring|]. cbn [sum_to]. rewrite IH. ring. Qed.

Lemma sum_to_exchange (n m : nat) (f : nat -> nat -> Q) :
  sum_to n (fun l => sum_to m (fun j => f l j)) ==
  sum_to m (fun j => sum_to n (fun l => f l j)).
Proof.
  induction n as [|n IH].
  - cbn [sum_to]. now rewrite sum_to_zero.
  - cbn [sum_to]. now rewrite IH, <- sum_to_add.
Qed.

Lemma sum_to_nonneg (n : nat) (f : nat -> Q) : (forall l, 0 <= f l) -> 0 <= sum_to n f.
Proof.
  intros P. induction n as [|n IH]; [cbn; lra|]. cbn [sum_to]. specialize (P n). lra.
Qed.

(** The first term taken out of a sum. *)
Lemma sum_to_shift (n : nat) (f : nat -> Q) :
  sum_to (S n) f == f 0%nat + sum_to n (fun j => f (S j)).
Proof.
  induction n as [|n IH]; [cbn; ring|].
  change (sum_to (S (S n)) f) with (sum_to (S n) f + f (S n)). rewrite IH. cbn [sum_to]. ring.
Qed.

Lemma Qsquare_nonneg (t : Q) : 0 <= t * t.
Proof. nra. Qed.

(** A sum of non-negative terms that is zero has no term but zero. *)
Lemma sum_to_nonneg_zero (n : nat) (f : nat -> Q) :
  (forall l, 0 <= f l) -> sum_to n f == 0 -> forall l, (l < n)%nat -> f l == 0.
Proof.
  intros P. induction n as [|n IH]; intros Z l Hl; [lia|]. cbn [sum_to] in Z.
  pose proof (sum_to_nonneg n f P) as Pn. pose proof (P n) as Pl.
  destruct (Nat.eq_dec l n) as [-> | Nl]; [lra|]. apply IH; [lra | lia].
Qed.

(** Kronecker's delta, and the sum that picks one term. *)
Definition delta (i j : nat) : Q := if (i =? j)%nat then 1 else 0.

Lemma sum_to_delta (n i : nat) (b : nat -> Q) :
  (i < n)%nat -> sum_to n (fun k => b k * delta k i) == b i.
Proof.
  induction n as [|n IH]; intros Hi; [lia|]. cbn [sum_to]. unfold delta at 2.
  destruct (Nat.eqb_spec n i) as [-> | Ni].
  - rewrite (sum_to_ext _ _ (fun _ => 0)), sum_to_zero; [ring|].
    intros l Hl. unfold delta. destruct (Nat.eqb_spec l i); [lia | ring].
  - rewrite IH by lia. ring.
Qed.

(** A loop that adds [f l] for [l] in [range(n)] computes the sum. *)
Lemma fold_left_sum_to (f : nat -> Q) (n : nat) :
  fold_left (fun s l => (s + f l)%num) (seq 0 n) (num_of_Z 0) == sum_to n f.
Proof.
  induction n as [|n IH]; [reflexivity|].
  rewrite seq_S, fold_left_app. cbn [fold_left sum_to Nat.add]. qnum. now rewrite IH.
Qed.

(** A loop over a list adds the entries at its positions. *)
Lemma fold_left_positions {B : Type} (f : Q -> B -> Q) (g : B -> Q) (l : list B) (d : B) :
  (forall s b, f s b = (s + g b)%num) ->
  fold_left f l (num_of_Z 0) == sum_to (length l) (fun k => g (nth k l d)).
Proof.
  intros Ef. induction l as [|a l IH] using rev_ind; [reflexivity|].
  rewrite fold_left_app, length_app, Nat.add_1_r. cbn [fold_left sum_to]. rewrite Ef. qnum.
  rewrite IH, nth_middle. apply Qplus_inj_r. apply sum_to_ext. intros k Hk.
  now rewrite app_nth1.
Qed.

(** ** Matrices *)

Definition entry (M : list (list Q)) (i j : nat) : Q := nth j (nth i M []) 0.

Lemma entry_tabulate2 (g : nat -> nat -> Q) (n m i j : nat) :
  (i < n)%nat -> (j < m)%nat -> entry (tabulate2 g n m) i j = g i j.
Proof.
  intros Hi Hj. unfold entry, tabulate2. now rewrite (tabulate_nth _ _ _ []), tabulate_nth.
Qed.

(** [matmul] on shapes that agree. *)
Lemma matmul_Ret (v : list Q) (M : list (list Q)) (m : nat) :
  length v = m -> length M = m ->
  exists a, matmul v M = Ret a /\ length a = m /\
            forall j, (j < m)%nat -> nth j a 0 == sum_to m (fun k => nth k v 0 * entry M k j).
Proof.
  intros Hv HM. unfold matmul. rewrite Hv, HM, Nat.eqb_refl. eexists. split; [reflexivity|].
  split; [apply tabulate_length|]. intros j Hj. rewrite tabulate_nth by exact Hj.
  rewrite (fold_left_positions _ (fun p => fst p * nth j (snd p) 0) _ (0, []))
    by (intros s [b row]; reflexivity).
  rewrite length_combine, Hv, HM, Nat.min_id. apply sum_to_ext. intros k Hk.
  rewrite combine_nth by lia. reflexivity.
Qed.

(** The promise of [np.linalg.inv]. *)
Class LinAlgLaws `{LinAlg Q} : Prop := {
  inv_shape : forall m M M', shape m m M -> inv M = Ret M' -> shape m m M';
  inv_left : forall m M M' i j,
    shape m m M -> inv M = Ret M' -> (i < m)%nat -> (j < m)%nat ->
    sum_to m (fun k => entry M' i k * entry M k j) == delta i j;
  inv_right : forall m M M' i j,
    shape m m M -> inv M = Ret M' -> (i < m)%nat -> (j < m)%nat ->
    sum_to m (fun k => entry M i k * entry M' k j) == delta i j
}.

(** ** Gauss-Jordan elimination, checked *)

(** The matrix with the identity to its right. *)
Definition augment (M : list (list Q)) : list (list Q) :=
  let m := length M in
  tabulate (fun i => nth i M [] ++ tabulate (delta i) m) m.

(** The first row at or below [c] with a non-zero entry in column [c]. *)
Definition find_pivot (c : nat) (rows : list (list Q)) : option nat :=
  find (fun i => negb (Qeq_bool (entry rows i c) 0)) (seq c (length rows - c)).

Definition swap_rows (i j : nat) (rows : list (list Q)) : list (list Q) :=
  tabulate (fun k => nth (if (k =? i)%nat then j else if (k =? j)%nat then i else k) rows [])
    (length rows).

(** Clear column [c] but for a one on the diagonal, with the pivot in
    row [c]. *)
Definition clear_column (rows : list (list Q)) (c : nat) : list (list Q) :=
  let pivot := entry rows c c in
  let prow := map (fun v => Qred (v / pivot)) (nth c rows []) in
  tabulate
    (fun k => if (k =? c)%nat then prow
              else zip_with (fun a b => Qred (b - entry rows k c * a)) prow (nth k rows []))
    (length rows).

(** One step of the elimination: bring a pivot to row [c] and clear
    the column; a column without a pivot is left as it is. *)
Definition eliminate (rows : list (list Q)) (c : nat) : list (list Q) :=
  match find_pivot c rows with
  | None => rows
  | Some p => clear_column (swap_rows c p rows) c
  end.

Definition Gauss_Jordan (M : list (list Q)) : list (list Q) :=
  let m := length M in
  map (skipn m) (fold_left eliminate (seq 0 m) (augment M)).

(** The tests that [N] has [m] rows of [m] entries and that the product
    [M N] is the identity. *)
Definition shapeb (m : nat) (N : list (list Q)) : bool :=
  (length N =? m)%nat && forallb (fun row => (length row =? m)%nat) N.

Definition is_identity (m : nat) (M N : list (list Q)) : bool :=
  forallb
    (fun i => forallb
                (fun j => Qeq_bool (sum_to m (fun k => entry M i k * entry N k j)) (delta i j))
                (seq 0 m))
    (seq 0 m).

(** numpy's report of a singular matrix. *)
Definition singular : exn := Exception "Singular matrix"%string.

Definition checked_inverse (M : list (list Q)) : outcome (list (list Q)) :=
  let m := length M in
  let N := Gauss_Jordan M in
  if shapeb m N && is_identity m N M && is_identity m M N then Ret N else Raise singular.

#[export] Instance Q_LinAlg : LinAlg Q := {| inv := checked_inverse |}.

(** It returns or reports a singular matrix. *)
Lemma checked_inverse_cases (M : list (list Q)) :
  (exists N, checked_inverse M = Ret N) \/ checked_inverse M = Raise singular.
Proof. unfold checked_inverse. cbv zeta. destruct (_ && _); eauto. Qed.

Lemma shapeb_shape (m : nat) (N : list (list Q)) : shapeb m N = true -> shape m m N.
Proof.
  unfold shapeb, shape. intros [E1 E2]%andb_prop. split; [now apply Nat.eqb_eq|].
  apply Forall_forall. intros row Hin. rewrite forallb_forall in E2.
  now apply Nat.eqb_eq, E2.
Qed.

Lemma is_identity_product (m : nat) (M N : list (list Q)) (i j : nat) :
  is_identity m M N = true -> (i < m)%nat -> (j < m)%nat ->
  sum_to m (fun k => entry M i k * entry N k j) == delta i j.
Proof.
  unfold is_identity. intros E Hi Hj. rewrite forallb_forall in E.
  specialize (E i ltac:(apply in_seq; lia)). rewrite forallb_forall in E.
  apply Qeq_bool_iff, E, in_seq. lia.
Qed.

Lemma checked_inverse_Ret (m : nat) (M N : list (list Q)) :
  shape m m M -> checked_inverse M = Ret N ->
  shape m m N /\ is_identity m N M = true /\ is_identity m M N = true.
Proof.
  intros [Hm _]. unfold checked_inverse. rewrite Hm. cbv zeta.
  destruct (shapeb m _) eqn:E1; [|discriminate].
  destruct (is_identity m _ M) eqn:E2; [|discriminate].
  destruct (is_identity m M _) eqn:E3; [|discriminate].
  cbn [andb]. intros [= <-]. auto using shapeb_shape.
Qed.

#[export] Instance Q_LinAlgLaws : LinAlgLaws.
Proof.
  split.
  - intros m M N HM E. now destruct (checked_inverse_Ret m M N HM E).
  - intros m M N i j HM E. destruct (checked_inverse_Ret m M N HM E) as (_ & E1 & _).
    now apply is_identity_product.
  - intros m M N i j HM E. destruct (checked_inverse_Ret m M N HM E) as (_ & _ & E1).
    now apply is_identity_product.
Qed.

(** The inverse of a matrix of Hilbert's, and a singular matrix. *)
Lemma Q_LinAlg_runs :
  inv [[1; 1 # 2]; [1 # 2; 1 # 3]] = Ret [[4; -6]; [-6; 12]] /\
  inv [[0; 1; 0]; [1; 0; 0]; [0; 0; 2]] = Ret [[0; 1; 0]; [1; 0; 0]; [0; 0; 1 # 2]] /\
  inv [[1; 2]; [2; 4]] = Raise singular.
Proof. repeat split; vm_compute; reflexivity. Qed.
