(* ===== verification/GaussJordan.v ===== *)
(** * GaussJordan: the elimination inverts every non-singular matrix

    [checked_inverse] of [LinearAlgebra] returns a matrix only when the
    two products with it are the identity, so what it returns is an
    inverse.  This file shows that it returns one whenever there is
    one: on a square matrix that is non-singular (no combination of its
    columns vanishes but the trivial one) the elimination finds a pivot
    in every column and ends on the inverse, which passes the check.
    It is the law [inv_total] of the class [LinAlgTotal], which the
    theorems that a regression returns are proved from.

    The proof follows the table [L | R] of the elimination, which
    starts as [M | 1].  Every row operation keeps [L = R M] row by row
    and keeps [R] one-to-one; after column [c] the first [c + 1]
    columns of [L] are those of the identity.  A column without a pivot
    would give a combination of the columns of [L], hence of [M], that
    vanishes. *)

From Stdlib Require Import String.
From Stdlib Require Import ZArith QArith Qabs Lqa Lia ZifyBool List Bool Morphisms Setoid.
From S2P Require Import Prelude NumQ Table LinearAlgebra.
Import ListNotations.

#[local] Open Scope Q_scope.

(** ** Non-singular matrices *)

Definition nonsingular (m : nat) (M : list (list Q)) : Prop :=
  forall w : nat -> Q,
    (forall i, (i < m)%nat -> sum_to m (fun k => entry M i k * w k) == 0) ->
    forall k, (k < m)%nat -> w k == 0.

(** What the regressions need of [np.linalg.inv] to return: it returns
    on every non-singular matrix. *)
Class LinAlgTotal `{LinAlg Q} : Prop := {
  inv_total : forall m M, shape m m M -> nonsingular m M -> exists M', inv M = Ret M'
}.

(** ** Sums *)

Lemma sum_to_delta_l (n i : nat) (b : nat -> Q) :
  (i < n)%nat -> sum_to n (fun k => delta i k * b k) == b i.
Proof.
  intros Hi. rewrite <- (sum_to_delta n i b Hi). apply sum_to_ext. intros k _.
  unfold delta. rewrite (Nat.eqb_sym i k). ring.
Qed.

Lemma sum_to_zero_ext (n : nat) (f : nat -> Q) :
  (forall k, (k < n)%nat -> f k == 0) -> sum_to n f == 0.
Proof. intros E. rewrite (sum_to_ext n f (fun _ => 0) E). apply sum_to_zero. Qed.

(** The product of three factors, summed in either order. *)
Lemma sum_to_assoc (n m : nat) (a : nat -> Q) (b : nat -> nat -> Q) (w : nat -> Q) :
  sum_to n (fun k => a k * sum_to m (fun j => b k j * w j)) ==
  sum_to m (fun j => sum_to n (fun k => a k * b k j) * w j).
Proof.
  rewrite (sum_to_ext n _ (fun k => sum_to m (fun j => a k * b k j * w j))).
  - rewrite sum_to_exchange. apply sum_to_ext. intros j _.
    rewrite Qmult_comm, <- sum_to_scale. apply sum_to_ext. intros k _. ring.
  - intros k _. rewrite <- sum_to_scale. apply sum_to_ext. intros j _. ring.
Qed.

(** ** The entries of the tables of the elimination *)

(** The exchange of [i] and [j]. *)
Definition transposition (i j k : nat) : nat :=
  if (k =? i)%nat then j else if (k =? j)%nat then i else k.

Lemma transposition_involutive (i j k : nat) :
  transposition i j (transposition i j k) = k.
Proof.
  unfold transposition. destruct (Nat.eqb_spec k i), (Nat.eqb_spec k j); subst; index_cases.
Qed.

Lemma transposition_lt (i j k m : nat) :
  (i < m)%nat -> (j < m)%nat -> (k < m)%nat -> (transposition i j k < m)%nat.
Proof. unfold transposition. index_cases. Qed.

Lemma swap_rows_entry (i j : nat) (rows : list (list Q)) (k l : nat) :
  (k < length rows)%nat ->
  entry (swap_rows i j rows) k l = entry rows (transposition i j k) l.
Proof. intros Hk. unfold entry, swap_rows. now rewrite tabulate_nth. Qed.

Lemma swap_rows_shape (i j m w : nat) (rows : list (list Q)) :
  shape m w rows -> (i < m)%nat -> (j < m)%nat -> shape m w (swap_rows i j rows).
Proof.
  intros Hs Hi Hj. pose proof Hs as [Hm _]. unfold swap_rows. rewrite Hm.
  split; [apply tabulate_length|]. apply Forall_forall. intros row Hin.
  apply in_map_iff in Hin as (k & <- & Hk). apply in_seq in Hk.
  apply (shape_row m w rows _ Hs).
  destruct (k =? i)%nat; [exact Hj|]. destruct (k =? j)%nat; [exact Hi | lia].
Qed.

(** The table after [clear_column], entry by entry. *)
Definition cleared (rows : list (list Q)) (c k j : nat) : Q :=
  if (k =? c)%nat then Qred (entry rows c j / entry rows c c)
  else Qred (entry rows k j - entry rows k c * Qred (entry rows c j / entry rows c c)).

Lemma clear_column_tabulate2 (rows : list (list Q)) (c m w : nat) :
  shape m w rows -> (c < m)%nat ->
  clear_column rows c = tabulate2 (cleared rows c) m w.
Proof.
  intros Hs Hc. pose proof Hs as [Hm _]. unfold clear_column, tabulate2. cbv zeta.
  rewrite Hm. apply tabulate_ext. intros k Hk. unfold cleared.
  destruct (Nat.eqb_spec k c) as [-> | Nk].
  - rewrite (map_tabulate _ _ 0), (shape_row m w rows c Hs Hc). reflexivity.
  - rewrite (zip_with_tabulate _ _ _ 0 0), length_map, (map_tabulate _ _ 0);
      rewrite ?length_map, !(shape_row m w rows _ Hs) by assumption; [|reflexivity].
    apply tabulate_ext. intros j Hj. now rewrite tabulate_nth.
Qed.

Lemma clear_column_entry (rows : list (list Q)) (c m w k j : nat) :
  shape m w rows -> (c < m)%nat -> (k < m)%nat -> (j < w)%nat ->
  entry (clear_column rows c) k j ==
  if (k =? c)%nat then entry rows c j / entry rows c c
  else entry rows k j - entry rows k c * (entry rows c j / entry rows c c).
Proof.
  intros Hs Hc Hk Hj. rewrite (clear_column_tabulate2 rows c m w Hs Hc).
  rewrite entry_tabulate2 by assumption. unfold cleared.
  destruct (k =? c)%nat; now rewrite !Qred_correct.
Qed.

Lemma clear_column_shape (rows : list (list Q)) (c m w : nat) :
  shape m w rows -> (c < m)%nat -> shape m w (clear_column rows c).
Proof.
  intros Hs Hc. rewrite (clear_column_tabulate2 rows c m w Hs Hc). apply tabulate2_shape.
Qed.

(** The search for a pivot. *)
Lemma find_pivot_Some (c p : nat) (rows : list (list Q)) :
  find_pivot c rows = Some p ->
  (c <= p < length rows)%nat /\ ~ entry rows p c == 0.
Proof.
  unfold find_pivot. intros E. apply find_some in E as [Hin Hp]. apply in_seq in Hin.
  split; [lia|]. intros Z. apply Qeq_bool_iff in Z. now rewrite Z in Hp.
Qed.

Lemma find_pivot_None (c : nat) (rows : list (list Q)) (i : nat) :
  find_pivot c rows = None -> (c <= i < length rows)%nat -> entry rows i c == 0.
Proof.
  unfold find_pivot. intros E Hi. apply Qeq_bool_iff.
  pose proof (find_none _ _ E i ltac:(apply in_seq; lia)) as N.
  now apply negb_false_iff in N.
Qed.

(** ** The invariant of the elimination *)

Section Elimination.

Variables (m : nat) (M : list (list Q)).
Hypothesis M_shape : shape m m M.

(** The table [T = L | R] once the columns below [c] are done:
    [L = R M], the columns of [L] below [c] are those of the identity,
    and [R] is one-to-one. *)
Record table_invariant (c : nat) (T : list (list Q)) : Prop := {
  table_shape : shape m (m + m) T;
  table_product : forall i j, (i < m)%nat -> (j < m)%nat ->
    entry T i j == sum_to m (fun k => entry T i (m + k) * entry M k j);
  table_identity : forall i j, (i < m)%nat -> (j < c)%nat -> entry T i j == delta i j;
  table_one_to_one : forall u : nat -> Q,
    (forall i, (i < m)%nat -> sum_to m (fun k => entry T i (m + k) * u k) == 0) ->
    forall k, (k < m)%nat -> u k == 0
}.

Lemma augment_entry_left (i j : nat) :
  (i < m)%nat -> (j < m)%nat -> entry (augment M) i j = entry M i j.
Proof.
  intros Hi Hj. pose proof M_shape as [Hm _]. unfold augment, entry. rewrite Hm.
  rewrite tabulate_nth by exact Hi. apply app_nth1.
  now rewrite (shape_row m m M i M_shape Hi).
Qed.

Lemma augment_entry_right (i k : nat) :
  (i < m)%nat -> (k < m)%nat -> entry (augment M) i (m + k) = delta i k.
Proof.
  intros Hi Hk. pose proof M_shape as [Hm _]. unfold augment, entry. rewrite Hm.
  rewrite tabulate_nth by exact Hi.
  rewrite app_nth2 by (rewrite (shape_row m m M i M_shape Hi); lia).
  rewrite (shape_row m m M i M_shape Hi). replace (m + k - m)%nat with k by lia.
  now apply tabulate_nth.
Qed.

Lemma augment_invariant : table_invariant 0 (augment M).
Proof.
  pose proof M_shape as [Hm _]. split.
  - unfold augment. rewrite Hm. split; [apply tabulate_length|].
    apply Forall_forall. intros row Hin. apply in_map_iff in Hin as (i & <- & Hi).
    apply in_seq in Hi. rewrite length_app, tabulate_length.
    now rewrite (shape_row m m M i M_shape) by lia.
  - intros i j Hi Hj. rewrite augment_entry_left by assumption.
    rewrite <- (sum_to_delta_l m i (fun k => entry M k j) Hi).
    apply sum_to_ext. intros k Hk. now rewrite augment_entry_right.
  - intros i j _ Hj. lia.
  - intros u Hu k Hk. rewrite <- (Hu k Hk), <- (sum_to_delta_l m k u Hk).
    apply sum_to_ext. intros l Hl. now rewrite augment_entry_right.
Qed.

(** *** Exchanging two rows *)

Lemma swap_invariant (c p : nat) (T : list (list Q)) :
  table_invariant c T -> (c <= p < m)%nat ->
  table_invariant c (swap_rows c p T).
Proof.
  intros [Hs Hp Hi Ho] Hcp. pose proof Hs as [Hm _].
  assert (forall i l, (i < m)%nat ->
            entry (swap_rows c p T) i l = entry T (transposition c p i) l) as E
    by (intros i l Li; apply swap_rows_entry; lia).
  assert (forall i, (i < m)%nat -> (transposition c p i < m)%nat) as Lt
    by (intros i Li; apply transposition_lt; lia).
  split.
  - apply swap_rows_shape; [exact Hs | lia | lia].
  - intros i j Li Lj. rewrite E by exact Li. rewrite (Hp _ j (Lt i Li) Lj).
    apply sum_to_ext. intros k _. now rewrite E.
  - intros i j Li Lj. rewrite E, (Hi _ j (Lt i Li) Lj) by exact Li.
    unfold delta, transposition.
    destruct (Nat.eqb_spec i c), (Nat.eqb_spec i p); subst; index_cases.
  - intros u Hu. apply Ho. intros i Li.
    rewrite <- (Hu _ (Lt i Li)). apply sum_to_ext. intros k _.
    now rewrite E, transposition_involutive by auto.
Qed.

(** *** Clearing a column *)

(** Row [k] of the cleared table is [row_factor k] times row [k] plus
    [pivot_factor k] times the row of the pivot. *)
Definition row_factor (c k : nat) : Q := if (k =? c)%nat then 0 else 1.
Definition pivot_factor (T : list (list Q)) (c k : nat) : Q :=
  if (k =? c)%nat then 1 / entry T c c else - entry T k c / entry T c c.

Lemma clear_column_combination (T : list (list Q)) (c k j : nat) :
  shape m (m + m) T -> (c < m)%nat -> (k < m)%nat -> (j < m + m)%nat ->
  ~ entry T c c == 0 ->
  entry (clear_column T c) k j == row_factor c k * entry T k j + pivot_factor T c k * entry T c j.
Proof.
  intros Hs Hc Hk Hj Np. rewrite (clear_column_entry T c m (m + m)) by assumption.
  unfold row_factor, pivot_factor. destruct (k =? c)%nat; field; exact Np.
Qed.

Lemma sum_to_combination (n : nat) (s t : Q) (a b g : nat -> Q) :
  sum_to n (fun k => (s * a k + t * b k) * g k) ==
  s * sum_to n (fun k => a k * g k) + t * sum_to n (fun k => b k * g k).
Proof.
  rewrite <- !sum_to_scale, <- sum_to_add. apply sum_to_ext. intros k _. ring.
Qed.

Lemma clear_invariant (c : nat) (T : list (list Q)) :
  table_invariant c T -> (c < m)%nat -> ~ entry T c c == 0 ->
  table_invariant (S c) (clear_column T c).
Proof.
  intros [Hs Hp Hi Ho] Hc Np.
  pose proof (fun k j Hk Hj => clear_column_combination T c k j Hs Hc Hk Hj Np) as E.
  assert (forall i (g : nat -> Q), (i < m)%nat ->
            sum_to m (fun k => entry (clear_column T c) i (m + k) * g k) ==
            row_factor c i * sum_to m (fun k => entry T i (m + k) * g k)
            + pivot_factor T c i * sum_to m (fun k => entry T c (m + k) * g k)) as Es.
  { intros i g Li. rewrite <- sum_to_combination. apply sum_to_ext. intros k Lk.
    now rewrite E by lia. }
  split.
  - now apply clear_column_shape.
  - intros i j Li Lj. rewrite Es, E, <- !Hp by (assumption || lia). reflexivity.
  - intros i j Li Lj. rewrite E by lia. unfold row_factor, pivot_factor, delta.
    destruct (Nat.eq_dec j c) as [-> | Nj].
    + destruct (Nat.eqb_spec i c) as [-> | Ni]; field; exact Np.
    + rewrite (Hi i j), (Hi c j) by lia. unfold delta.
      destruct (Nat.eqb_spec i c) as [-> | Ni], (Nat.eqb_spec c j); try lia; field; exact Np.
  - intros u Hu. apply Ho.
    assert (sum_to m (fun k => entry T c (m + k) * u k) == 0) as Zc.
    { pose proof (Hu c Hc) as Z. rewrite Es in Z by exact Hc. unfold row_factor, pivot_factor in Z.
      rewrite Nat.eqb_refl in Z.
      apply (Qmult_integral_l (1 / entry T c c)); [|lra].
      intros Z1. apply Np. 
      assert (entry T c c * (1 / entry T c c) == 1) as One by (field; exact Np).
      rewrite Z1 in One. lra. }
    intros i Li. pose proof (Hu i Li) as Z. rewrite Es, Zc in Z by exact Li.
    unfold row_factor in Z. destruct (Nat.eqb_spec i c) as [-> | Ni]; [exact Zc | lra].
Qed.

(** *** A pivot exists *)

Hypothesis M_nonsingular : nonsingular m M.

(** The combination of the columns of [L] that vanishes when column
    [c] has no pivot: column [c] less its part along the columns
    before it. *)
Definition kernel_vector (T : list (list Q)) (c k : nat) : Q :=
  delta k c - (if (k <? c)%nat then entry T k c else 0).

Lemma kernel_vector_vanishes (c : nat) (T : list (list Q)) (i : nat) :
  table_invariant c T -> (c < m)%nat -> find_pivot c T = None -> (i < m)%nat ->
  sum_to m (fun j => entry T i j * kernel_vector T c j) == 0.
Proof.
  intros [Hs Hp Hi Ho] Hc Ep Li. pose proof Hs as [Hm _]. unfold kernel_vector.
  rewrite (sum_to_ext m _
             (fun j => entry T i j * delta j c
                       + -1 * (delta i j * (if (j <? c)%nat then entry T j c else 0)))).
  - rewrite sum_to_add, sum_to_scale, sum_to_delta, sum_to_delta_l by assumption.
    destruct (Nat.ltb_spec i c); [ring|].
    rewrite (find_pivot_None c T i Ep) by lia. ring.
  - intros j Lj. destruct (Nat.ltb_spec j c); [|ring].
    rewrite (Hi i j Li) by assumption. ring.
Qed.

Lemma pivot_exists (c : nat) (T : list (list Q)) :
  table_invariant c T -> (c < m)%nat -> find_pivot c T <> None.
Proof.
  intros HT Hc Ep. pose proof HT as [Hs Hp Hi Ho].
  assert (kernel_vector T c c == 0) as Z.
  { apply M_nonsingular; [|exact Hc]. apply Ho. intros i Li.
    rewrite sum_to_assoc, <- (kernel_vector_vanishes c T i HT Hc Ep Li).
    apply sum_to_ext. intros j Lj. now rewrite <- Hp. }
  unfold kernel_vector, delta in Z. rewrite Nat.eqb_refl, Nat.ltb_irrefl in Z. lra.
Qed.

Lemma eliminate_invariant (c : nat) (T : list (list Q)) :
  table_invariant c T -> (c < m)%nat -> table_invariant (S c) (eliminate T c).
Proof.
  intros HT Hc. pose proof (table_shape c T HT) as [Hm _]. unfold eliminate.
  destruct (find_pivot c T) as [p|] eqn:Ep; [|now destruct (pivot_exists c T HT Hc)].
  apply find_pivot_Some in Ep as [Lp Np].
  apply clear_invariant; [apply swap_invariant; [exact HT | lia] | exact Hc |].
  rewrite swap_rows_entry by lia. unfold transposition. now rewrite Nat.eqb_refl.
Qed.

Lemma elimination_invariant (c : nat) :
  (c <= m)%nat -> table_invariant c (fold_left eliminate (seq 0 c) (augment M)).
Proof.
  induction c as [|c IH]; intros Hc; [apply augment_invariant|].
  rewrite seq_S, fold_left_app. cbn [fold_left Nat.add].
  apply eliminate_invariant; [apply IH|]; lia.
Qed.

(** *** The result passes the check *)

Lemma is_identity_intro (A B : list (list Q)) :
  (forall i j, (i < m)%nat -> (j < m)%nat ->
     sum_to m (fun k => entry A i k * entry B k j) == delta i j) ->
  is_identity m A B = true.
Proof.
  intros E. unfold is_identity. apply forallb_forall. intros i Hi. apply in_seq in Hi.
  apply forallb_forall. intros j Hj. apply in_seq in Hj. apply Qeq_bool_iff, E; lia.
Qed.

Lemma Gauss_Jordan_entry (i k : nat) :
  (i < m)%nat ->
  entry (Gauss_Jordan M) i k = entry (fold_left eliminate (seq 0 m) (augment M)) i (m + k).
Proof.
  intros Hi. pose proof M_shape as [Hm _].
  pose proof (table_shape m _ (elimination_invariant m (Nat.le_refl m))) as [HT _].
  unfold Gauss_Jordan, entry. rewrite Hm. cbv zeta.
  rewrite (nth_indep _ [] (skipn m [])) by (rewrite length_map; lia).
  now rewrite map_nth, nth_skipn.
Qed.

Lemma Gauss_Jordan_shape : shapeb m (Gauss_Jordan M) = true.
Proof.
  pose proof M_shape as [Hm _].
  pose proof (table_shape m _ (elimination_invariant m (Nat.le_refl m))) as [HT HR].
  unfold shapeb, Gauss_Jordan. rewrite Hm. cbv zeta. rewrite length_map, HT, Nat.eqb_refl.
  apply forallb_forall. intros row Hin. apply in_map_iff in Hin as (r & <- & Hr).
  rewrite Forall_forall in HR. rewrite length_skipn, (HR r Hr). apply Nat.eqb_eq. lia.
Qed.

Lemma Gauss_Jordan_left (i j : nat) :
  (i < m)%nat -> (j < m)%nat ->
  sum_to m (fun k => entry (Gauss_Jordan M) i k * entry M k j) == delta i j.
Proof.
  intros Hi Hj. destruct (elimination_invariant m (Nat.le_refl m)) as [_ Hp Hd _].
  rewrite <- (Hd i j Hi Hj), (Hp i j Hi Hj). apply sum_to_ext. intros k _.
  now rewrite Gauss_Jordan_entry.
Qed.

Lemma Gauss_Jordan_right (i j : nat) :
  (i < m)%nat -> (j < m)%nat ->
  sum_to m (fun k => entry M i k * entry (Gauss_Jordan M) k j) == delta i j.
Proof.
  intros Hi Hj. destruct (elimination_invariant m (Nat.le_refl m)) as [_ _ _ Ho].
  set (N := Gauss_Jordan M).
  enough (sum_to m (fun k => entry M i k * entry N k j) - delta i j == 0) by lra.
  apply (Ho (fun i => sum_to m (fun k => entry M i k * entry N k j) - delta i j)); [|exact Hi].
  intros l Ll.
  rewrite (sum_to_ext m _
             (fun k => entry N l k * sum_to m (fun k' => entry M k k' * entry N k' j)
                       + -1 * (entry N l k * delta k j)))
    by (intros k Lk; unfold N at 1 3; rewrite Gauss_Jordan_entry by exact Ll; ring).
  rewrite sum_to_add, sum_to_scale, sum_to_delta, sum_to_assoc by exact Hj.
  rewrite (sum_to_ext m _ (fun k => delta l k * entry N k j))
    by (intros k Lk; unfold N at 1; now rewrite Gauss_Jordan_left).
  rewrite sum_to_delta_l by exact Ll. ring.
Qed.

Lemma checked_inverse_nonsingular : checked_inverse M = Ret (Gauss_Jordan M).
Proof.
  pose proof M_shape as [Hm _]. unfold checked_inverse. rewrite Hm. cbv zeta.
  rewrite Gauss_Jordan_shape.
  rewrite !is_identity_intro; auto using Gauss_Jordan_left, Gauss_Jordan_right.
Qed.

End Elimination.

#[export] Instance Q_LinAlgTotal : LinAlgTotal.
Proof.
  split. intros m M Hs Hn. exists (Gauss_Jordan M).
  now apply (checked_inverse_nonsingular m).
Qed.
