(* ===== verification/NormalEquations.v ===== *)
(** * NormalEquations: the least-squares problem

    The problem that the regressions of [src/numerics/curveFitting.py]
    solve, over the rationals: given the values [phi j l] of the
    regressors [j < m] at the samples [l < n] and the ordinates [y l],
    find the coefficients [a] that make the sum of the squares of
    [y l - sum_j a j * phi j l] least.  A solution of the normal
    equations is such a fit ([normal_least_squares]); the matrix of the
    normal equations is non-singular when the regressors are linearly
    independent on the samples ([gram_nonsingular]), and a combination
    of the regressors that vanishes on the samples is in its kernel
    ([gram_kernel]). *)

From Stdlib Require Import ZArith QArith Qabs Lqa Lia List Bool Morphisms Setoid.
From S2P Require Import Prelude NumQ Table LinearAlgebra GaussJordan.
Import ListNotations.

#[local] Open Scope Q_scope.

(** ** The normal equations *)

Section Normal.
Variables (m n : nat).
Variable phi : nat -> nat -> Q.
Variable y : nat -> Q.

(** The value of the fit with coefficients [c] at sample [l], and the
    sum of the squares of its residuals. *)
Definition fit (c : nat -> Q) (l : nat) : Q := sum_to m (fun j => c j * phi j l).

Definition sse (c : nat -> Q) : Q :=
  sum_to n (fun l => (y l - fit c l) * (y l - fit c l)).

Definition gram_of (i j : nat) : Q := sum_to n (fun l => phi i l * phi j l).

Definition moment_of (i : nat) : Q := sum_to n (fun l => phi i l * y l).

(** [a] solves the normal equations. *)
Definition normal (a : nat -> Q) : Prop :=
  forall i, (i < m)%nat -> sum_to m (fun j => a j * gram_of j i) == moment_of i.

Lemma sum_fit (c : nat -> Q) (i : nat) :
  sum_to n (fun l => phi i l * fit c l) == sum_to m (fun j => c j * gram_of j i).
Proof.
  unfold fit, gram_of. setoid_rewrite <- sum_to_scale. rewrite sum_to_exchange.
  apply sum_to_ext. intros j _. apply sum_to_ext. intros l _. ring.
Qed.

Lemma gram_of_sym (i j : nat) : gram_of i j == gram_of j i.
Proof. unfold gram_of. apply sum_to_ext. intros l _. ring. Qed.

(** *** Independent regressors *)

(** No combination of the regressors vanishes on all the samples but
    the trivial one. *)
Definition independent : Prop :=
  forall w : nat -> Q,
    (forall l, (l < n)%nat -> fit w l == 0) -> forall j, (j < m)%nat -> w j == 0.

(** The quadratic form of the matrix of the normal equations is the
    sum of the squares of the fit. *)
Lemma gram_quadratic (w : nat -> Q) :
  sum_to m (fun i => w i * sum_to m (fun k => gram_of i k * w k)) ==
  sum_to n (fun l => fit w l * fit w l).
Proof.
  rewrite (sum_to_ext n _ (fun l => sum_to m (fun i => w i * (phi i l * fit w l)))).
  - rewrite sum_to_exchange. apply sum_to_ext. intros i _.
    rewrite sum_to_scale, sum_fit. apply Qmult_comp; [reflexivity|].
    apply sum_to_ext. intros k _. rewrite (gram_of_sym i k). ring.
  - intros l _. unfold fit at 1. rewrite Qmult_comm, <- sum_to_scale.
    apply sum_to_ext. intros i _. ring.
Qed.

(** A combination of the regressors that vanishes on the samples is in
    the kernel of the matrix. *)
Lemma gram_kernel (w : nat -> Q) (i : nat) :
  (forall l, (l < n)%nat -> fit w l == 0) ->
  sum_to m (fun k => gram_of i k * w k) == 0.
Proof.
  intros Z. rewrite (sum_to_ext m _ (fun k => w k * gram_of k i))
    by (intros k _; rewrite (gram_of_sym i k); ring).
  rewrite <- sum_fit. apply sum_to_zero_ext. intros l Hl. rewrite (Z l Hl). ring.
Qed.

(** The matrix of the normal equations of independent regressors is
    non-singular. *)
Lemma gram_nonsingular (G : list (list Q)) :
  (forall i k, (i < m)%nat -> (k < m)%nat -> entry G i k == gram_of i k) ->
  independent -> nonsingular m G.
Proof.
  intros EG Hind w Hw. apply Hind. intros l Hl.
  assert (sum_to n (fun l => fit w l * fit w l) == 0) as Z.
  { rewrite <- gram_quadratic. apply sum_to_zero_ext. intros i Hi.
    rewrite (sum_to_ext m _ (fun k => entry G i k * w k))
      by (intros k Hk; now rewrite EG).
    rewrite (Hw i Hi). ring. }
  pose proof (sum_to_nonneg_zero n _ (fun l => Qsquare_nonneg (fit w l)) Z l Hl) as Z2.
  destruct (Qmult_integral _ _ Z2); assumption.
Qed.

Variable a : nat -> Q.
Hypothesis a_normal : normal a.

(** The residuals of a solution are orthogonal to each regressor, and so
    to every fit. *)
Lemma residual_orthogonal (i : nat) :
  (i < m)%nat -> sum_to n (fun l => phi i l * (y l - fit a l)) == 0.
Proof.
  intros Hi.
  rewrite (sum_to_ext _ _ (fun l => phi i l * y l + (-(1)) * (phi i l * fit a l)))
    by (intros; ring).
  rewrite sum_to_add, sum_to_scale, sum_fit, (a_normal i Hi). unfold moment_of. ring.
Qed.

Lemma residual_orthogonal_fit (c : nat -> Q) :
  sum_to n (fun l => fit c l * (y l - fit a l)) == 0.
Proof.
  unfold fit at 1.
  rewrite (sum_to_ext _ _ (fun l => sum_to m (fun j => c j * (phi j l * (y l - fit a l))))).
  - rewrite sum_to_exchange.
    rewrite (sum_to_ext _ _ (fun _ => 0)); [apply sum_to_zero|].
    intros j Hj. rewrite sum_to_scale, residual_orthogonal by exact Hj. ring.
  - intros l _. rewrite Qmult_comm, <- sum_to_scale. apply sum_to_ext. intros j _. ring.
Qed.

(** The sum of squares of any fit exceeds that of a solution by the sum
    of the squares of the difference of the fits. *)
Lemma sse_split (c : nat -> Q) :
  sse c == sse a + sum_to n (fun l => (fit a l - fit c l) * (fit a l - fit c l)).
Proof.
  unfold sse. rewrite <- sum_to_add.
  pose proof (residual_orthogonal_fit a) as Oa. pose proof (residual_orthogonal_fit c) as Oc.
  assert (sum_to n (fun l => (-(2)) * (fit a l * (y l - fit a l))
                             + 2 * (fit c l * (y l - fit a l))) == 0) as O.
  { rewrite sum_to_add, !sum_to_scale, Oa, Oc. reflexivity. }
  rewrite <- (Qplus_0_r (sum_to n (fun l => (y l - fit c l) * (y l - fit c l)))), <- O.
  rewrite <- sum_to_add. apply sum_to_ext. intros l _. cbv beta. ring.
Qed.

(** A solution of the normal equations is a least-squares fit. *)
Theorem normal_least_squares (c : nat -> Q) : sse a <= sse c.
Proof.
  rewrite (sse_split c).
  assert (0 <= sum_to n (fun l => (fit a l - fit c l) * (fit a l - fit c l))) as P.
  { apply sum_to_nonneg. intros l. set (t := fit a l - fit c l). nra. }
  lra.
Qed.

End Normal.
