(* ===== verification/PolynomialRegression.v ===== *)
(** * PolynomialRegression: polynomial and multiple linear regression

    The classes [PolynomialRegression] and [MultipleLinearRegression] of
    [src/numerics/curveFitting.py].  [np.array(xValues)] is an array of
    one dimension (a list of numbers: the regression is polynomial) or
    of two (a list of lists, one per regressor: it is linear in them);
    [ndim > 1] tells them apart.  The matrix [_A] and the vector [_B] of
    the normal equations are arrays of [Table], made by [np.empty] and
    holding [junkA] and [junkB] until assigned.  A row index [i - 1] of
    the two-dimensional array may be [-1], which numpy counts from the
    end.  [x ** k], an integer power, is a product of [k] factors.

    [np.linalg.inv] and [np.matmul] are numpy's, modelled in
    [LinearAlgebra]: the inverse is a parameter of the model ([inv], the
    method of the class [LinAlg]).  An object of the class
    is the record [polynomial]; the attributes [_A], [_B] and [_a] exist
    once [__compute] has run, which [__init__] skips, printing a
    message, when there are fewer than [order + 1] ordinates:
    [results] then raises [AttributeError].

    [gram] and [moment] are the sums that the loops compute; the theorem
    [PolynomialRegression_Ret] shows that the loops assign every entry
    of [_A] and [_B] and what they hold. *)

From Stdlib Require Import ZArith QArith List Bool Lia ZifyBool.
From S2P Require Import Prelude NumQ Table LinearAlgebra.
Import ListNotations.

Section Methods.
Context {T : Type} `{Num T} `{LinAlg T}.

#[local] Open Scope nat_scope.
#[local] Open Scope outcome_scope.

(** ** Arrays *)

(** The array [np.array(xValues)]: [ndim > 1] is the second case. *)
Inductive ndarray : Type :=
  | Array1 (v : list T)
  | Array2 (rows : list (list T)).

(** [x ** k] for an integer [k >= 0]. *)
Fixpoint power_nat (x : T) (k : nat) : T :=
  match k with
  | O => num_of_Z 1
  | S k => (x * power_nat x k)%num
  end.

Definition power (x : T) (k : Z) : T := power_nat x (Z.to_nat k).

(** ** The class *)

Record polynomial : Type := {
  _xValues : ndarray;
  _yValues : list T;
  _n : Z;
  _order : Z;
  _A : option (list (list T));
  _B : option (list T);
  _a : option (list T)
}.

(** The body of [for l in range(self._n)] in the sum for [_A[i][j]]; the
    test [self._xValues.ndim > 1] is the case analysis. *)
Definition sum_A (x : ndarray) (i j k l : Z) (sum : T) : outcome T :=
  match x with
  | Array2 rows =>
      if (j >? 0)%Z then
        ri <- getitem_int rows (i - 1) ;;
        a <- getitem ri (Z.to_nat l) ;;
        rj <- getitem_int rows (j - 1) ;;
        b <- getitem rj (Z.to_nat l) ;;
        Ret (sum + a * b)%num
      else
        ri <- getitem_int rows (i - 1) ;;
        a <- getitem ri (Z.to_nat l) ;;
        Ret (sum + a)%num
  | Array1 v =>
      a <- getitem v (Z.to_nat l) ;;
      Ret (sum + power a k)%num
  end.

(** The body of [for l in range(self._n)] in the sum for [_B[i]]. *)
Definition sum_B (x : ndarray) (y : list T) (i l : Z) (sumB : T) : outcome T :=
  match x with
  | Array2 rows =>
      if (i =? 0)%Z then
        b <- getitem y (Z.to_nat l) ;;
        Ret (sumB + b)%num
      else
        ri <- getitem_int rows (i - 1) ;;
        a <- getitem ri (Z.to_nat l) ;;
        b <- getitem y (Z.to_nat l) ;;
        Ret (sumB + a * b)%num
  | Array1 v =>
      a <- getitem v (Z.to_nat l) ;;
      b <- getitem y (Z.to_nat l) ;;
      Ret (sumB + power a i * b)%num
  end.

(** The body of [for j in range(i+1)]. *)
Definition entry_A (x : ndarray) (n i j : Z) (tA : list (list T))
  : outcome (list (list T)) :=
  let k := (i + j)%Z in
  let sum := num_of_Z 0 in
  sum <- for_each (range 0 n) (sum_A x i j k) sum ;;
  tA <- set2 tA (Z.to_nat i) (Z.to_nat j) sum ;;
  tA <- set2 tA (Z.to_nat j) (Z.to_nat i) sum ;;
  if ((i =? 0) && (j =? 0))%Z then set2 tA (Z.to_nat i) (Z.to_nat j) (num_of_Z n)
  else Ret tA.

(** The body of [for i in range(self._order + 1)]. *)
Definition row_AB (x : ndarray) (y : list T) (n i : Z) (s : list (list T) * list T)
  : outcome (list (list T) * list T) :=
  tA <- for_each (range 0 (i + 1)) (entry_A x n i) (fst s) ;;
  let sumB := num_of_Z 0 in
  sumB <- for_each (range 0 n) (sum_B x y i) sumB ;;
  tB <- setitem (snd s) (Z.to_nat i) sumB ;;
  Ret (tA, tB).

(** [__compute]. *)
Definition PolynomialRegression_compute (junkA : nat -> nat -> T) (junkB : nat -> T)
    (self : polynomial) : outcome polynomial :=
  tA <- np_empty junkA (_order self + 1) ;;
  tB <- np_empty1 junkB (_order self + 1) ;;
  s <- for_each (range 0 (_order self + 1))
         (row_AB (_xValues self) (_yValues self) (_n self)) (tA, tB) ;;
  Ainv <- inv (fst s) ;;
  a <- matmul (snd s) Ainv ;;
  Ret {| _xValues := _xValues self; _yValues := _yValues self; _n := _n self;
         _order := _order self; _A := Some (fst s); _B := Some (snd s); _a := Some a |}.

(** [__init__]; the message is printed and the attributes stay unset
    when the data are too few. *)
Definition PolynomialRegression (junkA : nat -> nat -> T) (junkB : nat -> T)
    (xValues : ndarray) (yValues : list T) (order : Z) : outcome polynomial :=
  let self := {| _xValues := xValues; _yValues := yValues;
                 _n := Z.of_nat (length yValues); _order := order;
                 _A := None; _B := None; _a := None |} in
  if (_n self <? order + 1)%Z then Ret self
  else PolynomialRegression_compute junkA junkB self.

Definition PolynomialRegression_results (self : polynomial) : outcome (list T) :=
  match _a self with
  | Some a => Ret a
  | None => Raise AttributeError
  end.

(** ** [MultipleLinearRegression] *)

Record multiple : Type := { res : polynomial }.

Definition MultipleLinearRegression (junkA : nat -> nat -> T) (junkB : nat -> T)
    (xValues : ndarray) (yValues : list T) : outcome multiple :=
  r <- PolynomialRegression junkA junkB xValues yValues 2 ;;
  Ret {| res := r |}.

Definition MultipleLinearRegression_results (self : multiple) : outcome (list T) :=
  PolynomialRegression_results (res self).

(** ** The sums *)

(** The row [i - 1] of a two-dimensional array, counted from the end
    when negative. *)
Definition row_int (rows : list (list T)) (z : Z) : list T :=
  nth (Z.to_nat (if (z <? 0)%Z then z + Z.of_nat (length rows) else z)%Z) rows [].

(** The value of regressor [i] at sample [l]: for a polynomial the power
    [x_l ^ i]; for several regressors the constant 1 and then the rows. *)
Definition feature (x : ndarray) (d : T) (i l : nat) : T :=
  match x with
  | Array1 v => power_nat (nth l v d) i
  | Array2 rows => nth l (row_int rows (Z.of_nat i - 1)) d
  end.

(** What the loop adds to the sum for [_A[i][j]] at sample [l]. *)
Definition term_A (x : ndarray) (d : T) (i j l : nat) : T :=
  match x with
  | Array1 v => power_nat (nth l v d) (i + j)
  | Array2 rows =>
      if 0 <? j then (feature x d i l * feature x d j l)%num else feature x d i l
  end.

Definition term_B (x : ndarray) (y : list T) (d : T) (i l : nat) : T :=
  match x with
  | Array1 v => (feature x d i l * nth l y d)%num
  | Array2 rows => if i =? 0 then nth l y d else (feature x d i l * nth l y d)%num
  end.

(** The sums over the [n] samples, added from the left. *)
Definition gram (x : ndarray) (d : T) (n i j : nat) : T :=
  fold_left (fun s l => (s + term_A x d i j l)%num) (seq 0 n) (num_of_Z 0).

Definition moment (x : ndarray) (y : list T) (d : T) (n i : nat) : T :=
  fold_left (fun s l => (s + term_B x y d i l)%num) (seq 0 n) (num_of_Z 0).

(** The entry [(a, b)] of [_A] once assigned: the number of samples in
    the corner, the sum of the pair of regressors elsewhere. *)
Definition normal_entry (x : ndarray) (d : T) (n a b : nat) : T :=
  if (a =? 0) && (b =? 0) then num_of_Z (Z.of_nat n)
  else gram x d n (Nat.max a b) (Nat.min a b).

(** The data fit the loops: enough abscissas for the [n] ordinates, and
    for several regressors at least [order] rows, and one. *)
Definition fits (x : ndarray) (n order : nat) : Prop :=
  match x with
  | Array1 v => n <= length v
  | Array2 rows =>
      1 <= length rows /\ order <= length rows /\ Forall (fun row => n <= length row) rows
  end.

(** ** The states of the loops *)

(** The entries of [_A] assigned after [i] rows and [j] entries of row
    [i], and the table then. *)
Definition normal_assigned (i j a b : nat) : bool :=
  (Nat.max a b <? i) || ((Nat.max a b =? i) && (Nat.min a b <? j)).

#[local] Hint Unfold normal_assigned : index.

Definition A_state (junkA : nat -> nat -> T) (x : ndarray) (d : T) (n m i j : nat)
  : list (list T) :=
  tabulate2 (fun a b => if normal_assigned i j a b then normal_entry x d n a b else junkA a b) m m.

Definition B_state (junkB : nat -> T) (x : ndarray) (y : list T) (d : T) (n m i : nat)
  : list T :=
  tabulate (fun a => if a <? i then moment x y d n a else junkB a) m.

(** ** The loops compute the sums *)

Section Loops.
Variables (junkA : nat -> nat -> T) (junkB : nat -> T).
Variables (x : ndarray) (y : list T) (d : T) (n order : nat).
Hypothesis x_fits : fits x n order.
Hypothesis y_long : n <= length y.

Lemma ndarray_cases : (exists v, x = Array1 v) \/ (exists rows, x = Array2 rows).
Proof. clear. destruct x; eauto. Qed.

Lemma getitem_int_row (rows : list (list T)) (i : nat) :
  1 <= length rows -> i <= length rows ->
  getitem_int rows (Z.of_nat i - 1) = Ret (row_int rows (Z.of_nat i - 1)).
Proof.
  intros H1 Hi. unfold getitem_int, row_int.
  destruct (Z.ltb_spec (Z.of_nat i - 1) 0) as [N|N].
  - replace (Z.of_nat i - 1 + Z.of_nat (length rows) <? 0)%Z with false by lia.
    apply getitem_nth. lia.
  - replace (Z.of_nat i - 1 <? 0)%Z with false by lia. apply getitem_nth. lia.
Qed.

Lemma row_int_long (rows : list (list T)) (i : nat) :
  x = Array2 rows -> i <= order -> n <= length (row_int rows (Z.of_nat i - 1)).
Proof.
  intros Ex Hi. pose proof x_fits as F. rewrite Ex in F. destruct F as (H1 & Ho & Hall).
  rewrite Forall_forall in Hall. apply Hall. unfold row_int. apply nth_In.
  destruct (Z.ltb_spec (Z.of_nat i - 1) 0); lia.
Qed.

Lemma getitem_feature (rows : list (list T)) (i l : nat) :
  x = Array2 rows -> i <= order -> l < n ->
  (ri <- getitem_int rows (Z.of_nat i - 1) ;; getitem ri l) = Ret (feature x d i l).
Proof.
  intros Ex Hi Hl. pose proof x_fits as F. rewrite Ex in F. destruct F as (H1 & Ho & _).
  rewrite getitem_int_row by lia. cbn [bind]. rewrite Ex. cbn [feature].
  apply getitem_nth. pose proof (row_int_long rows i Ex Hi). lia.
Qed.

Lemma sum_A_Ret (i j l : nat) (s : T) :
  j <= i -> i <= order -> l < n ->
  sum_A x (Z.of_nat i) (Z.of_nat j) (Z.of_nat i + Z.of_nat j) (Z.of_nat l) s =
  Ret (s + term_A x d i j l)%num.
Proof.
  intros Hj Hi Hl. unfold sum_A, term_A. rewrite Nat2Z.id. pose proof x_fits as F.
  destruct ndarray_cases as [[v Ex]|[rows Ex]].
  - rewrite Ex in *. cbn in F. rewrite (getitem_nth _ _ d) by lia. cbn [bind].
    unfold power. now replace (Z.to_nat (Z.of_nat i + Z.of_nat j)) with (i + j) by lia.
  - pose proof (getitem_feature rows i l Ex Hi Hl) as Ei.
    pose proof (getitem_feature rows j l Ex ltac:(lia) Hl) as Ej.
    rewrite Ex in Ei, Ej |- *.
    destruct (getitem_int rows (Z.of_nat i - 1)) as [ri| |]; try discriminate.
    destruct (getitem_int rows (Z.of_nat j - 1)) as [rj| |]; try discriminate.
    cbn [bind] in *. rewrite Ei.
    destruct (Nat.ltb_spec 0 j) as [P|P].
    + replace (Z.of_nat j >? 0)%Z with true by lia. cbn [bind]. now rewrite Ej.
    + replace (Z.of_nat j >? 0)%Z with false by lia. reflexivity.
Qed.

Lemma sum_B_Ret (i l : nat) (s : T) :
  i <= order -> l < n ->
  sum_B x y (Z.of_nat i) (Z.of_nat l) s = Ret (s + term_B x y d i l)%num.
Proof.
  intros Hi Hl. unfold sum_B, term_B. rewrite Nat2Z.id. pose proof x_fits as F.
  destruct ndarray_cases as [[v Ex]|[rows Ex]].
  - rewrite Ex in *. cbn in F. rewrite !(getitem_nth _ _ d) by lia. cbn [bind].
    unfold power. now rewrite Nat2Z.id.
  - pose proof (getitem_feature rows i l Ex Hi Hl) as Ei. rewrite Ex in Ei |- *.
    destruct (Nat.eqb_spec i 0) as [-> | P].
    + cbn [Z.of_nat Z.eqb]. now rewrite (getitem_nth _ _ d) by lia.
    + replace (Z.of_nat i =? 0)%Z with false by lia.
      destruct (getitem_int rows (Z.of_nat i - 1)) as [ri| |]; try discriminate.
      cbn [bind] in *. rewrite Ei. cbn [bind]. now rewrite (getitem_nth _ _ d) by lia.
Qed.

Lemma gram_loop (i j : nat) :
  j <= i -> i <= order ->
  for_each (range 0 (Z.of_nat n)) (sum_A x (Z.of_nat i) (Z.of_nat j) (Z.of_nat i + Z.of_nat j))
    (num_of_Z 0) = Ret (gram x d n i j).
Proof. intros Hj Hi. apply for_range0_fold. intros l s Hl. now apply sum_A_Ret. Qed.

Lemma moment_loop (i : nat) :
  i <= order ->
  for_each (range 0 (Z.of_nat n)) (sum_B x y (Z.of_nat i)) (num_of_Z 0) =
  Ret (moment x y d n i).
Proof. intros Hi. apply for_range0_fold. intros l s Hl. now apply sum_B_Ret. Qed.

Lemma normal_assigned_step (i j a b : nat) :
  j <= i ->
  normal_assigned i (S j) a b =
  normal_assigned i j a b || ((a =? i) && (b =? j)) || ((a =? j) && (b =? i)).
Proof. intros Hj. index_cases. Qed.

Lemma normal_entry_below (i j : nat) :
  j <= i -> i <> 0 ->
  normal_entry x d n i j = gram x d n i j /\ normal_entry x d n j i = gram x d n i j.
Proof.
  intros Hj Hi. unfold normal_entry.
  replace (Nat.max i j) with i by lia. replace (Nat.min i j) with j by lia.
  replace (Nat.max j i) with i by lia. replace (Nat.min j i) with j by lia.
  replace (i =? 0) with false by index_cases. now rewrite Bool.andb_false_r.
Qed.

(** One entry of [_A] and its mirror image. *)
Lemma entry_A_state (i j : nat) :
  j <= i -> i <= order ->
  entry_A x (Z.of_nat n) (Z.of_nat i) (Z.of_nat j) (A_state junkA x d n (S order) i j) =
  Ret (A_state junkA x d n (S order) i (S j)).
Proof.
  intros Hj Hi. unfold entry_A. cbv zeta. rewrite gram_loop by assumption. cbn [bind].
  rewrite !Nat2Z.id. unfold A_state. rewrite set2_tabulate2 by lia. cbn [bind].
  rewrite set2_tabulate2 by lia. cbn [bind].
  destruct (Nat.eqb_spec i 0) as [-> | Ni].
  - replace j with 0 by lia. cbn [Z.of_nat Z.eqb andb]. rewrite set2_tabulate2 by lia.
    f_equal. apply tabulate2_ext. intros a b _ _. unfold normal_entry.
    destruct a, b; cbn [Nat.eqb andb]; index_cases.
  - replace ((Z.of_nat i =? 0)%Z && (Z.of_nat j =? 0)%Z) with false by lia.
    f_equal. apply tabulate2_ext. intros a b _ _.
    rewrite normal_assigned_step by exact Hj.
    destruct (normal_entry_below i j Hj Ni) as [E1 E2].
    destruct ((a =? j) && (b =? i)) eqn:Eji.
    + apply andb_prop in Eji as [->%Nat.eqb_eq ->%Nat.eqb_eq].
      now rewrite Bool.orb_true_r, E2.
    + destruct ((a =? i) && (b =? j)) eqn:Eij.
      * apply andb_prop in Eij as [->%Nat.eqb_eq ->%Nat.eqb_eq].
        now rewrite Bool.orb_true_r, E1.
      * now rewrite !Bool.orb_false_r.
Qed.

Lemma row_AB_state (i : nat) :
  i <= order ->
  row_AB x y (Z.of_nat n) (Z.of_nat i)
    (A_state junkA x d n (S order) i 0, B_state junkB x y d n (S order) i) =
  Ret (A_state junkA x d n (S order) (S i) 0, B_state junkB x y d n (S order) (S i)).
Proof.
  intros Hi. unfold row_AB. cbn [fst snd].
  rewrite (for_range0_eq (fun j => A_state junkA x d n (S order) i j))
    by (intros j Hj; apply entry_A_state; lia).
  cbn [bind]. rewrite moment_loop by exact Hi. cbn [bind]. rewrite Nat2Z.id.
  unfold B_state. rewrite setitem_tabulate by lia. cbn [bind]. f_equal. f_equal.
  - replace (Z.to_nat (Z.of_nat i + 1)) with (S i) by lia. apply tabulate2_ext.
    intros a b _ _.
    replace (normal_assigned (S i) 0 a b) with (normal_assigned i (S i) a b); [reflexivity|].
    index_cases.
  - apply tabulate_ext. intros a _. destruct (Nat.eqb_spec a i) as [-> | Na].
    + now replace (i <? S i) with true by index_cases.
    + replace (a <? S i) with (a <? i); [reflexivity|]. index_cases.
Qed.

(** The two arrays when the loops are over: no entry is left as
    [np.empty] made it. *)
Lemma normal_loops :
  (tA <- np_empty junkA (Z.of_nat order + 1) ;;
   tB <- np_empty1 junkB (Z.of_nat order + 1) ;;
   for_each (range 0 (Z.of_nat order + 1)) (row_AB x y (Z.of_nat n)) (tA, tB)) =
  Ret (tabulate2 (normal_entry x d n) (S order) (S order),
       tabulate (moment x y d n) (S order)).
Proof.
  unfold np_empty, np_empty1. replace (Z.of_nat order + 1 <? 0)%Z with false by lia.
  cbn [bind]. replace (Z.to_nat (Z.of_nat order + 1)) with (S order) by lia.
  assert (tabulate2 junkA (S order) (S order) = A_state junkA x d n (S order) 0 0) as ->
    by (apply tabulate2_ext; intros a b _ _;
        now replace (normal_assigned 0 0 a b) with false by index_cases).
  assert (tabulate junkB (S order) = B_state junkB x y d n (S order) 0) as ->
    by (apply tabulate_ext; intros a _; reflexivity).
  rewrite (for_range0_eq (fun i => (A_state junkA x d n (S order) i 0,
                                      B_state junkB x y d n (S order) i)))
    by (intros i Hi; apply row_AB_state; lia).
  replace (Z.to_nat (Z.of_nat order + 1)) with (S order) by lia. f_equal. f_equal.
  - apply tabulate2_ext. intros a b Ha Hb.
    now replace (normal_assigned (S order) 0 a b) with true by index_cases.
  - apply tabulate_ext. intros a Ha. now replace (a <? S order) with true by index_cases.
Qed.

End Loops.

(** What [__init__] computes on data that fit. *)
Lemma PolynomialRegression_Ret (junkA : nat -> nat -> T) (junkB : nat -> T)
    (x : ndarray) (y : list T) (d : T) (order : Z) :
  (0 <= order)%Z -> (order + 1 <= Z.of_nat (length y))%Z ->
  fits x (length y) (Z.to_nat order) ->
  let m := S (Z.to_nat order) in
  let tA := tabulate2 (normal_entry x d (length y)) m m in
  let tB := tabulate (moment x y d (length y)) m in
  PolynomialRegression junkA junkB x y order =
  (Ainv <- inv tA ;;
   a <- matmul tB Ainv ;;
   Ret {| _xValues := x; _yValues := y; _n := Z.of_nat (length y); _order := order;
          _A := Some tA; _B := Some tB; _a := Some a |}).
Proof.
  intros Ho Hn Hx m tA tB. unfold PolynomialRegression. cbn [_n].
  replace (Z.of_nat (length y) <? order + 1)%Z with false by lia.
  unfold PolynomialRegression_compute. cbn [_order _xValues _yValues _n].
  pose proof (normal_loops junkA junkB x y d (length y) (Z.to_nat order) Hx (le_n _)) as E.
  replace (Z.of_nat (Z.to_nat order)) with order in E by lia. revert E.
  destruct (np_empty junkA (order + 1)) as [tA0| |]; cbn [bind]; try discriminate.
  destruct (np_empty1 junkB (order + 1)) as [tB0| |]; cbn [bind]; try discriminate.
  now intros ->.
Qed.

(** C29. [PolynomialRegression] assembles the normal equations.  On
    data that fit ([order >= 0], at least [order + 1] ordinates, an
    abscissa for each, and for several regressors at least [order]
    rows), [__init__] hands to [np.linalg.inv] the matrix whose entry
    [(a, b)] is the sum over the samples of the product of regressors
    [a] and [b], and to [np.matmul] the vector of the sums of each
    regressor times the ordinate, whatever [np.empty] left in the
    arrays. *)
Theorem PolynomialRegression_assembles (junkA : nat -> nat -> T) (junkB : nat -> T)
    (x : ndarray) (y : list T) (d : T) (order : Z) :
  (0 <= order)%Z -> (order + 1 <= Z.of_nat (length y))%Z ->
  fits x (length y) (Z.to_nat order) ->
  let m := S (Z.to_nat order) in
  let tA := tabulate2 (normal_entry x d (length y)) m m in
  let tB := tabulate (moment x y d (length y)) m in
  PolynomialRegression junkA junkB x y order =
  (Ainv <- inv tA ;;
   a <- matmul tB Ainv ;;
   Ret {| _xValues := x; _yValues := y; _n := Z.of_nat (length y); _order := order;
          _A := Some tA; _B := Some tB; _a := Some a |}).
Proof. exact (PolynomialRegression_Ret junkA junkB x y d order). Qed.

(** With fewer than [order + 1] ordinates [__init__] only prints, and
    [results] finds no attribute [_a]. *)
Theorem PolynomialRegression_too_few (junkA : nat -> nat -> T) (junkB : nat -> T)
    (x : ndarray) (y : list T) (order : Z) :
  (Z.of_nat (length y) < order + 1)%Z ->
  (self <- PolynomialRegression junkA junkB x y order ;; PolynomialRegression_results self) =
  Raise AttributeError.
Proof.
  intros Hn. unfold PolynomialRegression. cbn [_n].
  now replace (Z.of_nat (length y) <? order + 1)%Z with true by lia.
Qed.

(** ** The shapes of the arrays *)

Lemma entry_A_shape (x : ndarray) (n i j : Z) (m : nat) (tA tA' : list (list T)) :
  shape m m tA -> entry_A x n i j tA = Ret tA' -> shape m m tA'.
Proof.
  intros Hs. unfold entry_A. cbv zeta.
  destruct (for_each _ _ _) as [sum| |]; cbn [bind]; try discriminate.
  destruct (set2 tA _ _ sum) as [t1| |] eqn:E1; cbn [bind]; try discriminate.
  destruct (set2 t1 _ _ sum) as [t2| |] eqn:E2; cbn [bind]; try discriminate.
  pose proof (set2_shape _ _ _ _ _ _ _ (set2_shape _ _ _ _ _ _ _ Hs E1) E2) as H2.
  destruct ((i =? 0)%Z && (j =? 0)%Z); [now apply set2_shape | now intros [= <-]].
Qed.

Lemma row_AB_shape (x : ndarray) (y : list T) (n i : Z) (m : nat)
    (s s' : list (list T) * list T) :
  shape m m (fst s) /\ length (snd s) = m -> row_AB x y n i s = Ret s' ->
  shape m m (fst s') /\ length (snd s') = m.
Proof.
  intros [HA HB]. unfold row_AB.
  destruct (for_each _ (entry_A x n i) _) as [tA| |] eqn:EA; cbn [bind]; try discriminate.
  destruct (for_each _ (sum_B x y i) _) as [sumB| |]; cbn [bind]; try discriminate.
  destruct (setitem _ _ sumB) as [tB| |] eqn:EB; cbn [bind]; try discriminate.
  intros [= <-]. cbn [fst snd]. split.
  - apply (for_each_preserves (shape m m) _ _ _ _ (fun j t t' => entry_A_shape x n i j m t t')
             HA EA).
  - apply setitem_length in EB. congruence.
Qed.

(** C26. The attributes of a [PolynomialRegression] object are well
    formed.  Whatever the data, when [__init__] returns, either the
    ordinates were too few and none of [_A], [_B], [_a] exists, or all
    three exist, [_A] is a square array of [order + 1] rows and [_B] has
    [order + 1] entries: no assignment of the loops has changed a
    shape. *)
Theorem PolynomialRegression_shapes (junkA : nat -> nat -> T) (junkB : nat -> T)
    (x : ndarray) (y : list T) (order : Z) (self : polynomial) :
  PolynomialRegression junkA junkB x y order = Ret self ->
  match _A self, _B self, _a self with
  | Some tA, Some tB, Some _ =>
      (order + 1 <= Z.of_nat (length y))%Z /\
      shape (Z.to_nat (order + 1)) (Z.to_nat (order + 1)) tA /\
      length tB = Z.to_nat (order + 1)
  | None, None, None => (Z.of_nat (length y) < order + 1)%Z
  | _, _, _ => False
  end.
Proof.
  unfold PolynomialRegression. cbn [_n].
  destruct (Z.ltb_spec (Z.of_nat (length y)) (order + 1)) as [L|L];
    [now intros [= <-]|].
  unfold PolynomialRegression_compute, np_empty, np_empty1. cbn [_order _xValues _yValues _n].
  destruct (order + 1 <? 0)%Z; cbn [bind]; try discriminate.
  destruct (for_each _ _ _) as [s| |] eqn:Es; cbn [bind]; try discriminate.
  destruct (inv (fst s)) as [Ainv| |]; cbn [bind]; try discriminate.
  destruct (matmul (snd s) Ainv) as [a| |]; cbn [bind]; try discriminate.
  intros [= <-]. cbn [_A _B _a]. split; [exact L|].
  apply (for_each_preserves
           (fun s => shape (Z.to_nat (order + 1)) (Z.to_nat (order + 1)) (fst s) /\
                     length (snd s) = Z.to_nat (order + 1))
           _ _ _ _ (fun i s s' => row_AB_shape x y _ i _ s s')) in Es; [exact Es|].
  cbn [fst snd]. split; [apply tabulate2_shape | apply tabulate_length].
Qed.

(** ** [MultipleLinearRegression] reads two regressors *)

Lemma fold_left_ext_in {B C : Type} (f g : C -> B -> C) (l : list B) (c : C) :
  (forall c b, In b l -> f c b = g c b) -> fold_left f l c = fold_left g l c.
Proof.
  revert c. induction l as [|b l IH]; intros c E; [reflexivity|]. cbn [fold_left].
  rewrite E by now left. apply IH. intros c' b' Hin. apply E. now right.
Qed.

Lemma feature_two (x1 x2 : list T) (more : list (list T)) (d : T) (i l : nat) :
  1 <= i <= 2 ->
  feature (Array2 (x1 :: x2 :: more)) d i l = feature (Array2 [x1; x2]) d i l.
Proof. intros Hi. destruct i as [|[|[|i]]]; try lia; reflexivity. Qed.

(** [MultipleLinearRegression] passes [order = 2]: the fit has three
    coefficients and the regressors after the second are not part of it.
    The result on any number of regressors is the result on the first
    two. *)
Theorem MultipleLinearRegression_two_regressors (junkA : nat -> nat -> T) (junkB : nat -> T)
    (x1 x2 : list T) (more : list (list T)) (y : list T) :
  3 <= length y -> length y <= length x1 -> length y <= length x2 ->
  Forall (fun row => length y <= length row) more ->
  (self <- MultipleLinearRegression junkA junkB (Array2 (x1 :: x2 :: more)) y ;;
   MultipleLinearRegression_results self) =
  (self <- MultipleLinearRegression junkA junkB (Array2 [x1; x2]) y ;;
   MultipleLinearRegression_results self).
Proof.
  intros Hn H1 H2 Hm. unfold MultipleLinearRegression.
  assert (d : T) by exact (num_of_Z 0).
  rewrite !(PolynomialRegression_Ret junkA junkB _ y d 2);
    try lia; try (cbn [fits length]; repeat split; try lia; repeat constructor; assumption).
  cbv zeta.
  assert (tabulate2 (normal_entry (Array2 (x1 :: x2 :: more)) d (length y)) (S (Z.to_nat 2))
            (S (Z.to_nat 2)) =
          tabulate2 (normal_entry (Array2 [x1; x2]) d (length y)) (S (Z.to_nat 2))
            (S (Z.to_nat 2))) as ->.
  { apply tabulate2_ext. intros a b Ha Hb. change (Z.to_nat 2) with 2 in *.
    unfold normal_entry. destruct ((a =? 0) && (b =? 0)) eqn:E; [reflexivity|].
    apply fold_left_ext_in. intros s l _. f_equal. cbn [term_A].
    assert (1 <= Nat.max a b <= 2) as Hmax
      by (apply Bool.andb_false_iff in E; destruct E as [E|E]; apply Nat.eqb_neq in E; lia).
    destruct (Nat.ltb_spec 0 (Nat.min a b));
      rewrite !(feature_two x1 x2 more) by lia; reflexivity. }
  assert (tabulate (moment (Array2 (x1 :: x2 :: more)) y d (length y)) (S (Z.to_nat 2)) =
          tabulate (moment (Array2 [x1; x2]) y d (length y)) (S (Z.to_nat 2))) as ->.
  { apply tabulate_ext. intros a Ha. change (Z.to_nat 2) with 2 in *.
    apply fold_left_ext_in. intros s l _. f_equal. cbn [term_B].
    destruct (Nat.eqb_spec a 0); [reflexivity|].
    rewrite (feature_two x1 x2 more) by lia. reflexivity. }
  destruct (inv _) as [Ainv| |]; cbn [bind]; try reflexivity.
  destruct (matmul _ Ainv) as [a| |]; reflexivity.
Qed.

End Methods.

Arguments ndarray T : clear implicits.
Arguments polynomial T : clear implicits.
Arguments multiple T : clear implicits.


(** ** Runs and witnesses, over the rationals *)

(** Memory that holds 99 and 77. *)
Definition junk99 (i j : nat) : Q := 99%Q.
Definition junk77 (i : nat) : Q := 77%Q.

(** One regressor only: the third row of the loop looks for a second. *)
Lemma MultipleLinearRegression_one_regressor :
  MultipleLinearRegression junk99 junk77 (Array2 [[0; 1; 2; 3]]) [1; 3; 4; 6]%Q
  = Raise IndexError.
Proof. vm_compute. reflexivity. Qed.

Lemma PolynomialRegression_assembles_witness :
  let x := Array1 [0; 1; 2; 3]%Q in
  let y := [1; 6; 17; 34]%Q in
  let tA := tabulate2 (normal_entry x 0%Q 4) 3 3 in
  let tB := tabulate (moment x y 0%Q 4) 3 in
  PolynomialRegression junk99 junk77 x y 2 =
  (Ainv <- inv tA ;;
   a <- matmul tB Ainv ;;
   Ret {| _xValues := x; _yValues := y; _n := 4; _order := 2;
          _A := Some tA; _B := Some tB; _a := Some a |})%outcome.
Proof.
  apply (PolynomialRegression_assembles junk99 junk77 (Array1 [0; 1; 2; 3]%Q)
           [1; 6; 17; 34]%Q 0%Q 2); cbn; lia.
Defined.

Lemma PolynomialRegression_shapes_witness :
  exists self,
    PolynomialRegression junk99 junk77 (Array1 [0; 1; 2; 3]%Q) [1; 6; 17; 34]%Q 2 = Ret self /\
    match _A self, _B self, _a self with
    | Some tA, Some tB, Some _ =>
        (2 + 1 <= Z.of_nat (length [1; 6; 17; 34]%Q))%Z /\
        shape (Z.to_nat (2 + 1)) (Z.to_nat (2 + 1)) tA /\ length tB = Z.to_nat (2 + 1)
    | None, None, None => (Z.of_nat (length [1; 6; 17; 34]%Q) < 2 + 1)%Z
    | _, _, _ => False
    end.
Proof.
  destruct (PolynomialRegression junk99 junk77 (Array1 [0; 1; 2; 3]%Q) [1; 6; 17; 34]%Q 2)
    as [self| |] eqn:E; try (vm_compute in E; discriminate).
  exists self. split; [reflexivity|].
  exact (PolynomialRegression_shapes junk99 junk77 _ _ _ self E).
Defined.

Lemma PolynomialRegression_too_few_witness :
  (self <- PolynomialRegression junk99 junk77 (Array1 [0; 1]%Q) [1; 6]%Q 2 ;;
   PolynomialRegression_results self)%outcome = Raise AttributeError.
Proof. apply PolynomialRegression_too_few. cbn. lia. Defined.

Lemma MultipleLinearRegression_two_regressors_witness :
  (self <- MultipleLinearRegression junk99 junk77
             (Array2 [[0; 1; 0; 1]; [0; 0; 1; 1]; [5; 6; 7; 8]]%Q) [1; 3; 4; 6]%Q ;;
   MultipleLinearRegression_results self)%outcome =
  (self <- MultipleLinearRegression junk99 junk77
             (Array2 [[0; 1; 0; 1]; [0; 0; 1; 1]]%Q) [1; 3; 4; 6]%Q ;;
   MultipleLinearRegression_results self)%outcome.
Proof.
  apply MultipleLinearRegression_two_regressors; cbn; try lia. repeat constructor.
Defined.
