(* ===== verification/LeastSquares.v ===== *)
(** * LeastSquares: the regressions solve the least-squares problem

    What [PolynomialRegression] and [MultipleLinearRegression] of
    [src/numerics/curveFitting.py] return, over the rationals, in the
    terms of [NormalEquations]: the regressors of a model are its
    [design], construction followed by [results()] is
    [PolynomialRegression_fit].

    The regressions are shown to return the least-squares coefficients
    whenever the regressors are independent on the samples
    ([PolynomialRegression_least_squares]), which for a polynomial
    means [order + 1] distinct abscissas
    ([PolynomialRegression_returns]), to raise numpy's error on
    dependent regressors ([PolynomialRegression_singular]), to give
    back the coefficients of a polynomial from its samples
    ([PolynomialRegression_recovers]) and to agree with
    [LinearRegression] at order one ([PolynomialRegression_linear]);
    [MultipleLinearRegression] fits a plane on its first two
    regressors ([MultipleLinearRegression_least_squares]).
    They are proved for every [np.linalg.inv] that keeps the promises
    [LinAlgLaws] and [LinAlgTotal]; elimination over the rationals is
    one. *)

From Stdlib Require Import ZArith QArith Qabs Lqa Lia ZifyBool List Bool Morphisms Setoid.
From Stdlib Require String.
From S2P Require Import Prelude NumQ Polynomials Table CurveFitting LinearAlgebra GaussJordan.
From S2P Require Import NormalEquations PolynomialRegression.
Import ListNotations.

#[local] Open Scope Q_scope.

(** ** The regressions *)

(** The regressors of a model: the powers of the abscissa for a
    polynomial; the constant 1 and the rows of the array for a fit that
    is linear in several variables. *)
Definition design (x : ndarray Q) (i l : nat) : Q :=
  match x with
  | Array1 v => power_nat (nth l v 0) i
  | Array2 rows => if (i =? 0)%nat then 1 else feature x 0 i l
  end.

(** The sum of the squares of the residuals of the model with
    coefficients [c] (lowest first) on the data. *)
Definition squared_error (x : ndarray Q) (y : list Q) (order : Z) (c : list Q) : Q :=
  sse (S (Z.to_nat order)) (length y) (design x) (fun l => nth l y 0) (fun j => nth j c 0).

(** Construction followed by [results()]. *)
Definition PolynomialRegression_fit `{LinAlg Q} (junkA : nat -> nat -> Q) (junkB : nat -> Q)
    (x : ndarray Q) (y : list Q) (order : Z) : outcome (list Q) :=
  (self <- PolynomialRegression junkA junkB x y order ;;
   PolynomialRegression_results self)%outcome.

Lemma power_nat_add (t : Q) (i j : nat) :
  power_nat t (i + j) == power_nat t i * power_nat t j.
Proof.
  induction i as [|i IH]; cbn [power_nat Nat.add]; qnum; [ring|]. rewrite IH. ring.
Qed.

Lemma design_0 (x : ndarray Q) (l : nat) : design x 0 l == 1.
Proof. destruct x; reflexivity. Qed.

(** The entries of [_A] and [_B] are the sums of the normal equations. *)
Lemma normal_entry_design (x : ndarray Q) (n a b : nat) :
  normal_entry x 0 n a b == gram_of n (design x) a b.
Proof.
  unfold normal_entry, gram_of. destruct ((a =? 0)%nat && (b =? 0)%nat) eqn:E.
  - apply andb_prop in E as [->%Nat.eqb_eq ->%Nat.eqb_eq].
    rewrite (sum_to_ext _ _ (fun _ => 1)) by (intros; rewrite design_0; ring).
    rewrite sum_to_const. qnum. ring.
  - unfold gram. rewrite fold_left_sum_to. apply sum_to_ext. intros l _.
    destruct x as [v|rows]; cbn [term_A design].
    + replace (Nat.max a b + Nat.min a b)%nat with (a + b)%nat by lia.
      apply power_nat_add.
    + destruct (Nat.le_ge_cases a b) as [L|L];
        [rewrite (Nat.max_r a b), (Nat.min_l a b) by exact L
        |rewrite (Nat.max_l a b), (Nat.min_r a b) by exact L];
        destruct a, b; cbn [Nat.ltb Nat.leb Nat.eqb andb] in *; qnum;
        try discriminate; try lia; ring.
Qed.

Lemma moment_design (x : ndarray Q) (y : list Q) (n i : nat) :
  moment x y 0 n i == moment_of n (design x) (fun l => nth l y 0) i.
Proof.
  unfold moment, moment_of. rewrite fold_left_sum_to. apply sum_to_ext. intros l _.
  destruct x as [v|rows]; cbn [term_B design]; [reflexivity|].
  destruct i; cbn [Nat.eqb]; qnum; ring.
Qed.

Lemma Qs_eq_nth (a c : list Q) :
  length a = length c -> (forall j, (j < length a)%nat -> nth j a 0 == nth j c 0) ->
  Qs_eq a c.
Proof.
  revert c. induction a as [|u a IH]; intros [|w c] El E; try discriminate; constructor.
  - apply (E 0%nat). cbn. lia.
  - apply IH; [now injection El|]. intros j Hj. apply (E (S j)). cbn. lia.
Qed.

Section Fit.
Context `{LinAlg Q} `{!LinAlgLaws}.
Variables (junkA : nat -> nat -> Q) (junkB : nat -> Q).
Variables (x : ndarray Q) (y : list Q) (order : Z).
Hypothesis order_nonneg : (0 <= order)%Z.
Hypothesis enough : (order + 1 <= Z.of_nat (length y))%Z.
Hypothesis x_fits : fits x (length y) (Z.to_nat order).

Let m := S (Z.to_nat order).
Let n := length y.
Let tA := tabulate2 (normal_entry x 0 n) m m.
Let tB := tabulate (moment x y 0 n) m.

(** What the fit returns: the product of [_B] by an inverse of [_A]. *)
Lemma PolynomialRegression_fit_Ret (a : list Q) :
  PolynomialRegression_fit junkA junkB x y order = Ret a ->
  exists M', inv tA = Ret M' /\ shape m m M' /\ length a = m /\
             forall j, (j < m)%nat ->
                       nth j a 0 == sum_to m (fun k => moment_of n (design x) (fun l => nth l y 0) k
                                                       * entry M' k j).
Proof.
  unfold PolynomialRegression_fit.
  rewrite (PolynomialRegression_Ret junkA junkB x y 0 order) by assumption.
  cbv zeta. fold m n tA tB. destruct (inv tA) as [M'| |] eqn:Ei; try discriminate.
  cbn [bind]. assert (shape m m M') as HM
    by (apply (inv_shape m tA); [apply tabulate2_shape | exact Ei]).
  destruct (matmul_Ret tB M' m) as (a' & -> & Hl & Ha);
    [apply tabulate_length | apply HM|].
  cbn [bind PolynomialRegression_results _a]. intros [= <-]. exists M'.
  split; [reflexivity|]. split; [exact HM|]. split; [exact Hl|].
  intros j Hj. rewrite Ha by exact Hj.
  apply sum_to_ext. intros k Hk. unfold tB. rewrite tabulate_nth by exact Hk.
  now rewrite moment_design.
Qed.

Lemma entry_tA (i j : nat) :
  (i < m)%nat -> (j < m)%nat -> entry tA i j == gram_of n (design x) i j.
Proof.
  intros Hi Hj. unfold tA. rewrite entry_tabulate2 by assumption. apply normal_entry_design.
Qed.

(** The coefficients returned solve the normal equations. *)
Lemma PolynomialRegression_fit_normal (a : list Q) :
  PolynomialRegression_fit junkA junkB x y order = Ret a ->
  normal m n (design x) (fun l => nth l y 0) (fun j => nth j a 0).
Proof.
  intros E. destruct (PolynomialRegression_fit_Ret a E) as (M' & Ei & HM & Hl & Ha).
  intros i Hi.
  rewrite (sum_to_ext _ _
             (fun j => sum_to m (fun k => moment_of n (design x) (fun l => nth l y 0) k
                                          * (entry M' k j * entry tA j i)))).
  - rewrite sum_to_exchange.
    rewrite (sum_to_ext _ _ (fun k => moment_of n (design x) (fun l => nth l y 0) k
                                      * delta k i)).
    + now apply sum_to_delta.
    + intros k Hk. rewrite sum_to_scale.
      now rewrite (inv_left m tA M' k i (tabulate2_shape _ _ _) Ei Hk Hi).
  - intros j Hj. rewrite Ha, <- entry_tA by assumption.
    rewrite Qmult_comm, <- sum_to_scale. apply sum_to_ext. intros k _. ring.
Qed.

(** Every solution of the normal equations is the one returned. *)
Lemma PolynomialRegression_fit_unique (a : list Q) (c : nat -> Q) :
  PolynomialRegression_fit junkA junkB x y order = Ret a ->
  normal m n (design x) (fun l => nth l y 0) c ->
  forall i, (i < m)%nat -> nth i a 0 == c i.
Proof.
  intros E Hc i Hi. destruct (PolynomialRegression_fit_Ret a E) as (M' & Ei & HM & Hl & Ha).
  rewrite Ha by exact Hi.
  rewrite (sum_to_ext _ _
             (fun k => sum_to m (fun j => c j * (entry tA j k * entry M' k i)))).
  - rewrite sum_to_exchange.
    rewrite (sum_to_ext _ _ (fun j => c j * delta j i)).
    + now apply sum_to_delta.
    + intros j Hj. rewrite sum_to_scale.
      now rewrite (inv_right m tA M' j i (tabulate2_shape _ _ _) Ei Hj Hi).
  - intros k Hk. rewrite <- (Hc k Hk), Qmult_comm, <- sum_to_scale.
    apply sum_to_ext. intros j Hj. rewrite entry_tA by assumption. ring.
Qed.

(** On independent regressors the fit returns. *)
Lemma PolynomialRegression_fit_total `{!LinAlgTotal} :
  independent m n (design x) ->
  exists a, PolynomialRegression_fit junkA junkB x y order = Ret a.
Proof.
  intros Hind. unfold PolynomialRegression_fit.
  rewrite (PolynomialRegression_Ret junkA junkB x y 0 order) by assumption.
  cbv zeta. fold m n tA tB.
  destruct (inv_total m tA (tabulate2_shape _ _ _)) as (M' & Ei);
    [apply (gram_nonsingular m n (design x)); [apply entry_tA | exact Hind]|].
  rewrite Ei. cbn [bind].
  assert (shape m m M') as HM
    by (apply (inv_shape m tA); [apply tabulate2_shape | exact Ei]).
  destruct (matmul_Ret tB M' m) as (a' & -> & _); [apply tabulate_length | apply HM|].
  cbn [bind PolynomialRegression_results _a]. eauto.
Qed.

(** On dependent regressors it does not: the matrix of the normal
    equations has no inverse. *)
Lemma PolynomialRegression_fit_dependent (w : nat -> Q) (j : nat) (a : list Q) :
  (forall l, (l < n)%nat -> fit m (design x) w l == 0) -> (j < m)%nat -> ~ w j == 0 ->
  PolynomialRegression_fit junkA junkB x y order <> Ret a.
Proof.
  intros Z Hj Nw E. destruct (PolynomialRegression_fit_Ret a E) as (M' & Ei & HM & _).
  apply Nw. rewrite <- (sum_to_delta_l m j w Hj).
  rewrite (sum_to_ext m _ (fun k => sum_to m (fun i => entry M' j i * entry tA i k) * w k))
    by (intros k Hk; now rewrite (inv_left m tA M' j k (tabulate2_shape _ _ _) Ei Hj Hk)).
  rewrite <- sum_to_assoc. apply sum_to_zero_ext. intros i Hi.
  rewrite (sum_to_ext m _ (fun k => gram_of n (design x) i k * w k))
    by (intros k Hk; now rewrite entry_tA).
  rewrite (gram_kernel m n (design x) w i Z). ring.
Qed.

(** What the fit returns on independent regressors. *)
Lemma PolynomialRegression_fit_least_squares `{!LinAlgTotal} :
  independent m n (design x) ->
  exists a,
    PolynomialRegression_fit junkA junkB x y order = Ret a /\
    length a = m /\
    normal m n (design x) (fun l => nth l y 0) (fun j => nth j a 0) /\
    forall c, squared_error x y order a <= squared_error x y order c.
Proof.
  intros Hind. destruct (PolynomialRegression_fit_total Hind) as (a & E). exists a.
  destruct (PolynomialRegression_fit_Ret a E) as (_ & _ & _ & Hl & _).
  pose proof (PolynomialRegression_fit_normal a E) as Hn.
  split; [exact E|]. split; [exact Hl|]. split; [exact Hn|].
  intros c. now apply normal_least_squares.
Qed.

End Fit.

(** C15. The regressions return the least-squares fit.  On data that
    fit and regressors that are linearly independent on the samples,
    [PolynomialRegression] (and [MultipleLinearRegression], which is
    the case [order = 2] on an array of two dimensions) returns
    [order + 1] coefficients that make the sum of the squares of the
    residuals at most that of any other coefficients, for every
    [np.linalg.inv] that inverts the non-singular matrices. *)
Theorem PolynomialRegression_least_squares `{LinAlg Q} `{!LinAlgLaws} `{!LinAlgTotal}
    (junkA : nat -> nat -> Q) (junkB : nat -> Q) (x : ndarray Q) (y : list Q) (order : Z) :
  (0 <= order)%Z -> (order + 1 <= Z.of_nat (length y))%Z ->
  fits x (length y) (Z.to_nat order) ->
  independent (S (Z.to_nat order)) (length y) (design x) ->
  exists a,
    PolynomialRegression_fit junkA junkB x y order = Ret a /\
    length a = S (Z.to_nat order) /\
    forall c, squared_error x y order a <= squared_error x y order c.
Proof.
  intros Ho Hn Hx Hind.
  destruct (PolynomialRegression_fit_least_squares junkA junkB x y order Ho Hn Hx Hind)
    as (a & E & Hl & _ & Hs).
  eauto.
Qed.

(** C31. On dependent regressors the regressions raise.  When some
    combination of the regressors other than the trivial one vanishes
    on all the samples (a polynomial of an order that the distinct
    abscissas do not determine, or regressors that are multiples of
    one another), the matrix of the normal equations has no inverse
    and [np.linalg.inv] reports a singular matrix. *)
Theorem PolynomialRegression_singular
    (junkA : nat -> nat -> Q) (junkB : nat -> Q) (x : ndarray Q) (y : list Q) (order : Z)
    (w : nat -> Q) (j : nat) :
  (0 <= order)%Z -> (order + 1 <= Z.of_nat (length y))%Z ->
  fits x (length y) (Z.to_nat order) ->
  (forall l, (l < length y)%nat -> fit (S (Z.to_nat order)) (design x) w l == 0) ->
  (j <= Z.to_nat order)%nat -> ~ w j == 0 ->
  PolynomialRegression_fit junkA junkB x y order = Raise singular.
Proof.
  intros Ho Hn Hx Z Hj Nw.
  pose proof (PolynomialRegression_fit_dependent junkA junkB x y order Ho Hn Hx w j) as D.
  revert D. unfold PolynomialRegression_fit.
  rewrite (PolynomialRegression_Ret junkA junkB x y 0 order) by assumption.
  cbv zeta. cbn [inv Q_LinAlg]. intros D.
  destruct (checked_inverse_cases
              (tabulate2 (normal_entry x 0 (length y)) (S (Z.to_nat order))
                 (S (Z.to_nat order)))) as [[N EN] | EN];
    rewrite EN in *; cbn [bind] in *; [exfalso | reflexivity].
  assert (shape (S (Z.to_nat order)) (S (Z.to_nat order)) N) as HN
    by (eapply checked_inverse_Ret; [apply tabulate2_shape | exact EN]).
  destruct (matmul_Ret (tabulate (moment x y 0 (length y)) (S (Z.to_nat order))) N
              (S (Z.to_nat order))) as (a' & Em & _); [apply tabulate_length | apply HN|].
  rewrite Em in D. cbn [bind PolynomialRegression_results _a] in D.
  apply (D a' Z ltac:(lia) Nw). reflexivity.
Qed.

(** *** Polynomials *)

Lemma peval_sum (c : list Q) (t : Q) :
  peval c t == sum_to (length c) (fun j => nth j c 0 * power_nat t j).
Proof.
  induction c as [|c0 c IH]; [reflexivity|].
  cbn [peval length]. rewrite sum_to_shift, IH, <- sum_to_scale. cbn [nth power_nat]. qnum.
  apply Qplus_comp; [ring|]. apply sum_to_ext. intros j _. ring.
Qed.

(** The samples of a polynomial solve the normal equations with its
    coefficients. *)
Lemma samples_normal (x c : list Q) (m : nat) :
  length c = m ->
  normal m (length (map (peval c) x)) (design (Array1 x))
    (fun l => nth l (map (peval c) x) 0) (fun j => nth j c 0).
Proof.
  intros Hc i Hi. rewrite <- sum_fit. unfold moment_of. apply sum_to_ext. intros l Hl.
  rewrite length_map in Hl. rewrite (nth_indep _ 0 (peval c 0)) by now rewrite length_map.
  rewrite map_nth, peval_sum, Hc. unfold fit. cbn [design].
  apply Qmult_comp; [reflexivity|]. apply sum_to_ext. intros j _. reflexivity.
Qed.

(** The powers up to [m - 1] are independent on samples that hold [m]
    distinct abscissas, at the positions [s 0 .. s (m - 1)]. *)
Lemma design_independent (x : list Q) (m n : nat) (s : nat -> nat) :
  (forall i, (i < m)%nat -> (s i < n)%nat) ->
  (forall i j, (i < j < m)%nat -> ~ nth (s j) x 0 == nth (s i) x 0) ->
  independent m n (design (Array1 x)).
Proof.
  intros Hs Hd w Hw j Hj.
  assert (Forall (fun a => a == 0) (tabulate w m)) as F.
  { apply (peval_roots_zero m (fun i => nth (s i) x 0));
      [now rewrite tabulate_length | exact Hd |].
    intros i Hi. rewrite peval_sum, tabulate_length, <- (Hw (s i) (Hs i Hi)).
    apply sum_to_ext. intros k Hk. now rewrite tabulate_nth. }
  rewrite Forall_forall in F. rewrite <- (tabulate_nth w m j 0 Hj).
  apply F, nth_In. now rewrite tabulate_length.
Qed.

(** C18. [PolynomialRegression] returns on distinct abscissas.  When
    [order + 1] of the abscissas (those at the positions [s 0 .. s
    order]) are pairwise distinct, the method returns the [order + 1]
    coefficients of the polynomial of least squares. *)
Theorem PolynomialRegression_returns `{LinAlg Q} `{!LinAlgLaws} `{!LinAlgTotal}
    (junkA : nat -> nat -> Q) (junkB : nat -> Q) (x y : list Q) (order : Z) (s : nat -> nat) :
  (0 <= order)%Z -> (order + 1 <= Z.of_nat (length y))%Z -> (length y <= length x)%nat ->
  (forall i, (i <= Z.to_nat order)%nat -> (s i < length y)%nat) ->
  (forall i j, (i < j <= Z.to_nat order)%nat -> ~ nth (s j) x 0 == nth (s i) x 0) ->
  exists a,
    PolynomialRegression_fit junkA junkB (Array1 x) y order = Ret a /\
    length a = S (Z.to_nat order) /\
    forall c, squared_error (Array1 x) y order a <= squared_error (Array1 x) y order c.
Proof.
  intros Ho Hn Hx Hs Hd.
  destruct (PolynomialRegression_fit_least_squares junkA junkB (Array1 x) y order Ho Hn Hx)
    as (a & E & Hl & _ & Hm); [|eauto].
  apply (design_independent x _ _ s); intros; [apply Hs | apply Hd]; lia.
Qed.

(** C24. Fitting the samples of a polynomial gives the polynomial back.
    When [y] holds the values at the abscissas [x] of the polynomial
    with the [order + 1] coefficients [c] (lowest degree first), and
    [order + 1] of the abscissas are pairwise distinct, the
    coefficients that [PolynomialRegression] returns are [c]. *)
Theorem PolynomialRegression_recovers `{LinAlg Q} `{!LinAlgLaws} `{!LinAlgTotal}
    (junkA : nat -> nat -> Q) (junkB : nat -> Q) (x c : list Q) (order : Z) (s : nat -> nat) :
  (0 <= order)%Z -> length c = S (Z.to_nat order) -> (length c <= length x)%nat ->
  (forall i, (i <= Z.to_nat order)%nat -> (s i < length x)%nat) ->
  (forall i j, (i < j <= Z.to_nat order)%nat -> ~ nth (s j) x 0 == nth (s i) x 0) ->
  exists a,
    PolynomialRegression_fit junkA junkB (Array1 x) (map (peval c) x) order = Ret a /\
    Qs_eq a c.
Proof.
  intros Ho Hc Hx Hs Hd.
  assert (order + 1 <= Z.of_nat (length (map (peval c) x)))%Z as Hn
    by (rewrite length_map; lia).
  assert (fits (Array1 x) (length (map (peval c) x)) (Z.to_nat order)) as Hf
    by (cbn; now rewrite length_map).
  destruct (PolynomialRegression_fit_least_squares junkA junkB _ _ order Ho Hn Hf)
    as (a & E & Hl & _ & _).
  { rewrite length_map. apply (design_independent x _ _ s); intros; [apply Hs | apply Hd]; lia. }
  exists a. split; [exact E|].
  apply Qs_eq_nth; [congruence|]. intros j Hj.
  apply (PolynomialRegression_fit_unique junkA junkB _ _ order Ho Hn Hf a
           (fun j => nth j c 0) E); [|lia].
  now apply samples_normal.
Qed.

(** *** Order one is [LinearRegression] *)

Lemma sumQ_app (l l' : list Q) : sumQ (l ++ l') == sumQ l + sumQ l'.
Proof. induction l as [|a l IH]; cbn [app sumQ]; [ring|]. rewrite IH. ring. Qed.

Lemma sumQ_positions {B : Type} (g : B -> Q) (l : list B) (d : B) :
  sumQ (map g l) == sum_to (length l) (fun k => g (nth k l d)).
Proof.
  induction l as [|a l IH] using rev_ind; [reflexivity|].
  rewrite map_app, sumQ_app, length_app, Nat.add_1_r. cbn [map sumQ sum_to].
  rewrite IH, nth_middle, Qplus_0_r. apply Qplus_inj_r. apply sum_to_ext. intros k Hk.
  now rewrite app_nth1.
Qed.

Section Line.
Variables xs ys : list Q.
Hypothesis same_length : length xs = length ys.

Let l := combine xs ys.
Let phi := design (Array1 xs).
Let n := length ys.

Lemma sums_of_line :
  gram_of n phi 0 0 == inject_Z (Z.of_nat (length xs)) /\
  gram_of n phi 1 0 == sumQ (map fst l) /\
  gram_of n phi 0 1 == sumQ (map fst l) /\
  gram_of n phi 1 1 == sumQ (map (fun p => fst p * fst p) l) /\
  moment_of n phi (fun k => nth k ys 0) 0 == sumQ (map snd l) /\
  moment_of n phi (fun k => nth k ys 0) 1 == sumQ (map (fun p => fst p * snd p) l).
Proof.
  assert (length l = n) as El by (unfold l, n; rewrite length_combine; lia).
  assert (forall k, (k < n)%nat -> nth k l (0, 0) = (nth k xs 0, nth k ys 0)) as En
    by (intros k Hk; apply combine_nth, same_length).
  unfold gram_of, moment_of, phi. rewrite !(sumQ_positions _ l (0, 0)), El.
  rewrite same_length. fold n.
  repeat split; try (rewrite <- (Qmult_1_r (inject_Z _)), <- sum_to_const);
    apply sum_to_ext; intros k Hk; rewrite ?En by exact Hk;
    cbn [design power_nat fst snd]; qnum; ring.
Qed.

End Line.

(** Abscissas that are not all equal make the constant and the
    abscissa independent. *)
Lemma line_independent (xs ys : list Q) :
  length xs = length ys ->
  ~ inject_Z (Z.of_nat (length xs)) * sumQ (map (fun p => fst p * fst p) (combine xs ys))
    - sumQ (map fst (combine xs ys)) * sumQ (map fst (combine xs ys)) == 0 ->
  independent 2 (length ys) (design (Array1 xs)).
Proof.
  intros El Hs w Hw.
  pose proof (N_pos xs ys El Hs) as HN.
  destruct (sums_of_line xs ys El) as (G00 & G10 & G01 & G11 & _).
  pose proof (gram_kernel 2 _ _ w 0 Hw) as K0. pose proof (gram_kernel 2 _ _ w 1 Hw) as K1.
  cbn [sum_to] in K0, K1. rewrite G00, G01 in K0. rewrite G10, G11 in K1.
  set (Sx := sumQ (map fst (combine xs ys))) in *.
  set (Sxx := sumQ (map (fun p => fst p * fst p) (combine xs ys))) in *.
  set (N := inject_Z (Z.of_nat (length xs))) in *.
  assert (w 1%nat == 0) as Z1.
  { apply (Qmult_integral_l _ _ Hs).
    setoid_replace ((N * Sxx - Sx * Sx) * w 1%nat)
      with (N * (0 + Sx * w 0%nat + Sxx * w 1%nat) - Sx * (0 + N * w 0%nat + Sx * w 1%nat))
      by ring.
    rewrite K0, K1. ring. }
  assert (w 0%nat == 0) as Z0.
  { apply (Qmult_integral_l N); [lra|]. rewrite Z1 in K0. lra. }
  intros [|[|j]] Hj; [exact Z0 | exact Z1 | lia].
Qed.

(** C27. [PolynomialRegression] of order one is [LinearRegression].  On
    data of equal length whose abscissas are not all equal, the two
    coefficients that [PolynomialRegression] returns with [order = 1]
    are the intercept and the slope that [LinearRegression] returns. *)
Theorem PolynomialRegression_linear `{LinAlg Q} `{!LinAlgLaws} `{!LinAlgTotal}
    (junkA : nat -> nat -> Q) (junkB : nat -> Q) (xs ys : list Q) :
  length xs = length ys ->
  ~ inject_Z (Z.of_nat (length xs)) * sumQ (map (fun p => fst p * fst p) (combine xs ys))
    - sumQ (map fst (combine xs ys)) * sumQ (map fst (combine xs ys)) == 0 ->
  exists a a1 a0,
    PolynomialRegression_fit junkA junkB (Array1 xs) ys 1 = Ret a /\
    results (LinearRegression xs ys) = Ret (a1, a0) /\ Qs_eq a [a0; a1].
Proof.
  intros El Hs. destruct (results_Ret xs ys El Hs) as (a1 & a0 & Er & E1 & E0).
  pose proof (N_pos xs ys El Hs) as HN.
  assert (2 <= length ys)%nat as H2.
  { rewrite <- El. destruct xs as [|x0 [|x1 xs']]; cbn [length]; try lia; exfalso; apply Hs;
      destruct ys as [|y0 ys']; try discriminate; cbn; ring. }
  assert (1 + 1 <= Z.of_nat (length ys))%Z as Hn by lia.
  assert (fits (Array1 xs) (length ys) (Z.to_nat 1)) as Hf by (cbn; lia).
  destruct (PolynomialRegression_fit_least_squares junkA junkB _ _ 1 ltac:(lia) Hn Hf
              (line_independent xs ys El Hs)) as (a & E & Hl & _ & _).
  exists a, a1, a0. split; [exact E|]. split; [exact Er|].
  apply Qs_eq_nth; [exact Hl|]. intros j Hj.
  apply (PolynomialRegression_fit_unique junkA junkB _ _ 1 ltac:(lia) Hn Hf a
           (fun j => nth j [a0; a1] 0) E); [|lia].
  destruct (sums_of_line xs ys El) as (G00 & G10 & G01 & G11 & M0 & M1).
  set (Sx := sumQ (map fst (combine xs ys))) in *.
  set (Sxx := sumQ (map (fun p => fst p * fst p) (combine xs ys))) in *.
  set (Sy := sumQ (map snd (combine xs ys))) in *.
  set (Sxy := sumQ (map (fun p => fst p * snd p) (combine xs ys))) in *.
  set (N := inject_Z (Z.of_nat (length xs))) in *.
  assert (a1 * (N * Sxx - Sx * Sx) == N * Sxy - Sx * Sy) as E1'
    by (rewrite E1; field; exact Hs).
  intros i Hi. change (Z.to_nat 1) with 1%nat in *. cbn [sum_to nth].
  destruct i as [|[|i]]; [| |lia].
  - rewrite G00, G10, M0. rewrite Qplus_0_l. lra.
  - rewrite G01, G11, M1. rewrite Qplus_0_l.
    apply (Qmult_inj_l _ _ N); [lra|].
    setoid_replace (N * (a0 * Sx + a1 * Sxx)) with (a0 * N * Sx + a1 * N * Sxx) by ring.
    rewrite E0. lra.
Qed.

(** *** [MultipleLinearRegression] *)

(** The sum of the squares of the residuals of the plane
    [c0 + c1 x1 + c2 x2]. *)
Definition plane_error (x1 x2 y : list Q) (c0 c1 c2 : Q) : Q :=
  sum_to (length y)
    (fun l => (nth l y 0 - (c0 + c1 * nth l x1 0 + c2 * nth l x2 0))
              * (nth l y 0 - (c0 + c1 * nth l x1 0 + c2 * nth l x2 0))).

Lemma fit_plane (x1 x2 : list Q) (c : nat -> Q) (l : nat) :
  fit 3 (design (Array2 [x1; x2])) c l ==
  c 0%nat + c 1%nat * nth l x1 0 + c 2%nat * nth l x2 0.
Proof.
  unfold fit. cbn [sum_to].
  change (design (Array2 [x1; x2]) 0 l) with 1.
  change (design (Array2 [x1; x2]) 1 l) with (nth l x1 0).
  change (design (Array2 [x1; x2]) 2 l) with (nth l x2 0). ring.
Qed.

Lemma squared_error_plane (x1 x2 y c : list Q) :
  squared_error (Array2 [x1; x2]) y 2 c ==
  plane_error x1 x2 y (nth 0 c 0) (nth 1 c 0) (nth 2 c 0).
Proof.
  unfold squared_error, NormalEquations.sse, plane_error. apply sum_to_ext. intros l _.
  change (S (Z.to_nat 2)) with 3%nat. now rewrite fit_plane.
Qed.

(** Construction followed by [results()] is the fit of order 2. *)
Lemma MultipleLinearRegression_fit `{LinAlg Q} (junkA : nat -> nat -> Q) (junkB : nat -> Q)
    (x : ndarray Q) (y : list Q) :
  (self <- MultipleLinearRegression junkA junkB x y ;;
   MultipleLinearRegression_results self)%outcome =
  PolynomialRegression_fit junkA junkB x y 2.
Proof.
  unfold MultipleLinearRegression, PolynomialRegression_fit, MultipleLinearRegression_results.
  now destruct (PolynomialRegression junkA junkB x y 2).
Qed.

(** C13. [MultipleLinearRegression] fits a plane by least squares.
    With at least three samples and two regressors [x1], [x2] that,
    with the constant, are linearly independent on the samples, the
    class returns three coefficients [a0, a1, a2] whose plane
    [a0 + a1 x1 + a2 x2] has a sum of squared residuals at most that of
    every other plane; regressors after the second are not read. *)
Theorem MultipleLinearRegression_least_squares `{LinAlg Q} `{!LinAlgLaws} `{!LinAlgTotal}
    (junkA : nat -> nat -> Q) (junkB : nat -> Q) (x1 x2 : list Q) (more : list (list Q))
    (y : list Q) :
  (3 <= length y)%nat -> (length y <= length x1)%nat -> (length y <= length x2)%nat ->
  Forall (fun row => (length y <= length row)%nat) more ->
  (forall w0 w1 w2,
     (forall l, (l < length y)%nat -> w0 + w1 * nth l x1 0 + w2 * nth l x2 0 == 0) ->
     w0 == 0 /\ w1 == 0 /\ w2 == 0) ->
  exists a0 a1 a2,
    (self <- MultipleLinearRegression junkA junkB (Array2 (x1 :: x2 :: more)) y ;;
     MultipleLinearRegression_results self)%outcome = Ret [a0; a1; a2] /\
    forall c0 c1 c2, plane_error x1 x2 y a0 a1 a2 <= plane_error x1 x2 y c0 c1 c2.
Proof.
  intros Hn L1 L2 Hm Hind.
  rewrite MultipleLinearRegression_two_regressors, MultipleLinearRegression_fit by assumption.
  assert (fits (Array2 [x1; x2]) (length y) (Z.to_nat 2)) as Hf
    by (cbn [fits length]; repeat split; try lia; now repeat apply Forall_cons).
  assert (independent (S (Z.to_nat 2)) (length y) (design (Array2 [x1; x2]))) as Hi.
  { intros w Hw. change (S (Z.to_nat 2)) with 3%nat.
    destruct (Hind (w 0%nat) (w 1%nat) (w 2%nat)) as (Z0 & Z1 & Z2).
    { intros l Hl. rewrite <- fit_plane. now apply Hw. }
    intros [|[|[|j]]] Hj; [assumption | assumption | assumption | lia]. }
  destruct (PolynomialRegression_fit_least_squares junkA junkB (Array2 [x1; x2]) y 2
              ltac:(lia) ltac:(lia) Hf Hi) as (a & E & Hl & _ & Hs).
  destruct a as [|a0 [|a1 [|a2 [|a3 a]]]]; try discriminate Hl.
  exists a0, a1, a2. split; [exact E|]. intros c0 c1 c2.
  pose proof (Hs [c0; c1; c2]) as Le. now rewrite !squared_error_plane in Le.
Qed.

(** ** Runs and witnesses *)

(** The parabola through four points, the plane through four points,
    and collinear regressors, on which numpy reports a singular matrix;
    the coefficients are shown in lowest terms. *)
Lemma PolynomialRegression_runs :
  omap (map Qred)
    (PolynomialRegression_fit junk99 junk77 (Array1 [0; 1; 2; 3]) [1; 6; 17; 34] 2)
  = Ret [1; 2; 3] /\
  omap (map Qred)
    (PolynomialRegression_fit junk99 junk77 (Array2 [[0; 1; 0; 1]; [0; 0; 1; 1]])
       [1; 3; 4; 6] 2)
  = Ret [1; 2; 3] /\
  PolynomialRegression_fit junk99 junk77 (Array2 [[0; 1; 2; 3]; [0; 2; 4; 6]]) [1; 3; 4; 6] 2
  = Raise singular.
Proof. repeat split; vm_compute; reflexivity. Qed.

(** The positions of three distinct abscissas of [0, 1, 1, 2]. *)
Definition positions (i : nat) : nat :=
  match i with
  | 0 => 0
  | 1 => 1
  | _ => 3
  end%nat.

Lemma positions_distinct (x : list Q) (k : nat) :
  ~ nth 1 x 0 == nth 0 x 0 -> ~ nth 3 x 0 == nth 0 x 0 -> ~ nth 3 x 0 == nth 1 x 0 ->
  (k <= 2)%nat ->
  forall i j, (i < j <= k)%nat -> ~ nth (positions j) x 0 == nth (positions i) x 0.
Proof.
  intros N10 N30 N31 Hk i j Hij.
  assert (i = 0 /\ j = 1 \/ i = 0 /\ j = 2 \/ i = 1 /\ j = 2)%nat as C by lia.
  destruct C as [[-> ->] | [[-> ->] | [-> ->]]]; assumption.
Defined.

Lemma positions_lt (k : nat) (i : nat) : (i <= k)%nat -> (positions i < 4)%nat.
Proof. intros _. destruct i as [|[|i]]; cbn; lia. Defined.

Lemma PolynomialRegression_least_squares_witness :
  exists a,
    PolynomialRegression_fit junk99 junk77 (Array2 [[0; 1; 0; 1]; [0; 0; 1; 1]]) [1; 3; 4; 7] 2
    = Ret a /\
    length a = S (Z.to_nat 2) /\
    forall c, squared_error (Array2 [[0; 1; 0; 1]; [0; 0; 1; 1]]) [1; 3; 4; 7] 2 a
              <= squared_error (Array2 [[0; 1; 0; 1]; [0; 0; 1; 1]]) [1; 3; 4; 7] 2 c.
Proof.
  apply (PolynomialRegression_least_squares junk99 junk77); [lia | cbn; lia | |].
  - cbn. repeat split; try lia. repeat constructor.
  - change (Z.to_nat 2) with 2%nat. intros w Hw j Hj.
    pose proof (Hw 0%nat ltac:(cbn; lia)) as W0. pose proof (Hw 1%nat ltac:(cbn; lia)) as W1.
    pose proof (Hw 2%nat ltac:(cbn; lia)) as W2. cbn in W0, W1, W2.
    change (Pos.to_nat 1) with 1%nat in W0, W1, W2. cbn in W0, W1, W2.
    destruct j as [|[|[|j]]]; [lra | lra | lra | lia].
Defined.

Lemma PolynomialRegression_singular_witness :
  PolynomialRegression_fit junk99 junk77 (Array1 [1; 1; 1]) [1; 2; 3] 1 = Raise singular.
Proof.
  apply (PolynomialRegression_singular junk99 junk77 (Array1 [1; 1; 1]) [1; 2; 3] 1
           (fun j => if (j =? 0)%nat then 1 else -1) 0);
    [lia | cbn; lia | cbn; lia | | lia | discriminate].
  intros [|[|[|l]]] Hl; cbn in Hl; try lia; reflexivity.
Defined.

Lemma PolynomialRegression_returns_witness :
  exists a,
    PolynomialRegression_fit junk99 junk77 (Array1 [0; 1; 1; 2]) [1; 3; 4; 7] 2 = Ret a /\
    length a = S (Z.to_nat 2) /\
    forall c, squared_error (Array1 [0; 1; 1; 2]) [1; 3; 4; 7] 2 a
              <= squared_error (Array1 [0; 1; 1; 2]) [1; 3; 4; 7] 2 c.
Proof.
  apply (PolynomialRegression_returns junk99 junk77 [0; 1; 1; 2] [1; 3; 4; 7] 2 positions);
    [lia | cbn; lia | cbn; lia | apply positions_lt |].
  apply positions_distinct; [discriminate | discriminate | discriminate | cbn; lia].
Defined.

Lemma PolynomialRegression_recovers_witness :
  exists a,
    PolynomialRegression_fit junk99 junk77 (Array1 [0; 1; 1; 2])
      (map (peval [1; 2; 3]) [0; 1; 1; 2]) 2 = Ret a /\
    Qs_eq a [1; 2; 3].
Proof.
  apply (PolynomialRegression_recovers junk99 junk77 [0; 1; 1; 2] [1; 2; 3] 2 positions);
    [lia | reflexivity | cbn; lia | apply positions_lt |].
  apply positions_distinct; [discriminate | discriminate | discriminate | cbn; lia].
Defined.

Lemma PolynomialRegression_linear_witness :
  exists a a1 a0,
    PolynomialRegression_fit junk99 junk77 (Array1 [0; 1; 2]) [1; 3; 4] 1 = Ret a /\
    results (LinearRegression [0; 1; 2] [1; 3; 4]) = Ret (a1, a0) /\
    Qs_eq a [a0; a1].
Proof.
  apply (PolynomialRegression_linear junk99 junk77 [0; 1; 2] [1; 3; 4] eq_refl).
  discriminate.
Defined.

Lemma MultipleLinearRegression_least_squares_witness :
  exists a0 a1 a2,
    (self <- MultipleLinearRegression junk99 junk77
               (Array2 [[0; 1; 0; 1]; [0; 0; 1; 1]; [5; 5; 5; 5]]) [1; 3; 4; 7] ;;
     MultipleLinearRegression_results self)%outcome = Ret [a0; a1; a2] /\
    forall c0 c1 c2,
      plane_error [0; 1; 0; 1] [0; 0; 1; 1] [1; 3; 4; 7] a0 a1 a2
      <= plane_error [0; 1; 0; 1] [0; 0; 1; 1] [1; 3; 4; 7] c0 c1 c2.
Proof.
  apply (MultipleLinearRegression_least_squares junk99 junk77);
    [cbn; lia | cbn; lia | cbn; lia | repeat constructor |].
  intros w0 w1 w2 Hw.
  pose proof (Hw 0%nat ltac:(cbn; lia)) as W0. pose proof (Hw 1%nat ltac:(cbn; lia)) as W1.
  pose proof (Hw 2%nat ltac:(cbn; lia)) as W2. cbn in W0, W1, W2. repeat split; lra.
Defined.
