(* ===== verification/ExponentialRegression.v ===== *)
(** * ExponentialRegression: a line through the logarithms

    The class [ExponentialRegression] of [src/numerics/curveFitting.py].
    [np.log] and [np.exp] are numpy's and are the parameters [log] and
    [exp] of the model; [mode.lower()] is [lower], on ASCII letters.
    [__compute] is, line for line, that of [LinearRegression], on the
    logarithms of the ordinates.

    The ordinates that [__init__] stores are numpy numbers, and so are
    the sums made of them: where [LinearRegression.results] divides
    Python numbers and raises [ZeroDivisionError] on equal abscissas,
    [results] here divides a numpy number, which does not raise
    ([num_div]: binary64 gives an infinity or a NaN).  With no pair of
    data the sums are the Python integer 0 they start from and the
    division raises.  [arithmaticMean] divides by a length that is not
    zero then.

    The theorems: [results] returns the exponentials of what
    [LinearRegression] returns on the logarithms
    ([ExponentialRegression_is_linear]), and data whose logarithms lie
    on a line give that line back ([ExponentialRegression_recovers]). *)

From Stdlib Require Import String Ascii.
From Stdlib Require Import ZArith QArith Qround Qpower Lqa Lia ZifyBool List Bool Morphisms Setoid.
From S2P Require Import Prelude NumQ CurveFitting.
Import ListNotations.

(** ** [str.lower], on ASCII *)

Definition lower_ascii (c : ascii) : ascii :=
  let k := nat_of_ascii c in
  if ((65 <=? k) && (k <=? 90))%nat then ascii_of_nat (k + 32) else c.

Fixpoint lower (s : string) : string :=
  match s with
  | EmptyString => EmptyString
  | String c s => String (lower_ascii c) (lower s)
  end.

Section Methods.
Context {A : Type} `{Num A}.
Variables log exp : A -> A.

#[local] Open Scope outcome_scope.

(** ** The class *)

Record exponential : Type := {
  _xValues : list A;
  _yValues : list A;
  _mode : string;
  _n : Z;
  _sumX : A;
  _sumY : A;
  _sumXY : A;
  _sumXSq : A;
  _sumYSq : A
}.

(** The loop of [__compute] over [zip(self._xValues, self._yValues)]. *)
Definition ExponentialRegression_compute (l : list (A * A)) : A * A * A * A * A :=
  fold_left
    (fun '(sumX, sumY, sumXY, sumXSq, sumYSq) '(itemX, itemY) =>
       ((sumX + itemX)%num, (sumY + itemY)%num, (sumXY + itemX * itemY)%num,
        (sumXSq + itemX * itemX)%num, (sumYSq + itemY * itemY)%num))
    l (num_of_Z 0, num_of_Z 0, num_of_Z 0, num_of_Z 0, num_of_Z 0).

(** [ExponentialRegression(xValues, yValues, mode)]. *)
Definition ExponentialRegression (xValues yValues : list A) (mode : string) : exponential :=
  let yValues := map log yValues in
  let '(sumX, sumY, sumXY, sumXSq, sumYSq) :=
    ExponentialRegression_compute (combine xValues yValues) in
  {| _xValues := xValues; _yValues := yValues; _mode := lower mode;
     _n := Z.of_nat (List.length xValues);
     _sumX := sumX; _sumY := sumY; _sumXY := sumXY; _sumXSq := sumXSq; _sumYSq := sumYSq |}.

(** [results]: the division is Python's when no pair of data has been
    added to the sums, numpy's otherwise. *)
Definition ExponentialRegression_results (self : exponential) : outcome (A * A) :=
  let a1 := (num_of_Z (_n self) * _sumXY self - _sumX self * _sumY self)%num in
  let d := (num_of_Z (_n self) * _sumXSq self - _sumX self * _sumX self)%num in
  a1 <- match combine (_xValues self) (_yValues self) with
        | [] => pydiv a1 d
        | _ :: _ => Ret (a1 / d)%num
        end ;;
  my <- arithmaticMean (_yValues self) ;;
  mx <- arithmaticMean (_xValues self) ;;
  let a0 := (my - a1 * mx)%num in
  let A' := exp a0 in
  let B := if String.eqb (_mode self) "exp" then a1 else exp a1 in
  Ret (A', B).

(** ** It is [LinearRegression] on the logarithms *)

Lemma ExponentialRegression_compute_eq (l : list (A * A)) :
  ExponentialRegression_compute l = compute l.
Proof. reflexivity. Qed.

(** The coefficient [B] that goes with a slope. *)
Definition coefficient (mode : string) (a1 : A) : A :=
  if String.eqb (lower mode) "exp" then a1 else exp a1.

(** [results], given what [LinearRegression] returns on the logarithms. *)
Lemma ExponentialRegression_results_Ret (xs ys : list A) (mode : string) (a1 a0 : A) :
  results (LinearRegression xs (map log ys)) = Ret (a1, a0) ->
  ExponentialRegression_results (ExponentialRegression xs ys mode) =
  Ret (exp a0, coefficient mode a1).
Proof.
  unfold results, LinearRegression, ExponentialRegression_results, ExponentialRegression,
    coefficient.
  cbv zeta. unfold ExponentialRegression_compute, compute.
  destruct (fold_left _ _ _) as [[[[sX sY] sXY] sXX] sYY].
  cbn [n sumX sumY sumXY sumXSq xValues yValues
       _n _sumX _sumY _sumXY _sumXSq _xValues _yValues _mode].
  destruct (combine xs (map log ys)) as [|p l] eqn:El.
  - destruct (pydiv _ _) as [q| |]; cbn [bind]; try discriminate.
    destruct (arithmaticMean (map log ys)) as [my| |]; cbn [bind]; try discriminate.
    destruct (arithmaticMean xs) as [mx| |]; cbn [bind]; try discriminate.
    now intros [= <- <-].
  - unfold pydiv at 1. destruct (num_eqb _ _); cbn [bind]; try discriminate.
    destruct (arithmaticMean (map log ys)) as [my| |]; cbn [bind]; try discriminate.
    destruct (arithmaticMean xs) as [mx| |]; cbn [bind]; try discriminate.
    now intros [= <- <-].
Qed.

(** C28. [ExponentialRegression] is [LinearRegression] on the
    logarithms of the ordinates: when the latter returns the slope [a1]
    and the intercept [a0], the former returns [exp a0] and, in mode
    ['exp'], [a1], in every other mode [exp a1]. *)
Theorem ExponentialRegression_is_linear (xs ys : list A) (mode : string) (a1 a0 : A) :
  results (LinearRegression xs (map log ys)) = Ret (a1, a0) ->
  ExponentialRegression_results (ExponentialRegression xs ys mode) =
  Ret (exp a0, coefficient mode a1).
Proof. exact (ExponentialRegression_results_Ret xs ys mode a1 a0). Qed.

(** With no pair of data the first division raises. *)
Theorem ExponentialRegression_no_data (yValues : list A) (mode : string) :
  num_eqb (num_of_Z 0 * num_of_Z 0 - num_of_Z 0 * num_of_Z 0)%num (num_of_Z 0) = true ->
  ExponentialRegression_results (ExponentialRegression [] yValues mode) =
  Raise ZeroDivisionError.
Proof.
  intros E. unfold ExponentialRegression_results, ExponentialRegression. cbn.
  unfold pydiv. now rewrite E.
Qed.

End Methods.

Arguments exponential A : clear implicits.

(** ** The mode *)

(** The mode is compared without regard to case, and every mode that is
    not ['exp'] is ['nexp']. *)
Lemma lower_runs :
  lower "EXP" = "exp"%string /\ lower "Exp" = "exp"%string /\
  lower "nexp" = "nexp"%string /\ lower "e^x" = "e^x"%string.
Proof. repeat split. Qed.

(** ** Over exact rationals *)

Section ExponentialQ.

#[local] Open Scope Q_scope.

Variables log exp : Q -> Q.
Context {exp_Proper : Proper (Qeq ==> Qeq) exp}.

(** C30. Data on an exponential give it back.  When the logarithms of
    the ordinates are [c0 + c1 x] at abscissas that are not all equal,
    [results] returns [exp c0] and, in mode ['exp'], [c1], in the other
    modes [exp c1]: on [y = A exp(B x)] the coefficients [A] and [B],
    on [y = A B^x] the same. *)
Theorem ExponentialRegression_recovers (xs ys : list Q) (mode : string) (c0 c1 : Q) :
  List.length xs = List.length ys ->
  ~ inject_Z (Z.of_nat (List.length xs))
    * sumQ (map (fun p => fst p * fst p) (combine xs (map log ys)))
    - sumQ (map fst (combine xs (map log ys))) * sumQ (map fst (combine xs (map log ys))) == 0 ->
  map log ys = map (fun x => c0 + c1 * x) xs ->
  exists A B,
    ExponentialRegression_results exp (ExponentialRegression log xs ys mode) = Ret (A, B) /\
    A == exp c0 /\ B == coefficient exp mode c1.
Proof.
  intros El Hs Ey.
  assert (List.length xs = List.length (map log ys)) as El' by now rewrite length_map.
  destruct (LinearRegression_collinear xs (map log ys) El' Hs c0 c1 Ey)
    as (a1 & a0 & Er & E1 & E0).
  rewrite (ExponentialRegression_results_Ret log exp xs ys mode a1 a0 Er).
  eexists _, _. split; [reflexivity|]. split; [now rewrite E0|].
  unfold coefficient. destruct (String.eqb _ _); now rewrite E1.
Qed.

End ExponentialQ.

(** ** Witnesses, in base two *)

(** The logarithm in base two of a power of two, and the power of two
    with an integer exponent: on the data of the witnesses they are
    inverse to each other. *)
Definition log2 (y : Q) : Q := inject_Z (Z.log2 (Qnum y)).
Definition exp2 (t : Q) : Q := 2 ^ Qfloor t.

#[export] Instance exp2_Proper : Proper (Qeq ==> Qeq) exp2.
Proof. intros t t' E. unfold exp2. now rewrite E. Qed.

Lemma ExponentialRegression_is_linear_witness :
  exists a1 a0,
    results (LinearRegression [0; 1; 2] (map log2 [4; 8; 16])) = Ret (a1, a0) /\
    ExponentialRegression_results exp2 (ExponentialRegression log2 [0; 1; 2] [4; 8; 16] "nexp")
    = Ret (exp2 a0, coefficient exp2 "nexp" a1).
Proof.
  destruct (results (LinearRegression [0; 1; 2] (map log2 [4; 8; 16]))) as [[a1 a0]| |] eqn:E;
    try (vm_compute in E; discriminate).
  exists a1, a0. split; [reflexivity|].
  exact (ExponentialRegression_is_linear log2 exp2 [0; 1; 2] [4; 8; 16] "nexp" a1 a0 E).
Defined.

Lemma ExponentialRegression_no_data_witness :
  ExponentialRegression_results exp2 (ExponentialRegression log2 [] [4; 8; 16] "exp") =
  Raise ZeroDivisionError.
Proof. apply ExponentialRegression_no_data. reflexivity. Defined.

(** [y = 4 * 2^x]: the fit in mode ['nexp'] is [A = 4], [B = 2]. *)
Lemma ExponentialRegression_recovers_witness :
  exists A B,
    ExponentialRegression_results exp2 (ExponentialRegression log2 [0; 1; 2] [4; 8; 16] "nexp")
    = Ret (A, B) /\
    A == exp2 2 /\ B == coefficient exp2 "nexp" 1.
Proof.
  apply (ExponentialRegression_recovers log2 exp2 [0; 1; 2] [4; 8; 16] "nexp" 2 1);
    [reflexivity | discriminate | reflexivity].
Defined.

(** [y = 4 * 2^x] in the two kinds of mode, in lowest terms. *)
Lemma ExponentialRegression_runs :
  omap (fun r => (Qred (fst r), Qred (snd r)))
    (ExponentialRegression_results exp2 (ExponentialRegression log2 [0; 1; 2] [4; 8; 16] "nexp"))
  = Ret (4, 2) /\
  omap (fun r => (Qred (fst r), Qred (snd r)))
    (ExponentialRegression_results exp2 (ExponentialRegression log2 [0; 1; 2] [4; 8; 16] "EXP"))
  = Ret (4, 1).
Proof. split; vm_compute; reflexivity. Qed.
